(* ===== verification/_CoqProject ===== *)
-Q . S2P
Prelude.v
RFloat.v
Ngtcp2.v
Errors.v
Ruby.v
Stream.v
StreamInv.v
StreamSpec.v
Client.v
ClientInv.v
ClientOps.v
Compaction.v
StreamIO.v
Pump.v
Blocking.v
Open.v
Loopback.v
Reach.v
Runs.v
PacketSpec.v
PumpSpec.v
LoopSpec.v
BlockingSpec.v
MethodSpec.v
OpenSpec.v
