(* ===== verification/Prelude.v ===== *)
(** * Verification of quic-ruby, the [quic] gem

    quic-ruby is a QUIC client for Ruby: a C extension over ngtcp2
    (src/ext/quic) and a thin Ruby layer that drives it over a UDP socket
    (src/lib/quic).  This library models the extension's C code and the Ruby
    I/O loop as functions, and proves what they guarantee.

    ** The program

    A [Quic::Connection::Client] owns an ngtcp2 connection, a registry
    [@streams] of [Quic::Stream] objects by stream id, and a queue
    [@accept_queue] of server streams.  Applications call methods of both
    classes; [write_pkt] asks ngtcp2 for the next packet with the bytes of the
    first stream that has some; [read_pkt] and [handle_expiry] feed ngtcp2, which
    calls back to open, fill, ack, reset and close streams; the Ruby loop
    [pump_once] moves the packets.

    ** Files

    - [Prelude]: byte strings with C lengths, 64-bit arithmetic, the monad [act]
      of stateful computations that return, raise or run out of rounds, tactics.
    - [RFloat]: Ruby's Float, as IEEE binary64 with its rounding.
    - [Ngtcp2]: the boundary.  [NgConst], [Ngtcp2], [Sys] are the code outside
      src/ (ngtcp2, clock and socket) as type classes; [NgConstOk], [Ngtcp2Ok],
      [SysOk] the documented facts relied on, stated over a [ledger] of opened
      streams, framed and acked bytes.  ([Tls] is in [Open].)
    - [Errors]: quic.c: exception classes, [quic_raise_ngtcp2_error], [rescue].
    - [Ruby]: Strings with encoding, frozen and locked marks, ordered Hashes,
      [NUM2ULL], [NUM2LONG], keyword arguments.
    - [Stream]: stream.h and the operations of stream.c on one stream, with the
      stream's part of the callbacks and of [write_pkt].  [StreamInv] has the
      invariant [wf_stream] and a specification of each operation, [StreamSpec]
      the abstract stream (two byte pipes), the traces of the code on one stream
      ([ctrace]: every operation, with the choice of what to send) and the
      refinement between them.
    - [Client]: connection_client.c on a [world] (connection, heap of streams,
      instance variables, outside): callbacks, [write_pkt], [read_pkt], timers,
      [open_bidi_stream], [close], and the compaction hook.  [ClientInv] has the
      invariant [wf_client] and the callbacks, [ClientOps] the other operations,
      [Compaction] the moving of the heap.
    - [StreamIO]: the methods of stream.c that use the connection.
    - [Pump]: lib/quic/connection.rb, the loop.  [Blocking]: [#write] (stream.c)
      and [#read] (lib/quic/stream.rb).
    - [Open]: [Client._open]: checks, ALPN, settings, TLS objects, and [free].
    - [Loopback]: small concrete instances of the boundary, with proofs of their
      laws; every theorem with hypotheses is run on them by its [_witness].
    - [Reach]: each call of an application as a labelled step; [Runs]: runs.
    - [PacketSpec], [PumpSpec], [LoopSpec], [BlockingSpec], [MethodSpec],
      [OpenSpec]: the behaviour of the packet calls, the loop as steps of a run,
      the rounds of the loop, the blocking calls, the Stream methods and
      exceptions, and of opening.

    A definition has the name of the C function or Ruby method it models
    ([quic_client_write_pkt] also has its parts: [pick_loop], [writev_args],
    [call_writev], [account_sent], [write_pkt_into], [prepare_buffer]).  A Ruby
    object is a location in [w_heap]; instance variables are the [iv_] fields of
    a stream and the [w_] fields of a world.  Effects made before a raise stay.

    ** What the theorems show

    - Delivery and retention: [client_delivers_in_order],
      [stream_refines_pipe], [unacked_bytes_retained]: no interleaving of calls, packets, timers and
      compactions loses, repeats or reorders a byte, and no byte ngtcp2 may have
      to retransmit is dropped.
    - Invariants: [client_invariant], [callbacks_never_fail],
      [compaction_transparent].
    - Packets: [pick_first_ready], [write_pkt_accounting], [write_pkt_result],
      [write_pkt_rejects], [read_pkt_unlocks], [read_pkt_checks_arguments],
      [open_stream_registers], [close_once], [quic_now_exact].
    - The loop: [flush_sends_all], [pump_once_round] and [write_waits] say what
      the loops do round by round, when they return and with what;
      [pump_timeout_earliest] for how long they wait, [loop_needs_bind] without
      a socket; [write_queues_all], [accepted_once],
      [accept_gives_server_streams], [accept_is_fifo].  The lemmas [_traced] of
      [PumpSpec] make every blocking call a sequence of steps of a run, so the
      laws of runs hold of it.
    - Stream methods: [write_nonblock_takes_what_fits], [read_nonblock_result],
      [close_write_idempotent], [reset_stops_writing].
    - Opening: [open_never_leaks], [open_starts_a_run], [alpn_roundtrip],
      [settings_copied], [error_mapping].
    - Behaviour that looks unintended: [bare_fin_lost],
      [reset_stream_wedges_client], [read_all_returns_nothing],
      [read_some_never_eof], [write_too_large_never_returns],
      [nonblock_writes_overcommit], [write_pkt_overwrites_frozen],
      [closed_stream_asks_to_wait], [close_after_reset_raises],
      [peer_reset_blocks_writes], [alpn_total_unbounded],
      [stream_reset_never_raised].

    ** Bounds

    Offsets and timestamps are [Z] with C's wrap-around written out ([u64]); the
    only assumption is that no stream is ever given [2^64] bytes ([room]).  The
    loops take a bound on their rounds and give [Diverge] when it is used up.
    A call that comes to an end within a bound does the same within every
    larger one (the lemmas [_mono] of [PumpSpec]); the bound that is enough is
    the number of packets ngtcp2 makes ([flush_sends_all]) or of rounds until
    the window opens ([write_waits]).  The loops of the C code over Chunks and
    streams are structural.

    ** Not modelled

    The interior of ngtcp2, OpenSSL and Ruby; packet bytes of ngtcp2; address
    resolution in [Client.new]; [library_versions]; [memsize] functions; method
    registration; the memory layout of Strings, so not the validity of pointers
    into Chunks under compaction, nor sharing between Strings.  Timeouts that an
    application gives as Integers are Floats here.  A callback that fails would
    make ngtcp2 return NGTCP2_ERR_CALLBACK_FAILURE; none does
    ([callbacks_never_fail]).  Allocation failures are not modelled.

    ** Next

    Fairness of the choice of streams; [Client.new]; the method tables; a model
    of C pointers into Chunks, to say when retransmission reads freed memory. *)
From Stdlib Require Export Strings.Byte.
From stdpp Require Export base numbers gmap strings relations tactics list.

#[global] Open Scope Z_scope.

(** ** Byte strings and lengths *)

(** A C byte buffer, or the contents of a Ruby String. *)
Abbreviation bytes := (list byte).

(** [RSTRING_LEN] / [RARRAY_LEN] as a C [long]. *)
Definition zlen {A} (l : list A) : Z := Z.of_nat (length l).

Lemma zlen_nonneg {A} (l : list A) : 0 ≤ zlen l.
Proof. unfold zlen. lia. Qed.
Lemma zlen_nil {A} : zlen (@nil A) = 0.
Proof. done. Qed.
Lemma zlen_cons {A} (x : A) l : zlen (x :: l) = 1 + zlen l.
Proof. unfold zlen. simpl. lia. Qed.
Lemma zlen_app {A} (k l : list A) : zlen (k ++ l) = zlen k + zlen l.
Proof. unfold zlen. rewrite length_app. lia. Qed.
Lemma zlen_0 {A} (l : list A) : zlen l = 0 ↔ l = [].
Proof. unfold zlen. destruct l; simpl; split; intros; try done; lia. Qed.
Lemma zlen_pos {A} (l : list A) : 0 < zlen l ↔ l ≠ [].
Proof. unfold zlen. destruct l; simpl; split; intros; try done; lia. Qed.

Create Rewrite HintDb zlen.
#[export] Hint Rewrite @zlen_nil @zlen_cons @zlen_app : zlen.

(** [ztake n l] and [zdrop n l]: prefix and suffix at a C index. *)
Definition ztake {A} (n : Z) (l : list A) : list A := take (Z.to_nat n) l.
Definition zdrop {A} (n : Z) (l : list A) : list A := drop (Z.to_nat n) l.

Lemma ztake_zdrop {A} n (l : list A) : ztake n l ++ zdrop n l = l.
Proof. apply take_drop. Qed.
Lemma list_elem_of_drop {A} k (l : list A) x : x ∈ drop k l → x ∈ l.
Proof. intros Hx. rewrite <- (take_drop k l). set_solver. Qed.
Lemma zdrop_0 {A} n (l : list A) : n ≤ 0 → zdrop n l = l.
Proof. intros. unfold zdrop. by replace (Z.to_nat n) with 0%nat by lia. Qed.
Lemma zlen_ztake {A} n (l : list A) : 0 ≤ n ≤ zlen l → zlen (ztake n l) = n.
Proof. unfold zlen, ztake. rewrite length_take. lia. Qed.
Lemma zlen_zdrop {A} n (l : list A) : 0 ≤ n ≤ zlen l → zlen (zdrop n l) = zlen l - n.
Proof. unfold zlen, zdrop. rewrite length_drop. lia. Qed.
Lemma zdrop_all {A} n (l : list A) : zlen l ≤ n → zdrop n l = [].
Proof. intros. apply drop_ge. unfold zlen in *. lia. Qed.
Lemma ztake_all {A} n (l : list A) : zlen l ≤ n → ztake n l = l.
Proof. intros. apply take_ge. unfold zlen in *. lia. Qed.
Lemma zdrop_app_le {A} n (k l : list A) :
  0 ≤ n ≤ zlen k → zdrop n (k ++ l) = zdrop n k ++ l.
Proof. intros. apply drop_app_le. unfold zlen in *. lia. Qed.
Lemma zdrop_app_ge {A} n (k l : list A) :
  zlen k ≤ n → zdrop n (k ++ l) = zdrop (n - zlen k) l.
Proof.
  unfold zlen, zdrop. intros. rewrite drop_app_ge by lia. f_equal. lia.
Qed.
Lemma zdrop_zdrop {A} n m (l : list A) :
  0 ≤ n → 0 ≤ m → zdrop n (zdrop m l) = zdrop (m + n) l.
Proof. intros. unfold zdrop. rewrite drop_drop. f_equal. lia. Qed.
Lemma ztake_app_le {A} n (k l : list A) :
  0 ≤ n ≤ zlen k → ztake n (k ++ l) = ztake n k.
Proof. intros. apply take_app_le. unfold zlen in *. lia. Qed.

(** ** 64-bit unsigned arithmetic *)

Definition UINT64_MAX : Z := 2 ^ 64 - 1.
(** Truncation to [uint64_t]. *)
Definition u64 (z : Z) : Z := z `mod` 2 ^ 64.
Definition is_u64 (z : Z) : Prop := 0 ≤ z < 2 ^ 64.

Lemma u64_small z : 0 ≤ z < 2 ^ 64 → u64 z = z.
Proof. intros. unfold u64. by apply Z.mod_small. Qed.
Lemma u64_range z : 0 ≤ u64 z < 2 ^ 64.
Proof. unfold u64. apply Z.mod_pos_bound. lia. Qed.
Lemma u64_idemp z : u64 (u64 z) = u64 z.
Proof. apply u64_small, u64_range. Qed.

(** Conversion of an [ngtcp2_ssize] to a 32-bit [int]. *)
Definition i32 (z : Z) : Z := (z + 2 ^ 31) `mod` 2 ^ 32 - 2 ^ 31.
Lemma i32_small z : - 2 ^ 31 ≤ z < 2 ^ 31 → i32 z = z.
Proof. intros. unfold i32. rewrite Z.mod_small; lia. Qed.

(** ** Outcomes and the error-state monad

    The extension's C functions either return, or leave through
    [rb_raise] (a longjmp that keeps every effect made so far), or, for the
    loops of the Ruby half, do not return within a given number of rounds. *)
Inductive outcome (X A : Type) : Type :=
  | Ret (a : A)
  | Raise (e : X)
  | Diverge.
Arguments Ret {X A} a.
Arguments Raise {X A} e.
Arguments Diverge {X A}.

#[export] Instance outcome_eq_dec `{EqDecision X, EqDecision A} :
  EqDecision (outcome X A).
Proof. solve_decision. Defined.

(** Stateful computations with exceptions: effects made before a [Raise]
    stay in the state. *)
Definition act (X S A : Type) : Type := S → outcome X A * S.

#[export] Instance act_ret X S : MRet (act X S) := λ A a s, (Ret a, s).
#[export] Instance act_bind X S : MBind (act X S) := λ A B f m s,
  match m s with
  | (Ret a, s') => f a s'
  | (Raise e, s') => (Raise e, s')
  | (Diverge, s') => (Diverge, s')
  end.

Definition raise {X S A} (e : X) : act X S A := λ s, (Raise e, s).
Definition get {X S} : act X S S := λ s, (Ret s, s).
Definition gets {X S A} (f : S → A) : act X S A := λ s, (Ret (f s), s).
Definition modify {X S} (f : S → S) : act X S unit := λ s, (Ret tt, f s).
Definition diverge {X S A} : act X S A := λ s, (Diverge, s).

(** [rb_ensure(body, cleanup)]: [cleanup] runs on every way out of [body]. *)
Definition ensure {X S A} (body : act X S A) (cleanup : act X S unit) : act X S A := λ s,
  let '(o, s') := body s in
  match cleanup s' with
  | (Ret _, s'') => (o, s'')
  | (Raise e, s'') => (Raise e, s'')
  | (Diverge, s'') => (Diverge, s'')
  end.

(** [begin body rescue ... then handler end]. *)
Definition rescue {X S A} (body : act X S A) (catches : X → bool) (handler : act X S A) :
    act X S A := λ s,
  match body s with
  | (Raise e, s') => if catches e then handler s' else (Raise e, s')
  | r => r
  end.

(** Run a computation on one half of a pair of states. *)
Definition on_fst {X S T A} (m : act X S A) : act X (S * T) A := λ st,
  let '(o, s') := m st.1 in (o, (s', st.2)).
Definition on_snd {X S T A} (m : act X T A) : act X (S * T) A := λ st,
  let '(o, t') := m st.2 in (o, (st.1, t')).

(** [while (cond) body], at most [fuel] rounds of [body]. *)
Fixpoint while_ {X S} (fuel : nat) (cond : act X S bool) (body : act X S unit) : act X S unit :=
  b ← cond;
  if (b : bool) then
    match fuel with
    | O => diverge
    | S fuel => body;; while_ fuel cond body
    end
  else mret tt.

Arguments raise : simpl never.

(** ** Proof automation *)

(** Evaluate the monad's operations in the goal. *)
Ltac run :=
  cbv beta iota delta
    [mbind act_bind mret act_ret raise get gets modify diverge on_fst on_snd ensure fst snd].
Ltac run_in H :=
  cbv beta iota delta
    [mbind act_bind mret act_ret raise get gets modify diverge on_fst on_snd ensure fst snd] in H.

(** Case analysis on every [match] of a hypothesis or of the goal. *)
Ltac destr_in H :=
  repeat (case_match; simplify_eq; try done).

Lemma bind_Ret {X S A B} (m : act X S A) (f : A → act X S B) s b s' :
  (m ≫= f) s = (Ret b, s') → ∃ a s1, m s = (Ret a, s1) ∧ f a s1 = (Ret b, s').
Proof.
  run. destruct (m s) as [[a|e|] s1] eqn:E; intros; simplify_eq. eauto.
Qed.
