(* ===== verification/RFloat.v ===== *)
(** * Ruby's Float: IEEE 754 double precision

    The Float operations lib/quic/connection.rb uses on seconds, on the
    Standard Library's executable specification of binary64 rounding, and the
    accuracy of the one conversion it makes, nanoseconds to seconds. *)
From Stdlib Require Import Floats.SpecFloat.
From S2P Require Import Prelude.

Abbreviation float := spec_float.

(** [Integer#to_f], as the arithmetic operators apply it to an Integer. *)
Definition float_of_Z (z : Z) : float := binary_normalize 53 1024 z 0 false.
Definition fzero : float := S754_zero false.
Definition fadd (x y : float) : float := SFadd 53 1024 x y.
Definition fsub (x y : float) : float := SFsub 53 1024 x y.
Definition fmul (x y : float) : float := SFmul 53 1024 x y.
Definition fdiv (x y : float) : float := SFdiv 53 1024 x y.
Definition feq (x y : float) : bool := SFeqb x y.
Definition flt (x y : float) : bool := SFltb x y.
Definition fle (x y : float) : bool := SFleb x y.

(** [[x, y].max] and [[x, y].min]: the first unless the second beats it. *)
Definition fmax (x y : float) : float := if flt x y then y else x.
Definition fmin (x y : float) : float := if flt y x then y else x.

(** [1_000_000_000.0] *)
Definition giga : float := Eval vm_compute in float_of_Z 1000000000.

(** ** Order *)
Lemma flt_asym x y : flt x y = true → flt y x = false.
Proof.
  unfold flt, SFltb, SFcompare.
  destruct x as [sx|[]| |[] mx ex], y as [sy|[]| |[] my ey]; try done;
    rewrite (Z.compare_antisym ex ey); destruct (ex ?= ey)%Z; simpl; try done;
    change (Pos.compare_cont Eq) with Pos.compare in *;
    rewrite (Pos.compare_antisym mx my); by destruct (mx ?= my)%positive.
Qed.
Lemma flt_irrefl x : flt x x = false.
Proof. destruct (flt x x) eqn:H; [|done]. by rewrite (flt_asym _ _ H) in H. Qed.

(** The minimum is one of the two, and neither is smaller. *)
Lemma fmin_least x y :
  (fmin x y = x ∨ fmin x y = y) ∧ flt x (fmin x y) = false ∧ flt y (fmin x y) = false.
Proof.
  unfold fmin. destruct (flt y x) eqn:H; split_and!; auto using flt_irrefl, flt_asym.
Qed.

(** ** Rounding *)
Lemma digits2_pos_bounds p :
  2 ^ (Z.pos (digits2_pos p) - 1) ≤ Z.pos p < 2 ^ Z.pos (digits2_pos p).
Proof.
  induction p as [p IH|p IH|]; simpl digits2_pos; [| |by vm_compute];
    rewrite Pos2Z.inj_succ, Z.pow_succ_r by lia;
    replace (Z.succ (Z.pos (digits2_pos p)) - 1) with (Z.succ (Z.pos (digits2_pos p) - 1)) by lia;
    rewrite Z.pow_succ_r by lia; lia.
Qed.

Lemma Zdigits2_unique n d : 0 < d → 2 ^ (d - 1) ≤ n < 2 ^ d → Zdigits2 n = d.
Proof.
  intros Hd [Hl Hu]. assert (0 < n) by (pose proof (Z.pow_pos_nonneg 2 (d - 1)); lia).
  destruct n as [|p|p]; try lia. simpl. pose proof (digits2_pos_bounds p) as [Hl' Hu'].
  assert (d - 1 < Z.pos (digits2_pos p)) by (apply (Z.pow_lt_mono_r_iff 2); lia).
  assert (Z.pos (digits2_pos p) - 1 < d) by (apply (Z.pow_lt_mono_r_iff 2); lia).
  lia.
Qed.

(** A 53-digit significand is not shifted, a 54-digit one by one place. *)
Lemma shr_fexp_53 m e l : -1074 ≤ e → 2 ^ 52 ≤ m < 2 ^ 53 →
  shr_fexp 53 1024 m e l = (shr_record_of_loc m l, e).
Proof.
  intros He Hm. unfold shr_fexp. rewrite (Zdigits2_unique m 53) by lia.
  unfold fexp, emin. replace (Z.max _ _ - e) with 0 by lia. done.
Qed.
Lemma shr_fexp_54 m e l : -1074 ≤ e → 2 ^ 53 ≤ m < 2 ^ 54 →
  shr_fexp 53 1024 m e l = (shr_1 (shr_record_of_loc m l), e + 1).
Proof.
  intros He Hm. unfold shr_fexp. rewrite (Zdigits2_unique m 54) by lia.
  unfold fexp, emin. replace (Z.max _ _ - e) with 1 by lia. done.
Qed.

Lemma shr_1_m m l : 0 ≤ m → shr_m (shr_1 (shr_record_of_loc m l)) = m / 2.
Proof.
  intros Hm. rewrite <- Z.div2_div. destruct m as [|p|p]; [by destruct l as [|[]]| |lia].
  destruct l as [|[]], p; done.
Qed.
Lemma shr_of_loc_m m l : shr_m (shr_record_of_loc m l) = m.
Proof. by destruct l as [|[]]. Qed.

Lemma round_even_near m l : m ≤ round_nearest_even m l ≤ m + 1.
Proof. destruct l as [|[]]; simpl; try destruct (Z.even m); lia. Qed.

(** The second normalisation, after rounding up may have carried. *)
Lemma round_finish r e : -1074 ≤ e ≤ 900 → 2 ^ 52 ≤ r ≤ 2 ^ 53 →
  ∃ m j, match shr_m (shr_fexp 53 1024 r e loc_Exact).1 with
    | Z0 => S754_zero false
    | Zpos m => if (shr_fexp 53 1024 r e loc_Exact).2 <=? 1024 - 53
                then S754_finite false m (shr_fexp 53 1024 r e loc_Exact).2
                else S754_infinity false
    | Zneg _ => S754_nan
    end = S754_finite false m (e + j) ∧ 0 ≤ j ≤ 1 ∧ Z.pos m * 2 ^ j = r.
Proof.
  intros He Hr. destruct (decide (r = 2 ^ 53)) as [->|Hne].
  - rewrite shr_fexp_54 by lia. cbn [fst snd]. rewrite shr_1_m by lia.
    change (2 ^ 53 / 2) with (Z.pos 4503599627370496).
    rewrite (proj2 (Z.leb_le _ _)) by lia. exists 4503599627370496%positive, 1. by split_and!.
  - rewrite shr_fexp_53 by lia. cbn [fst snd]. rewrite shr_of_loc_m.
    destruct r as [|m|m]; try lia. rewrite (proj2 (Z.leb_le _ _)) by lia.
    exists m, 0. rewrite Z.add_0_r. split_and!; try done; lia.
Qed.

Lemma binary_round_near s q e l : -1074 ≤ e ≤ 800 → 2 ^ 52 ≤ q < 2 ^ 54 →
  ∃ m j, binary_round_aux 53 1024 s q e l = S754_finite s m (e + j) ∧ 0 ≤ j ≤ 2 ∧
    q - 1 ≤ Z.pos m * 2 ^ j ≤ q + 2.
Proof.
  intros He Hq.
  assert (Hsign : ∀ m k, binary_round_aux 53 1024 false q e l = S754_finite false m k →
    binary_round_aux 53 1024 s q e l = S754_finite s m k).
  { intros m k. unfold binary_round_aux. destruct (shr_fexp _ _ q e l) as [mrs e1].
    destruct (shr_fexp _ _ _ e1 _) as [mrs2 e2]. repeat case_match; by intros [= <- <-]. }
  destruct (decide (q < 2 ^ 53)) as [Hlt|Hge].
  - assert (Hr : ∃ m j, binary_round_aux 53 1024 false q e l = S754_finite false m (e + j) ∧
      0 ≤ j ≤ 1 ∧ q ≤ Z.pos m * 2 ^ j ≤ q + 1).
    { unfold binary_round_aux. rewrite shr_fexp_53 by lia. rewrite shr_of_loc_m.
      set (loc := loc_of_shr_record _). pose proof (round_even_near q loc) as Hn.
      destruct (round_finish (round_nearest_even q loc) e) as (m & j & Hm & Hj & Hv); [lia..|].
      exists m, j. rewrite <- Hm. split_and!; try lia.
      by destruct (shr_fexp 53 1024 (round_nearest_even q loc) e loc_Exact). }
    destruct Hr as (m & j & Hm & Hj & Hv). exists m, j. split; [by apply Hsign|]. lia.
  - assert (Hr : ∃ m j, binary_round_aux 53 1024 false q e l = S754_finite false m (e + 1 + j) ∧
      0 ≤ j ≤ 1 ∧ q / 2 ≤ Z.pos m * 2 ^ j ≤ q / 2 + 1).
    { unfold binary_round_aux. rewrite shr_fexp_54 by lia. rewrite shr_1_m by lia.
      assert (2 ^ 52 ≤ q / 2 < 2 ^ 53) by (split; [apply Z.div_le_lower_bound|apply Z.div_lt_upper_bound]; lia).
      set (loc := loc_of_shr_record _). pose proof (round_even_near (q / 2) loc) as Hn.
      destruct (round_finish (round_nearest_even (q / 2) loc) (e + 1)) as (m & j & Hm & Hj & Hv); [lia..|].
      exists m, j. rewrite <- Hm. split_and!; try lia.
      by destruct (shr_fexp 53 1024 (round_nearest_even (q / 2) loc) (e + 1) loc_Exact). }
    destruct Hr as (m & j & Hm & Hj & Hv). exists m, (1 + j).
    rewrite Z.add_assoc. split; [by apply Hsign|]. split; [lia|].
    rewrite Z.pow_add_r by lia. pose proof (Z.div_mod q 2). pose proof (Z.mod_pos_bound q 2). lia.
Qed.

(** ** Nanoseconds to seconds *)

Lemma shift_xO p b : Z.pos (Pos.iter xO p b) = Z.pos p * 2 ^ Z.pos b.
Proof.
  induction b as [|b IH] using Pos.peano_ind; [simpl; lia|].
  rewrite Pos.iter_succ, Pos2Z.inj_succ, Z.pow_succ_r by lia. lia.
Qed.

(** An Integer below [2^53] is a Float exactly, with a 53-digit significand. *)
Lemma float_of_Z_exact s p : Z.pos p < 2 ^ 53 →
  ∃ m a, binary_round 53 1024 s p 0 = S754_finite s m (- a) ∧ 0 ≤ a ≤ 52 ∧
    Z.pos m = Z.pos p * 2 ^ a ∧ 2 ^ 52 ≤ Z.pos m < 2 ^ 53.
Proof.
  intros Hp. pose proof (digits2_pos_bounds p) as [Hl Hu].
  set (d := Z.pos (digits2_pos p)) in *.
  assert (Hd : 1 ≤ d ≤ 53).
  { split; [lia|]. assert (d - 1 < 53); [|lia]. apply (Z.pow_lt_mono_r_iff 2); lia. }
  set (a := 53 - d).
  assert (Hm : 2 ^ 52 ≤ Z.pos p * 2 ^ a < 2 ^ 53).
  { replace (2 ^ 52) with (2 ^ (d - 1) * 2 ^ a) by (rewrite <- Z.pow_add_r; [f_equal|..]; lia).
    replace (2 ^ 53) with (2 ^ d * 2 ^ a) by (rewrite <- Z.pow_add_r; [f_equal|..]; lia).
    assert (0 < 2 ^ a) by (apply Z.pow_pos_nonneg; lia). nia. }
  assert (Halign : ∃ m, shl_align p 0 (fexp 53 1024 (d + 0)) = (m, - a) ∧ Z.pos m = Z.pos p * 2 ^ a).
  { unfold shl_align, fexp, emin. replace (Z.max _ _ - 0) with (- a) by lia.
    replace (Z.max _ _) with (- a) by lia. destruct a as [|b|b] eqn:Ha; try lia; simpl.
    - exists p. split; [done|lia].
    - eexists. split; [reflexivity|]. apply shift_xO. }
  destruct Halign as (m & Hal & Hv). exists m, a. rewrite Hv. split_and!; try lia.
  unfold binary_round. fold d. rewrite Hal. unfold binary_round_aux.
  rewrite shr_fexp_53 by lia. cbn [shr_m shr_record_of_loc loc_of_shr_record round_nearest_even].
  rewrite shr_fexp_53 by lia. cbn [shr_m shr_record_of_loc].
  by rewrite (proj2 (Z.leb_le _ _)) by lia.
Qed.

(** [x] is [n / 10^9] up to one part in [2^51]. *)
Definition near_giga (x : float) (n : Z) : Prop :=
  ∃ m k, x = S754_finite false m (- k) ∧ 0 ≤ k ∧
    Z.abs (Z.pos m * 1000000000 - n * 2 ^ k) * 2 ^ 51 ≤ n * 2 ^ k.

Lemma div_giga s p : Z.pos p < 2 ^ 53 →
  ∃ m k, fdiv (binary_round 53 1024 s p 0) giga = S754_finite s m (- k) ∧ 0 ≤ k ∧
    Z.abs (Z.pos m * 1000000000 - Z.pos p * 2 ^ k) * 2 ^ 51 ≤ Z.pos p * 2 ^ k.
Proof.
  intros Hp. destruct (float_of_Z_exact s p Hp) as (m1 & a & -> & Ha & Hm1 & Hr1).
  unfold fdiv, giga, SFdiv. cbn [xorb]. rewrite xorb_false_r.
  unfold SFdiv_core_binary. rewrite (Zdigits2_unique (Z.pos m1) 53) by lia.
  change (Zdigits2 (Z.pos 8388608000000000)) with 53.
  unfold fexp, emin.
  replace (Z.min _ _) with (- a - 30) by lia.
  replace (- a - -23 - (- a - 30)) with 53 by lia. cbn [Z.shiftl].
  change (Pos.iter (Z.mul 2) (Z.pos m1) 53) with (Z.shiftl (Z.pos m1) 53).
  rewrite Z.shiftl_mul_pow2 by lia.
  pose proof (Z_div_mod (Z.pos m1 * 2 ^ 53) (Z.pos 8388608000000000) eq_refl) as Hdiv.
  destruct (Z.div_eucl _ _) as [q r]. destruct Hdiv as [Hq Hr].
  destruct (binary_round_near s q (- a - 30) (new_location (Z.pos 8388608000000000) r))
    as (m & j & -> & Hj & Hm); [lia|lia|].
  exists m, (a + 30 - j). split; [f_equal; lia|]. split; [lia|].
  set (k := a + 30 - j). assert (0 < 2 ^ j) by (apply Z.pow_pos_nonneg; lia).
  assert (HZ : Z.pos p * 2 ^ k * 2 ^ j = Z.pos m1 * 2 ^ 30).
  { rewrite <- Z.mul_assoc, <- Z.pow_add_r by lia. replace (k + j) with (a + 30) by (unfold k; lia).
    rewrite Z.pow_add_r by lia. lia. }
  set (M := Z.pos m * 2 ^ j) in *. set (P := Z.pos p * 2 ^ k) in *.
  assert (Hbound : Z.abs (M * 1000000000 - P * 2 ^ j) * 2 ^ 51 ≤ P * 2 ^ j) by lia.
  replace (M * 1000000000 - P * 2 ^ j) with ((Z.pos m * 1000000000 - P) * 2 ^ j) in Hbound
    by (unfold M; lia).
  rewrite Z.abs_mul, (Z.abs_eq (2 ^ j)) in Hbound by lia. nia.
Qed.

(** Positive, zero and negative numbers of nanoseconds below 104 days. *)
Lemma seconds_pos n : 0 < n < 2 ^ 53 → near_giga (fdiv (float_of_Z n) giga) n.
Proof. intros Hn. destruct n as [|p|p]; try lia. apply (div_giga false p). lia. Qed.
Lemma seconds_nonpos n : - 2 ^ 53 < n ≤ 0 → fmax (fdiv (float_of_Z n) giga) fzero = fzero.
Proof.
  intros Hn. destruct n as [|p|p]; [done|lia|].
  destruct (div_giga true p) as (m & k & Hd & _); [lia|]. unfold float_of_Z. simpl.
  unfold fmax. rewrite Hd. done.
Qed.
Lemma seconds_max n : 0 < n < 2 ^ 53 →
  fmax (fdiv (float_of_Z n) giga) fzero = fdiv (float_of_Z n) giga.
Proof. intros Hn. destruct (seconds_pos n Hn) as (m & k & -> & _). done. Qed.
