(* ===== verification/Ngtcp2.v ===== *)
(** * The interface to ngtcp2, the TLS library and the operating system

    None of this code is in the repository: it is a parameter of the model.
    [NgConst] holds the constants of [ngtcp2.h], [Ngtcp2] the [ngtcp2_conn_*]
    functions the extension calls on an abstract connection state, [Sys] the
    clock and the socket.  [NgConstOk], [Ngtcp2Ok] and [SysOk] are the
    documented facts the extension relies on. *)
From S2P Require Import Prelude RFloat.

(** ** Constants of ngtcp2.h *)
Class NgConst := {
  NGTCP2_ERR_PROTO : Z;
  NGTCP2_ERR_INVALID_STATE : Z;
  NGTCP2_ERR_STREAM_DATA_BLOCKED : Z;
  NGTCP2_ERR_CRYPTO : Z;
  NGTCP2_ERR_STREAM_SHUT_WR : Z;
  NGTCP2_ERR_CLOSING : Z;
  NGTCP2_ERR_DRAINING : Z;
  NGTCP2_ERR_RETRY : Z;
  NGTCP2_ERR_DROP_CONN : Z;
  NGTCP2_ERR_HANDSHAKE_TIMEOUT : Z;
  NGTCP2_ERR_IDLE_CLOSE : Z;
  NGTCP2_ERR_CALLBACK_FAILURE : Z;
  NGTCP2_STREAM_DATA_FLAG_FIN : Z;
  NGTCP2_WRITE_STREAM_FLAG_FIN : Z;
  NGTCP2_STREAM_CLOSE_FLAG_APP_ERROR_CODE_SET : Z;
  NGTCP2_SECONDS : Z;
  NGTCP2_STATELESS_RESET_TOKENLEN : Z;
}.

Section consts.
Context `{NgConst}.

(** The codes the extension's own code names. *)
Definition ngtcp2_error_codes : list Z :=
  [NGTCP2_ERR_PROTO; NGTCP2_ERR_DROP_CONN; NGTCP2_ERR_RETRY; NGTCP2_ERR_CLOSING;
   NGTCP2_ERR_DRAINING; NGTCP2_ERR_IDLE_CLOSE; NGTCP2_ERR_CRYPTO;
   NGTCP2_ERR_HANDSHAKE_TIMEOUT; NGTCP2_ERR_STREAM_DATA_BLOCKED;
   NGTCP2_ERR_STREAM_SHUT_WR; NGTCP2_ERR_INVALID_STATE; NGTCP2_ERR_CALLBACK_FAILURE].

(** ngtcp2's error codes are distinct negative [int]s, its flags single
    bits, its time unit the nanosecond. *)
Class NgConstOk : Prop := {
  ng_codes_nodup : NoDup ngtcp2_error_codes;
  ng_codes_neg : Forall (λ e, - 2 ^ 31 ≤ e < 0) ngtcp2_error_codes;
  ng_data_fin_pos : 0 < NGTCP2_STREAM_DATA_FLAG_FIN;
  ng_write_fin_pos : 0 < NGTCP2_WRITE_STREAM_FLAG_FIN;
  ng_seconds : NGTCP2_SECONDS = 1000000000;
}.
End consts.

(** A bit test as C writes it: [flags & FLAG] in a boolean context. *)
Definition has_flag (flags flag : Z) : bool := negb (Z.land flags flag =? 0).

Lemma has_flag_self flag : 0 < flag → has_flag flag flag = true.
Proof.
  intros. unfold has_flag. rewrite Z.land_diag. by destruct (Z.eqb_spec flag 0); [lia|].
Qed.
Lemma has_flag_0 flag : has_flag 0 flag = false.
Proof. done. Qed.

(** ** The connection *)

(** The stream callbacks the extension registers, with their arguments. *)
Inductive cb_event :=
  | CbStreamOpen (stream_id : Z)
  | CbRecvStreamData (flags stream_id offset : Z) (data : bytes)
  | CbAckedStreamDataOffset (stream_id offset datalen : Z)
  | CbStreamClose (flags stream_id app_error_code : Z)
  | CbStreamReset (stream_id final_size app_error_code : Z).

(** [ngtcp2_path]: the two socket addresses. *)
Record ngtcp2_path := Path { path_local : bytes; path_remote : bytes }.

(** What one call of [ngtcp2_conn_writev_stream] gives back: the new
    connection, the callbacks it made, its result, [*pdatalen] and the packet
    it left at [dest]. *)
Record writev_result C := WritevResult {
  wv_conn : C;
  wv_events : list cb_event;
  wv_n : Z;
  wv_pdatalen : Z;
  wv_pkt : bytes;
}.
Arguments WritevResult {C}.
Arguments wv_conn {C}. Arguments wv_events {C}. Arguments wv_n {C}.
Arguments wv_pdatalen {C}. Arguments wv_pkt {C}.

Class Ngtcp2 (C : Type) := {
  (** flags, stream id, data ([None] for [datavcnt = 0]), [destlen], time *)
  ngtcp2_conn_writev_stream : C → Z → Z → option bytes → Z → Z → writev_result C;
  ngtcp2_conn_read_pkt : C → ngtcp2_path → bytes → Z → C * list cb_event * Z;
  ngtcp2_conn_handle_expiry : C → Z → C * list cb_event * Z;
  ngtcp2_conn_get_expiry : C → Z;
  ngtcp2_conn_get_handshake_completed : C → bool;
  ngtcp2_conn_in_closing_period : C → bool;
  ngtcp2_conn_in_draining_period : C → bool;
  ngtcp2_conn_get_max_stream_data_left : C → Z → Z;
  ngtcp2_conn_get_max_data_left : C → Z;
  (** the new connection, the result and [*pstream_id] *)
  ngtcp2_conn_open_bidi_stream : C → C * Z * Z;
  ngtcp2_conn_open_uni_stream : C → C * Z * Z;
  (** stream id, application error code *)
  ngtcp2_conn_shutdown_stream_read : C → Z → Z → C * Z;
  ngtcp2_conn_shutdown_stream_write : C → Z → Z → C * Z;
  (** application error code and reason, [destlen], time *)
  ngtcp2_conn_write_connection_close : C → Z → bytes → Z → Z → C * Z * bytes;
}.

(** ** What ngtcp2 promises its application

    The promises are about a ledger that an observer of the calls and
    callbacks can keep: which stream ids have been opened, how many bytes of
    each have been framed and how many of those acked. *)
Record ledger := Ledger {
  lg_opened : Z → bool;
  lg_sent : Z → Z;
  lg_acked : Z → Z;
}.

(** Ledgers are compared entry by entry. *)
#[export] Instance ledger_equiv : Equiv ledger := λ g h, ∀ id,
  lg_opened g id = lg_opened h id ∧ lg_sent g id = lg_sent h id ∧ lg_acked g id = lg_acked h id.
#[export] Instance ledger_equivalence : Equivalence (≡@{ledger}).
Proof.
  split.
  - by intros g id.
  - intros g h Hgh id. destruct (Hgh id) as (? & ? & ?). auto.
  - intros g h k Hgh Hhk id. destruct (Hgh id) as (-> & -> & ->), (Hhk id) as (-> & -> & ->). auto.
Qed.

Definition lg_open (id : Z) (g : ledger) : ledger :=
  Ledger (λ i, bool_decide (i = id) || lg_opened g i) (lg_sent g) (lg_acked g).
Definition lg_frame (id n : Z) (g : ledger) : ledger :=
  Ledger (lg_opened g) (λ i, if decide (i = id) then lg_sent g i + n else lg_sent g i) (lg_acked g).
Definition lg_ack (id n : Z) (g : ledger) : ledger :=
  Ledger (lg_opened g) (lg_sent g) (λ i, if decide (i = id) then lg_acked g i + n else lg_acked g i).

#[export] Instance lg_open_proper id : Proper ((≡) ==> (≡)) (lg_open id).
Proof. intros g h Hgh i. destruct (Hgh i) as (Ho & ? & ?). simpl. by rewrite Ho. Qed.
#[export] Instance lg_frame_proper id n : Proper ((≡) ==> (≡)) (lg_frame id n).
Proof. intros g h Hgh i. destruct (Hgh i) as (? & Hs & ?). simpl. by rewrite Hs. Qed.
#[export] Instance lg_ack_proper id n : Proper ((≡) ==> (≡)) (lg_ack id n).
Proof. intros g h Hgh i. destruct (Hgh i) as (? & ? & Ha). simpl. by rewrite Ha. Qed.

(** The callbacks ngtcp2 may make: a stream id is opened once; only framed
    bytes are acked; data, close and reset are unconstrained. *)
Definition event_allowed (g : ledger) (ev : cb_event) : Prop :=
  match ev with
  | CbStreamOpen id => lg_opened g id = false
  | CbAckedStreamDataOffset id _ n => 0 ≤ n ∧ lg_acked g id + n ≤ lg_sent g id
  | _ => True
  end.
Definition event_apply (ev : cb_event) (g : ledger) : ledger :=
  match ev with
  | CbStreamOpen id => lg_open id g
  | CbAckedStreamDataOffset id _ n => lg_ack id n g
  | _ => g
  end.
Fixpoint events_allowed (g : ledger) (evs : list cb_event) : Prop :=
  match evs with
  | [] => True
  | ev :: evs => event_allowed g ev ∧ events_allowed (event_apply ev g) evs
  end.
Definition events_apply (evs : list cb_event) (g : ledger) : ledger :=
  foldl (λ g ev, event_apply ev g) g evs.

Class Ngtcp2Ok (C : Type) `{Ngtcp2 C} := {
  ng_ledger : C → ledger;
  ng_unopened : ∀ c id, lg_opened (ng_ledger c) id = false →
    lg_sent (ng_ledger c) id = 0 ∧ lg_acked (ng_ledger c) id = 0;
  (** at most [datalen] bytes are framed, those of the stream asked for, and
      none by a failing call; a packet never exceeds [destlen] *)
  ng_writev : ∀ c flags id data destlen ts,
    let r := ngtcp2_conn_writev_stream c flags id data destlen ts in
    wv_pdatalen r ≤ zlen (default [] data) ∧ wv_n r ≤ destlen ∧
    (0 ≤ wv_n r → zlen (wv_pkt r) = wv_n r) ∧
    events_allowed (ng_ledger c) (wv_events r) ∧
    ng_ledger (wv_conn r) ≡
      lg_frame id (if 0 <=? wv_n r then Z.max 0 (wv_pdatalen r) else 0)
        (events_apply (wv_events r) (ng_ledger c));
  ng_read_pkt : ∀ c path pkt ts,
    let '(c', evs, _) := ngtcp2_conn_read_pkt c path pkt ts in
    events_allowed (ng_ledger c) evs ∧ ng_ledger c' ≡ events_apply evs (ng_ledger c);
  ng_handle_expiry : ∀ c ts,
    let '(c', evs, _) := ngtcp2_conn_handle_expiry c ts in
    events_allowed (ng_ledger c) evs ∧ ng_ledger c' ≡ events_apply evs (ng_ledger c);
  (** a local open gives a new, even id or changes nothing *)
  ng_open_bidi : ∀ c, let '(c', rv, id) := ngtcp2_conn_open_bidi_stream c in
    if rv =? 0 then lg_opened (ng_ledger c) id = false ∧ Z.odd id = false ∧
                    ng_ledger c' ≡ lg_open id (ng_ledger c)
    else ng_ledger c' ≡ ng_ledger c;
  ng_open_uni : ∀ c, let '(c', rv, id) := ngtcp2_conn_open_uni_stream c in
    if rv =? 0 then lg_opened (ng_ledger c) id = false ∧ Z.odd id = false ∧
                    ng_ledger c' ≡ lg_open id (ng_ledger c)
    else ng_ledger c' ≡ ng_ledger c;
  ng_shutdown_read : ∀ c id code,
    ng_ledger (ngtcp2_conn_shutdown_stream_read c id code).1 ≡ ng_ledger c;
  ng_shutdown_write : ∀ c id code,
    ng_ledger (ngtcp2_conn_shutdown_stream_write c id code).1 ≡ ng_ledger c;
  (** a connection-close packet touches no stream and fits as well *)
  ng_close : ∀ c code reason destlen ts,
    let '(c', n, pkt) := ngtcp2_conn_write_connection_close c code reason destlen ts in
    n ≤ destlen ∧ (0 ≤ n → zlen pkt = n) ∧ ng_ledger c' ≡ ng_ledger c;
  (** the flow control windows are [uint64_t]s *)
  ng_stream_left_u64 : ∀ c id, is_u64 (ngtcp2_conn_get_max_stream_data_left c id);
  ng_conn_left_u64 : ∀ c, is_u64 (ngtcp2_conn_get_max_data_left c);
}.

(** ** Clock and socket *)

(** A heap location: the identity of a Ruby object. *)
Abbreviation loc := positive.

Class Sys (E : Type) := {
  (** [clock_gettime(CLOCK_MONOTONIC)]: seconds and nanoseconds *)
  clock_gettime : E → (Z * Z) * E;
  (** [sock.send(pkt, 0)]; [false] when it raises a SystemCallError *)
  sock_send : loc → bytes → E → bool * E;
  (** [IO.select([sock], nil, nil, timeout)], the timeout in seconds: is the
      socket readable? *)
  io_select : loc → option float → E → bool * E;
  (** [sock.recvfrom(maxlen)]; [None] when it raises a SystemCallError *)
  sock_recvfrom : loc → Z → E → option bytes * E;
  (** [sock.remote_address.to_sockaddr] *)
  sock_remote_sockaddr : loc → bytes;
  (** [Addrinfo.udp("0.0.0.0", 0).to_sockaddr] *)
  any_sockaddr : bytes;
}.

(** [clock_gettime] gives a valid [timespec] that never goes back. *)
Class SysOk (E : Type) `{Sys E} : Prop := {
  sys_nsec : ∀ e, 0 ≤ (clock_gettime e).1.2 < 1000000000;
  sys_sec : ∀ e, 0 ≤ (clock_gettime e).1.1;
}.
