(* ===== verification/Errors.v ===== *)
(** * Exception classes and the mapping of ngtcp2 errors (ext/quic/quic.c)

    The classes [Init_quic] defines under [Quic::Error], Ruby's [rescue]
    matching over them, and [quic_raise_ngtcp2_error]. *)
From S2P Require Import Prelude Ngtcp2.

(** ** Classes *)
Inductive eclass :=
  (* Ruby's own *)
  | StandardError | ArgumentError | TypeError | RangeError | RuntimeError | FrozenError
  | IOError | EOFError | NameError | NoMethodError | SystemCallError
  (* lib/quic.rb *)
  | rb_eQuicError
  (* ext/quic/quic.c *)
  | rb_eQuicErrorProto | rb_eQuicErrorDropConn | rb_eQuicErrorRetry | rb_eQuicErrorClosed
  | rb_eQuicErrorCryptoError | rb_eQuicErrorHandshakeTimeout | rb_eQuicErrorFlowControl
  | rb_eQuicErrorUnknown | rb_eQuicErrorWaitReadable | rb_eQuicErrorWaitWritable
  | rb_eQuicErrorStreamClosed | rb_eQuicErrorStreamReset | rb_eQuicErrorNotBound
  (* a use of the C structures that C leaves undefined; never raised by a
     well-formed client, see [ClientInv.v] *)
  | UndefinedBehaviour.

#[export] Instance eclass_eq_dec : EqDecision eclass.
Proof. solve_decision. Defined.

Inductive rmodule := IO_WaitReadable | IO_WaitWritable.
#[export] Instance rmodule_eq_dec : EqDecision rmodule.
Proof. solve_decision. Defined.

(** An exception object: its class and the [@code] ivar ([Quic::Error#code]). *)
Record exn := Exn { exn_class : eclass; exn_code : option Z }.
#[export] Instance exn_eq_dec : EqDecision exn.
Proof. solve_decision. Defined.

(** [rb_raise(cls, msg)]: no [@code]. *)
Definition rb_raise {S A} (cls : eclass) : act exn S A := raise (Exn cls None).

(** One [rb_define_class_under] of [Init_quic], with the modules
    [rb_include_module] adds to the class. *)
Record class_def := ClassDef {
  cd_class : eclass;
  cd_name : string;
  cd_super : eclass;
  cd_includes : list rmodule;
}.

Definition Init_quic : list class_def := [
  ClassDef rb_eQuicErrorProto "Proto" rb_eQuicError [];
  ClassDef rb_eQuicErrorDropConn "DropConn" rb_eQuicError [];
  ClassDef rb_eQuicErrorRetry "Retry" rb_eQuicError [];
  ClassDef rb_eQuicErrorClosed "Closed" rb_eQuicError [];
  ClassDef rb_eQuicErrorCryptoError "CryptoError" rb_eQuicError [];
  ClassDef rb_eQuicErrorHandshakeTimeout "HandshakeTimeout" rb_eQuicError [];
  ClassDef rb_eQuicErrorFlowControl "FlowControl" rb_eQuicError [];
  ClassDef rb_eQuicErrorUnknown "Unknown" rb_eQuicError [];
  ClassDef rb_eQuicErrorWaitReadable "WaitReadable" rb_eQuicError [IO_WaitReadable];
  ClassDef rb_eQuicErrorWaitWritable "WaitWritable" rb_eQuicError [IO_WaitWritable];
  ClassDef rb_eQuicErrorStreamClosed "StreamClosed" rb_eQuicError [];
  ClassDef rb_eQuicErrorStreamReset "StreamReset" rb_eQuicError [];
  ClassDef rb_eQuicErrorNotBound "NotBound" rb_eQuicError []
].

(** Ruby's own hierarchy and [class Error < StandardError] of lib/quic.rb. *)
Definition builtin_super (c : eclass) : option eclass :=
  match c with
  | ArgumentError | TypeError | RangeError | RuntimeError | IOError | NameError
  | SystemCallError | rb_eQuicError => Some StandardError
  | FrozenError => Some RuntimeError
  | EOFError => Some IOError
  | NoMethodError => Some NameError
  | _ => None
  end.

Definition lookup_class (c : eclass) : option class_def :=
  List.find (λ d, bool_decide (cd_class d = c)) Init_quic.

Definition superclass (c : eclass) : option eclass :=
  match lookup_class c with Some d => Some (cd_super d) | None => builtin_super c end.

Definition includes (c : eclass) : list rmodule :=
  match lookup_class c with Some d => cd_includes d | None => [] end.

(** What a [rescue] clause may name. *)
Inductive handler := HClass (c : eclass) | HModule (m : rmodule).

(** Does [rescue h] catch an exception of class [c]?  The hierarchy is at most
    four classes deep. *)
Fixpoint kind_of (fuel : nat) (c : eclass) (h : handler) : bool :=
  match h with
  | HClass d => bool_decide (c = d)
  | HModule m => bool_decide (m ∈ includes c)
  end ||
  match fuel, superclass c with
  | S fuel, Some c' => kind_of fuel c' h
  | _, _ => false
  end.
Definition rescues (hs : list handler) (e : exn) : bool :=
  existsb (kind_of 4 (exn_class e)) hs.

(** ** quic_raise_ngtcp2_error *)
Section errors.
Context `{NgConst}.

Definition ngtcp2_error_class (rv : Z) : eclass :=
  if rv =? NGTCP2_ERR_PROTO then rb_eQuicErrorProto
  else if rv =? NGTCP2_ERR_DROP_CONN then rb_eQuicErrorDropConn
  else if rv =? NGTCP2_ERR_RETRY then rb_eQuicErrorRetry
  else if (rv =? NGTCP2_ERR_CLOSING) || (rv =? NGTCP2_ERR_DRAINING) then rb_eQuicErrorClosed
  else if rv =? NGTCP2_ERR_IDLE_CLOSE then rb_eQuicErrorClosed
  else if rv =? NGTCP2_ERR_CRYPTO then rb_eQuicErrorCryptoError
  else if rv =? NGTCP2_ERR_HANDSHAKE_TIMEOUT then rb_eQuicErrorHandshakeTimeout
  else if rv =? NGTCP2_ERR_STREAM_DATA_BLOCKED then rb_eQuicErrorFlowControl
  else if rv =? NGTCP2_ERR_STREAM_SHUT_WR then rb_eQuicErrorStreamClosed
  else rb_eQuicErrorUnknown.

Definition quic_raise_ngtcp2_error {S A} (rv : Z) : act exn S A :=
  raise (Exn (ngtcp2_error_class rv) (Some rv)).

(** The same mapping as a table, the order of whose rows does not matter
    because C's [case] labels are distinct. *)
Definition error_table : list (Z * eclass) := [
  (NGTCP2_ERR_CLOSING, rb_eQuicErrorClosed);
  (NGTCP2_ERR_CRYPTO, rb_eQuicErrorCryptoError);
  (NGTCP2_ERR_DRAINING, rb_eQuicErrorClosed);
  (NGTCP2_ERR_DROP_CONN, rb_eQuicErrorDropConn);
  (NGTCP2_ERR_HANDSHAKE_TIMEOUT, rb_eQuicErrorHandshakeTimeout);
  (NGTCP2_ERR_IDLE_CLOSE, rb_eQuicErrorClosed);
  (NGTCP2_ERR_PROTO, rb_eQuicErrorProto);
  (NGTCP2_ERR_RETRY, rb_eQuicErrorRetry);
  (NGTCP2_ERR_STREAM_DATA_BLOCKED, rb_eQuicErrorFlowControl);
  (NGTCP2_ERR_STREAM_SHUT_WR, rb_eQuicErrorStreamClosed)
].

Lemma error_table_class `{!NgConstOk} rv cls :
  (rv, cls) ∈ error_table → ngtcp2_error_class rv = cls.
Proof.
  pose proof ng_codes_nodup as Hnd. unfold ngtcp2_error_codes in Hnd.
  intros Hin. unfold error_table in Hin. unfold ngtcp2_error_class.
  rewrite !NoDup_cons, !not_elem_of_cons in Hnd. destruct_and?.
  repeat (apply elem_of_cons in Hin as [[= -> ->]|Hin]);
    [..|by apply elem_of_nil in Hin];
    repeat match goal with
    | |- context [?a =? ?b] => destruct (Z.eqb_spec a b); try congruence
    end; done.
Qed.
Lemma shut_wr_class `{!NgConstOk} :
  ngtcp2_error_class NGTCP2_ERR_STREAM_SHUT_WR = rb_eQuicErrorStreamClosed ∧
  - 2 ^ 31 ≤ NGTCP2_ERR_STREAM_SHUT_WR < 0.
Proof.
  split; [apply error_table_class; unfold error_table; set_solver|].
  pose proof ng_codes_neg as Hneg. rewrite Forall_forall in Hneg.
  apply Hneg. unfold ngtcp2_error_codes. set_solver.
Qed.

(** Every exception this raises carries the code and can be rescued as
    [Quic::Error]; none of them is [StreamReset]. *)
Lemma ngtcp2_error_class_quic rv c :
  rescues [HClass rb_eQuicError] (Exn (ngtcp2_error_class rv) c) = true.
Proof. unfold ngtcp2_error_class. by repeat case_match. Qed.
End errors.
