(* ===== verification/Ruby.v ===== *)
(** * The part of Ruby's C API and core classes the extension uses

    Strings with their encoding, frozen and tmplock marks; Hashes, which keep
    insertion order; Arrays as lists; the numeric conversions [NUM2ULL] and
    [NUM2LONG]; type checks. *)
From S2P Require Import Prelude Errors.

(** ** Strings *)
Inductive encoding := ASCII_8BIT | UTF_8 | US_ASCII | OtherEncoding (index : Z).
#[export] Instance encoding_eq_dec : EqDecision encoding.
Proof. solve_decision. Defined.

Record rstring := RString {
  rs_bytes : bytes;
  rs_enc : encoding;
  rs_frozen : bool;
  rs_tmplock : bool;
}.

Definition set_bytes (b : bytes) (s : rstring) : rstring :=
  RString b (rs_enc s) (rs_frozen s) (rs_tmplock s).
Definition set_tmplock (b : bool) (s : rstring) : rstring :=
  RString (rs_bytes s) (rs_enc s) (rs_frozen s) b.

(** [rb_str_buf_new(capa)]: an empty binary String. *)
Definition rb_str_buf_new : rstring := RString [] ASCII_8BIT false false.

(** The check every in-place mutation of a String makes first. *)
Definition str_modifiable : act exn rstring unit :=
  s ← get;
  if rs_tmplock s then rb_raise RuntimeError
  else if rs_frozen s then rb_raise FrozenError
  else mret tt.

(** [rb_str_modify_expand]: the contents stay, only the capacity grows. *)
Definition rb_str_modify_expand : act exn rstring unit := str_modifiable.

(** [rb_str_set_len(str, n)] for [n] within the capacity. *)
Definition rb_str_set_len (n : Z) : act exn rstring unit :=
  str_modifiable;; modify (λ s, set_bytes (ztake n (rs_bytes s)) s).

(** A C write of [b] to [RSTRING_PTR(str)]: no check of any kind. *)
Definition c_poke (b : bytes) : act exn rstring unit :=
  modify (λ s, set_bytes (b ++ zdrop (zlen b) (rs_bytes s)) s).

Definition rb_str_locktmp : act exn rstring unit :=
  s ← get;
  if rs_tmplock s then rb_raise RuntimeError else modify (set_tmplock true).
Definition rb_str_unlocktmp : act exn rstring unit :=
  s ← get;
  if rs_tmplock s then modify (set_tmplock false) else rb_raise RuntimeError.

(** ** Values *)

(** [VObj] is an object known by its readers (a [Data] instance, say). *)
Inductive value :=
  | VNil
  | VBool (b : bool)
  | VInt (n : Z)
  | VSym (name : string)
  | VStr (s : rstring)
  | VAry (l : list value)
  | VObj (readers : list (string * value)).

Definition NIL_P (v : value) : bool := match v with VNil => true | _ => false end.
Definition RTEST (v : value) : bool :=
  match v with VNil | VBool false => false | _ => true end.

Fixpoint assoc {A} (name : string) (l : list (string * A)) : option A :=
  match l with
  | [] => None
  | (k, a) :: l => if String.eqb k name then Some a else assoc name l
  end.

(** Keyword arguments: [None] when the call passes none. *)
Abbreviation kwargs := (option (list (string * value))).

(** [rb_hash_aref(opts, ID2SYM(rb_intern(name)))]. *)
Definition kwarg (opts : list (string * value)) (name : string) : value :=
  default VNil (assoc name opts).

(** [rb_funcall(obj, rb_intern(name), 0)] for a reader. *)
Definition rb_funcall {S} (obj : value) (name : string) : act exn S value :=
  match obj with
  | VObj readers =>
    match assoc name readers with Some v => mret v | None => rb_raise NoMethodError end
  | _ => rb_raise NoMethodError
  end.

(** The bytes of a String. *)
Definition string_bytes (v : value) : bytes :=
  match v with VStr s => rs_bytes s | _ => [] end.

Definition check_string {S} (v : value) : act exn S rstring :=
  match v with VStr s => mret s | _ => rb_raise TypeError end.
Definition check_array {S} (v : value) : act exn S (list value) :=
  match v with VAry l => mret l | _ => rb_raise TypeError end.
Definition check_symbol {S} (v : value) : act exn S string :=
  match v with VSym n => mret n | _ => rb_raise TypeError end.

(** [rb_num2ull]: Integers from [-2^63] up wrap, larger ones than [2^64 - 1]
    and smaller ones raise; an object is asked for [to_int]; everything else
    is a type error. *)
Definition num2ull_int {S} (n : Z) : act exn S Z :=
  if (- 2 ^ 63 <=? n) && (n <? 2 ^ 64) then mret (u64 n) else rb_raise RangeError.
Definition NUM2ULL {S} (v : value) : act exn S Z :=
  match v with
  | VInt n => num2ull_int n
  | VObj readers =>
    match assoc "to_int" readers with
    | Some (VInt n) => num2ull_int n
    | _ => rb_raise TypeError
    end
  | _ => rb_raise TypeError
  end.

Definition num2long_int {S} (n : Z) : act exn S Z :=
  if (- 2 ^ 63 <=? n) && (n <? 2 ^ 63) then mret n else rb_raise RangeError.
Definition NUM2LONG {S} (v : value) : act exn S Z :=
  match v with
  | VInt n => num2long_int n
  | VObj readers =>
    match assoc "to_int" readers with
    | Some (VInt n) => num2long_int n
    | _ => rb_raise TypeError
    end
  | _ => rb_raise TypeError
  end.

(** ** Hashes *)

(** A Ruby Hash enumerates its entries in insertion order; assigning to a key
    that is present keeps its place. *)
Section rhash.
Context {K V : Type} `{EqDecision K}.

Fixpoint rb_hash_aref (h : list (K * V)) (k : K) : option V :=
  match h with
  | [] => None
  | (k', v) :: h => if decide (k = k') then Some v else rb_hash_aref h k
  end.

Fixpoint rb_hash_aset (h : list (K * V)) (k : K) (v : V) : list (K * V) :=
  match h with
  | [] => [(k, v)]
  | (k', v') :: h => if decide (k = k') then (k', v) :: h else (k', v') :: rb_hash_aset h k v
  end.

Fixpoint rb_hash_delete (h : list (K * V)) (k : K) : list (K * V) :=
  match h with
  | [] => []
  | (k', v') :: h => if decide (k = k') then h else (k', v') :: rb_hash_delete h k
  end.

Definition rb_hash_values (h : list (K * V)) : list V := h.*2.

Lemma rb_hash_aref_Some_elem h k v : rb_hash_aref h k = Some v → (k, v) ∈ h.
Proof.
  induction h as [|[k' v'] h IH]; simpl; [done|].
  case_decide; intros; simplify_eq; set_solver.
Qed.

Lemma rb_hash_aref_elem h k v : NoDup h.*1 → (k, v) ∈ h → rb_hash_aref h k = Some v.
Proof.
  induction h as [|[k' v'] h IH]; simpl; [set_solver|].
  intros [Hk' Hnd]%NoDup_cons [[= <- <-]|Hin]%elem_of_cons; case_decide; try done.
  - subst. destruct Hk'. apply list_elem_of_fmap. by exists (k', v).
  - by apply IH.
Qed.

Lemma rb_hash_aref_None h k : rb_hash_aref h k = None ↔ k ∉ h.*1.
Proof.
  induction h as [|[k' v'] h IH]; simpl; [set_solver|].
  case_decide; set_solver.
Qed.

Lemma rb_hash_aset_fresh h k v : k ∉ h.*1 → rb_hash_aset h k v = h ++ [(k, v)].
Proof.
  induction h as [|[k' v'] h IH]; simpl; [done|]. intros.
  case_decide; [set_solver|]. f_equal. set_solver.
Qed.

Lemma elem_of_hash_aset h k v k' v' :
  (k', v') ∈ rb_hash_aset h k v → (k' = k ∧ v' = v) ∨ (k', v') ∈ h.
Proof.
  induction h as [|[k1 v1] h IH]; simpl; [set_solver|].
  case_decide; rewrite !elem_of_cons; naive_solver.
Qed.

Lemma elem_of_hash_delete h k k' v :
  NoDup h.*1 → (k', v) ∈ rb_hash_delete h k ↔ k' ≠ k ∧ (k', v) ∈ h.
Proof.
  induction h as [|[k1 v1] h IH]; simpl; [set_solver|].
  intros [Hk1 Hnd]%NoDup_cons. case_decide as Hk.
  - subst. split; [|set_solver].
    intros Hin. split; [|set_solver]. intros ->. destruct Hk1.
    apply list_elem_of_fmap. by exists (k1, v).
  - rewrite !elem_of_cons, IH by done. naive_solver.
Qed.

Lemma hash_delete_sublist h k : rb_hash_delete h k `sublist_of` h.
Proof.
  induction h as [|[k' v'] h IH]; simpl; [done|].
  case_decide; [by apply sublist_cons|by apply sublist_skip].
Qed.
End rhash.

(** ** Facts about the conversions *)

Lemma NUM2ULL_u64 {S} v (s s' : S) n : NUM2ULL v s = (Ret n, s') → is_u64 n ∧ s' = s.
Proof.
  unfold NUM2ULL, num2ull_int, rb_raise. run.
  repeat case_match; intros; simplify_eq; (split; [apply u64_range|done]).
Qed.

Lemma NUM2ULL_pure {S} v (s : S) : (NUM2ULL v s).2 = s.
Proof. unfold NUM2ULL, num2ull_int, rb_raise. run. repeat case_match; by simplify_eq. Qed.

Lemma NUM2ULL_int {S} n (s : S) : is_u64 n → NUM2ULL (VInt n) s = (Ret n, s).
Proof.
  unfold is_u64. intros. unfold NUM2ULL, num2ull_int. run.
  rewrite (proj2 (Z.leb_le _ _)), (proj2 (Z.ltb_lt _ _)) by lia. simpl.
  by rewrite u64_small.
Qed.

Lemma check_string_Ret {S} v (s s' : S) str :
  check_string v s = (Ret str, s') ↔ v = VStr str ∧ s' = s.
Proof.
  unfold check_string, rb_raise.
  destruct v; run; (split; [intros [=]|intros [[=] ->]]); by subst.
Qed.

Lemma str_modifiable_eq s :
  str_modifiable s =
  (if rs_tmplock s then Raise (Exn RuntimeError None)
   else if rs_frozen s then Raise (Exn FrozenError None) else Ret tt, s).
Proof. unfold str_modifiable, rb_raise. run. by destruct (rs_tmplock s), (rs_frozen s). Qed.

Lemma rb_str_set_len_eq n s :
  rb_str_set_len n s =
  (if rs_tmplock s then Raise (Exn RuntimeError None)
   else if rs_frozen s then Raise (Exn FrozenError None) else Ret tt,
   if rs_tmplock s || rs_frozen s then s else set_bytes (ztake n (rs_bytes s)) s).
Proof.
  unfold rb_str_set_len. unfold mbind, act_bind. rewrite str_modifiable_eq.
  by destruct (rs_tmplock s), (rs_frozen s).
Qed.
