(* ===== verification/Stream.v ===== *)
(** * Quic::Stream: the object and its own operations (ext/quic/stream.c, stream.h)

    A [stream] is a [Quic::Stream] Ruby object: the fields of its
    [quic_stream_t] and its instance variables.  This file has the operations
    that touch one stream only; those that also use the connection are in
    [StreamIO.v]. *)
From S2P Require Import Prelude Ngtcp2 Errors Ruby.

(** ** The object *)

(** The fields of [quic_stream_t], then [@id], [@client] ([None] for a bare
    Stream), [@pending_chunks] and [@recv_buffer].  The chunks are private
    binary copies, so their bytes are all there is to them. *)
Record stream := Stream {
  stream_id : Z;
  sent_offset : Z;
  acked_offset : Z;
  pending_shifted : Z;
  fin_received : bool;
  fin_sent : bool;
  fin_flushed : bool;
  reset : bool;
  closed : bool;
  close_app_error_code : Z;
  close_has_app_error_code : bool;
  accept_queued : bool;
  iv_id : Z;
  iv_client : option loc;
  iv_pending_chunks : list bytes;
  iv_recv_buffer : bytes;
}.

Definition set_sent_offset (v : Z) (s : stream) : stream :=
  Stream (stream_id s) v (acked_offset s) (pending_shifted s) (fin_received s) (fin_sent s) (fin_flushed s) (reset s) (closed s) (close_app_error_code s) (close_has_app_error_code s) (accept_queued s) (iv_id s) (iv_client s) (iv_pending_chunks s) (iv_recv_buffer s).
Definition set_acked_offset (v : Z) (s : stream) : stream :=
  Stream (stream_id s) (sent_offset s) v (pending_shifted s) (fin_received s) (fin_sent s) (fin_flushed s) (reset s) (closed s) (close_app_error_code s) (close_has_app_error_code s) (accept_queued s) (iv_id s) (iv_client s) (iv_pending_chunks s) (iv_recv_buffer s).
Definition set_pending_shifted (v : Z) (s : stream) : stream :=
  Stream (stream_id s) (sent_offset s) (acked_offset s) v (fin_received s) (fin_sent s) (fin_flushed s) (reset s) (closed s) (close_app_error_code s) (close_has_app_error_code s) (accept_queued s) (iv_id s) (iv_client s) (iv_pending_chunks s) (iv_recv_buffer s).
Definition set_fin_received (v : bool) (s : stream) : stream :=
  Stream (stream_id s) (sent_offset s) (acked_offset s) (pending_shifted s) v (fin_sent s) (fin_flushed s) (reset s) (closed s) (close_app_error_code s) (close_has_app_error_code s) (accept_queued s) (iv_id s) (iv_client s) (iv_pending_chunks s) (iv_recv_buffer s).
Definition set_fin_sent (v : bool) (s : stream) : stream :=
  Stream (stream_id s) (sent_offset s) (acked_offset s) (pending_shifted s) (fin_received s) v (fin_flushed s) (reset s) (closed s) (close_app_error_code s) (close_has_app_error_code s) (accept_queued s) (iv_id s) (iv_client s) (iv_pending_chunks s) (iv_recv_buffer s).
Definition set_fin_flushed (v : bool) (s : stream) : stream :=
  Stream (stream_id s) (sent_offset s) (acked_offset s) (pending_shifted s) (fin_received s) (fin_sent s) v (reset s) (closed s) (close_app_error_code s) (close_has_app_error_code s) (accept_queued s) (iv_id s) (iv_client s) (iv_pending_chunks s) (iv_recv_buffer s).
Definition set_reset (v : bool) (s : stream) : stream :=
  Stream (stream_id s) (sent_offset s) (acked_offset s) (pending_shifted s) (fin_received s) (fin_sent s) (fin_flushed s) v (closed s) (close_app_error_code s) (close_has_app_error_code s) (accept_queued s) (iv_id s) (iv_client s) (iv_pending_chunks s) (iv_recv_buffer s).
Definition set_closed (v : bool) (s : stream) : stream :=
  Stream (stream_id s) (sent_offset s) (acked_offset s) (pending_shifted s) (fin_received s) (fin_sent s) (fin_flushed s) (reset s) v (close_app_error_code s) (close_has_app_error_code s) (accept_queued s) (iv_id s) (iv_client s) (iv_pending_chunks s) (iv_recv_buffer s).
Definition set_close_app_error_code (v : Z) (s : stream) : stream :=
  Stream (stream_id s) (sent_offset s) (acked_offset s) (pending_shifted s) (fin_received s) (fin_sent s) (fin_flushed s) (reset s) (closed s) v (close_has_app_error_code s) (accept_queued s) (iv_id s) (iv_client s) (iv_pending_chunks s) (iv_recv_buffer s).
Definition set_close_has_app_error_code (v : bool) (s : stream) : stream :=
  Stream (stream_id s) (sent_offset s) (acked_offset s) (pending_shifted s) (fin_received s) (fin_sent s) (fin_flushed s) (reset s) (closed s) (close_app_error_code s) v (accept_queued s) (iv_id s) (iv_client s) (iv_pending_chunks s) (iv_recv_buffer s).
Definition set_accept_queued (v : bool) (s : stream) : stream :=
  Stream (stream_id s) (sent_offset s) (acked_offset s) (pending_shifted s) (fin_received s) (fin_sent s) (fin_flushed s) (reset s) (closed s) (close_app_error_code s) (close_has_app_error_code s) v (iv_id s) (iv_client s) (iv_pending_chunks s) (iv_recv_buffer s).
Definition set_iv_pending_chunks (v : list bytes) (s : stream) : stream :=
  Stream (stream_id s) (sent_offset s) (acked_offset s) (pending_shifted s) (fin_received s) (fin_sent s) (fin_flushed s) (reset s) (closed s) (close_app_error_code s) (close_has_app_error_code s) (accept_queued s) (iv_id s) (iv_client s) v (iv_recv_buffer s).
Definition set_iv_recv_buffer (v : bytes) (s : stream) : stream :=
  Stream (stream_id s) (sent_offset s) (acked_offset s) (pending_shifted s) (fin_received s) (fin_sent s) (fin_flushed s) (reset s) (closed s) (close_app_error_code s) (close_has_app_error_code s) (accept_queued s) (iv_id s) (iv_client s) (iv_pending_chunks s) v.

(** [quic_stream_alloc]: a zeroed [quic_stream_t], no instance variable set.
    An unset ivar reads as nil; the model's [None], [[]] and 0 stand for the
    values unit-test fixtures give them. *)
Definition quic_stream_alloc : stream :=
  Stream 0 0 0 0 false false false false false 0 false false 0 None [] [].

(** [quic_stream_new(stream_id, client)]. *)
Definition quic_stream_new (id : Z) (client : option loc) : stream :=
  let s := quic_stream_alloc in
  Stream id (sent_offset s) (acked_offset s) (pending_shifted s) (fin_received s)
    (fin_sent s) (fin_flushed s) (reset s) (closed s) (close_app_error_code s)
    (close_has_app_error_code s) (accept_queued s) id client [] (rs_bytes rb_str_buf_new).

(** Computations on one stream. *)
Abbreviation streamM := (act exn stream).

(** ** Writing *)

Definition quic_stream_enqueue (data : value) (fin : bool) : streamM Z :=
  s ← get;
  if reset s || closed s then rb_raise rb_eQuicErrorStreamClosed
  else if fin_sent s then rb_raise rb_eQuicErrorStreamClosed
  else
    str ← check_string data;
    let len := zlen (rs_bytes str) in
    (if 0 <? len
     then modify (λ s, set_iv_pending_chunks (iv_pending_chunks s ++ [rs_bytes str]) s)
     else mret tt);;
    (if fin then modify (set_fin_sent true) else mret tt);;
    mret len.

(** The [fin:] keyword of [#write] and [#write_nonblock]. *)
Definition quic_stream_fin_kwarg (opts : kwargs) : bool :=
  match opts with None => false | Some opts => RTEST (kwarg opts "fin") end.

(** [rb_str_new("", 0)]: the empty payload of [#close_write]. *)
Definition empty_str : value := VStr (RString [] ASCII_8BIT false false).

Definition quic_stream_close_write_m : streamM value :=
  s ← get;
  if fin_sent s then mret VNil
  else quic_stream_enqueue empty_str true;; mret VNil.

(** ** Reading *)

Definition quic_stream_read_nonblock_m (length_v : value) : streamM bytes :=
  s ← get;
  length ← NUM2LONG length_v;
  if length <? 0 then rb_raise ArgumentError
  else
    let buffer := iv_recv_buffer s in
    let have := zlen buffer in
    if have =? 0 then
      if fin_received s then rb_raise EOFError else rb_raise rb_eQuicErrorWaitReadable
    else
      let take := if length <? have then length else have in
      modify (set_iv_recv_buffer (zdrop take buffer));;
      mret (ztake take buffer).

Definition quic_stream_eof_p : streamM bool :=
  s ← get;
  mret ((zlen (iv_recv_buffer s) =? 0) && fin_received s).

(** ** What the ngtcp2 callbacks do to the stream they find

    The stream's part of the callbacks of connection_client.c; [Client.v] adds
    the lookup in [@streams]. *)

(** [quic_recv_stream_data_cb], lines 244-251. *)
Definition recv_data (flags : Z) (fin_flag : Z) (data : bytes) : streamM unit :=
  (if 0 <? zlen data
   then modify (λ s, set_iv_recv_buffer (iv_recv_buffer s ++ data) s)
   else mret tt);;
  (if has_flag flags fin_flag then modify (set_fin_received true) else mret tt).

(** The [while] loop of [quic_acked_stream_data_offset_cb]: the new
    [pending_shifted] and the Chunks that stay. *)
Fixpoint ack_shift (acked shifted : Z) (pending : list bytes) : Z * list bytes :=
  match pending with
  | [] => (shifted, [])
  | head :: rest =>
    let head_end := u64 (shifted + zlen head) in
    if head_end <=? acked then ack_shift acked head_end rest else (shifted, pending)
  end.

(** [quic_acked_stream_data_offset_cb], lines 268-285. *)
Definition acked_data (datalen : Z) : streamM unit :=
  modify (λ s, set_acked_offset (u64 (acked_offset s + datalen)) s);;
  modify (λ s,
    let '(shifted, pending) :=
      ack_shift (acked_offset s) (pending_shifted s) (iv_pending_chunks s) in
    set_pending_shifted shifted (set_iv_pending_chunks pending s)).

(** [quic_stream_close_cb], lines 302-306. *)
Definition mark_closed (flags : Z) (app_code_flag : Z) (app_error_code : Z) : streamM unit :=
  modify (set_closed true);;
  (if has_flag flags app_code_flag
   then modify (set_close_has_app_error_code true);;
        modify (set_close_app_error_code app_error_code)
   else mret tt).

(** [quic_stream_reset_cb], lines 325-327. *)
Definition mark_reset (app_error_code : Z) : streamM unit :=
  modify (set_reset true);;
  modify (set_close_app_error_code app_error_code);;
  modify (set_close_has_app_error_code true).

(** ** Choosing the bytes to send

    The body of the loop of [quic_client_pick_send_stream] for one stream. *)

(** The inner [for] loop: the index of the Chunk holding the byte at
    [position], and its offset there. *)
Fixpoint find_chunk (position : Z) (j : Z) (chunks : list bytes) : option (Z * Z) :=
  match chunks with
  | [] => None
  | chunk :: rest =>
    if position <? zlen chunk then Some (j, position)
    else find_chunk (u64 (position - zlen chunk)) (j + 1) rest
  end.

(** [out_datav] ([None] for [out_datavcnt = 0]), whether [out_flags] has
    [NGTCP2_WRITE_STREAM_FLAG_FIN], and [out_stream_id]. *)
Record send_choice := SendChoice {
  sc_data : option bytes;
  sc_fin : bool;
  sc_stream_id : Z;
}.

Definition choose_send (s : stream) : option send_choice :=
  if fin_flushed s then None
  else
    let pending := iv_pending_chunks s in
    let position := u64 (sent_offset s - pending_shifted s) in
    match find_chunk position 0 pending with
    | Some (chunk_idx, offset_in_chunk) =>
      let chunk := default [] (pending !! Z.to_nat chunk_idx) in
      Some (SendChoice (Some (zdrop offset_in_chunk chunk))
              (fin_sent s && (chunk_idx =? zlen pending - 1)) (stream_id s))
    | None =>
      if fin_sent s && negb (fin_flushed s)
      then Some (SendChoice None true (stream_id s))
      else None
    end.

(** The accounting of [quic_client_write_pkt] (lines 608-630) for the chosen
    stream: [n] and [pdatalen] are what [ngtcp2_conn_writev_stream] returned. *)
Definition account_sent (c : send_choice) (n pdatalen : Z) : streamM unit :=
  if 0 <? pdatalen then
    modify (λ s, set_sent_offset (u64 (sent_offset s + pdatalen)) s);;
    (if sc_fin c && (pdatalen =? zlen (default [] (sc_data c)))
     then modify (set_fin_flushed true) else mret tt)
  else
    match sc_data c with
    | None => if (0 <? n) && sc_fin c then modify (set_fin_flushed true) else mret tt
    | Some _ => mret tt
    end.
