(* ===== verification/StreamInv.v ===== *)
(** * Well-formed streams

    The invariant of the offsets and flags of a stream's send side, the
    functional specifications of its two loops, and the preservation of the
    invariant by every operation of [Stream.v]. *)
From S2P Require Import Prelude Ngtcp2 Errors Ruby Stream.

(** ** Definitions *)

(** The number of bytes the application has written so far. *)
Definition total (s : stream) : Z :=
  pending_shifted s + zlen (concat (iv_pending_chunks s)).

(** The bytes written and not yet handed to ngtcp2. *)
Definition unsent (s : stream) : bytes :=
  zdrop (sent_offset s - pending_shifted s) (concat (iv_pending_chunks s)).

(** [shifted <= acked <= sent <= total < 2^64]; no empty Chunk; every Chunk that
    is completely acked has been shifted out; the FIN is flushed last. *)
Record wf_stream (s : stream) : Prop := WfStream {
  wf_shifted : 0 ≤ pending_shifted s ≤ acked_offset s;
  wf_acked : acked_offset s ≤ sent_offset s;
  wf_sent : sent_offset s ≤ total s;
  wf_total : total s < 2 ^ 64;
  wf_chunks : Forall (λ c, c ≠ []) (iv_pending_chunks s);
  wf_head : match iv_pending_chunks s with
            | [] => True
            | h :: _ => acked_offset s < pending_shifted s + zlen h
            end;
  wf_fin : fin_flushed s = true → fin_sent s = true ∧ sent_offset s = total s;
}.

(** The identity of the stream and its place in the client, which none of the
    single-stream operations changes. *)
Definition same_identity (s s' : stream) : Prop :=
  stream_id s' = stream_id s ∧ iv_id s' = iv_id s ∧ iv_client s' = iv_client s ∧
  accept_queued s' = accept_queued s.

#[export] Instance same_identity_refl : Reflexive same_identity.
Proof. done. Qed.
#[export] Instance same_identity_trans : Transitive same_identity.
Proof. unfold same_identity. intros s1 s2 s3 ? ?. intuition congruence. Qed.

Lemma zlen_concat_app (k l : list bytes) :
  zlen (concat (k ++ l)) = zlen (concat k) + zlen (concat l).
Proof. by rewrite concat_app, zlen_app. Qed.

Lemma unsent_len s : wf_stream s → zlen (unsent s) = total s - sent_offset s.
Proof.
  intros [? ? Hs ? ? ? ?]. unfold unsent. rewrite zlen_zdrop; unfold total in *; lia.
Qed.

(** ** The acked loop *)

(** [ack_shift] drops the longest prefix of Chunks whose end is covered. *)
Lemma ack_shift_spec acked shifted pending shifted' pending' :
  0 ≤ shifted ≤ acked → shifted + zlen (concat pending) < 2 ^ 64 →
  ack_shift acked shifted pending = (shifted', pending') →
  ∃ gone, pending = gone ++ pending' ∧ shifted' = shifted + zlen (concat gone) ∧
    shifted ≤ shifted' ≤ acked ∧
    match pending' with [] => True | h :: _ => acked < shifted' + zlen h end.
Proof.
  revert shifted. induction pending as [|h rest IH]; simpl; intros shifted Hr Hb.
  { intros [= <- <-]. exists []. simpl. rewrite zlen_nil. split_and!; auto; lia. }
  rewrite zlen_app in Hb. pose proof (zlen_nonneg h). pose proof (zlen_nonneg (concat rest)).
  rewrite u64_small by lia. destruct (Z.leb_spec (shifted + zlen h) acked) as [Hle|Hle].
  - intros Hgo.
    destruct (IH (shifted + zlen h)) as (gone & -> & -> & ? & ?); [lia..|done|].
    exists (h :: gone). simpl. rewrite zlen_app. split_and!; auto; lia.
  - intros [= <- <-]. exists []. simpl. rewrite zlen_nil.
    split_and!; auto; lia.
Qed.

(** ** The search for the next unsent byte *)

Lemma find_chunk_Some pos j chunks i off :
  0 ≤ pos < 2 ^ 64 → find_chunk pos j chunks = Some (i, off) →
  ∃ pre c post, chunks = pre ++ c :: post ∧ i = j + zlen pre ∧
    off = pos - zlen (concat pre) ∧ 0 ≤ off < zlen c.
Proof.
  revert pos j. induction chunks as [|c rest IH]; simpl; intros pos j Hp; [done|].
  destruct (Z.ltb_spec pos (zlen c)) as [Hlt|Hlt].
  - intros [= <- <-]. exists [], c, rest. split_and!; simpl;
    rewrite ?zlen_nil; auto; lia.
  - pose proof (zlen_nonneg c). rewrite u64_small by lia.
    intros (pre & c' & post & -> & -> & -> & Hoff)%IH; [|lia].
    exists (c :: pre), c', post. simpl. rewrite zlen_cons, zlen_app.
    split_and!; auto; lia.
Qed.

Lemma find_chunk_None pos j chunks :
  0 ≤ pos < 2 ^ 64 → find_chunk pos j chunks = None → zlen (concat chunks) ≤ pos.
Proof.
  revert pos j. induction chunks as [|c rest IH]; simpl; intros pos j Hp.
  { rewrite zlen_nil. lia. }
  destruct (Z.ltb_spec pos (zlen c)); [done|]. pose proof (zlen_nonneg c).
  rewrite u64_small by lia. intros ?%IH; [|lia]. rewrite zlen_app. lia.
Qed.

(** ** choose_send *)

(** With data, the choice is a non-empty prefix of the unsent bytes, flagged
    FIN exactly when the application has finished and it is all of them. *)
Lemma choose_send_data s c d :
  wf_stream s → choose_send s = Some c → sc_data c = Some d →
  d ≠ [] ∧ d `prefix_of` unsent s ∧
  (sc_fin c = true ↔ fin_sent s = true ∧ d = unsent s) ∧
  fin_flushed s = false ∧ sc_stream_id c = stream_id s.
Proof.
  intros Hwf. unfold choose_send. destruct Hwf as [? ? Hs Ht Hch ? ?].
  assert (Hpos : 0 ≤ sent_offset s - pending_shifted s < 2 ^ 64).
  { unfold total in *. lia. }
  rewrite (u64_small _ Hpos).
  destruct (fin_flushed s) eqn:Hff; [done|].
  destruct (find_chunk _ _ _) as [[i off]|] eqn:Hf; [|destruct (fin_sent s); intros; by simplify_eq/=].
  intros [= <-] [= <-]. simpl.
  apply find_chunk_Some in Hf as (pre & ch & post & Hp & -> & -> & Hoff); [|done].
  assert (Hlk : default [] (iv_pending_chunks s !! Z.to_nat (0 + zlen pre)) = ch).
  { rewrite Hp. replace (Z.to_nat (0 + zlen pre)) with (length pre) by (unfold zlen; lia).
    by rewrite list_lookup_middle. }
  set (pos := sent_offset s - pending_shifted s) in *. rewrite Hlk.
  assert (Hun : unsent s = zdrop (pos - zlen (concat pre)) ch ++ concat post).
  { unfold unsent. fold pos. rewrite Hp, concat_app. simpl.
    rewrite zdrop_app_ge by lia. by rewrite zdrop_app_le by lia. }
  split_and!; auto.
  - apply zlen_pos. rewrite zlen_zdrop by lia. lia.
  - rewrite Hun. by apply prefix_app_r.
  - rewrite andb_true_iff, Hun, Hp, zlen_app, zlen_cons, Z.eqb_eq.
    split; intros [Hfin Hlast]; (split; [done|]).
    + destruct post; [by rewrite app_nil_r|].
      rewrite zlen_cons in Hlast. pose proof (zlen_nonneg post). lia.
    + destruct post as [|b post]; [unfold zlen; simpl; lia|]. exfalso.
      apply (f_equal zlen) in Hlast. simpl in Hlast. rewrite !zlen_app in Hlast.
      rewrite Hp in Hch. apply Forall_app in Hch as [_ Hch].
      inversion_clear Hch as [|?? _ Hch']. inversion_clear Hch' as [|?? Hb _].
      apply zlen_pos in Hb. pose proof (zlen_nonneg (concat post)). lia.
Qed.

(** Without data, everything written has been handed over and the FIN has not. *)
Lemma choose_send_fin_only s c :
  wf_stream s → choose_send s = Some c → sc_data c = None →
  unsent s = [] ∧ fin_sent s = true ∧ fin_flushed s = false ∧ sc_fin c = true ∧
  sc_stream_id c = stream_id s.
Proof.
  intros Hwf. unfold choose_send. destruct Hwf as [? ? Hs Ht ? ? ?].
  assert (Hpos : 0 ≤ sent_offset s - pending_shifted s < 2 ^ 64).
  { unfold total in *. lia. }
  rewrite (u64_small _ Hpos).
  destruct (fin_flushed s) eqn:Hff; [done|].
  destruct (find_chunk _ _ _) as [[i off]|] eqn:Hf; [by intros [= <-]|].
  apply find_chunk_None in Hf; [|done].
  destruct (fin_sent s); [|done]. simpl. intros [= <-] _.
  split_and!; auto. by apply zdrop_all.
Qed.

(** What [write_pkt] relies on when it accounts for a choice made before the
    call into ngtcp2, whose callbacks may have shifted Chunks since. *)
Definition choice_ok (s : stream) (c : send_choice) : Prop :=
  fin_flushed s = false ∧
  match sc_data c with
  | Some d => d ≠ [] ∧ d `prefix_of` unsent s ∧
              (sc_fin c = true → fin_sent s = true ∧ d = unsent s)
  | None => unsent s = [] ∧ fin_sent s = true ∧ sc_fin c = true
  end.

Lemma choose_send_ok s c :
  wf_stream s → choose_send s = Some c → choice_ok s c ∧ sc_stream_id c = stream_id s.
Proof.
  intros Hwf Hc. unfold choice_ok. destruct (sc_data c) as [d|] eqn:Hd.
  - destruct (choose_send_data _ _ _ Hwf Hc Hd) as (? & ? & Hf & ? & ?). naive_solver.
  - destruct (choose_send_fin_only _ _ Hwf Hc Hd) as (? & ? & ? & ? & ?). auto.
Qed.

(** A stream is passed over only when it has nothing to send. *)
Lemma choose_send_None s :
  wf_stream s → choose_send s = None ↔
  fin_flushed s = true ∨ (unsent s = [] ∧ fin_sent s = false).
Proof.
  intros Hwf. unfold choose_send, unsent. pose proof Hwf as [? ? Hs Ht ? ? ?].
  assert (Hpos : 0 ≤ sent_offset s - pending_shifted s < 2 ^ 64).
  { unfold total in *. lia. }
  rewrite (u64_small _ Hpos).
  destruct (fin_flushed s) eqn:Hff; [naive_solver|].
  destruct (find_chunk _ _ _) as [[i off]|] eqn:Hf.
  - apply find_chunk_Some in Hf as (pre & ch & post & Hp & -> & -> & Hoff); [|done].
    split; [done|]. intros [|[Hnil _]]; [done|].
    apply (f_equal zlen) in Hnil. rewrite zlen_zdrop, zlen_nil in Hnil.
    + rewrite Hp, concat_app in Hnil. simpl in Hnil. rewrite !zlen_app in Hnil.
      pose proof (zlen_nonneg (concat post)). lia.
    + rewrite Hp, concat_app. simpl. rewrite !zlen_app.
      pose proof (zlen_nonneg (concat post)). pose proof (zlen_nonneg (concat pre)). lia.
  - apply find_chunk_None in Hf; [|done]. rewrite zdrop_all by done.
    destruct (fin_sent s); naive_solver.
Qed.

(** ** Preservation *)

(** The fields the send side is made of. *)
Definition same_send (s s' : stream) : Prop :=
  sent_offset s' = sent_offset s ∧ acked_offset s' = acked_offset s ∧
  pending_shifted s' = pending_shifted s ∧
  iv_pending_chunks s' = iv_pending_chunks s ∧
  fin_sent s' = fin_sent s ∧ fin_flushed s' = fin_flushed s.

Lemma wf_same_send s s' : same_send s s' → wf_stream s → wf_stream s'.
Proof.
  intros (H1 & H2 & H3 & H4 & H5 & H6) [? ? ? ? ? ? ?].
  constructor; unfold total in *; rewrite ?H1, ?H2, ?H3, ?H4, ?H5, ?H6; auto.
Qed.
Lemma unsent_same_send s s' : same_send s s' → unsent s' = unsent s.
Proof. intros (H1 & H2 & H3 & H4 & H5 & H6). unfold unsent. by rewrite H1, H3, H4. Qed.

Lemma wf_quic_stream_new id client : wf_stream (quic_stream_new id client).
Proof. constructor; unfold total; simpl; rewrite ?zlen_nil; try lia; try done. Qed.

(** The state [quic_stream_enqueue] leaves when it does not raise. *)
Definition enqueued (b : bytes) (fin : bool) (s : stream) : stream :=
  let s1 := if 0 <? zlen b
            then set_iv_pending_chunks (iv_pending_chunks s ++ [b]) s else s in
  if fin then set_fin_sent true s1 else s1.

Lemma enqueue_eq data fin s :
  quic_stream_enqueue data fin s =
  if reset s || closed s || fin_sent s then (Raise (Exn rb_eQuicErrorStreamClosed None), s)
  else match data with
       | VStr str => (Ret (zlen (rs_bytes str)), enqueued (rs_bytes str) fin s)
       | _ => (Raise (Exn TypeError None), s)
       end.
Proof.
  unfold quic_stream_enqueue, enqueued, check_string, rb_raise. run.
  destruct (reset s), (closed s), (fin_sent s); simpl; try done.
  destruct data; try done. destruct (0 <? _), fin; done.
Qed.

Lemma zlen_concat_snoc (l : list bytes) b : zlen (concat (l ++ [b])) = zlen (concat l) + zlen b.
Proof. rewrite zlen_concat_app. simpl. by rewrite app_nil_r. Qed.

Lemma enqueued_chunks b fin s :
  concat (iv_pending_chunks (enqueued b fin s)) = concat (iv_pending_chunks s) ++ b.
Proof.
  unfold enqueued. destruct (Z.ltb_spec 0 (zlen b)) as [|Hb], fin; simpl;
    rewrite ?concat_app; simpl; rewrite ?app_nil_r; try done;
    (replace b with (@nil byte); [by rewrite app_nil_r|]);
    symmetry; apply zlen_0; pose proof (zlen_nonneg b); lia.
Qed.

Lemma enqueued_total b fin s : total (enqueued b fin s) = total s + zlen b.
Proof.
  unfold total. rewrite enqueued_chunks, zlen_app.
  unfold enqueued. destruct (0 <? _), fin; simpl; lia.
Qed.

Lemma enqueued_fields b fin s :
  sent_offset (enqueued b fin s) = sent_offset s ∧
  acked_offset (enqueued b fin s) = acked_offset s ∧
  pending_shifted (enqueued b fin s) = pending_shifted s ∧
  fin_sent (enqueued b fin s) = fin_sent s || fin ∧
  fin_flushed (enqueued b fin s) = fin_flushed s ∧
  iv_recv_buffer (enqueued b fin s) = iv_recv_buffer s ∧
  fin_received (enqueued b fin s) = fin_received s ∧
  reset (enqueued b fin s) = reset s ∧ closed (enqueued b fin s) = closed s ∧
  same_identity s (enqueued b fin s).
Proof.
  unfold enqueued, same_identity.
  destruct (0 <? _), fin; simpl; rewrite ?orb_false_r, ?orb_true_r; done.
Qed.

Lemma enqueued_unsent b fin s :
  wf_stream s → unsent (enqueued b fin s) = unsent s ++ b.
Proof.
  intros [? ? Hs ? ? ? ?]. unfold unsent.
  destruct (enqueued_fields b fin s) as (-> & _ & -> & _). rewrite enqueued_chunks.
  apply zdrop_app_le. unfold total in *. lia.
Qed.

Lemma wf_enqueued b fin s :
  wf_stream s → fin_sent s = false → total s + zlen b < 2 ^ 64 →
  wf_stream (enqueued b fin s).
Proof.
  intros [? ? Hs ? ? ? Hfin] Hf Hb. pose proof (zlen_nonneg b).
  destruct (enqueued_fields b fin s) as (H1 & H2 & H3 & _ & H5 & _).
  constructor; rewrite ?enqueued_total, ?H1, ?H2, ?H3, ?H5; try lia.
  - unfold enqueued. destruct (Z.ltb_spec 0 (zlen b)) as [Hp|], fin; simpl; try done;
      (apply Forall_app; split; [done|]; constructor; [by apply zlen_pos|done]).
  - unfold enqueued. destruct (Z.ltb_spec 0 (zlen b)), fin; simpl; try done;
      destruct (iv_pending_chunks s) eqn:Hp; simpl; try done;
      unfold total in Hs; rewrite Hp in Hs; simpl in Hs; rewrite zlen_nil in Hs; lia.
  - intros [? _]%Hfin. congruence.
Qed.

(** An acknowledgement of bytes that had been handed over keeps the invariant,
    and forgets exactly bytes that are acked. *)
Lemma acked_data_spec d s s' o :
  wf_stream s → 0 ≤ d → acked_offset s + d ≤ sent_offset s →
  acked_data d s = (o, s') →
  o = Ret tt ∧ wf_stream s' ∧ acked_offset s' = acked_offset s + d ∧
  pending_shifted s ≤ pending_shifted s' ∧ total s' = total s ∧
  concat (iv_pending_chunks s') =
    zdrop (pending_shifted s' - pending_shifted s) (concat (iv_pending_chunks s)) ∧
  sent_offset s' = sent_offset s ∧ fin_sent s' = fin_sent s ∧
  fin_flushed s' = fin_flushed s ∧ fin_received s' = fin_received s ∧
  iv_recv_buffer s' = iv_recv_buffer s ∧ closed s' = closed s ∧ same_identity s s'.
Proof.
  intros [? ? Hs Ht Hch ? Hfin] Hd Hle. unfold acked_data. run. simpl.
  rewrite u64_small by lia.
  destruct (ack_shift _ _ _) as [shifted pending] eqn:Hack. intros [= <- <-].
  apply ack_shift_spec in Hack as (gone & Hp & -> & Hsh & Hhead);
    [|lia|unfold total in *; lia].
  assert (Htot : pending_shifted s + zlen (concat gone) + zlen (concat pending) = total s).
  { unfold total. rewrite Hp, zlen_concat_app. lia. }
  split_and!; try done; simpl.
  - constructor; unfold total; simpl; try lia; rewrite ?Htot; auto.
    rewrite Hp in Hch. by apply Forall_app in Hch as [_ ?].
  - lia.
  - rewrite Hp, concat_app. rewrite zdrop_app_ge by lia. symmetry. apply zdrop_0. lia.
Qed.

Lemma acked_data_unsent d s s' o :
  wf_stream s → 0 ≤ d → acked_offset s + d ≤ sent_offset s →
  acked_data d s = (o, s') → unsent s' = unsent s.
Proof.
  intros Hwf Hd Hle Ha. pose proof Hwf as [? ? Hs ? ? ? ?].
  destruct (acked_data_spec _ _ _ _ Hwf Hd Hle Ha)
    as (_ & Hwf' & Hacked & Hsh & Htot & Hc & Hsent & _).
  unfold unsent. rewrite Hsent, Hc. destruct Hwf' as [? ? _ _ _ _ _].
  rewrite zdrop_zdrop by lia. f_equal. lia.
Qed.

(** The accounting of a successful [ngtcp2_conn_writev_stream]. *)
Lemma account_sent_spec c n pd s s' o :
  wf_stream s → choice_ok s c →
  pd ≤ zlen (default [] (sc_data c)) →
  account_sent c n pd s = (o, s') →
  o = Ret tt ∧ wf_stream s' ∧ sent_offset s' = sent_offset s + Z.max 0 pd ∧
  unsent s' = zdrop (Z.max 0 pd) (unsent s) ∧ total s' = total s ∧
  same_identity s s' ∧ closed s' = closed s ∧
  acked_offset s' = acked_offset s ∧ pending_shifted s' = pending_shifted s ∧
  iv_pending_chunks s' = iv_pending_chunks s ∧ fin_sent s' = fin_sent s ∧
  fin_received s' = fin_received s ∧ iv_recv_buffer s' = iv_recv_buffer s ∧
  fin_flushed s' = sc_fin c && match sc_data c with
                               | Some d => (0 <? pd) && (pd =? zlen d)
                               | None => 0 <? n
                               end.
Proof.
  intros Hwf [Hff Hc] Hpd. pose proof Hwf as [? ? Hs Ht Hch ? ?].
  unfold account_sent. destruct (sc_data c) as [d|] eqn:Hd; simpl in Hpd.
  - destruct Hc as (Hne & [rest Hpre] & Hfin).
    assert (Hlen : zlen d ≤ total s - sent_offset s).
    { rewrite <- unsent_len by done. rewrite Hpre, zlen_app.
      pose proof (zlen_nonneg rest). lia. }
    destruct (Z.ltb_spec 0 pd) as [Hp|Hp]; simpl.
    + assert (Hmax : Z.max 0 pd = pd) by lia. rewrite Hmax.
      assert (Hbase : wf_stream (set_sent_offset (sent_offset s + pd) s)).
      { constructor; unfold total in *; simpl; auto; try lia. by rewrite Hff. }
      assert (Hun : unsent (set_sent_offset (sent_offset s + pd) s) = zdrop pd (unsent s)).
      { unfold unsent; simpl. rewrite zdrop_zdrop by lia. f_equal. lia. }
      run. simpl. rewrite u64_small by lia.
      destruct (sc_fin c) eqn:Hf, (Z.eqb_spec pd (zlen d)) as [He|]; simpl;
        intros [= <- <-]; split_and!; auto; try done.
      destruct (Hfin eq_refl) as [Hfs Hdu].
      destruct Hbase; constructor; simpl in *; auto. intros _. split; [done|].
      unfold total in *; simpl. rewrite He, Hdu, unsent_len by done. unfold total. lia.
    + assert (Hmax : Z.max 0 pd = 0) by lia. rewrite Hmax.
      run. intros [= <- <-]. rewrite andb_false_r, zdrop_0 by lia.
      split_and!; auto; try lia; done.
  - destruct Hc as (Hu & Hfs & Hf).
    assert (Hmax : Z.max 0 pd = 0) by (unfold zlen in Hpd; simpl in Hpd; lia). rewrite Hmax.
    replace (0 <? pd) with false by (symmetry; apply Z.ltb_ge; unfold zlen in Hpd; simpl in Hpd; lia).
    rewrite Hf. run. rewrite andb_true_r, zdrop_0 by lia. simpl.
    destruct (0 <? n); intros [= <- <-]; split_and!; auto; try (simpl; lia); try done.
    constructor; simpl; unfold total in *; auto. intros _. split; [done|].
    apply (f_equal zlen) in Hu. rewrite unsent_len in Hu by done. unfold total in Hu.
    rewrite (proj2 (zlen_0 []) eq_refl) in Hu. simpl. lia.
Qed.

(** The remaining operations leave the send side alone. *)
Ltac solve_same :=
  run; repeat case_match; intros; simplify_eq/=; unfold same_send, same_identity; simpl;
  split_and!; auto.

Lemma recv_data_spec flags flag data s s' o :
  recv_data flags flag data s = (o, s') →
  o = Ret tt ∧ same_send s s' ∧ same_identity s s' ∧ closed s' = closed s ∧
  iv_recv_buffer s' = iv_recv_buffer s ++ data ∧
  fin_received s' = fin_received s || has_flag flags flag.
Proof.
  unfold recv_data. destruct (Z.ltb_spec 0 (zlen data)) as [Hd|Hd].
  - solve_same; by rewrite ?orb_true_r, ?orb_false_r.
  - assert (data = []) as ->.
    { apply zlen_0. pose proof (zlen_nonneg data). lia. }
    solve_same; by rewrite ?orb_true_r, ?orb_false_r, ?app_nil_r.
Qed.

Lemma mark_closed_spec flags flag code s s' o :
  mark_closed flags flag code s = (o, s') →
  o = Ret tt ∧ same_send s s' ∧ same_identity s s' ∧ closed s' = true ∧
  iv_recv_buffer s' = iv_recv_buffer s ∧ fin_received s' = fin_received s ∧
  reset s' = reset s ∧
  close_app_error_code s' =
    (if has_flag flags flag then code else close_app_error_code s) ∧
  close_has_app_error_code s' = close_has_app_error_code s || has_flag flags flag.
Proof.
  unfold mark_closed. destruct (has_flag flags flag);
    solve_same; by rewrite ?orb_true_r, ?orb_false_r.
Qed.

Lemma mark_reset_spec code s s' o :
  mark_reset code s = (o, s') →
  o = Ret tt ∧ same_send s s' ∧ same_identity s s' ∧ closed s' = closed s ∧
  iv_recv_buffer s' = iv_recv_buffer s ∧ fin_received s' = fin_received s ∧
  reset s' = true ∧ close_app_error_code s' = code ∧ close_has_app_error_code s' = true.
Proof. unfold mark_reset. solve_same. Qed.

Lemma read_nonblock_frame lv s s' o :
  quic_stream_read_nonblock_m lv s = (o, s') →
  same_send s s' ∧ same_identity s s' ∧ closed s' = closed s ∧ reset s' = reset s ∧
  fin_received s' = fin_received s ∧
  match o with
  | Ret out => iv_recv_buffer s = out ++ iv_recv_buffer s'
  | _ => s' = s
  end.
Proof.
  unfold quic_stream_read_nonblock_m, NUM2LONG, num2long_int, rb_raise.
  run. repeat case_match; intros; simplify_eq/=; unfold same_send, same_identity; simpl;
    split_and!; auto; by rewrite ztake_zdrop.
Qed.
