(* ===== verification/StreamSpec.v ===== *)
(** * What a stream promises: two byte pipes, and the refinement

    The abstract stream is a pair of byte histories with cursors: everything
    written and how much of it has been handed to ngtcp2 and acked; everything
    delivered and how much of it has been read.  The concrete stream, with its
    Chunk queue, its 64-bit offsets and its flags, is shown to implement it
    step by step. *)
From S2P Require Import Prelude Ngtcp2 Errors Ruby Stream StreamInv.

(** ** The abstract stream *)
Record sspec := Spec {
  sp_written : bytes;    (** accepted by #write, in order *)
  sp_framed : Z;         (** how many of them ngtcp2 has framed *)
  sp_acked : Z;          (** how many of them the peer has acked *)
  sp_fin : bool;         (** the application has finished writing *)
  sp_fin_framed : bool;  (** ... and the FIN has been framed *)
  sp_delivered : bytes;  (** received in order *)
  sp_consumed : Z;       (** how many of them #read_nonblock returned *)
  sp_eof : bool;         (** the peer has finished *)
}.

Definition spec_new : sspec := Spec [] 0 0 false false [] 0 false.

(** What an observer of the stream sees happen. *)
Inductive slabel :=
  | LWrite (d : bytes) (fin : bool)
  | LFrame (d : bytes) (fin : bool)
  | LAck (n : Z)
  | LRecv (d : bytes) (fin : bool)
  | LRead (d : bytes)
  | LTau.

(** Bytes are framed in the order written, none twice and none skipped; the
    FIN goes with or after the last of them and nothing follows it; only framed
    bytes are acked; bytes are read in the order received. *)
Inductive spec_step : sspec → slabel → sspec → Prop :=
  | SpWrite w f a ff dl c e d fin :
      spec_step (Spec w f a false ff dl c e) (LWrite d fin)
                (Spec (w ++ d) f a fin ff dl c e)
  | SpFrame w f a fw dl c e d fin :
      d `prefix_of` zdrop f w →
      (fin = true → fw = true ∧ d = zdrop f w) →
      spec_step (Spec w f a fw false dl c e) (LFrame d fin)
                (Spec w (f + zlen d) a fw fin dl c e)
  | SpAck w f a fw ff dl c e n :
      0 ≤ n → a + n ≤ f →
      spec_step (Spec w f a fw ff dl c e) (LAck n) (Spec w f (a + n) fw ff dl c e)
  | SpRecv w f a fw ff dl c e d fin :
      spec_step (Spec w f a fw ff dl c e) (LRecv d fin)
                (Spec w f a fw ff (dl ++ d) c (e || fin))
  | SpRead w f a fw ff dl c e d :
      d `prefix_of` zdrop c dl →
      spec_step (Spec w f a fw ff dl c e) (LRead d)
                (Spec w f a fw ff dl (c + zlen d) e)
  | SpTau sp : spec_step sp LTau sp.

(** ** The concrete steps *)
Section concrete.
Context (data_fin write_fin app_code_flag : Z).

(** One operation of the code on the stream, with what it shows.  The side
    conditions are ngtcp2's: it acks only what it was given and frames at most
    what it was given.  For a FIN-only request the FIN is in the packet when
    [pdatalen] is 0, and not when it is -1. *)
Inductive sstep : stream → slabel → stream → Prop :=
  | CWrite s s' str fin n :
      total s + zlen (rs_bytes str) < 2 ^ 64 →
      quic_stream_enqueue (VStr str) fin s = (Ret n, s') →
      sstep s (LWrite (rs_bytes str) fin) s'
  | CWriteRaise s s' v fin e :
      quic_stream_enqueue v fin s = (Raise e, s') → sstep s LTau s'
  | CFrame s s' c n pd o :
      choice_ok s c →
      pd ≤ zlen (default [] (sc_data c)) →
      account_sent c n pd s = (o, s') →
      sstep s (LFrame (ztake (Z.max 0 pd) (default [] (sc_data c)))
                      (sc_fin c && match sc_data c with
                                   | Some d => (0 <? pd) && (pd =? zlen d)
                                   | None => (0 <? n) && (pd =? 0)
                                   end)) s'
  | CAck s s' d o :
      0 ≤ d → acked_offset s + d ≤ sent_offset s →
      acked_data d s = (o, s') → sstep s (LAck d) s'
  | CRecv s s' flags d o :
      recv_data flags data_fin d s = (o, s') →
      sstep s (LRecv d (has_flag flags data_fin)) s'
  | CRead s s' lv d :
      quic_stream_read_nonblock_m lv s = (Ret d, s') → sstep s (LRead d) s'
  | CReadRaise s s' lv e :
      quic_stream_read_nonblock_m lv s = (Raise e, s') → sstep s LTau s'
  | CClose s s' flags code o :
      mark_closed flags app_code_flag code s = (o, s') → sstep s LTau s'
  | CReset s s' code o :
      mark_reset code s = (o, s') → sstep s LTau s'
  | CLocal s s' :
      (* #reset's own flag, @accept_queue's mark *)
      stream_id s' = stream_id s →
      (accept_queued s = true → accept_queued s' = true) →
      (reset s = true → reset s' = true) →
      same_send s s' → iv_recv_buffer s' = iv_recv_buffer s →
      fin_received s' = fin_received s → sstep s LTau s'.

Inductive strace : stream → list slabel → stream → Prop :=
  | strace_nil s : strace s [] s
  | strace_cons s l s1 ls s2 : sstep s l s1 → strace s1 ls s2 → strace s (l :: ls) s2.

(** ** The abstraction relation *)
Record absr (sp : sspec) (s : stream) : Prop := AbsR {
  ab_wf : wf_stream s;
  ab_pending : concat (iv_pending_chunks s) = zdrop (pending_shifted s) (sp_written sp);
  ab_total : zlen (sp_written sp) = total s;
  ab_framed : sp_framed sp = sent_offset s;
  ab_acked : sp_acked sp = acked_offset s;
  ab_fin : sp_fin sp = fin_sent s;
  ab_fin_framed : sp_fin_framed sp = true → fin_flushed s = true;
  ab_consumed : 0 ≤ sp_consumed sp ≤ zlen (sp_delivered sp);
  ab_recv : iv_recv_buffer s = zdrop (sp_consumed sp) (sp_delivered sp);
  ab_eof : sp_eof sp = fin_received s;
}.

Lemma absr_new id client : absr spec_new (quic_stream_new id client).
Proof. by constructor. Qed.

(** The bytes still to be framed are the same on both sides. *)
Lemma absr_unsent sp s : absr sp s → unsent s = zdrop (sp_framed sp) (sp_written sp).
Proof.
  intros [[? ? ? ? ? ? ?] Hp ? Hf ? ? ? ? ? ?]. unfold unsent.
  rewrite Hp, Hf, zdrop_zdrop by lia. f_equal. lia.
Qed.

(** An operation that only touches the receiving side. *)
Lemma absr_input sp s s' dl co e :
  absr sp s → same_send s s' → 0 ≤ co ≤ zlen dl →
  iv_recv_buffer s' = zdrop co dl → fin_received s' = e →
  absr (Spec (sp_written sp) (sp_framed sp) (sp_acked sp) (sp_fin sp) (sp_fin_framed sp) dl co e) s'.
Proof.
  intros [? Hp ? ? ? ? ? ? ? ?] Hss Hco Hr He. pose proof Hss as (H1 & H2 & H3 & H4 & H5 & H6).
  assert (total s' = total s) by (unfold total; by rewrite H3, H4).
  constructor; simpl; rewrite ?H1, ?H2, ?H3, ?H4, ?H5, ?H6; try congruence; auto.
  by eapply wf_same_send.
Qed.

Lemma absr_tau sp s s' :
  absr sp s → same_send s s' → iv_recv_buffer s' = iv_recv_buffer s →
  fin_received s' = fin_received s → absr sp s'.
Proof.
  intros Habs Hss Hr He. pose proof Habs as [? ? ? ? ? ? ? ? ? ?].
  replace sp with (Spec (sp_written sp) (sp_framed sp) (sp_acked sp) (sp_fin sp)
    (sp_fin_framed sp) (sp_delivered sp) (sp_consumed sp) (sp_eof sp)) by (by destruct sp).
  eapply absr_input; eauto; congruence.
Qed.

Lemma absr_write sp s b fin :
  absr sp s → fin_sent s = false → total s + zlen b < 2 ^ 64 →
  absr (Spec (sp_written sp ++ b) (sp_framed sp) (sp_acked sp) fin (sp_fin_framed sp)
          (sp_delivered sp) (sp_consumed sp) (sp_eof sp)) (enqueued b fin s).
Proof.
  intros [Hwf Hp Ht ? ? ? ? ? ? ?] Hf Hb. pose proof Hwf as [? ? Hs ? ? ? ?].
  destruct (enqueued_fields b fin s) as (H1 & H2 & H3 & H4 & H5 & H6 & H7 & _).
  constructor; simpl; rewrite ?H1, ?H2, ?H3, ?H4, ?H5, ?H6, ?H7, ?Hf; try done.
  - by apply wf_enqueued.
  - rewrite enqueued_chunks, Hp. symmetry. apply zdrop_app_le.
    rewrite Ht. unfold total. pose proof (zlen_nonneg (concat (iv_pending_chunks s))). lia.
  - by rewrite zlen_app, enqueued_total, Ht.
Qed.

Lemma absr_frame sp s s' c n pd o :
  absr sp s → choice_ok s c → pd ≤ zlen (default [] (sc_data c)) →
  account_sent c n pd s = (o, s') →
  let d := ztake (Z.max 0 pd) (default [] (sc_data c)) in
  let fin := sc_fin c && match sc_data c with
                         | Some d => (0 <? pd) && (pd =? zlen d)
                         | None => (0 <? n) && (pd =? 0)
                         end in
  ∃ sp', spec_step sp (LFrame d fin) sp' ∧ absr sp' s'.
Proof.
  intros Habs Hc Hpd Hacc d fin. pose proof (absr_unsent _ _ Habs) as Hun.
  destruct Habs as [Hwf Hp Ht Hfr ? Hfw Hff ? ? ?].
  destruct (account_sent_spec _ _ _ _ _ _ Hwf Hc Hpd Hacc)
    as (-> & Hwf' & Hsent & Hun' & Htot & _ & _ & Hack & Hsh & Hch & Hfs & Hrc & Hbuf & Hflu).
  assert (Hdlen : zlen d = Z.max 0 pd).
  { apply zlen_ztake. pose proof (zlen_nonneg (default [] (sc_data c))). lia. }
  assert (Hfin : fin = true → fin_flushed s' = true).
  { rewrite Hflu. unfold fin. destruct (sc_data c); [done|].
    destruct (sc_fin c), (0 <? n); done. }
  destruct sp as [w f a fw ff dl co e]; simpl in *.
  exists (Spec w (f + zlen d) a fw fin dl co e). destruct Hc as [Hcf Hc]. split.
  - assert (Hnf : ff = false).
    { destruct ff; [|done]. by rewrite (Hff eq_refl) in Hcf. }
    rewrite Hnf. constructor; rewrite <- Hun.
    + destruct (sc_data c) as [d'|] eqn:Hd; simpl in d.
      * destruct Hc as (_ & Hpre & _).
        etrans; [|exact Hpre]. exists (zdrop (Z.max 0 pd) d'). unfold d. by rewrite ztake_zdrop.
      * unfold d, ztake. rewrite take_nil. apply prefix_nil.
    + intros Ht'. unfold fin in Ht'. apply andb_true_iff in Ht' as [Hscf Hm].
      destruct (sc_data c) as [d'|] eqn:Hd; simpl in d.
      * destruct Hc as (_ & _ & Hiff). destruct (Hiff Hscf) as [Hfs' Hdu]. split; [by rewrite Hfw|].
        apply andb_true_iff in Hm as [_ Heq%Z.eqb_eq].
        unfold d. rewrite ztake_all by lia. done.
      * destruct Hc as (Hu & Hfs' & _).
        split; [by rewrite Hfw|]. rewrite Hu. unfold d, ztake. apply take_nil.
  - constructor; simpl; try congruence; auto.
Qed.

Lemma absr_recv sp s s' d fin :
  absr sp s → same_send s s' → iv_recv_buffer s' = iv_recv_buffer s ++ d →
  fin_received s' = fin_received s || fin →
  ∃ sp', spec_step sp (LRecv d fin) sp' ∧ absr sp' s'.
Proof.
  intros Habs Hss Hbuf Hfr. pose proof Habs as [? ? ? ? ? ? ? ? Hr He].
  exists (Spec (sp_written sp) (sp_framed sp) (sp_acked sp) (sp_fin sp) (sp_fin_framed sp)
    (sp_delivered sp ++ d) (sp_consumed sp) (sp_eof sp || fin)).
  split; [destruct sp; constructor|]. eapply absr_input; eauto.
  - rewrite zlen_app. pose proof (zlen_nonneg d). lia.
  - rewrite Hbuf, Hr. symmetry. apply zdrop_app_le. lia.
  - congruence.
Qed.

Lemma absr_read sp s s' d :
  absr sp s → same_send s s' → iv_recv_buffer s = d ++ iv_recv_buffer s' →
  fin_received s' = fin_received s →
  ∃ sp', spec_step sp (LRead d) sp' ∧ absr sp' s'.
Proof.
  intros Habs Hss Hbuf Hfr. pose proof Habs as [? ? ? ? ? ? ? Hco Hr He].
  assert (Hpre : zdrop (sp_consumed sp) (sp_delivered sp) = d ++ iv_recv_buffer s') by congruence.
  pose proof (f_equal zlen Hpre) as Hlen. rewrite zlen_zdrop, zlen_app in Hlen by lia.
  pose proof (zlen_nonneg d). pose proof (zlen_nonneg (iv_recv_buffer s')).
  exists (Spec (sp_written sp) (sp_framed sp) (sp_acked sp) (sp_fin sp) (sp_fin_framed sp)
    (sp_delivered sp) (sp_consumed sp + zlen d) (sp_eof sp)). split.
  - destruct sp; simpl in *. constructor. rewrite Hpre. by apply prefix_app_r.
  - apply (absr_input sp s); [done|done|lia| |congruence].
    rewrite <- zdrop_zdrop, Hpre by lia. by rewrite zdrop_app_ge, zdrop_0 by lia.
Qed.

(** Every concrete step is a step of the abstract stream. *)
Lemma sstep_simulated sp s l s' :
  absr sp s → sstep s l s' → ∃ sp', spec_step sp l sp' ∧ absr sp' s'.
Proof.
  intros Habs Hstep. destruct Hstep.
  - rewrite enqueue_eq in H0. destruct (reset s || closed s || fin_sent s) eqn:Hg; [done|].
    injection H0 as <- <-. apply orb_false_iff in Hg as [_ Hfs].
    pose proof (ab_fin _ _ Habs) as Hf. rewrite Hfs in Hf.
    eexists. split; [|by apply (absr_write sp)].
    destruct sp; simpl in *; subst. constructor.
  - exists sp. split; [constructor|]. rewrite enqueue_eq in H.
    repeat case_match; simplify_eq; done.
  - by eapply absr_frame.
  - destruct (acked_data_spec _ _ _ _ (ab_wf _ _ Habs) H H0 H1)
      as (_ & Hwf' & Ha & Hsh & Htot & Hch & Hse & Hfs & Hff & Hfr & Hrb & _).
    destruct Habs as [[? ? ? ? ? ? ?] Hp ? ? ? ? ? ? ? ?].
    destruct sp as [w f a fw ff dl co e]; simpl in *.
    exists (Spec w f (a + d) fw ff dl co e). split; [constructor; lia|].
    constructor; simpl; rewrite ?Hff; try congruence; auto.
    rewrite Hch, Hp, zdrop_zdrop by lia. f_equal. lia.
  - apply recv_data_spec in H as (_ & Hss & _ & _ & Hbuf & Hfr). by apply (absr_recv sp s).
  - apply read_nonblock_frame in H as (Hss & _ & _ & _ & Hfr & Hbuf). by apply (absr_read sp s).
  - exists sp. split; [constructor|].
    apply read_nonblock_frame in H as (_ & _ & _ & _ & _ & ->). done.
  - exists sp. split; [constructor|].
    apply mark_closed_spec in H as (_ & ? & _ & _ & ? & ? & _). by eapply absr_tau.
  - exists sp. split; [constructor|].
    apply mark_reset_spec in H as (_ & ? & _ & _ & ? & ? & _). by eapply absr_tau.
  - exists sp. split; [constructor|]. by eapply absr_tau.
Qed.
End concrete.

(** ** Histories *)

Definition l_written (l : slabel) : bytes := match l with LWrite d _ => d | _ => [] end.
Definition l_framed (l : slabel) : bytes := match l with LFrame d _ => d | _ => [] end.
Definition l_received (l : slabel) : bytes := match l with LRecv d _ => d | _ => [] end.
Definition l_read (l : slabel) : bytes := match l with LRead d => d | _ => [] end.
Definition l_acked (l : slabel) : Z := match l with LAck n => n | _ => 0 end.
Definition l_fin (l : slabel) : bool := match l with LFrame _ fin => fin | _ => false end.

(** All bytes written, framed, received and read along a history, how many
    were acked, and whether a FIN was framed. *)
Definition written (ls : list slabel) : bytes := concat (map l_written ls).
Definition frames (ls : list slabel) : bytes := concat (map l_framed ls).
Definition received (ls : list slabel) : bytes := concat (map l_received ls).
Definition reads (ls : list slabel) : bytes := concat (map l_read ls).
Definition acks (ls : list slabel) : Z := foldr (λ l n, l_acked l + n) 0 ls.
Definition fin_framed (ls : list slabel) : bool := existsb l_fin ls.

Inductive spec_trace : sspec → list slabel → sspec → Prop :=
  | spec_trace_nil sp : spec_trace sp [] sp
  | spec_trace_cons sp l sp1 ls sp2 :
      spec_step sp l sp1 → spec_trace sp1 ls sp2 → spec_trace sp (l :: ls) sp2.

(** What the abstract stream promises about a whole history. *)
Record pipe_inv (sp : sspec) (ls : list slabel) (sp' : sspec) : Prop := PipeInv {
  pi_written : sp_written sp' = sp_written sp ++ written ls;
  pi_unframed : zdrop (sp_framed sp) (sp_written sp) ++ written ls =
                frames ls ++ zdrop (sp_framed sp') (sp_written sp');
  pi_framed : sp_framed sp' = sp_framed sp + zlen (frames ls);
  pi_acked : sp_acked sp' = sp_acked sp + acks ls;
  pi_fin : sp_fin_framed sp' = sp_fin_framed sp || fin_framed ls;
  pi_delivered : sp_delivered sp' = sp_delivered sp ++ received ls;
  pi_unread : zdrop (sp_consumed sp) (sp_delivered sp) ++ received ls =
              reads ls ++ zdrop (sp_consumed sp') (sp_delivered sp');
}.

(** The cursors of an abstract state are within its histories. *)
Definition in_bounds (sp : sspec) : Prop :=
  0 ≤ sp_framed sp ≤ zlen (sp_written sp) ∧ 0 ≤ sp_consumed sp ≤ zlen (sp_delivered sp) ∧
  sp_acked sp ≤ sp_framed sp ∧
  (sp_fin_framed sp = true → sp_fin sp = true ∧ sp_framed sp = zlen (sp_written sp)).

Lemma prefix_zdrop (d l : bytes) : d `prefix_of` l → l = d ++ zdrop (zlen d) l.
Proof. intros [k ->]. rewrite zdrop_app_ge, Z.sub_diag, zdrop_0 by lia. done. Qed.

Lemma absr_in_bounds sp s : absr sp s → in_bounds sp.
Proof.
  intros [[? ? ? ? ? ? Hfin] ? Ht Hf Ha Hw Hff ? ? ?]. unfold in_bounds.
  rewrite Ht, Hf, Ha, Hw. split_and!; auto; lia.
Qed.

Lemma pipe_inv_step sp l sp' : in_bounds sp → spec_step sp l sp' → pipe_inv sp [l] sp'.
Proof.
  intros (Hf & Hc & Ha & _) Hstep.
  destruct Hstep; constructor; unfold written, frames, received, reads, acks, fin_framed;
    simpl in *; rewrite ?app_nil_r, ?orb_false_r, ?zlen_nil; auto; try lia.
  - symmetry. apply zdrop_app_le. lia.
  - rewrite <- zdrop_zdrop by (pose proof (zlen_nonneg d); lia). by apply prefix_zdrop.
  - symmetry. apply zdrop_app_le. lia.
  - rewrite <- zdrop_zdrop by (pose proof (zlen_nonneg d); lia). by apply prefix_zdrop.
Qed.

Lemma pipe_inv_nil sp : pipe_inv sp [] sp.
Proof.
  constructor; unfold written, frames, received, reads, acks, fin_framed; simpl;
    rewrite ?app_nil_r, ?orb_false_r, ?zlen_nil; auto; lia.
Qed.

Lemma pipe_inv_cons sp l sp1 ls sp2 :
  pipe_inv sp [l] sp1 → pipe_inv sp1 ls sp2 → pipe_inv sp (l :: ls) sp2.
Proof.
  unfold written, frames, received, reads, acks, fin_framed.
  intros [W1 U1 F1 A1 N1 D1 R1] [W2 U2 F2 A2 N2 D2 R2].
  unfold written, frames, received, reads, acks, fin_framed in *; simpl in *.
  rewrite ?app_nil_r, ?orb_false_r in *.
  constructor; unfold written, frames, received, reads, acks, fin_framed; simpl.
  - by rewrite W2, W1, app_assoc.
  - by rewrite app_assoc, U1, <- app_assoc, U2, app_assoc.
  - rewrite zlen_app. lia.
  - lia.
  - by rewrite N2, N1, orb_assoc.
  - by rewrite D2, D1, app_assoc.
  - by rewrite app_assoc, R1, <- app_assoc, R2, app_assoc.
Qed.

(** Soundness of whole histories: the concrete stream's labels are the
    abstract stream's, and they satisfy the pipe laws. *)
Lemma strace_simulated df acf sp s ls s' :
  absr sp s → strace df acf s ls s' →
  ∃ sp', spec_trace sp ls sp' ∧ absr sp' s' ∧ pipe_inv sp ls sp'.
Proof.
  intros Habs Htr. revert sp Habs. induction Htr as [|s l s1 ls s2 Hstep _ IH]; intros sp Habs.
  - exists sp. split_and!; [constructor|done|apply pipe_inv_nil].
  - destruct (sstep_simulated _ _ _ _ _ _ Habs Hstep) as (sp1 & Hs & Habs1).
    destruct (IH sp1 Habs1) as (sp2 & Htr2 & Habs2 & Hinv).
    exists sp2. split_and!; [by econstructor|done|].
    eapply pipe_inv_cons; [|done]. eapply pipe_inv_step; [|done]. by eapply absr_in_bounds.
Qed.

(** No step changes the stream's id or takes the mark of @accept_queue away. *)
Lemma sstep_identity df acf s l s' :
  sstep df acf s l s' →
  stream_id s' = stream_id s ∧ (accept_queued s = true → accept_queued s' = true).
Proof.
  assert (Hid : ∀ s s', same_identity s s' →
    stream_id s' = stream_id s ∧ (accept_queued s = true → accept_queued s' = true)).
  { intros s0 s0' (? & _ & _ & ->). done. }
  intros Hstep. destruct Hstep as [| | |s s' d o _ _ H| | | | | |]; try done.
  - rewrite enqueue_eq in H0. repeat case_match; simplify_eq. apply Hid, enqueued_fields.
  - rewrite enqueue_eq in H. by repeat case_match; simplify_eq.
  - revert H1. unfold account_sent. run. repeat case_match; intros; by simplify_eq/=.
  - revert H. unfold acked_data. run. case_match. intros; by simplify_eq/=.
  - apply recv_data_spec in H as (_ & _ & ? & _). auto.
  - apply read_nonblock_frame in H as (_ & ? & _). auto.
  - apply read_nonblock_frame in H as (_ & ? & _). auto.
  - apply mark_closed_spec in H as (_ & _ & ? & _). auto.
  - apply mark_reset_spec in H as (_ & _ & ? & _). auto.
Qed.

Lemma strace_identity df acf s ls s' :
  strace df acf s ls s' →
  stream_id s' = stream_id s ∧ (accept_queued s = true → accept_queued s' = true).
Proof.
  induction 1 as [|s l s1 ls s2 [Hid Haq]%sstep_identity _ [IHid IHaq]]; [done|].
  split; [congruence|auto].
Qed.

(** Nor does any take the mark of #reset away. *)
Lemma sstep_reset df acf s l s' : sstep df acf s l s' → reset s = true → reset s' = true.
Proof.
  intros Hstep Hr. destruct Hstep as [s s' str fin n _ H|s s' v fin e H|s s' c n pd o _ _ H|
    s s' d o _ _ H|s s' flags d o H|s s' lv d H|s s' lv e H|s s' flags code o H|s s' code o H|]; auto.
  - rewrite enqueue_eq, Hr in H. done.
  - rewrite enqueue_eq in H. by repeat case_match; simplify_eq.
  - revert H. unfold account_sent. run. repeat case_match; intros; by simplify_eq/=.
  - revert H. unfold acked_data. run. case_match. intros; by simplify_eq/=.
  - revert H. unfold recv_data. run. repeat case_match; intros; by simplify_eq/=.
  - apply read_nonblock_frame in H as (_ & _ & _ & -> & _). done.
  - apply read_nonblock_frame in H as (_ & _ & _ & -> & _). done.
  - revert H. unfold mark_closed. run. repeat case_match; intros; by simplify_eq/=.
  - apply mark_reset_spec in H as (_ & _ & _ & _ & _ & _ & ? & _). done.
Qed.
Lemma strace_reset df acf s ls s' : strace df acf s ls s' → reset s = true → reset s' = true.
Proof. induction 1; eauto using sstep_reset. Qed.

(** Histories that neither write nor frame leave the unsent bytes alone. *)
Definition send_quiet (l : slabel) : Prop :=
  match l with LWrite _ _ | LFrame _ _ => False | _ => True end.

Lemma sstep_send_quiet df acf s l s' :
  wf_stream s → sstep df acf s l s' → send_quiet l →
  wf_stream s' ∧ unsent s' = unsent s ∧ fin_sent s' = fin_sent s ∧ fin_flushed s' = fin_flushed s.
Proof.
  assert (Hsame : ∀ s s', wf_stream s → same_send s s' →
    wf_stream s' ∧ unsent s' = unsent s ∧ fin_sent s' = fin_sent s ∧ fin_flushed s' = fin_flushed s).
  { intros s0 s0' Hwf0 Hss. split_and!; [by eapply wf_same_send|by apply unsent_same_send|apply Hss..]. }
  intros Hwf Hstep Hq. destruct Hstep; simpl in Hq; try done.
  - rewrite enqueue_eq in H. by repeat case_match; simplify_eq.
  - pose proof (acked_data_unsent _ _ _ _ Hwf H H0 H1).
    destruct (acked_data_spec _ _ _ _ Hwf H H0 H1) as (_ & ? & _ & _ & _ & _ & _ & ? & ? & _). done.
  - apply recv_data_spec in H as (_ & ? & _). by apply Hsame.
  - apply read_nonblock_frame in H as (? & _). by apply Hsame.
  - apply read_nonblock_frame in H as (? & _). by apply Hsame.
  - apply mark_closed_spec in H as (_ & ? & _). by apply Hsame.
  - apply mark_reset_spec in H as (_ & ? & _). by apply Hsame.
  - by apply Hsame.
Qed.

Lemma strace_send_quiet df acf s ls s' :
  wf_stream s → strace df acf s ls s' → Forall send_quiet ls →
  wf_stream s' ∧ unsent s' = unsent s ∧ fin_sent s' = fin_sent s ∧ fin_flushed s' = fin_flushed s.
Proof.
  intros Hwf Htr. revert Hwf. induction Htr as [|s l s1 ls s2 Hstep _ IH]; intros Hwf.
  - done.
  - intros [Hq Hqs]%Forall_cons.
    destruct (sstep_send_quiet _ _ _ _ _ Hwf Hstep Hq) as (Hwf1 & <- & <- & <-). by apply IH.
Qed.

(** ** The code's own steps

    [sstep] says what a step shows and may assume of the choice of bytes only
    that it is a good one.  Here the choice is the code's: a stream comes with
    the choice [quic_client_pick_send_stream] made on it, if a [write_pkt] is
    under way, which [account_sent] then uses up.  Between the two only ngtcp2's
    callbacks can run. *)
Section code.
Context (data_fin app_code_flag : Z).

Inductive cstep : stream * option send_choice → slabel → stream * option send_choice → Prop :=
  | KWrite s s' v fin n :
      total s + zlen (string_bytes v) < 2 ^ 64 →
      quic_stream_enqueue v fin s = (Ret n, s') →
      cstep (s, None) (LWrite (string_bytes v) fin) (s', None)
  | KWriteRaise s s' v fin e :
      quic_stream_enqueue v fin s = (Raise e, s') → cstep (s, None) LTau (s', None)
  | KCloseWrite s s' v :
      total s < 2 ^ 64 → quic_stream_close_write_m s = (Ret v, s') →
      cstep (s, None) (if fin_sent s then LTau else LWrite [] true) (s', None)
  | KCloseWriteRaise s s' e :
      quic_stream_close_write_m s = (Raise e, s') → cstep (s, None) LTau (s', None)
  | KPick s : cstep (s, None) LTau (s, choose_send s)
  | KSent s s' c n pd o :
      pd ≤ zlen (default [] (sc_data c)) → account_sent c n pd s = (o, s') →
      cstep (s, Some c)
        (LFrame (ztake (Z.max 0 pd) (default [] (sc_data c)))
                (sc_fin c && match sc_data c with
                             | Some d => (0 <? pd) && (pd =? zlen d)
                             | None => (0 <? n) && (pd =? 0)
                             end)) (s', None)
  | KNotSent s c : cstep (s, Some c) LTau (s, None)
  | KAck s s' p d o :
      0 ≤ d → acked_offset s + d ≤ sent_offset s →
      acked_data d s = (o, s') → cstep (s, p) (LAck d) (s', p)
  | KRecv s s' p flags d o :
      recv_data flags data_fin d s = (o, s') →
      cstep (s, p) (LRecv d (has_flag flags data_fin)) (s', p)
  | KClose s s' p flags code o :
      mark_closed flags app_code_flag code s = (o, s') → cstep (s, p) LTau (s', p)
  | KReset s s' p code o :
      mark_reset code s = (o, s') → cstep (s, p) LTau (s', p)
  | KQueue s p : cstep (s, p) LTau (set_accept_queued true s, p)
  | KRead s s' lv d :
      quic_stream_read_nonblock_m lv s = (Ret d, s') → cstep (s, None) (LRead d) (s', None)
  | KReadRaise s s' lv e :
      quic_stream_read_nonblock_m lv s = (Raise e, s') → cstep (s, None) LTau (s', None)
  | KResetFlag s : cstep (s, None) LTau (set_reset true s, None).

Inductive ctrace : stream * option send_choice → list slabel → stream * option send_choice → Prop :=
  | ctrace_nil x : ctrace x [] x
  | ctrace_cons x l x1 ls x2 : cstep x l x1 → ctrace x1 ls x2 → ctrace x (l :: ls) x2.

(** A pending choice is still a good one. *)
Definition pending_ok (x : stream * option send_choice) : Prop :=
  match x.2 with Some c => choice_ok x.1 c | None => True end.

Lemma choice_ok_same s s' c :
  unsent s' = unsent s → fin_sent s' = fin_sent s → fin_flushed s' = fin_flushed s →
  choice_ok s c → choice_ok s' c.
Proof. unfold choice_ok. by intros -> -> ->. Qed.

Lemma tau_refl s : sstep data_fin app_code_flag s LTau s.
Proof. by apply CLocal. Qed.

Lemma close_write_cases s :
  quic_stream_close_write_m s =
    if fin_sent s then (Ret VNil, s)
    else if reset s || closed s then (Raise (Exn rb_eQuicErrorStreamClosed None), s)
    else (Ret VNil, enqueued [] true s).
Proof.
  unfold quic_stream_close_write_m, mbind, act_bind, get. destruct (fin_sent s) eqn:Hf; [done|].
  rewrite enqueue_eq, Hf, orb_false_r. by destruct (reset s || closed s).
Qed.

(** Every step of the code is a step of [sstep]. *)
Lemma cstep_sstep x l x' :
  wf_stream x.1 → pending_ok x → cstep x l x' →
  sstep data_fin app_code_flag x.1 l x'.1 ∧ pending_ok x'.
Proof.
  intros Hwf Hok Hstep.
  assert (Hkeep : ∀ s s' p l, wf_stream s → sstep data_fin app_code_flag s l s' → send_quiet l →
    pending_ok (s, p) → sstep data_fin app_code_flag s l s' ∧ pending_ok (s', p)).
  { intros s s' [c|] l0 Hw Hs Hq Hp; (split; [done|]); [|done].
    destruct (sstep_send_quiet _ _ _ _ _ Hw Hs Hq) as (_ & Hu & Hf & Hff).
    by apply (choice_ok_same s). }
  destruct Hstep; simpl in *.
  - destruct v as [| | | |str| |]; try (by rewrite enqueue_eq in H0; repeat case_match).
    split; [by eapply CWrite|done].
  - split; [by eapply CWriteRaise|done].
  - split; [|done]. rewrite close_write_cases in H0. destruct (fin_sent s) eqn:Hf.
    + injection H0 as _ <-. apply tau_refl.
    + destruct (reset s || closed s) eqn:Hg; [done|]. injection H0 as _ <-.
      apply (CWrite _ _ s _ (RString [] ASCII_8BIT false false) true 0); [by rewrite Z.add_0_r|].
      by rewrite enqueue_eq, Hf, Hg.
  - split; [|done]. rewrite close_write_cases in H.
    destruct (fin_sent s); [done|]. destruct (reset s || closed s); [|done].
    injection H as _ <-. apply tau_refl.
  - split; [apply tau_refl|]. unfold pending_ok. simpl.
    destruct (choose_send s) as [c|] eqn:Hc; [|done]. by apply (choose_send_ok s c).
  - split; [by eapply CFrame|done].
  - split; [apply tau_refl|done].
  - apply Hkeep; [done|by eapply CAck|done|done].
  - apply Hkeep; [done|by eapply CRecv|done|done].
  - apply Hkeep; [done|by eapply CClose|done|done].
  - apply Hkeep; [done|by eapply CReset|done|done].
  - apply Hkeep; [done|by apply CLocal|done|done].
  - split; [by eapply CRead|done].
  - split; [by eapply CReadRaise|done].
  - split; [by apply CLocal|done].
Qed.

Lemma ctrace_simulated sp x ls x' :
  absr sp x.1 → pending_ok x → ctrace x ls x' →
  strace data_fin app_code_flag x.1 ls x'.1 ∧ ∃ sp', spec_trace sp ls sp' ∧ absr sp' x'.1.
Proof.
  intros Habs Hok Htr. revert sp Habs Hok.
  induction Htr as [x|x l x1 ls x2 Hstep _ IH]; intros sp Habs Hok.
  - split; [constructor|]. exists sp. split; [constructor|done].
  - destruct (cstep_sstep _ _ _ (ab_wf _ _ Habs) Hok Hstep) as [Hs Hok1].
    destruct (sstep_simulated _ _ _ _ _ _ Habs Hs) as (sp1 & Hsp & Habs1).
    destruct (IH _ Habs1 Hok1) as (Htr2 & sp2 & Hspt & Habs2).
    split; [by econstructor|]. exists sp2. split; [by econstructor|done].
Qed.
End code.

(** ** Theorems *)

(** C3: (refinement) Whatever sequence of operations the code performs on a
    stream — #write, #close_write, the choice of the bytes to send and the
    accounting of what was framed, acks, receives, #read_nonblock, close and
    reset — the abstract two-pipe stream can perform the same sequence with
    the same labels and stays related to it. *)
Theorem stream_refines_pipe df acf sp s ls s' p' :
  absr sp s → ctrace df acf (s, None) ls (s', p') →
  ∃ sp', spec_trace sp ls sp' ∧ absr sp' s'.
Proof.
  intros Habs Htr.
  destruct (ctrace_simulated _ _ _ (s, None) _ _ Habs I Htr) as (_ & sp' & ? & ?). eauto.
Qed.

(** C4: (retransmission safety) ngtcp2 keeps pointers into the Chunks until
    they are acked; along every history the Chunks still queued hold every
    byte past the acked offset, so no unacked byte is ever dropped. *)
Theorem unacked_bytes_retained df acf id client ls s' :
  strace df acf (quic_stream_new id client) ls s' →
  acks ls ≤ zlen (frames ls) ∧ pending_shifted s' ≤ acks ls ∧
  zdrop (acks ls - pending_shifted s') (concat (iv_pending_chunks s')) =
    zdrop (acks ls) (written ls).
Proof.
  intros Htr.
  destruct (strace_simulated _ _ _ _ _ _ (absr_new id client) Htr) as (sp' & _ & Habs & Hinv).
  destruct (ab_wf _ _ Habs) as [Hsh Hle ? ? ? ? ?].
  destruct Hinv as [HW _ HF HA _ _ _]; simpl in *.
  rewrite <- (ab_framed _ _ Habs), <- (ab_acked _ _ Habs), HF, HA in *.
  split_and!; [lia|lia|]. rewrite (ab_pending _ _ Habs), HW, zdrop_zdrop by lia.
  simpl. f_equal. lia.
Qed.

(** A history: write "ab", frame one byte, receive "hi", ack, write "c" with
    FIN, frame the rest of each Chunk, read one byte. *)
Definition str (b : bytes) : rstring := RString b ASCII_8BIT false false.
Definition demo_labels : list slabel :=
  [LWrite ["a"; "b"]%byte false; LTau; LFrame ["a"]%byte false; LRecv ["h"; "i"]%byte true;
   LAck 1; LWrite ["c"]%byte true; LTau; LFrame ["b"]%byte false; LTau; LFrame ["c"]%byte true;
   LRead ["h"]%byte].
Definition demo0 : stream := quic_stream_new 4 None.
Definition demo1 : stream := Eval cbv in (quic_stream_enqueue (VStr (str ["a"; "b"]%byte)) false demo0).2.
Definition choice (s : stream) : send_choice := default (SendChoice None false 0) (choose_send s).
Definition demo2 : stream := Eval cbv in (account_sent (choice demo1) 60 1 demo1).2.
Definition demo3 : stream := Eval cbv in (recv_data 1 1 ["h"; "i"]%byte demo2).2.
Definition demo4 : stream := Eval cbv in (acked_data 1 demo3).2.
Definition demo5 : stream := Eval cbv in (quic_stream_enqueue (VStr (str ["c"]%byte)) true demo4).2.
Definition demo6 : stream := Eval cbv in (account_sent (choice demo5) 60 1 demo5).2.
Definition demo7 : stream := Eval cbv in (account_sent (choice demo6) 60 1 demo6).2.
Definition demo_end : stream := Eval cbv in (quic_stream_read_nonblock_m (VInt 1) demo7).2.

Lemma demo_ctrace : ctrace 1 1 (demo0, None) demo_labels (demo_end, None).
Proof.
  apply (ctrace_cons 1 1 _ _ (demo1, None)).
  { by apply (KWrite 1 1 demo0 demo1 (VStr (str ["a"; "b"]%byte)) false 2). }
  apply (ctrace_cons 1 1 _ _ (demo1, Some (choice demo1))).
  { apply (KPick 1 1 demo1). }
  apply (ctrace_cons 1 1 _ _ (demo2, None)).
  { by apply (KSent 1 1 demo1 demo2 (choice demo1) 60 1 (Ret tt)). }
  apply (ctrace_cons 1 1 _ _ (demo3, None)).
  { by apply (KRecv 1 1 demo2 demo3 None 1 ["h"; "i"]%byte (Ret tt)). }
  apply (ctrace_cons 1 1 _ _ (demo4, None)).
  { by apply (KAck 1 1 demo3 demo4 None 1 (Ret tt)). }
  apply (ctrace_cons 1 1 _ _ (demo5, None)).
  { by apply (KWrite 1 1 demo4 demo5 (VStr (str ["c"]%byte)) true 1). }
  apply (ctrace_cons 1 1 _ _ (demo5, Some (choice demo5))).
  { apply (KPick 1 1 demo5). }
  apply (ctrace_cons 1 1 _ _ (demo6, None)).
  { by apply (KSent 1 1 demo5 demo6 (choice demo5) 60 1 (Ret tt)). }
  apply (ctrace_cons 1 1 _ _ (demo6, Some (choice demo6))).
  { apply (KPick 1 1 demo6). }
  apply (ctrace_cons 1 1 _ _ (demo7, None)).
  { by apply (KSent 1 1 demo6 demo7 (choice demo6) 60 1 (Ret tt)). }
  apply (ctrace_cons 1 1 _ _ (demo_end, None)).
  { by apply (KRead 1 1 demo7 demo_end (VInt 1)). }
  apply ctrace_nil.
Qed.

Lemma demo_trace : strace 1 1 demo0 demo_labels demo_end.
Proof.
  apply (ctrace_simulated 1 1 spec_new (demo0, None) demo_labels (demo_end, None));
    [apply absr_new|done|apply demo_ctrace].
Qed.

Lemma stream_refines_pipe_witness :
  ∃ sp', spec_trace spec_new demo_labels sp' ∧ absr sp' demo_end.
Proof.
  apply (stream_refines_pipe 1 1 spec_new demo0 demo_labels demo_end None).
  - apply absr_new.
  - exact demo_ctrace.
Defined.

Lemma unacked_bytes_retained_witness :
  acks demo_labels ≤ zlen (frames demo_labels) ∧ pending_shifted demo_end ≤ acks demo_labels ∧
  zdrop (acks demo_labels - pending_shifted demo_end) (concat (iv_pending_chunks demo_end)) =
    zdrop (acks demo_labels) (written demo_labels).
Proof. apply (unacked_bytes_retained 1 1 4 None demo_labels demo_end demo_trace). Defined.
