(* ===== verification/Client.v ===== *)
(** * Quic::Connection::Client: state, callbacks and packet I/O
    (ext/quic/connection_client.c)

    The world of one client: the ngtcp2 connection, the Ruby heap of streams,
    the client's instance variables and the outside.  Every C function is a
    computation in [clientM]; the ones that write into a String of the caller
    thread that String as well. *)
From S2P Require Import Prelude Ngtcp2 Errors Ruby Stream.

(** ** State *)

(** [w_self] is where the Client object lives, [w_owner] the C struct's
    [owner] field; [w_streams], [w_accept_queue], [w_sock] and
    [w_pump_remote] are the instance variables [@streams], [@accept_queue],
    [@sock] and [@pump_remote_sockaddr]. *)
Record world (C E : Type) := World {
  w_conn : C;
  w_env : E;
  w_heap : gmap loc stream;
  w_self : loc;
  w_owner : loc;
  w_streams : list (Z * loc);
  w_accept_queue : list loc;
  w_sock : option loc;
  w_pump_remote : option bytes;
}.
Arguments World {C E}. Arguments w_conn {C E}. Arguments w_env {C E}.
Arguments w_heap {C E}. Arguments w_self {C E}. Arguments w_owner {C E}.
Arguments w_streams {C E}. Arguments w_accept_queue {C E}. Arguments w_sock {C E}.
Arguments w_pump_remote {C E}.

Abbreviation clientM C E := (act exn (world C E)).

Section world.
Context {C E : Type}.
Definition set_w_conn (c : C) (w : world C E) : world C E :=
  World c (w_env w) (w_heap w) (w_self w) (w_owner w) (w_streams w) (w_accept_queue w) (w_sock w)
    (w_pump_remote w).
Definition set_w_env (e : E) (w : world C E) : world C E :=
  World (w_conn w) e (w_heap w) (w_self w) (w_owner w) (w_streams w) (w_accept_queue w) (w_sock w)
    (w_pump_remote w).
Definition set_w_heap (h : gmap loc stream) (w : world C E) : world C E :=
  World (w_conn w) (w_env w) h (w_self w) (w_owner w) (w_streams w) (w_accept_queue w) (w_sock w)
    (w_pump_remote w).
Definition set_w_streams (m : list (Z * loc)) (w : world C E) : world C E :=
  World (w_conn w) (w_env w) (w_heap w) (w_self w) (w_owner w) m (w_accept_queue w) (w_sock w)
    (w_pump_remote w).
Definition set_w_accept_queue (q : list loc) (w : world C E) : world C E :=
  World (w_conn w) (w_env w) (w_heap w) (w_self w) (w_owner w) (w_streams w) q (w_sock w)
    (w_pump_remote w).
Definition set_w_sock (k : option loc) (w : world C E) : world C E :=
  World (w_conn w) (w_env w) (w_heap w) (w_self w) (w_owner w) (w_streams w) (w_accept_queue w) k
    (w_pump_remote w).

Definition set_w_pump_remote (a : option bytes) (w : world C E) : world C E :=
  World (w_conn w) (w_env w) (w_heap w) (w_self w) (w_owner w) (w_streams w) (w_accept_queue w)
    (w_sock w) a.

(** Run a stream operation on the Stream at [l] ([TypedData_Get_Struct]
    raises TypeError on anything else). *)
Definition with_stream {A} (l : loc) (m : streamM A) : clientM C E A := λ w,
  match w_heap w !! l with
  | Some s => let '(o, s') := m s in (o, set_w_heap (<[l := s']> (w_heap w)) w)
  | None => (Raise (Exn TypeError None), w)
  end.

(** Read the Stream at [l]. *)
Definition get_stream (l : loc) : clientM C E stream := λ w,
  match w_heap w !! l with
  | Some s => (Ret s, w)
  | None => (Raise (Exn TypeError None), w)
  end.

(** Allocate a Stream object. *)
Definition new_stream (s : stream) : clientM C E loc := λ w,
  let l := fresh (dom (w_heap w)) in (Ret l, set_w_heap (<[l := s]> (w_heap w)) w).

(** The callbacks reach [@streams] and [@accept_queue] through [c->owner]:
    a stale pointer is undefined behaviour. *)
Definition owner_ivars : clientM C E loc :=
  w ← get;
  if decide (w_owner w = w_self w) then mret (w_owner w) else rb_raise UndefinedBehaviour.

(** [rb_gc_location] for every reference the Ruby heap holds, as compaction
    moves objects, and [quic_client_compact] for the one in the C struct. *)
Definition move_stream (f : loc → loc) (s : stream) : stream :=
  Stream (stream_id s) (sent_offset s) (acked_offset s) (pending_shifted s) (fin_received s)
    (fin_sent s) (fin_flushed s) (reset s) (closed s) (close_app_error_code s)
    (close_has_app_error_code s) (accept_queued s) (iv_id s) (f <$> iv_client s)
    (iv_pending_chunks s) (iv_recv_buffer s).
Definition quic_client_compact (f : loc → loc) (w : world C E) : world C E :=
  World (w_conn w) (w_env w) (w_heap w) (w_self w) (f (w_owner w)) (w_streams w)
    (w_accept_queue w) (w_sock w)
    (w_pump_remote w).
Definition gc_compact (f : loc → loc) (w : world C E) : world C E :=
  quic_client_compact f
    (World (w_conn w) (w_env w) (kmap f (move_stream f <$> w_heap w)) (f (w_self w)) (w_owner w)
      (prod_map id f <$> w_streams w) (f <$> w_accept_queue w) (f <$> w_sock w) (w_pump_remote w)).
End world.

Section client.
Context {C E : Type} `{NC : NgConst} `{NG : Ngtcp2 C} `{SY : Sys E}.

(** ** Time *)
Definition quic_now : clientM C E Z := λ w,
  let '((sec, nsec), e') := clock_gettime (w_env w) in
  (Ret (u64 (u64 (u64 sec * NGTCP2_SECONDS) + u64 nsec)), set_w_env e' w).

(** ** Stream callbacks *)
Definition quic_client_lookup_stream (stream_id : Z) : clientM C E (option loc) :=
  owner_ivars;; gets (λ w, rb_hash_aref (w_streams w) stream_id).

Definition register_stream (stream_id : Z) (l : loc) : clientM C E unit :=
  modify (λ w, set_w_streams (rb_hash_aset (w_streams w) stream_id l) w).

Definition quic_stream_open_cb (stream_id : Z) : clientM C E Z :=
  owner ← owner_ivars;
  known ← gets (λ w, rb_hash_aref (w_streams w) stream_id);
  match known with
  | Some _ => mret 0
  | None =>
    stream ← new_stream (quic_stream_new stream_id (Some owner));
    register_stream stream_id stream;;
    mret 0
  end.

(** Lines 235-242: the first data of a server stream queues it. *)
Definition accept_push (stream_id : Z) (l : loc) : clientM C E unit :=
  s ← get_stream l;
  if negb (accept_queued s) && Z.odd stream_id then
    modify (λ w, set_w_accept_queue (w_accept_queue w ++ [l]) w);;
    with_stream l (modify (set_accept_queued true))
  else mret tt.

Definition quic_recv_stream_data_cb (flags stream_id offset : Z) (data : bytes) : clientM C E Z :=
  stream ← quic_client_lookup_stream stream_id;
  match stream with
  | None => mret 0
  | Some l =>
    accept_push stream_id l;;
    with_stream l (recv_data flags NGTCP2_STREAM_DATA_FLAG_FIN data);;
    mret 0
  end.

Definition quic_acked_stream_data_offset_cb (stream_id offset datalen : Z) : clientM C E Z :=
  stream ← quic_client_lookup_stream stream_id;
  match stream with
  | None => mret 0
  | Some l => with_stream l (acked_data datalen);; mret 0
  end.

Definition quic_stream_close_cb (flags stream_id app_error_code : Z) : clientM C E Z :=
  stream ← quic_client_lookup_stream stream_id;
  match stream with
  | None => mret 0
  | Some l =>
    with_stream l
      (mark_closed flags NGTCP2_STREAM_CLOSE_FLAG_APP_ERROR_CODE_SET app_error_code);;
    modify (λ w, set_w_streams (rb_hash_delete (w_streams w) stream_id) w);;
    mret 0
  end.

Definition quic_stream_reset_cb (stream_id final_size app_error_code : Z) : clientM C E Z :=
  stream ← quic_client_lookup_stream stream_id;
  match stream with
  | None => mret 0
  | Some l => with_stream l (mark_reset app_error_code);; mret 0
  end.

(** The callback table of [quic_client_open], and the callbacks one ngtcp2
    call makes, in order.  ngtcp2 stops at the first that fails, and would
    then return NGTCP2_ERR_CALLBACK_FAILURE; in a well-formed client none
    fails ([Runs.callbacks_never_fail]), so that result is not modelled. *)
Definition run_callback (ev : cb_event) : clientM C E Z :=
  match ev with
  | CbStreamOpen id => quic_stream_open_cb id
  | CbRecvStreamData flags id offset data => quic_recv_stream_data_cb flags id offset data
  | CbAckedStreamDataOffset id offset datalen => quic_acked_stream_data_offset_cb id offset datalen
  | CbStreamClose flags id code => quic_stream_close_cb flags id code
  | CbStreamReset id final_size code => quic_stream_reset_cb id final_size code
  end.

Fixpoint run_callbacks (evs : list cb_event) : clientM C E unit :=
  match evs with
  | [] => mret tt
  | ev :: evs =>
    rv ← run_callback ev;
    if rv =? 0 then run_callbacks evs else mret tt
  end.

(** ** Opening streams *)
Definition open_stream (open : C → C * Z * Z) : clientM C E loc :=
  w ← get;
  let '(c', rv, stream_id) := open (w_conn w) in
  modify (set_w_conn c');;
  if negb (rv =? 0) then quic_raise_ngtcp2_error rv
  else
    stream ← new_stream (quic_stream_new stream_id (Some (w_self w)));
    register_stream stream_id stream;;
    mret stream.

Definition quic_client_open_bidi_stream : clientM C E loc := open_stream ngtcp2_conn_open_bidi_stream.
Definition quic_client_open_uni_stream : clientM C E loc := open_stream ngtcp2_conn_open_uni_stream.

(** ** Writing packets *)
Definition QUIC_WRITE_PKT_BUFLEN : Z := 1200.

Fixpoint pick_loop (stream_values : list loc) : clientM C E (option (loc * send_choice)) :=
  match stream_values with
  | [] => mret None
  | l :: rest =>
    s ← get_stream l;
    match choose_send s with
    | Some c => mret (Some (l, c))
    | None => pick_loop rest
    end
  end.

Definition quic_client_pick_send_stream : clientM C E (option (loc * send_choice)) :=
  w ← get; pick_loop (rb_hash_values (w_streams w)).

(** The arguments of [ngtcp2_conn_writev_stream]: flags, stream id, data. *)
Definition writev_args (selected : option (loc * send_choice)) : Z * Z * option bytes :=
  match selected with
  | Some (_, c) =>
    (if sc_fin c then NGTCP2_WRITE_STREAM_FLAG_FIN else 0, sc_stream_id c, sc_data c)
  | None => (0, -1, None)
  end.

(** The call, with the callbacks it makes: [n], [*pdatalen], packet. *)
Definition call_writev (selected : option (loc * send_choice)) : clientM C E (Z * Z * bytes) :=
  let '(flags, stream_id, data) := writev_args selected in
  now ← quic_now;
  w ← get;
  let r := ngtcp2_conn_writev_stream (w_conn w) flags stream_id data QUIC_WRITE_PKT_BUFLEN now in
  modify (set_w_conn (wv_conn r));;
  run_callbacks (wv_events r);;
  mret (wv_n r, wv_pdatalen r, wv_pkt r).

Definition account_selected (selected : option (loc * send_choice)) (n pdatalen : Z) :
    clientM C E unit :=
  match selected with
  | Some (l, c) => with_stream l (account_sent c n pdatalen)
  | None => mret tt
  end.

(** [quic_client_write_pkt] once it has a buffer: [true] when it returns the
    buffer, [false] when it returns nil. *)
Definition write_pkt_into : act exn (world C E * rstring) bool :=
  selected ← on_fst quic_client_pick_send_stream;
  r ← on_fst (call_writev selected);
  let '(n, pdatalen, pkt) := r in
  if n <? 0 then
    on_snd (rb_str_set_len 0);;
    quic_raise_ngtcp2_error (i32 n)
  else
    on_snd (c_poke pkt);;
    on_fst (account_selected selected n pdatalen);;
    if n =? 0 then on_snd (rb_str_set_len 0);; mret false
    else on_snd (rb_str_set_len n);; mret true.

(** The checks on a caller-supplied buffer. *)
Definition prepare_buffer : act exn rstring unit :=
  s ← get;
  if negb (bool_decide (rs_enc s = ASCII_8BIT)) then rb_raise ArgumentError
  else if zlen (rs_bytes s) <? QUIC_WRITE_PKT_BUFLEN then rb_str_modify_expand
  else mret tt.

(** What the call gives back: its outcome, the caller's argument object
    afterwards, and the world. *)
Record io_result := IoResult {
  io_out : outcome exn value;
  io_arg : value;
  io_world : world C E;
}.

Definition io_finish (buf : bool) (r : outcome exn bool * (world C E * rstring)) : io_result :=
  let '(o, (w, s)) := r in
  IoResult
    match o with
    | Ret true => Ret (VStr s)
    | Ret false => Ret VNil
    | Raise e => Raise e
    | Diverge => Diverge
    end
    (if buf then VStr s else VNil) w.

Definition quic_client_write_pkt (buffer : value) (w : world C E) : io_result :=
  match buffer with
  | VNil => io_finish false (write_pkt_into (w, rb_str_buf_new))
  | VStr s => io_finish true ((on_snd prepare_buffer;; write_pkt_into) (w, s))
  | _ => IoResult (Raise (Exn TypeError None)) buffer w
  end.

(** ** Reading packets *)
Definition quic_require_binary {S} (v : value) : act exn S rstring :=
  s ← check_string v;
  if bool_decide (rs_enc s = ASCII_8BIT) then mret s else rb_raise ArgumentError.

Definition quic_read_pkt_body (path : ngtcp2_path) : act exn (world C E * rstring) unit :=
  now ← on_fst quic_now;
  ws ← get;
  let '(c', evs, rv) := ngtcp2_conn_read_pkt (w_conn ws.1) path (rs_bytes ws.2) now in
  on_fst (modify (set_w_conn c');; run_callbacks evs);;
  if negb (rv =? 0) then quic_raise_ngtcp2_error rv else mret tt.

Definition quic_read_pkt_unlock : act exn (world C E * rstring) unit := on_snd rb_str_unlocktmp.

Definition read_pkt_locked (path : ngtcp2_path) : act exn (world C E * rstring) bool :=
  on_snd rb_str_locktmp;;
  ensure (quic_read_pkt_body path) quic_read_pkt_unlock;;
  mret false.

(** The argument checks, in the order the code makes them. *)
Definition read_pkt_args {S} (packet : value) (opts : kwargs) :
    act exn S (rstring * ngtcp2_path) :=
  match opts with
  | None => rb_raise ArgumentError
  | Some opts =>
    let local_sockaddr := kwarg opts "local_sockaddr" in
    let remote_sockaddr := kwarg opts "remote_sockaddr" in
    if NIL_P local_sockaddr || NIL_P remote_sockaddr then rb_raise ArgumentError
    else
      packet ← quic_require_binary packet;
      local ← quic_require_binary local_sockaddr;
      remote ← quic_require_binary remote_sockaddr;
      mret (packet, Path (rs_bytes local) (rs_bytes remote))
  end.

Definition quic_client_read_pkt (packet : value) (opts : kwargs) (w : world C E) : io_result :=
  match read_pkt_args packet opts w with
  | (Ret (s, path), w) => io_finish true (read_pkt_locked path (w, s))
  | (Raise e, w) => IoResult (Raise e) packet w
  | (Diverge, w) => IoResult Diverge packet w
  end.

(** ** Queries and timers *)
Definition quic_client_handshake_completed_p : clientM C E bool :=
  gets (λ w, ngtcp2_conn_get_handshake_completed (w_conn w)).
Definition quic_client_in_closing_period_p : clientM C E bool :=
  gets (λ w, ngtcp2_conn_in_closing_period (w_conn w)).
Definition quic_client_in_draining_period_p : clientM C E bool :=
  gets (λ w, ngtcp2_conn_in_draining_period (w_conn w)).

(** nil ([None]) when ngtcp2 has no timer armed. *)
Definition quic_client_expiry : clientM C E (option Z) :=
  w ← get;
  let t := ngtcp2_conn_get_expiry (w_conn w) in
  mret (if t =? UINT64_MAX then None else Some t).

Definition quic_client_handle_expiry : clientM C E unit :=
  now ← quic_now;
  w ← get;
  let '(c', evs, rv) := ngtcp2_conn_handle_expiry (w_conn w) now in
  modify (set_w_conn c');;
  run_callbacks evs;;
  if negb (rv =? 0) then quic_raise_ngtcp2_error rv else mret tt.

(** ** Closing *)

(** The [error_code:] and [reason:] keywords. *)
Definition close_args {S} (opts : kwargs) : act exn S (Z * bytes) :=
  match opts with
  | None => mret (0, [])
  | Some opts =>
    let error_code_v := kwarg opts "error_code" in
    let reason_v := kwarg opts "reason" in
    error_code ← (if NIL_P error_code_v then mret 0 else NUM2ULL error_code_v);
    reason ← (if NIL_P reason_v then mret [] else
                s ← check_string reason_v; mret (rs_bytes s));
    mret (error_code, reason)
  end.

Definition send_on (sock : loc) (pkt : bytes) : clientM C E unit := λ w,
  let '(ok, e') := sock_send sock pkt (w_env w) in
  (if (ok : bool) then Ret tt else Raise (Exn SystemCallError None), set_w_env e' w).

Definition quic_client_close_m (opts : kwargs) : clientM C E value :=
  args ← close_args opts;
  let '(error_code, reason) := args in
  w ← get;
  if ngtcp2_conn_in_closing_period (w_conn w) || ngtcp2_conn_in_draining_period (w_conn w)
  then mret VNil
  else
    match w_sock w with
    | None => rb_raise rb_eQuicErrorNotBound
    | Some sock =>
      now ← quic_now;
      w ← get;
      let '(c', n, pkt) :=
        ngtcp2_conn_write_connection_close (w_conn w) error_code reason QUIC_WRITE_PKT_BUFLEN now in
      modify (set_w_conn c');;
      if n =? NGTCP2_ERR_INVALID_STATE then mret VNil
      else if n <? 0 then quic_raise_ngtcp2_error (i32 n)
      else if n =? 0 then mret VNil
      else send_on sock (ztake n pkt);; mret VNil
    end.
End client.
