(* ===== verification/ClientInv.v ===== *)
(** * Well-formed clients

    The invariant that ties the registry [@streams], the accept queue, the
    heap of streams and ngtcp2's ledger together; the relation [evolves] that
    says how every stream moves during an operation; and the lemmas both are
    preserved by, for stream updates, registration and the callbacks. *)
From S2P Require Import Prelude Ngtcp2 Errors Ruby Stream StreamInv StreamSpec Client.

(** ** Visible labels *)
Definition is_vis (l : slabel) : bool := match l with LTau => false | _ => true end.
Definition visible (ls : list slabel) : list slabel := List.filter is_vis ls.

Lemma visible_app k l : visible (k ++ l) = visible k ++ visible l.
Proof. apply List.filter_app. Qed.

(** One location's labels. *)
Definition at_loc (l : loc) (ls : list slabel) : loc → list slabel :=
  λ l', if decide (l' = l) then ls else [].
Definition silent : loc → list slabel := λ _, [].

Section inv.
Context {C E : Type} `{NC : NgConst} `{NG : Ngtcp2 C} `{SY : Sys E}.
Implicit Types (w : world C E) (g : ledger).

(** ** The invariant *)

(** The stream registered under [id]. *)
Definition registered g (self : loc) (id : Z) (s : stream) : Prop :=
  stream_id s = id ∧ iv_id s = id ∧ iv_client s = Some self ∧ closed s = false ∧
  lg_opened g id = true ∧ sent_offset s = lg_sent g id ∧ acked_offset s = lg_acked g id.

Record wf_client g w : Prop := WfClient {
  wc_owner : w_owner w = w_self w;
  wc_streams : ∀ l s, w_heap w !! l = Some s → wf_stream s;
  wc_keys : NoDup (w_streams w).*1;
  wc_reg : ∀ id l, (id, l) ∈ w_streams w →
    ∃ s, w_heap w !! l = Some s ∧ registered g (w_self w) id s;
  wc_queue_nodup : NoDup (w_accept_queue w);
  wc_queue : ∀ l, l ∈ w_accept_queue w →
    ∃ s, w_heap w !! l = Some s ∧ accept_queued s = true ∧ Z.odd (stream_id s) = true;
  wc_unopened : ∀ id, lg_opened g id = false → lg_sent g id = 0 ∧ lg_acked g id = 0;
}.

#[export] Instance wf_client_proper : Proper ((≡) ==> (=) ==> iff) wf_client.
Proof.
  assert (Himp : ∀ g h w, g ≡ h → wf_client g w → wf_client h w).
  { intros g h w Hgh [? ? ? Hr ? ? Hu]. constructor; auto.
    - intros id l Hin. destruct (Hr id l Hin) as (s & ? & Hreg). exists s. split; [done|].
      unfold registered in *. destruct (Hgh id) as (Ho & Hs & Ha).
      by rewrite <- Ho, <- Hs, <- Ha.
    - intros id. destruct (Hgh id) as (<- & <- & <-). apply Hu. }
  intros g h Hgh w ? <-. split; apply Himp; [done|by symmetry].
Qed.

(** A stream has at most one id in the registry. *)
Lemma reg_unique g w id id' l :
  wf_client g w → (id, l) ∈ w_streams w → (id', l) ∈ w_streams w → id = id'.
Proof.
  intros Hwf Hin Hin'.
  destruct (wc_reg _ _ Hwf _ _ Hin) as (s & Hs & Hid & _).
  destruct (wc_reg _ _ Hwf _ _ Hin') as (s' & Hs' & Hid' & _). congruence.
Qed.

(** What the outside of the streams looks like: unchanged by callbacks. *)
Definition same_frame w w' : Prop :=
  w_conn w' = w_conn w ∧ w_env w' = w_env w ∧ w_self w' = w_self w ∧
  w_owner w' = w_owner w ∧ w_sock w' = w_sock w.
#[export] Instance same_frame_refl : Reflexive same_frame.
Proof. done. Qed.
#[export] Instance same_frame_trans : Transitive same_frame.
Proof. unfold same_frame. intros w1 w2 w3 ? ?. intuition congruence. Qed.

(** ** How streams move *)
Abbreviation strace_ng :=
  (strace NGTCP2_STREAM_DATA_FLAG_FIN NGTCP2_STREAM_CLOSE_FLAG_APP_ERROR_CODE_SET).
Abbreviation sstep_ng :=
  (sstep NGTCP2_STREAM_DATA_FLAG_FIN NGTCP2_STREAM_CLOSE_FLAG_APP_ERROR_CODE_SET).

(** The accept queue loses streams at the head and gets new ones at the tail,
    none that had been queued before. *)
Definition queue_moves w w' : Prop := ∃ k new,
  w_accept_queue w' = drop k (w_accept_queue w) ++ new ∧
  ∀ l s, l ∈ new → w_heap w !! l = Some s → accept_queued s = false.

(** Every stream of [w] goes, in [w'], through a history with the visible
    labels [L]; a stream created on the way starts as [quic_stream_new]. *)
Definition streams_evolve w (L : loc → list slabel) w' : Prop := ∀ l,
  match w_heap w !! l with
  | Some s => ∃ s' ls, w_heap w' !! l = Some s' ∧ strace_ng s ls s' ∧ visible ls = L l
  | None =>
    match w_heap w' !! l with
    | Some s' => ∃ id c ls, strace_ng (quic_stream_new id c) ls s' ∧ visible ls = L l
    | None => L l = []
    end
  end.
Definition evolves w L w' : Prop := streams_evolve w L w' ∧ queue_moves w w'.

Lemma strace_app df acf s ls s1 ls' s2 :
  strace df acf s ls s1 → strace df acf s1 ls' s2 → strace df acf s (ls ++ ls') s2.
Proof. induction 1; simpl; [done|]. intros. econstructor; eauto. Qed.

Lemma queue_moves_same w w' : w_accept_queue w' = w_accept_queue w → queue_moves w w'.
Proof. intros Hq. exists 0%nat, []. rewrite app_nil_r, Hq. split; [done|]. set_solver. Qed.

Lemma evolves_refl w : evolves w silent w.
Proof.
  split; [|by apply queue_moves_same]. intros l.
  destruct (w_heap w !! l) as [s|]; [|done]. exists s, []. split_and!; auto. constructor.
Qed.

Lemma streams_evolve_queued w L w' l s :
  streams_evolve w L w' → w_heap w !! l = Some s → accept_queued s = true →
  ∃ s', w_heap w' !! l = Some s' ∧ stream_id s' = stream_id s ∧ accept_queued s' = true.
Proof.
  intros Hev Hs Haq. specialize (Hev l). rewrite Hs in Hev.
  destruct Hev as (s' & ls & Hs' & [Hid Haq']%strace_identity & _). eauto.
Qed.

Lemma queue_moves_trans w L1 w1 w2 :
  streams_evolve w L1 w1 → queue_moves w w1 → queue_moves w1 w2 → queue_moves w w2.
Proof.
  intros Hev (k1 & n1 & Hq1 & Hn1) (k2 & n2 & Hq2 & Hn2).
  exists (k1 + k2)%nat, (drop (k2 - length (drop k1 (w_accept_queue w))) n1 ++ n2). split.
  - by rewrite Hq2, Hq1, drop_app, drop_drop, app_assoc.
  - intros l s [Hl%list_elem_of_drop|Hl]%elem_of_app Hs; [by eapply Hn1|].
    destruct (accept_queued s) eqn:Haq; [|done].
    destruct (streams_evolve_queued _ _ _ _ _ Hev Hs Haq) as (s1 & Hs1 & _ & Haq1).
    rewrite <- Haq1. by eapply Hn2.
Qed.

Lemma streams_evolve_trans w L1 w1 L2 w2 :
  streams_evolve w L1 w1 → streams_evolve w1 L2 w2 → streams_evolve w (λ l, L1 l ++ L2 l) w2.
Proof.
  intros H1 H2 l. specialize (H1 l). specialize (H2 l).
  destruct (w_heap w !! l) as [s|].
  - destruct H1 as (s1 & ls1 & Hs1 & Ht1 & <-). rewrite Hs1 in H2.
    destruct H2 as (s2 & ls2 & Hs2 & Ht2 & <-). exists s2, (ls1 ++ ls2).
    split_and!; [done|by eapply strace_app|apply visible_app].
  - destruct (w_heap w1 !! l) as [s1|].
    + destruct H1 as (id & c & ls1 & Ht1 & <-).
      destruct H2 as (s2 & ls2 & -> & Ht2 & <-). exists id, c, (ls1 ++ ls2).
      split; [by eapply strace_app|apply visible_app].
    + rewrite H1. destruct (w_heap w2 !! l); done.
Qed.

Lemma evolves_trans w L1 w1 L2 w2 :
  evolves w L1 w1 → evolves w1 L2 w2 → evolves w (λ l, L1 l ++ L2 l) w2.
Proof.
  intros [H1 Hq1] [H2 Hq2]. split; [by eapply streams_evolve_trans|by eapply queue_moves_trans].
Qed.

Lemma evolves_ext w L L' w' : (∀ l, L l = L' l) → evolves w L w' → evolves w L' w'.
Proof.
  intros HL [Hev Hq]. split; [|done]. intros l. specialize (Hev l). rewrite <- HL. done.
Qed.

(** Only the heap and the queue matter. *)
Lemma evolves_heap w L w1 w1' :
  w_heap w1' = w_heap w1 ∧ w_accept_queue w1' = w_accept_queue w1 →
  evolves w L w1 → evolves w L w1'.
Proof.
  intros [Hh Hq] [Hev Hm]. split; [|unfold queue_moves; by rewrite Hq].
  intros l. specialize (Hev l). by rewrite Hh.
Qed.
Lemma evolves_heap_l w w' L w1 :
  w_heap w' = w_heap w → w_accept_queue w' = w_accept_queue w →
  evolves w L w1 → evolves w' L w1.
Proof.
  intros Hh Hq [Hev Hm]. split; [|unfold queue_moves; by rewrite Hq, Hh].
  intros l. specialize (Hev l). by rewrite Hh.
Qed.

(** One stream takes one step. *)
Lemma streams_evolve_step w l s lbl s' :
  w_heap w !! l = Some s → sstep_ng s lbl s' →
  streams_evolve w (at_loc l (visible [lbl])) (set_w_heap (<[l := s']> (w_heap w)) w).
Proof.
  intros Hs Hstep l'. unfold at_loc. simpl. destruct (decide (l' = l)) as [->|Hne].
  - rewrite Hs, lookup_insert_eq. exists s', [lbl].
    split_and!; auto. eapply strace_cons; [done|constructor].
  - rewrite lookup_insert_ne by done. destruct (w_heap w !! l') as [s0|]; [|done].
    exists s0, []. split_and!; auto. constructor.
Qed.
Lemma evolves_step w l s lbl s' :
  w_heap w !! l = Some s → sstep_ng s lbl s' →
  evolves w (at_loc l (visible [lbl])) (set_w_heap (<[l := s']> (w_heap w)) w).
Proof. intros. split; [by eapply streams_evolve_step|by apply queue_moves_same]. Qed.

(** A stream is marked and queued. *)
Lemma evolves_push w l s :
  w_heap w !! l = Some s → accept_queued s = false →
  evolves w silent
    (set_w_heap (<[l := set_accept_queued true s]> (w_heap w))
       (set_w_accept_queue (w_accept_queue w ++ [l]) w)).
Proof.
  intros Hs Hnq. split.
  - assert (Hstep : sstep_ng s LTau (set_accept_queued true s)) by (by apply CLocal).
    pose proof (streams_evolve_step _ _ _ _ _ Hs Hstep) as Hev.
    intros l'. specialize (Hev l'). unfold at_loc in Hev. by case_decide.
  - exists 0%nat, [l]. split; [done|]. intros l' s'. rewrite list_elem_of_singleton.
    intros ->. congruence.
Qed.

(** A stream is created. *)
Lemma evolves_new w l id c :
  w_heap w !! l = None →
  evolves w silent (set_w_heap (<[l := quic_stream_new id c]> (w_heap w)) w).
Proof.
  intros Hl. split; [|by apply queue_moves_same]. intros l'. unfold silent. simpl.
  destruct (decide (l' = l)) as [->|Hne].
  - rewrite Hl, lookup_insert_eq. exists id, c, []. split; [constructor|done].
  - rewrite lookup_insert_ne by done. destruct (w_heap w !! l') as [s0|]; [|done].
    exists s0, []. split_and!; auto. constructor.
Qed.

Lemma fresh_loc (h : gmap loc stream) : h !! fresh (dom h) = None.
Proof. apply not_elem_of_dom, is_fresh. Qed.

(** ** Preservation by the building blocks *)

(** One stream changes, and the ledger at most at its id. *)
Lemma wf_update_stream g g' w l s s' :
  wf_client g w → w_heap w !! l = Some s → wf_stream s' → same_identity s s' →
  (∀ id, lg_opened g' id = false → lg_sent g' id = 0 ∧ lg_acked g' id = 0) →
  (∀ id l', (id, l') ∈ w_streams w → l' ≠ l →
     lg_opened g' id = lg_opened g id ∧ lg_sent g' id = lg_sent g id ∧
     lg_acked g' id = lg_acked g id) →
  (∀ id, (id, l) ∈ w_streams w → registered g' (w_self w) id s') →
  wf_client g' (set_w_heap (<[l := s']> (w_heap w)) w).
Proof.
  intros [? Hst Hk Hr Hqn Hq Hu] Hl Hwf' Hid Hu' Hother Hself. constructor; simpl; auto.
  - intros l' s0. destruct (decide (l' = l)) as [->|Hne].
    + rewrite lookup_insert_eq. by intros [= <-].
    + rewrite lookup_insert_ne by done. apply Hst.
  - intros id l' Hin. destruct (decide (l' = l)) as [->|Hne].
    + rewrite lookup_insert_eq. eauto.
    + rewrite lookup_insert_ne by done. destruct (Hr id l' Hin) as (s0 & Hs0 & Hreg).
      exists s0. split; [done|]. unfold registered in *.
      destruct (Hother id l' Hin Hne) as (-> & -> & ->). done.
  - intros l' Hin. destruct (Hq l' Hin) as (s0 & Hs0 & Ha & Ho).
    destruct (decide (l' = l)) as [->|Hne].
    + rewrite lookup_insert_eq. exists s'. destruct Hid as (Hi & _ & _ & Haq).
      assert (s0 = s) as -> by congruence. rewrite Haq, Hi. done.
    + rewrite lookup_insert_ne by done. eauto.
Qed.

(** A change of one stream that the ledger does not see. *)
Lemma wf_update_same g w l s s' :
  wf_client g w → w_heap w !! l = Some s → wf_stream s' → same_identity s s' →
  sent_offset s' = sent_offset s → acked_offset s' = acked_offset s →
  closed s' = closed s →
  wf_client g (set_w_heap (<[l := s']> (w_heap w)) w).
Proof.
  intros Hwf Hl Hwf' Hid Hs Ha Hc. eapply wf_update_stream; eauto using wc_unopened.
  intros id Hin. destruct (wc_reg _ _ Hwf _ _ Hin) as (s0 & Hs0 & Hreg).
  assert (s0 = s) as -> by congruence. unfold registered in *.
  destruct Hid as (-> & -> & -> & _). by rewrite Hs, Ha, Hc.
Qed.

(** Registering a new stream under an id the ledger opens. *)
Lemma wf_register g w id l :
  wf_client g w → lg_opened g id = false → w_heap w !! l = None →
  wf_client (lg_open id g)
    (set_w_streams (rb_hash_aset (w_streams w) id l)
       (set_w_heap (<[l := quic_stream_new id (Some (w_self w))]> (w_heap w)) w)).
Proof.
  intros Hwf Hop Hl. pose proof Hwf as [? Hst Hk Hr Hqn Hq Hu].
  destruct (Hu id Hop) as [Hs0 Ha0].
  assert (Hunreg : ∀ l', (id, l') ∉ w_streams w).
  { intros l' Hin. destruct (Hr _ _ Hin) as (s & _ & _ & _ & _ & _ & Ho & _). congruence. }
  assert (Hkey : id ∉ (w_streams w).*1).
  { intros ([id' l'] & -> & Hin)%list_elem_of_fmap. by eapply Hunreg. }
  rewrite rb_hash_aset_fresh by done. constructor; simpl; auto.
  - intros l' s'. destruct (decide (l' = l)) as [->|Hne].
    + rewrite lookup_insert_eq. intros [= <-]. apply wf_quic_stream_new.
    + rewrite lookup_insert_ne by done. apply Hst.
  - rewrite fmap_app. apply NoDup_app. split_and!; [done|set_solver|].
    apply NoDup_singleton.
  - intros id' l' [Hin|Hin]%elem_of_app.
    + destruct (Hr _ _ Hin) as (s & Hs & Hreg). exists s.
      rewrite lookup_insert_ne by congruence. split; [done|].
      unfold registered in *. simpl.
      destruct Hreg as (? & ? & ? & ? & Ho & ? & ?). rewrite Ho, orb_true_r. done.
    + apply list_elem_of_singleton in Hin as [= -> ->]. eexists.
      rewrite lookup_insert_eq. split; [done|]. unfold registered. simpl.
      rewrite bool_decide_true by done. done.
  - intros l' Hin. destruct (Hq _ Hin) as (s & Hs & ?). exists s.
    rewrite lookup_insert_ne by congruence. done.
  - intros id' Ho. apply orb_false_iff in Ho as [_ ?]. auto.
Qed.

(** ** The callbacks *)

(** What a callback shows on the stream it finds. *)
Definition cb_label w (ev : cb_event) : loc → list slabel :=
  match ev with
  | CbRecvStreamData flags id _ d =>
    match rb_hash_aref (w_streams w) id with
    | Some l => at_loc l [LRecv d (has_flag flags NGTCP2_STREAM_DATA_FLAG_FIN)]
    | None => silent
    end
  | CbAckedStreamDataOffset id _ n =>
    match rb_hash_aref (w_streams w) id with
    | Some l => at_loc l [LAck n]
    | None => silent
    end
  | _ => silent
  end.

(** A callback registers no id the ledger had already opened. *)
Definition reg_shrinks g w w' : Prop := ∀ id l,
  lg_opened g id = true → (id, l) ∈ w_streams w' → (id, l) ∈ w_streams w.

(** The contract of every callback: it returns 0, keeps the invariant, shows
    its label, and touches nothing but streams, registry and queue. *)
Definition callback_ok g w (ev : cb_event) : Prop :=
  ∀ o w', run_callback ev w = (o, w') →
    o = Ret 0 ∧ wf_client (event_apply ev g) w' ∧ evolves w (cb_label w ev) w' ∧
    same_frame w w' ∧ reg_shrinks g w w'.

Lemma reg_shrinks_eq g w w' : w_streams w' = w_streams w → reg_shrinks g w w'.
Proof. intros Heq id l _. by rewrite Heq. Qed.

Lemma lookup_stream_eq g w id :
  wf_client g w → quic_client_lookup_stream id w = (Ret (rb_hash_aref (w_streams w) id), w).
Proof.
  intros Hwf. unfold quic_client_lookup_stream, owner_ivars. run.
  by rewrite decide_True by apply (wc_owner _ _ Hwf).
Qed.

Lemma lookup_registered g w id l :
  wf_client g w → rb_hash_aref (w_streams w) id = Some l →
  (id, l) ∈ w_streams w ∧ ∃ s, w_heap w !! l = Some s ∧ wf_stream s ∧
    registered g (w_self w) id s.
Proof.
  intros Hwf Hl%rb_hash_aref_Some_elem. split; [done|].
  destruct (wc_reg _ _ Hwf _ _ Hl) as (s & Hs & Hr). exists s.
  split_and!; auto. by eapply wc_streams.
Qed.

Lemma open_cb_ok g w id : wf_client g w → event_allowed g (CbStreamOpen id) →
  callback_ok g w (CbStreamOpen id).
Proof.
  intros Hwf Hop o w'. simpl in Hop. unfold run_callback, quic_stream_open_cb, owner_ivars. run.
  rewrite decide_True by apply (wc_owner _ _ Hwf).
  destruct (rb_hash_aref (w_streams w) id) as [l|] eqn:Hl.
  - apply lookup_registered with (g := g) in Hl as (_ & s & _ & _ & Hr); [|done].
    unfold registered in Hr. destruct Hr as (_ & _ & _ & _ & Ho & _). congruence.
  - unfold new_stream, register_stream. run. simpl. intros [= <- <-].
    rewrite (wc_owner _ _ Hwf). split_and!; auto.
    + apply wf_register; [done|done|apply fresh_loc].
    + eapply evolves_heap; [|by apply evolves_new, fresh_loc]. done.
    + done.
    + intros i l' Ho [[-> _]|?]%elem_of_hash_aset; [|done]. congruence.
Qed.

Lemma accept_push_ok g w id l s o w' :
  wf_client g w → (id, l) ∈ w_streams w → w_heap w !! l = Some s → stream_id s = id →
  accept_push id l w = (o, w') →
  o = Ret tt ∧ wf_client g w' ∧ evolves w silent w' ∧ same_frame w w' ∧
  w_streams w' = w_streams w ∧
  ∃ s', w_heap w' !! l = Some s' ∧ same_send s s' ∧ iv_recv_buffer s' = iv_recv_buffer s ∧
    fin_received s' = fin_received s ∧ stream_id s' = id.
Proof.
  intros Hwf Hin Hs Hid. unfold accept_push, get_stream, with_stream. run. rewrite Hs.
  destruct (negb (accept_queued s) && Z.odd id) eqn:Hq; simpl.
  - apply andb_true_iff in Hq as [Hq Hodd]. apply negb_true_iff in Hq.
    rewrite Hs. intros [= <- <-]. pose proof Hwf as [? Hst Hk Hr Hqn Hqu Hu].
    assert (Hnotin : l ∉ w_accept_queue w).
    { intros Hl. destruct (Hqu _ Hl) as (s0 & Hs0 & Haq & _). congruence. }
    split_and!; try done.
    + constructor; simpl; auto.
      * intros l' s0. destruct (decide (l' = l)) as [->|Hne].
        -- rewrite lookup_insert_eq. intros [= <-]. apply (wf_same_send s); [done|by eapply Hst].
        -- rewrite lookup_insert_ne by done. apply Hst.
      * intros id' l' Hin'. destruct (Hr _ _ Hin') as (s0 & Hs0 & Hreg).
        destruct (decide (l' = l)) as [->|Hne].
        -- rewrite lookup_insert_eq. eexists. split; [done|].
           assert (s0 = s) as -> by congruence. exact Hreg.
        -- rewrite lookup_insert_ne by done. eauto.
      * apply NoDup_app. split_and!; [done|set_solver|apply NoDup_singleton].
      * intros l' [Hl'|Hl']%elem_of_app.
        -- destruct (Hqu _ Hl') as (s0 & Hs0 & ?). exists s0.
           rewrite lookup_insert_ne by set_solver. done.
        -- apply list_elem_of_singleton in Hl' as ->. rewrite lookup_insert_eq.
           eexists. split; [done|]. simpl. by rewrite Hid.
    + by apply evolves_push.
    + eexists. simpl. rewrite lookup_insert_eq. split; [done|]. done.
  - intros [= <- <-]. split_and!; auto; try done; [apply evolves_refl|].
    exists s. done.
Qed.

Lemma recv_cb_ok g w flags id off d : wf_client g w →
  callback_ok g w (CbRecvStreamData flags id off d).
Proof.
  intros Hwf o w'. unfold run_callback, quic_recv_stream_data_cb. unfold mbind, act_bind.
  rewrite (lookup_stream_eq g) by done. simpl.
  destruct (rb_hash_aref (w_streams w) id) as [l|] eqn:Hl; [|run; intros [= <- <-]].
  2: { split_and!; auto using reg_shrinks_eq; [apply evolves_refl|done]. }
  apply (lookup_registered g) in Hl as (Hin & s & Hs & Hws & Hreg); [|done].
  destruct (accept_push id l w) as [o1 w1] eqn:Hap.
  eapply accept_push_ok in Hap
    as (-> & Hwf1 & Hev1 & Hfr1 & Hst1 & s1 & Hs1 & Hss & Hb1 & Hf1 & Hid1); eauto; [|apply Hreg].
  unfold with_stream. rewrite Hs1.
  destruct (recv_data _ _ d s1) as [o2 s2] eqn:Hrd.
  pose proof (recv_data_spec _ _ _ _ _ _ Hrd) as (-> & Hss2 & Hid2 & Hcl2 & _).
  run. intros [= <- <-]. split_and!; auto using reg_shrinks_eq.
  - eapply (wf_update_same _ _ _ _ _ Hwf1 Hs1); try apply Hss2; try done.
    eapply wf_same_send; [done|]. by eapply wf_same_send.
  - eapply evolves_ext; [|eapply evolves_trans; [exact Hev1|];
      eapply evolves_step; [exact Hs1|by eapply CRecv]].
    intros l'. done.
Qed.

Lemma acked_cb_ok g w id off n : wf_client g w →
  event_allowed g (CbAckedStreamDataOffset id off n) →
  callback_ok g w (CbAckedStreamDataOffset id off n).
Proof.
  intros Hwf [Hn Hle] o w'. unfold run_callback, quic_acked_stream_data_offset_cb.
  unfold mbind, act_bind. rewrite (lookup_stream_eq g) by done. simpl.
  assert (Hun : ∀ i, lg_opened (lg_ack id n g) i = false →
    lg_sent (lg_ack id n g) i = 0 ∧ lg_acked (lg_ack id n g) i = 0).
  { intros i Hi. simpl in *. destruct (wc_unopened _ _ Hwf _ Hi) as [Hse Hac].
    case_decide; [subst|done]. lia. }
  destruct (rb_hash_aref (w_streams w) id) as [l|] eqn:Hl; [|run; intros [= <- <-]].
  2: { split_and!; auto using reg_shrinks_eq; [|apply evolves_refl|done].
    apply rb_hash_aref_None in Hl. pose proof Hwf as [? ? ? Hr ? ? ?].
    constructor; auto. intros i l Hin. destruct (Hr _ _ Hin) as (s & Hs & Hreg).
    exists s. split; [done|]. unfold registered in *. simpl.
    rewrite decide_False; [done|]. intros ->. apply Hl.
    apply list_elem_of_fmap. by exists (id, l). }
  apply (lookup_registered g) in Hl as (Hin & s & Hs & Hws & Hreg); [|done].
  unfold with_stream. rewrite Hs.
  pose proof Hreg as (Hid & _ & _ & Hcl & _ & Hse & Hac).
  destruct (acked_data n s) as [o1 s1] eqn:Had.
  destruct (acked_data_spec n s s1 o1 Hws Hn ltac:(lia) Had)
    as (-> & Hwf1 & Hac1 & _ & _ & _ & Hse1 & _ & _ & _ & _ & Hcl1 & Hid1).
  run. intros [= <- <-]. split_and!; auto using reg_shrinks_eq.
  - eapply (wf_update_stream g); eauto; simpl.
    + intros i l' Hin' Hne. rewrite decide_False; [done|].
      intros ->. apply Hne. apply rb_hash_aref_elem in Hin', Hin; [congruence|apply Hwf..].
    + intros i Hin'. assert (i = id) as -> by (eapply reg_unique; eauto).
      unfold registered in *. destruct Hid1 as (-> & -> & -> & _). simpl.
      rewrite decide_True by done. rewrite Hcl1, Hse1, Hac1.
      destruct Hreg as (? & ? & ? & ? & ? & ? & ?). split_and!; auto. lia.
  - eapply (evolves_step _ l s (LAck n)); [done|]. eapply CAck; [done| |done]. lia.
  - done.
Qed.

Lemma close_cb_ok g w flags id code : wf_client g w →
  callback_ok g w (CbStreamClose flags id code).
Proof.
  intros Hwf o w'. unfold run_callback, quic_stream_close_cb. unfold mbind, act_bind.
  rewrite (lookup_stream_eq g) by done. simpl.
  destruct (rb_hash_aref (w_streams w) id) as [l|] eqn:Hl; [|run; intros [= <- <-]].
  2: { split_and!; auto using reg_shrinks_eq; [apply evolves_refl|done]. }
  apply (lookup_registered g) in Hl as (Hin & s & Hs & Hws & Hreg); [|done].
  unfold with_stream. rewrite Hs.
  destruct (mark_closed _ _ code s) as [o1 s1] eqn:Hmc.
  pose proof (mark_closed_spec _ _ _ _ _ _ Hmc) as (-> & Hss & Hid & _).
  run. simpl. intros [= <- <-]. pose proof Hwf as [? Hst Hk Hr Hqn Hqu Hu]. split_and!; auto.
  - assert (Hne : ∀ i l', (i, l') ∈ rb_hash_delete (w_streams w) id →
      l' ≠ l ∧ (i, l') ∈ w_streams w).
    { intros i l' [Hi Hin']%elem_of_hash_delete; [|done]. split; [|done].
      intros ->. apply Hi. by eapply reg_unique. }
    constructor; simpl; auto.
    + intros l' s0. destruct (decide (l' = l)) as [->|?].
      * rewrite lookup_insert_eq. intros [= <-]. by eapply wf_same_send.
      * rewrite lookup_insert_ne by done. apply Hst.
    + eapply sublist_NoDup; [exact Hk|]. apply fmap_sublist, hash_delete_sublist.
    + intros i l' [Hn Hin']%Hne. rewrite lookup_insert_ne by done. eauto.
    + intros l' Hl'. destruct (Hqu _ Hl') as (s0 & Hs0 & Haq & Ho).
      destruct (decide (l' = l)) as [->|?].
      * rewrite lookup_insert_eq. exists s1. assert (s0 = s) as -> by congruence.
        destruct Hid as (-> & _ & _ & ->). done.
      * rewrite lookup_insert_ne by done. eauto.
  - eapply evolves_ext; [|eapply evolves_heap;
      [|eapply (evolves_step _ l s LTau); [done|by eapply CClose]]]; [|done].
    intros l'. unfold at_loc. by case_decide.
  - done.
  - intros i l' _ [_ ?]%elem_of_hash_delete; done.
Qed.

Lemma reset_cb_ok g w id fs code : wf_client g w → callback_ok g w (CbStreamReset id fs code).
Proof.
  intros Hwf o w'. unfold run_callback, quic_stream_reset_cb. unfold mbind, act_bind.
  rewrite (lookup_stream_eq g) by done. simpl.
  destruct (rb_hash_aref (w_streams w) id) as [l|] eqn:Hl; [|run; intros [= <- <-]].
  2: { split_and!; auto using reg_shrinks_eq; [apply evolves_refl|done]. }
  apply (lookup_registered g) in Hl as (Hin & s & Hs & Hws & Hreg); [|done].
  unfold with_stream. rewrite Hs.
  destruct (mark_reset code s) as [o1 s1] eqn:Hmc.
  pose proof (mark_reset_spec _ _ _ _ Hmc) as (-> & Hss & Hid & Hcl & _).
  run. simpl. intros [= <- <-]. split_and!; auto using reg_shrinks_eq.
  - eapply (wf_update_same _ _ _ _ _ Hwf Hs); try apply Hss; try done. by eapply wf_same_send.
  - eapply evolves_ext; [|eapply (evolves_step _ l s LTau); [done|by eapply CReset]].
    intros l'. unfold at_loc. by case_decide.
  - done.
Qed.

Lemma run_callback_ok g w ev : wf_client g w → event_allowed g ev → callback_ok g w ev.
Proof.
  destruct ev; intros; eauto using open_cb_ok, recv_cb_ok, acked_cb_ok, close_cb_ok, reset_cb_ok.
Qed.

(** The labels of a batch of callbacks. *)
Fixpoint cbs_label w (evs : list cb_event) : loc → list slabel :=
  match evs with
  | [] => silent
  | ev :: evs => λ l, cb_label w ev l ++ cbs_label (run_callback ev w).2 evs l
  end.

Lemma event_apply_opened g ev id :
  lg_opened g id = true → lg_opened (event_apply ev g) id = true.
Proof. destruct ev; simpl; auto. intros ->. apply orb_true_r. Qed.

Lemma run_callbacks_ok g w evs o w' :
  wf_client g w → events_allowed g evs → run_callbacks evs w = (o, w') →
  o = Ret tt ∧ wf_client (events_apply evs g) w' ∧ evolves w (cbs_label w evs) w' ∧
  same_frame w w' ∧ reg_shrinks g w w'.
Proof.
  revert g w. induction evs as [|ev evs IH]; intros g w Hwf.
  { intros _ [= <- <-]. split_and!; auto using reg_shrinks_eq; [apply evolves_refl|done]. }
  intros [Hev Hevs]. simpl. unfold mbind, act_bind.
  destruct (run_callback ev w) as [o1 w1] eqn:Hrun.
  destruct (run_callback_ok _ _ _ Hwf Hev _ _ Hrun) as (-> & Hwf1 & Hev1 & Hfr1 & Hsh1). simpl.
  intros Hgo. destruct (IH _ _ Hwf1 Hevs Hgo) as (-> & Hwf2 & Hev2 & Hfr2 & Hsh2).
  split_and!; auto; [by eapply evolves_trans|by etrans|].
  intros id l Ho Hin. apply Hsh1; [done|]. apply Hsh2; [|done]. by apply event_apply_opened.
Qed.

(** The callbacks of a batch frame and write nothing. *)
Lemma cbs_label_kinds w evs l lbl :
  lbl ∈ cbs_label w evs l → (∃ d fin, lbl = LRecv d fin) ∨ (∃ n, lbl = LAck n).
Proof.
  revert w. induction evs as [|ev evs IH]; intros w; simpl; [set_solver|].
  rewrite elem_of_app. intros [Hin|Hin]; [|by eapply IH].
  destruct ev; simpl in Hin; try (by apply elem_of_nil in Hin);
    (case_match; [|by apply elem_of_nil in Hin]); unfold at_loc in Hin;
    case_decide; set_solver.
Qed.
End inv.
