(* ===== verification/ClientOps.v ===== *)
(** * The client's operations keep the invariant

    For every operation of connection_client.c: it leaves a well-formed client,
    and says how each stream moved. *)
From S2P Require Import Prelude Ngtcp2 Errors Ruby Stream StreamInv StreamSpec Client ClientInv.

Section ops.
Context {C E : Type} `{NC : NgConst} `{NG : Ngtcp2 C} `{SY : Sys E} `{NO : !Ngtcp2Ok C}.
Implicit Types (w : world C E).

(** A client that agrees with the ledger of its own connection. *)
Definition wf_world w : Prop := wf_client (ng_ledger (w_conn w)) w.

Lemma wf_set_conn g w c : wf_client g w → wf_client g (set_w_conn c w).
Proof. by intros [? ? ? ? ? ? ?]. Qed.
Lemma wf_set_env g w e : wf_client g w → wf_client g (set_w_env e w).
Proof. by intros [? ? ? ? ? ? ?]. Qed.

Lemma lg_frame_0 id g : lg_frame id 0 g ≡ g.
Proof. intros i. simpl. case_decide; split_and!; auto; lia. Qed.

Lemma events_apply_opened g evs id :
  lg_opened g id = true → lg_opened (events_apply evs g) id = true.
Proof.
  revert g. induction evs as [|ev evs IH]; intros g Ho; simpl; [done|].
  apply IH. by apply event_apply_opened.
Qed.

(** [quic_now] only reads the clock. *)
Lemma quic_now_eq w : ∃ now e', quic_now w = (Ret now, set_w_env e' w).
Proof. unfold quic_now. destruct (clock_gettime (w_env w)) as [[? ?] ?]. eauto. Qed.

(** ** Picking a stream *)

(** The first stream, in registration order, that has something to send. *)
Fixpoint first_sendable (h : gmap loc stream) (ls : list loc) : option (loc * send_choice) :=
  match ls with
  | [] => None
  | l :: ls =>
    match h !! l ≫= choose_send with
    | Some c => Some (l, c)
    | None => first_sendable h ls
    end
  end.

Lemma pick_eq g w : wf_client g w →
  quic_client_pick_send_stream w =
    (Ret (first_sendable (w_heap w) (rb_hash_values (w_streams w))), w).
Proof.
  intros Hwf. unfold quic_client_pick_send_stream. run.
  assert (Hall : ∀ l, l ∈ rb_hash_values (w_streams w) → is_Some (w_heap w !! l)).
  { intros l ([id l'] & -> & Hin)%list_elem_of_fmap.
    destruct (wc_reg _ _ Hwf _ _ Hin) as (s & Hs & _). by exists s. }
  induction (rb_hash_values (w_streams w)) as [|l ls IH]; simpl; [done|].
  destruct (Hall l) as [s Hs]; [set_solver|].
  unfold get_stream. unfold mbind, act_bind. rewrite Hs. simpl.
  destruct (choose_send s); [done|]. apply IH. intros. apply Hall. set_solver.
Qed.

Lemma first_sendable_Some h ls l c :
  first_sendable h ls = Some (l, c) →
  ∃ pre post s, ls = pre ++ l :: post ∧ h !! l = Some s ∧ choose_send s = Some c ∧
    Forall (λ l', h !! l' ≫= choose_send = None) pre.
Proof.
  induction ls as [|l' ls IH]; simpl; [done|].
  destruct (h !! l' ≫= choose_send) as [c'|] eqn:Hc.
  - intros [= -> ->]. apply bind_Some in Hc as (s & Hs & Hc). by exists [], ls, s.
  - intros (pre & post & s & -> & Hs & Hch & Hpre)%IH.
    exists (l' :: pre), post, s. split_and!; auto.
Qed.

Lemma first_sendable_None h ls :
  first_sendable h ls = None → Forall (λ l', h !! l' ≫= choose_send = None) ls.
Proof.
  induction ls as [|l' ls IH]; simpl; [constructor|].
  destruct (h !! l' ≫= choose_send) eqn:Hc; [done|]. intros ?%IH. by constructor.
Qed.

Lemma first_sendable_first h pre l post c :
  Forall (λ l', h !! l' ≫= choose_send = None) pre → h !! l ≫= choose_send = Some c →
  first_sendable h (pre ++ l :: post) = Some (l, c).
Proof.
  intros Hpre Hc. induction Hpre as [|l' pre Hl' _ IH]; simpl; [by rewrite Hc|by rewrite Hl'].
Qed.

Lemma first_sendable_reg g w l c :
  wf_client g w → first_sendable (w_heap w) (rb_hash_values (w_streams w)) = Some (l, c) →
  ∃ s, w_heap w !! l = Some s ∧ wf_stream s ∧ choice_ok s c ∧
    (sc_stream_id c, l) ∈ w_streams w ∧ lg_opened g (sc_stream_id c) = true ∧
    stream_id s = sc_stream_id c.
Proof.
  intros Hwf (pre & post & s & Hls & Hs & Hc & _)%first_sendable_Some.
  pose proof (wc_streams _ _ Hwf _ _ Hs) as Hws.
  destruct (choose_send_ok _ _ Hws Hc) as [Hok Hid].
  assert (Hin : l ∈ rb_hash_values (w_streams w)) by (rewrite Hls; set_solver).
  apply list_elem_of_fmap in Hin as ([id l'] & Hl & Hin). simpl in Hl. subst l'.
  destruct (wc_reg _ _ Hwf _ _ Hin) as (s0 & Hs0 & Hreg). assert (s0 = s) as -> by congruence.
  destruct Hreg as (Hi & _ & _ & _ & Ho & _).
  exists s. rewrite Hid, Hi. split_and!; auto.
Qed.

(** ** One call of [ngtcp2_conn_writev_stream] with its accounting *)

(** What a write shows on the selected stream. *)
Definition frame_label (sel : option (loc * send_choice)) (n pd : Z) : loc → list slabel :=
  match sel with
  | Some (l, c) =>
    if 0 <=? n then
      at_loc l [LFrame (ztake (Z.max 0 pd) (default [] (sc_data c)))
                 (sc_fin c && match sc_data c with
                              | Some d => (0 <? pd) && (pd =? zlen d)
                              | None => (0 <? n) && (pd =? 0)
                              end)]
    else silent
  | None => silent
  end.

(** The stream selected before the call still has the chosen bytes next. *)
Lemma choice_survives w (wa : world C E) w' evs l s c :
  w_heap w !! l = Some s → wf_stream s → choice_ok s c → evolves w (cbs_label wa evs) w' →
  ∃ s', w_heap w' !! l = Some s' ∧ wf_stream s' ∧ choice_ok s' c ∧
    stream_id s' = stream_id s.
Proof.
  intros Hs Hws Hok [Hev _]. specialize (Hev l). rewrite Hs in Hev.
  destruct Hev as (s' & ls & Hs' & Htr & Hvis). exists s'. split; [done|].
  assert (Hq : Forall send_quiet ls).
  { apply Forall_forall. intros lbl Hin. destruct (is_vis lbl) eqn:Hv; [|by destruct lbl].
    assert (lbl ∈ visible ls) as Hin'.
    { apply list_elem_of_In, List.filter_In. by rewrite <- list_elem_of_In. }
    rewrite Hvis in Hin'. apply cbs_label_kinds in Hin' as [(d & fin & ->)|(n & ->)]; done. }
  destruct (strace_send_quiet _ _ _ _ _ Hws Htr Hq) as (Hws' & Hu & Hf & Hff).
  split_and!; [done| |by apply (strace_identity _ _ _ _ _ Htr)].
  unfold choice_ok in *. by rewrite Hu, Hf, Hff.
Qed.

Lemma account_selected_ok g w sel n pd o w' id :
  (∀ i, lg_opened g i = false → lg_sent g i = 0 ∧ lg_acked g i = 0) →
  wf_client g w →
  match sel with
  | Some (l, c) => id = sc_stream_id c ∧ pd ≤ zlen (default [] (sc_data c)) ∧
      lg_opened g id = true ∧
      (∀ l', (id, l') ∈ w_streams w → l' = l) ∧
      ∃ s, w_heap w !! l = Some s ∧ wf_stream s ∧ choice_ok s c ∧
        stream_id s = sc_stream_id c
  | None => pd ≤ 0
  end →
  0 ≤ n →
  account_selected sel n pd w = (o, w') →
  o = Ret tt ∧ wf_client (lg_frame id (Z.max 0 pd) g) w' ∧
  evolves w (frame_label sel n pd) w' ∧ same_frame w w' ∧ w_streams w' = w_streams w.
Proof.
  intros Hun Hwf Hsel Hn. unfold account_selected, frame_label.
  rewrite (proj2 (Z.leb_le 0 n)) by done.
  destruct sel as [[l c]|].
  - destruct Hsel as (-> & Hpd & Hop & Huniq & s & Hs & Hws & Hok & Hsid).
    unfold with_stream. rewrite Hs.
    destruct (account_sent c n pd s) as [o1 s1] eqn:Hacc.
    destruct (account_sent_spec _ _ _ _ _ _ Hws Hok Hpd Hacc)
      as (-> & Hws1 & Hse & _ & _ & Hid & Hcl & Hac & _).
    intros [= <- <-]. split_and!; auto.
    + eapply (wf_update_stream g); eauto; simpl.
      * intros i Ho. case_decide; [subst; congruence|]. auto.
      * intros i l' Hin Hne. rewrite decide_False; [done|]. intros ->. by apply Hne, Huniq.
      * intros i Hin. destruct (wc_reg _ _ Hwf _ _ Hin) as (s0 & Hs0 & Hreg).
        assert (s0 = s) as -> by congruence.
        unfold registered in *. destruct Hid as (Hi1 & Hi2 & Hi3 & _).
        rewrite Hi1, Hi2, Hi3, Hcl, Hse, Hac. simpl.
        destruct Hreg as (Hr1 & ? & ? & ? & ? & Hr6 & ?).
        destruct (decide (i = sc_stream_id c)) as [->|Hne]; split_and!; auto; [lia|].
        congruence.
    + eapply evolves_ext; [|eapply evolves_step; [exact Hs|eapply CFrame; eauto]]. done.
    + done.
  - intros [= <- <-]. rewrite Z.max_l by done. rewrite lg_frame_0.
    split_and!; auto; [apply evolves_refl|done].
Qed.

(** The pieces of one [write_pkt]: the stream it selects, ngtcp2's answer, the
    world its callbacks start from and what the whole call shows. *)
Definition writev_sel w : option (loc * send_choice) :=
  first_sendable (w_heap w) (rb_hash_values (w_streams w)).
Definition clock_now w : Z :=
  match quic_now w with (Ret now, _) => now | _ => 0 end.
Definition writev_resp w : writev_result C :=
  let '(flags, id, data) := writev_args (writev_sel w) in
  ngtcp2_conn_writev_stream (w_conn w) flags id data QUIC_WRITE_PKT_BUFLEN (clock_now w).
Definition writev_world w : world C E :=
  set_w_conn (wv_conn (writev_resp w)) (quic_now w).2.
Definition write_label w : loc → list slabel := λ l,
  cbs_label (writev_world w) (wv_events (writev_resp w)) l ++
  frame_label (writev_sel w) (wv_n (writev_resp w)) (wv_pdatalen (writev_resp w)) l.

Lemma call_writev_ok w o w1 :
  wf_world w → call_writev (writev_sel w) w = (o, w1) →
  let r := writev_resp w in
  let id := (writev_args (writev_sel w)).1.2 in
  let g := events_apply (wv_events r) (ng_ledger (w_conn w)) in
  o = Ret (wv_n r, wv_pdatalen r, wv_pkt r) ∧
  wf_client g w1 ∧ w_conn w1 = wv_conn r ∧
  ng_ledger (wv_conn r) ≡ lg_frame id (if 0 <=? wv_n r then Z.max 0 (wv_pdatalen r) else 0) g ∧
  evolves w (cbs_label (writev_world w) (wv_events r)) w1 ∧
  wv_n r ≤ QUIC_WRITE_PKT_BUFLEN ∧ (0 ≤ wv_n r → zlen (wv_pkt r) = wv_n r) ∧
  w_self w1 = w_self w ∧ w_sock w1 = w_sock w ∧
  match writev_sel w with
  | Some (l, c) => id = sc_stream_id c ∧ wv_pdatalen r ≤ zlen (default [] (sc_data c)) ∧
      lg_opened g id = true ∧
      (∀ l', (id, l') ∈ w_streams w1 → l' = l) ∧
      ∃ s, w_heap w1 !! l = Some s ∧ wf_stream s ∧ choice_ok s c ∧ stream_id s = sc_stream_id c
  | None => wv_pdatalen r ≤ 0
  end.
Proof.
  intros Hwf. unfold call_writev, writev_world, writev_resp, clock_now.
  destruct (quic_now_eq w) as (now & e' & Hnow).
  destruct (writev_args (writev_sel w)) as [[flags id] data] eqn:Hargs.
  unfold mbind, act_bind. rewrite Hnow. simpl.
  destruct (ng_writev (w_conn w) flags id data QUIC_WRITE_PKT_BUFLEN now)
    as (Hpd & Hn & Hlen & Hal & Hled).
  set (r := ngtcp2_conn_writev_stream (w_conn w) flags id data QUIC_WRITE_PKT_BUFLEN now) in *.
  destruct (run_callbacks _ _) as [o1 w2] eqn:Hrun.
  apply (run_callbacks_ok (ng_ledger (w_conn w))) in Hrun
    as (-> & Hwf2 & Hev & (Hfc & _ & Hfs & _ & Hfk) & Hsh); [|by apply wf_set_conn, wf_set_env|done].
  intros [= <- <-]. simpl. split_and!; auto.
  unfold writev_args in Hargs. destruct (writev_sel w) as [[l c]|] eqn:Hsel.
  - injection Hargs as <- <- <-.
    destruct (first_sendable_reg _ _ _ _ Hwf Hsel) as (s & Hs & Hws & Hok & Hin & Hop & Hsid).
    split_and!; auto.
    + by apply events_apply_opened.
    + intros l' Hl'. apply Hsh in Hl'; [|done]. simpl in Hl'.
      apply rb_hash_aref_elem in Hl', Hin; [congruence|apply Hwf..].
    + destruct (choice_survives _ _ _ _ _ _ _ Hs Hws Hok
        (evolves_heap_l _ w _ _ eq_refl eq_refl Hev)) as (s' & ? & ? & ? & ?).
      exists s'. split_and!; auto. congruence.
  - injection Hargs as <- <- <-. done.
Qed.

(** [write_pkt_into] whatever the buffer does. *)
Lemma write_pkt_into_ok w buf o w' buf' :
  wf_world w → write_pkt_into (w, buf) = (o, (w', buf')) →
  wf_world w' ∧ evolves w (write_label w) w' ∧ w_self w' = w_self w ∧ w_sock w' = w_sock w.
Proof.
  intros Hwf. unfold write_pkt_into. unfold mbind at 1, act_bind at 1. unfold on_fst at 1. simpl.
  rewrite (pick_eq _ _ Hwf). fold (writev_sel w).
  unfold mbind at 1, act_bind at 1. unfold on_fst at 1. simpl.
  destruct (call_writev (writev_sel w) w) as [o1 w1] eqn:Hcall.
  apply call_writev_ok in Hcall as
    (-> & Hwf1 & Hc1 & Hled & Hev & _ & _ & Hse1 & Hsk1 & Hsel); [|done].
  set (g := events_apply _ _) in *. set (id := (writev_args _).1.2) in *.
  destruct (Z.ltb_spec (wv_n (writev_resp w)) 0) as [Hn|Hn].
  - intros Hrest. assert (w' = w1) as ->.
    { revert Hrest. unfold quic_raise_ngtcp2_error. run. rewrite rb_str_set_len_eq.
      destruct (rs_tmplock buf), (rs_frozen buf); simpl; by intros [= _ <- _]. }
    assert (Hz : (0 <=? wv_n (writev_resp w)) = false) by (apply Z.leb_gt; lia).
    rewrite Hz in Hled.
    split_and!; auto.
    + unfold wf_world. rewrite Hc1, Hled, lg_frame_0. done.
    + eapply evolves_ext; [|exact Hev]. intros l. unfold write_label, frame_label.
      destruct (writev_sel w) as [[l' c]|]; rewrite ?Hz; unfold silent; by rewrite app_nil_r.
  - assert (Hz : (0 <=? wv_n (writev_resp w)) = true) by (by apply Z.leb_le).
    rewrite Hz in Hled. intros Hrest.
    destruct (account_selected (writev_sel w) (wv_n (writev_resp w))
      (wv_pdatalen (writev_resp w)) w1) as [o2 w2] eqn:Hacc.
    pose proof Hacc as Hacc'.
    eapply (account_selected_ok g) with (id := id) in Hacc' as (-> & Hwf2 & Hev2 & Hfr2 & _);
      [|apply Hwf1|done|done|done].
    assert (w' = w2) as ->.
    { revert Hrest. unfold c_poke. run. rewrite Hacc.
      destruct (_ =? 0); rewrite rb_str_set_len_eq; simpl;
        destruct (rs_tmplock buf), (rs_frozen buf); simpl; by intros [= _ <- _]. }
    destruct Hfr2 as (Hc2 & _ & Hs2 & _ & Hk2). split_and!; try congruence.
    + unfold wf_world. rewrite Hc2, Hc1, Hled. done.
    + eapply evolves_trans; [exact Hev|exact Hev2].
Qed.

(** ** Calls that only run callbacks *)
Lemma conn_callbacks_ok w w0 c' evs o w' :
  wf_world w → events_allowed (ng_ledger (w_conn w)) evs →
  ng_ledger c' ≡ events_apply evs (ng_ledger (w_conn w)) →
  w0 = set_w_conn c' (quic_now w).2 →
  run_callbacks evs w0 = (o, w') →
  o = Ret tt ∧ wf_world w' ∧ evolves w (cbs_label w0 evs) w' ∧
  w_conn w' = c' ∧ w_self w' = w_self w ∧ w_sock w' = w_sock w.
Proof.
  intros Hwf Hal Hled ->. destruct (quic_now_eq w) as (now & e' & Hnow). rewrite Hnow. simpl.
  intros Hrun. apply (run_callbacks_ok (ng_ledger (w_conn w))) in Hrun
    as (-> & Hwf2 & Hev & (Hfc & _ & Hfs & _ & Hfk) & _); [|by apply wf_set_conn, wf_set_env|done].
  simpl in *. split_and!; auto. unfold wf_world. by rewrite Hfc, Hled.
Qed.

Definition expiry_resp w : C * list cb_event * Z :=
  ngtcp2_conn_handle_expiry (w_conn w) (clock_now w).
Definition expiry_label w : loc → list slabel :=
  let '(c', evs, _) := expiry_resp w in cbs_label (set_w_conn c' (quic_now w).2) evs.

Lemma handle_expiry_ok w o w' :
  wf_world w → quic_client_handle_expiry w = (o, w') →
  wf_world w' ∧ evolves w (expiry_label w) w' ∧ w_conn w' = (expiry_resp w).1.1 ∧
  w_self w' = w_self w ∧ w_sock w' = w_sock w ∧
  let rv := (expiry_resp w).2 in
  o = (if rv =? 0 then Ret tt else Raise (Exn (ngtcp2_error_class rv) (Some rv))).
Proof.
  intros Hwf. unfold quic_client_handle_expiry, expiry_label, expiry_resp, clock_now.
  destruct (quic_now_eq w) as (now & e' & Hnow). unfold mbind, act_bind. rewrite Hnow. simpl.
  pose proof (ng_handle_expiry (w_conn w) now) as Hng.
  destruct (ngtcp2_conn_handle_expiry _ _) as [[c' evs] rv] eqn:Hcall. destruct Hng as [Hal Hled].
  simpl. destruct (run_callbacks _ _) as [o1 w1] eqn:Hrun.
  eapply conn_callbacks_ok in Hrun as (-> & Hwf1 & Hev & Hc1 & Hs1 & Hk1); eauto;
    [|by rewrite Hnow].
  unfold quic_raise_ngtcp2_error. run.
  destruct (rv =? 0); simpl; intros [= <- <-]; split_and!; auto.
Qed.

Definition read_resp w (path : ngtcp2_path) (pkt : bytes) : C * list cb_event * Z :=
  ngtcp2_conn_read_pkt (w_conn w) path pkt (clock_now w).
Definition read_label w path pkt : loc → list slabel :=
  let '(c', evs, _) := read_resp w path pkt in cbs_label (set_w_conn c' (quic_now w).2) evs.

Lemma read_pkt_body_ok w path pkt o w' pkt' :
  wf_world w → quic_read_pkt_body path (w, pkt) = (o, (w', pkt')) →
  wf_world w' ∧ evolves w (read_label w path (rs_bytes pkt)) w' ∧
  w_conn w' = (read_resp w path (rs_bytes pkt)).1.1 ∧
  w_self w' = w_self w ∧ w_sock w' = w_sock w ∧ pkt' = pkt ∧
  let rv := (read_resp w path (rs_bytes pkt)).2 in
  o = (if rv =? 0 then Ret tt else Raise (Exn (ngtcp2_error_class rv) (Some rv))).
Proof.
  intros Hwf. unfold quic_read_pkt_body, read_label, read_resp, clock_now.
  destruct (quic_now_eq w) as (now & e' & Hnow).
  unfold mbind, act_bind, on_fst. simpl. rewrite Hnow. simpl.
  pose proof (ng_read_pkt (w_conn w) path (rs_bytes pkt) now) as Hng.
  destruct (ngtcp2_conn_read_pkt _ _ _ _) as [[c' evs] rv] eqn:Hcall. destruct Hng as [Hal Hled].
  simpl. destruct (run_callbacks _ _) as [o1 w1] eqn:Hrun.
  eapply conn_callbacks_ok in Hrun as (-> & Hwf1 & Hev & Hc1 & Hs1 & Hk1); eauto;
    [|by rewrite Hnow].
  unfold quic_raise_ngtcp2_error. run.
  destruct (rv =? 0); simpl; intros [= <- <- <-]; split_and!; auto.
Qed.

(** Under the lock: the body's outcome, with the packet as it was. *)
Lemma read_pkt_locked_ok w path pkt o w' pkt' :
  wf_world w → rs_tmplock pkt = false →
  read_pkt_locked path (w, pkt) = (o, (w', pkt')) →
  wf_world w' ∧ evolves w (read_label w path (rs_bytes pkt)) w' ∧
  w_conn w' = (read_resp w path (rs_bytes pkt)).1.1 ∧
  w_self w' = w_self w ∧ w_sock w' = w_sock w ∧ pkt' = pkt ∧
  let rv := (read_resp w path (rs_bytes pkt)).2 in
  o = (if rv =? 0 then Ret false else Raise (Exn (ngtcp2_error_class rv) (Some rv))).
Proof.
  intros Hwf Hlock. unfold read_pkt_locked, quic_read_pkt_unlock, on_snd, ensure,
    rb_str_locktmp, rb_str_unlocktmp, rb_raise. unfold mbind, act_bind, get. simpl.
  rewrite Hlock. simpl.
  destruct (quic_read_pkt_body path (w, set_tmplock true pkt)) as [o1 [w1 p1]] eqn:Hb.
  destruct (read_pkt_body_ok _ _ _ _ _ _ Hwf Hb) as (Hwf1 & Hev & Hc & Hs & Hk & -> & Ho).
  simpl in *. assert (Hp : set_tmplock false (set_tmplock true pkt) = pkt).
  { destruct pkt; simpl in *. by rewrite <- Hlock. }
  subst o1. destruct (_ =? 0); run; intros [= <- <- <-]; split_and!; auto.
Qed.

(** ** Opening streams *)
Lemma open_stream_ok (open : C → C * Z * Z) w o w' :
  (let '(c', rv, id) := open (w_conn w) in
   if rv =? 0 then lg_opened (ng_ledger (w_conn w)) id = false ∧ Z.odd id = false ∧
                   ng_ledger c' ≡ lg_open id (ng_ledger (w_conn w))
   else ng_ledger c' ≡ ng_ledger (w_conn w)) →
  wf_world w → open_stream open w = (o, w') →
  let '(c', rv, id) := open (w_conn w) in
  wf_world w' ∧ evolves w silent w' ∧ w_self w' = w_self w ∧ w_sock w' = w_sock w ∧
  w_conn w' = c' ∧
  if rv =? 0 then
    ∃ l, o = Ret l ∧ w_heap w !! l = None ∧
      w_heap w' !! l = Some (quic_stream_new id (Some (w_self w))) ∧
      Z.odd id = false ∧ w_streams w' = w_streams w ++ [(id, l)]
  else o = Raise (Exn (ngtcp2_error_class rv) (Some rv)) ∧
       w_streams w' = w_streams w ∧ w_heap w' = w_heap w.
Proof.
  intros Hng Hwf. unfold open_stream. run.
  destruct (open (w_conn w)) as [[c' rv] id] eqn:Hopen. destruct (rv =? 0) eqn:Hrv.
  - destruct Hng as (Hop & Hodd & Hled). unfold new_stream, register_stream. run. simpl.
    intros [= <- <-]. simpl.
    assert (Hkey : id ∉ (w_streams w).*1).
    { intros ([id' l'] & -> & Hin)%list_elem_of_fmap.
      destruct (wc_reg _ _ Hwf _ _ Hin) as (s & _ & _ & _ & _ & _ & Ho & _). simpl in *. congruence. }
    split_and!; auto.
    + unfold wf_world. simpl. rewrite Hled.
      apply (wf_register _ (set_w_conn c' w)); [by apply wf_set_conn|done|apply fresh_loc].
    + eapply evolves_heap; [|by apply evolves_new, fresh_loc]. done.
    + eexists. split_and!; [done|apply fresh_loc|by rewrite lookup_insert_eq|done|].
      by apply rb_hash_aset_fresh.
  - unfold quic_raise_ngtcp2_error. run. simpl. intros [= <- <-]. split_and!; auto.
    + unfold wf_world. simpl. rewrite Hng. by apply wf_set_conn.
    + eapply evolves_heap; [|apply evolves_refl]. done.
Qed.

(** ** Closing the connection *)
Lemma close_args_pure {S} opts (s : S) o s' : close_args opts s = (o, s') → s' = s.
Proof.
  unfold close_args, check_string. destruct opts as [opts|]; [|by intros [= <- <-]].
  unfold mbind, act_bind.
  assert (Hnum : ∀ v, (NUM2ULL v s).2 = s).
  { intros v. apply NUM2ULL_pure. }
  destruct (NIL_P (kwarg opts "error_code")); run.
  - destruct (kwarg opts "reason"); simpl; intros; by simplify_eq/=.
  - specialize (Hnum (kwarg opts "error_code")).
    destruct (NUM2ULL _ s) as [[] s1]; simpl in Hnum; subst;
      destruct (kwarg opts "reason"); simpl; intros; by simplify_eq/=.
Qed.

Lemma close_m_ok w opts o w' :
  wf_world w → quic_client_close_m opts w = (o, w') →
  wf_world w' ∧ w_heap w' = w_heap w ∧ w_streams w' = w_streams w ∧
  w_accept_queue w' = w_accept_queue w ∧ w_self w' = w_self w ∧ w_sock w' = w_sock w.
Proof.
  intros Hwf. unfold quic_client_close_m, mbind, act_bind.
  destruct (close_args opts w) as [[[code reason]|e|] w1] eqn:Ha;
    apply close_args_pure in Ha as ->; [|by intros [= <- <-]..].
  simpl. destruct (_ || _); [by intros [= <- <-]|].
  destruct (w_sock w) as [sk|] eqn:Hsk; [|by intros [= <- <-]].
  destruct (quic_now_eq w) as (now & e' & Hnow). rewrite Hnow. simpl.
  pose proof (ng_close (w_conn w) code reason QUIC_WRITE_PKT_BUFLEN now) as Hng.
  destruct (ngtcp2_conn_write_connection_close _ _ _ _ _) as [[c' n] pkt].
  destruct Hng as (_ & _ & Hled). unfold send_on, quic_raise_ngtcp2_error. run. simpl.
  assert (Hwf' : ∀ e, wf_world (set_w_conn c' (set_w_env e w))).
  { intros e. unfold wf_world. simpl. rewrite Hled. by apply wf_set_conn, wf_set_env. }
  destruct (n =? NGTCP2_ERR_INVALID_STATE); [intros; by simplify_eq/=|].
  destruct (n <? 0); [intros; by simplify_eq/=|].
  destruct (n =? 0); [intros; by simplify_eq/=|]. simpl.
  destruct (sock_send sk (ztake n pkt) e') as [ok e'']. destruct ok; intros; simplify_eq/=;
    split_and!; auto; apply (Hwf' e'').
Qed.
End ops.
