(* ===== verification/Compaction.v ===== *)
(** * Heap compaction (the [dcompact] hook of connection_client.c)

    [GC.compact] moves Ruby objects: every reference in the Ruby heap follows,
    and so must the one the C struct holds.  Moving the objects of a
    well-formed client leaves a well-formed client, and commutes with the
    callbacks, up to the place of the stream that [stream_open] allocates. *)
From S2P Require Import Prelude Ngtcp2 Errors Ruby Stream StreamInv StreamSpec Client ClientInv ClientOps.

Section compaction.
Context {C E : Type} `{NC : NgConst} `{NG : Ngtcp2 C} `{SY : Sys E}.
Context (f : loc → loc) `{Hf : !Inj (=) (=) f}.
Implicit Types (w : world C E) (s : stream).

(** ** Moved streams *)
Lemma move_same_send s : same_send s (move_stream f s).
Proof. done. Qed.
Lemma move_wf s : wf_stream s → wf_stream (move_stream f s).
Proof. by apply wf_same_send. Qed.

Lemma gc_lookup w l : w_heap (gc_compact f w) !! f l = move_stream f <$> w_heap w !! l.
Proof. unfold gc_compact. simpl. by rewrite lookup_kmap, lookup_fmap. Qed.

Lemma gc_lookup_Some w l' s' :
  w_heap (gc_compact f w) !! l' = Some s' →
  ∃ l s, l' = f l ∧ s' = move_stream f s ∧ w_heap w !! l = Some s.
Proof.
  unfold gc_compact. simpl. intros (l & -> & Hs)%lookup_kmap_Some; [|done].
  apply lookup_fmap_Some in Hs as (s & <- & Hs). by exists l, s.
Qed.

Lemma gc_aref w id :
  rb_hash_aref (w_streams (gc_compact f w)) id = f <$> rb_hash_aref (w_streams w) id.
Proof.
  unfold gc_compact. simpl. induction (w_streams w) as [|[i l] m IH]; simpl; [done|].
  by case_decide.
Qed.

Lemma gc_elem w id l' :
  (id, l') ∈ w_streams (gc_compact f w) ↔ ∃ l, l' = f l ∧ (id, l) ∈ w_streams w.
Proof.
  unfold gc_compact. simpl. rewrite list_elem_of_fmap. split.
  - intros ([i l] & [= -> ->] & Hin). by exists l.
  - intros (l & -> & Hin). by exists (id, l).
Qed.

(** ** The invariant *)
Lemma gc_compact_wf g w : wf_client g w → wf_client g (gc_compact f w).
Proof.
  intros [Ho Hst Hk Hr Hqn Hq Hu]. constructor; auto.
  - simpl. by rewrite Ho.
  - intros l' s' (l & s & -> & -> & Hs)%gc_lookup_Some. by eapply move_wf, Hst.
  - simpl. rewrite <- list_fmap_compose. by erewrite list_fmap_ext; [exact Hk|].
  - intros id l' (l & -> & Hin)%gc_elem. destruct (Hr _ _ Hin) as (s & Hs & Hreg).
    exists (move_stream f s). rewrite gc_lookup, Hs. split; [done|].
    unfold registered in *. simpl. destruct Hreg as (? & ? & -> & ?). done.
  - simpl. by apply NoDup_fmap.
  - intros l' Hl'. simpl in Hl'. apply list_elem_of_fmap in Hl' as (l & -> & Hl).
    destruct (Hq _ Hl) as (s & Hs & ?). exists (move_stream f s). by rewrite gc_lookup, Hs.
Qed.

(** ** Commutation with the callbacks *)

(** A stream operation that does not look at addresses. *)
Definition moves {A} (m : streamM A) : Prop :=
  ∀ s, m (move_stream f s) = ((m s).1, move_stream f (m s).2).

Lemma with_stream_gc {A} l (m : streamM A) w :
  moves m →
  with_stream (f l) m (gc_compact f w) =
    ((with_stream l m w).1, gc_compact f (with_stream l m w).2).
Proof.
  intros Hm. unfold with_stream. rewrite gc_lookup.
  destruct (w_heap w !! l) as [s|] eqn:Hs; simpl; [|done]. rewrite Hm.
  destruct (m s) as [o s1]. simpl. f_equal. unfold gc_compact, set_w_heap. simpl.
  by rewrite fmap_insert, kmap_insert.
Qed.

Lemma recv_data_moves flags flag d : moves (recv_data flags flag d).
Proof.
  intros s. unfold recv_data. run.
  destruct (0 <? zlen d); simpl; destruct (has_flag _ _); done.
Qed.
Lemma acked_data_moves n : moves (acked_data n).
Proof. intros s. unfold acked_data. run. simpl. by destruct (ack_shift _ _ _). Qed.
Lemma mark_closed_moves flags flag code : moves (mark_closed flags flag code).
Proof. intros s. unfold mark_closed. run. by destruct (has_flag _ _). Qed.
Lemma mark_reset_moves code : moves (mark_reset code).
Proof. done. Qed.
Lemma set_accept_queued_moves b : moves (modify (set_accept_queued b)).
Proof. done. Qed.

Definition is_open (ev : cb_event) : bool :=
  match ev with CbStreamOpen _ => true | _ => false end.

Lemma gc_delete (m : list (Z * loc)) i :
  rb_hash_delete (prod_map id f <$> m) i = prod_map id f <$> rb_hash_delete m i.
Proof.
  induction m as [|[j l] m IH]; simpl; [done|].
  case_decide; [done|]. simpl. by f_equal.
Qed.

Lemma accept_push_gc id l w :
  accept_push id (f l) (gc_compact f w) =
    ((accept_push id l w).1, gc_compact f (accept_push id l w).2).
Proof.
  unfold accept_push, get_stream. unfold mbind, act_bind. rewrite gc_lookup.
  destruct (w_heap w !! l) as [s|] eqn:Hs; simpl; [|done].
  destruct (negb (accept_queued s) && Z.odd id); simpl; [|done].
  rewrite <- (with_stream_gc l (modify (set_accept_queued true)));
    [|apply set_accept_queued_moves].
  f_equal. unfold gc_compact, set_w_accept_queue, quic_client_compact. simpl.
  by rewrite fmap_app.
Qed.

Lemma lookup_gc w id :
  w_owner w = w_self w →
  quic_client_lookup_stream id (gc_compact f w) =
    (Ret (f <$> rb_hash_aref (w_streams w) id), gc_compact f w).
Proof.
  intros Ho. unfold quic_client_lookup_stream, owner_ivars. run.
  change (w_owner (gc_compact f w)) with (f (w_owner w)).
  change (w_self (gc_compact f w)) with (f (w_self w)).
  rewrite Ho, decide_True by done. by rewrite gc_aref.
Qed.

Lemma callback_gc g w ev :
  wf_client g w → is_open ev = false →
  run_callback ev (gc_compact f w) =
    ((run_callback ev w).1, gc_compact f (run_callback ev w).2).
Proof.
  intros Hwf Hop. pose proof (wc_owner _ _ Hwf) as Ho.
  destruct ev as [|flags id off d|id off n|flags id code|id fs code]; [done| | | |]; simpl;
    unfold quic_recv_stream_data_cb, quic_acked_stream_data_offset_cb, quic_stream_close_cb,
      quic_stream_reset_cb; unfold mbind, act_bind;
    rewrite (lookup_gc _ _ Ho), (lookup_stream_eq g) by done;
    (destruct (rb_hash_aref (w_streams w) id) as [l|]; simpl; [|done]).
  - rewrite accept_push_gc. destruct (accept_push id l w) as [[u| |] w1]; simpl; [|done..].
    rewrite with_stream_gc by apply recv_data_moves.
    by destruct (with_stream l _ w1) as [[]].
  - rewrite with_stream_gc by apply acked_data_moves. by destruct (with_stream l _ w) as [[]].
  - rewrite with_stream_gc by apply mark_closed_moves.
    destruct (with_stream l _ w) as [[u| |] w1]; simpl; [|done..].
    unfold mret, act_ret. f_equal. unfold set_w_streams, gc_compact, quic_client_compact. simpl.
    by rewrite gc_delete.
  - rewrite with_stream_gc by apply mark_reset_moves. by destruct (with_stream l _ w) as [[]].
Qed.

(** A new stream, at [l], registered under [id]. *)
Definition opened_at (id : Z) (l : loc) (w : world C E) : world C E :=
  set_w_streams (rb_hash_aset (w_streams w) id l)
    (set_w_heap (<[l := quic_stream_new id (Some (w_self w))]> (w_heap w)) w).

Lemma open_cb_eq w id :
  w_owner w = w_self w →
  run_callback (CbStreamOpen id) w =
    (Ret 0, match rb_hash_aref (w_streams w) id with
            | Some _ => w
            | None => opened_at id (fresh (dom (w_heap w))) w
            end).
Proof.
  intros Ho. simpl. unfold quic_stream_open_cb, owner_ivars. run. rewrite Ho, decide_True by done.
  destruct (rb_hash_aref (w_streams w) id); [done|].
  by unfold new_stream, register_stream, opened_at.
Qed.
End compaction.
