(* ===== verification/StreamIO.v ===== *)
(** * The Stream methods that use the connection (ext/quic/stream.c)

    [#write_nonblock], [#close_read], [#close], [#reset] and the window
    computation; the blocking [#write] is in [Blocking.v]. *)
From S2P Require Import Prelude Ngtcp2 Errors Ruby Stream Client.

Section streamio.
Context {C E : Type} `{NC : NgConst} `{NG : Ngtcp2 C}.

(** [quic_client_conn(client_v)]: TypeError unless it is the Client. *)
Definition quic_client_conn (client_v : option loc) : clientM C E C :=
  w ← get;
  match client_v with
  | Some c => if decide (c = w_self w) then mret (w_conn w) else rb_raise TypeError
  | None => rb_raise TypeError
  end.

Definition quic_stream_window_left (client_v : option loc) (id : Z) : clientM C E Z :=
  conn ← quic_client_conn client_v;
  let stream_left := ngtcp2_conn_get_max_stream_data_left conn id in
  let conn_left := ngtcp2_conn_get_max_data_left conn in
  mret (if stream_left <? conn_left then stream_left else conn_left).

Definition quic_stream_write_nonblock_m (self : loc) (data : value) (opts : kwargs) :
    clientM C E Z :=
  let fin := quic_stream_fin_kwarg opts in
  s ← get_stream self;
  match iv_client s with
  | None => with_stream self (quic_stream_enqueue data fin)
  | Some _ =>
    str ← check_string data;
    let needed := zlen (rs_bytes str) in
    if needed =? 0 then with_stream self (quic_stream_enqueue data fin)
    else
      avail ← quic_stream_window_left (iv_client s) (stream_id s);
      if avail =? 0 then rb_raise rb_eQuicErrorWaitWritable
      else
        let take := if needed <=? avail then needed else avail in
        let effective_fin := if take =? needed then fin else false in
        let slice := if take =? needed then data
                     else VStr (RString (ztake take (rs_bytes str)) ASCII_8BIT false false) in
        with_stream self (quic_stream_enqueue slice effective_fin)
  end.

Definition quic_stream_close_read_m (self : loc) : clientM C E value :=
  s ← get_stream self;
  conn ← quic_client_conn (iv_client s);
  let '(c', rv) := ngtcp2_conn_shutdown_stream_read conn (stream_id s) 0 in
  modify (set_w_conn c');;
  if negb (rv =? 0) then quic_raise_ngtcp2_error rv else mret VNil.

Definition quic_stream_close_m (self : loc) : clientM C E value :=
  with_stream self quic_stream_close_write_m;;
  quic_stream_close_read_m self;;
  mret VNil.

Definition quic_stream_reset_m (self : loc) (error_code_v : value) : clientM C E value :=
  error_code ← (if NIL_P error_code_v then mret 0 else NUM2ULL error_code_v);
  s ← get_stream self;
  if reset s then mret VNil
  else
    match iv_client s with
    | None => with_stream self (modify (set_reset true));; mret VNil
    | Some _ =>
      conn ← quic_client_conn (iv_client s);
      let '(c', rv) := ngtcp2_conn_shutdown_stream_write conn (stream_id s) error_code in
      modify (set_w_conn c');;
      if negb (rv =? 0) then quic_raise_ngtcp2_error rv
      else with_stream self (modify (set_reset true));; mret VNil
    end.
End streamio.
