(* ===== verification/Pump.v ===== *)
(** * The I/O loop of the Ruby half (lib/quic/connection.rb)

    [#bind], [#run], [#pump_once], [#pump_until], [#accept_stream] and
    [#accept_stream_nonblock].  Timeouts and deadlines are Floats, in seconds,
    computed with binary64 rounding; [IO.select] and [#recvfrom] can raise.
    The loops take a bound on their rounds; [Diverge] means the bound was
    reached. *)
From S2P Require Import Prelude RFloat Ngtcp2 Errors Ruby Stream Client.

Section pump.
Context {C E : Type} `{NC : NgConst} `{NG : Ngtcp2 C} `{SY : Sys E}.

(** Call a C method that works on a String of the caller. *)
Definition io_call (f : world C E → io_result (C:=C) (E:=E)) : clientM C E value := λ w,
  let r := f w in (io_out r, io_world r).

Definition bind (sock : loc) : clientM C E loc :=
  modify (set_w_sock (Some sock));; gets w_self.
Definition bound_socket : clientM C E (option loc) := gets w_sock.

(** [while (pkt = write_pkt) @sock.send(pkt, 0) end] *)
Fixpoint flush (fuel : nat) (sock : loc) : clientM C E unit :=
  pkt ← io_call (quic_client_write_pkt VNil);
  match pkt with
  | VStr s =>
    match fuel with
    | O => diverge
    | S fuel => send_on sock (rs_bytes s);; flush fuel sock
    end
  | _ => mret tt
  end.

(** [Process.clock_gettime(CLOCK_MONOTONIC, :nanosecond)] *)
Definition monotonic_ns : clientM C E Z := λ w,
  let '((sec, nsec), e') := clock_gettime (w_env w) in
  (Ret (sec * 1000000000 + nsec), set_w_env e' w).

(** [Process.clock_gettime(CLOCK_MONOTONIC)], in seconds *)
Definition monotonic_secs : clientM C E float := λ w,
  let '((sec, nsec), e') := clock_gettime (w_env w) in
  (Ret (fdiv (fadd (fmul (float_of_Z sec) giga) (float_of_Z nsec)) giga), set_w_env e' w).

Definition pump_timeout (caller_timeout : option float) : clientM C E (option float) :=
  ngtcp2_expiry_ns ← quic_client_expiry;
  match ngtcp2_expiry_ns with
  | None => mret caller_timeout
  | Some t =>
    now_ns ← monotonic_ns;
    let expiry_secs := fmax (fdiv (float_of_Z (t - now_ns)) giga) fzero in
    match caller_timeout with
    | None => mret (Some expiry_secs)
    | Some c => mret (Some (fmin c expiry_secs))
    end
  end.

Definition pump_remote_sockaddr (sock : loc) : clientM C E bytes :=
  memo ← gets w_pump_remote;
  match memo with
  | Some a => mret a
  | None =>
    let a := sock_remote_sockaddr sock in
    modify (set_w_pump_remote (Some a));; mret a
  end.

Definition binary (b : bytes) : value := VStr (RString b ASCII_8BIT false false).

(** [IO.select] refuses a negative interval. *)
Definition select_readable (sock : loc) (timeout : option float) : clientM C E bool :=
  match timeout with
  | Some t =>
    if flt t fzero then rb_raise ArgumentError
    else λ w, let '(ready, e') := io_select sock timeout (w_env w) in (Ret ready, set_w_env e' w)
  | None => λ w, let '(ready, e') := io_select sock timeout (w_env w) in (Ret ready, set_w_env e' w)
  end.
Definition recvfrom (sock : loc) (maxlen : Z) : clientM C E bytes := λ w,
  let '(data, e') := sock_recvfrom sock maxlen (w_env w) in
  (match data with Some data => Ret data | None => Raise (Exn SystemCallError None) end,
   set_w_env e' w).

Definition pump_once (fuel : nat) (timeout : option float) : clientM C E unit :=
  sock ← gets w_sock;
  match sock with
  | None => rb_raise rb_eQuicErrorNotBound
  | Some sock =>
    flush fuel sock;;
    wait_for ← pump_timeout timeout;
    ready ← select_readable sock wait_for;
    if (ready : bool) then
      data ← recvfrom sock 2048;
      remote ← pump_remote_sockaddr sock;
      io_call (quic_client_read_pkt (binary data)
        (Some [("local_sockaddr", binary any_sockaddr); ("remote_sockaddr", binary remote)]));;
      mret tt
    else quic_client_handle_expiry
  end.

(** [pump_once until pred.call] *)
Definition pump_until (fuel : nat) (pred : clientM C E bool) : clientM C E unit :=
  while_ fuel (b ← pred; mret (negb b)) (pump_once fuel None).

Definition run_ (fuel : nat) : clientM C E unit :=
  sock ← gets w_sock;
  match sock with
  | None => rb_raise rb_eQuicErrorNotBound
  | Some _ => pump_until fuel quic_client_handshake_completed_p
  end.

(** [@accept_queue.shift] *)
Definition accept_shift : clientM C E (option loc) :=
  q ← gets w_accept_queue;
  match q with
  | [] => mret None
  | l :: q => modify (set_w_accept_queue q);; mret (Some l)
  end.

(** The [loop do] of [#accept_stream]. *)
Fixpoint accept_loop (fuel : nat) (deadline : option float) : clientM C E (option loc) :=
  match fuel with
  | O => diverge
  | S fuel =>
    let next : clientM C E (option loc) :=
      stream ← accept_shift;
      match stream with
      | Some l => mret (Some l)
      | None => accept_loop fuel deadline
      end in
    match deadline with
    | Some deadline =>
      now ← monotonic_secs;
      let remaining := fsub deadline now in
      if fle remaining fzero then mret None
      else pump_once fuel (Some remaining);; next
    | None => pump_once fuel None;; next
    end
  end.

Definition accept_stream (fuel : nat) (timeout : option float) : clientM C E (option loc) :=
  stream ← accept_shift;
  match stream with
  | Some l => mret (Some l)
  | None =>
    match timeout with
    | Some t =>
      if feq t fzero then mret None
      else now ← monotonic_secs; accept_loop fuel (Some (fadd now t))
    | None => accept_loop fuel None
    end
  end.

Definition accept_stream_nonblock : clientM C E loc :=
  stream ← accept_shift;
  match stream with
  | Some l => mret l
  | None => rb_raise rb_eQuicErrorWaitReadable
  end.
End pump.
