(* ===== verification/Blocking.v ===== *)
(** * Blocking Stream I/O: #write (ext/quic/stream.c) and #read (lib/quic/stream.rb)

    Both drive the client's I/O loop until a condition holds. *)
From S2P Require Import Prelude Ngtcp2 Errors Ruby Stream Client StreamIO Pump.

Section blocking.
Context {C E : Type} `{NC : NgConst} `{NG : Ngtcp2 C} `{SY : Sys E}.

(** The condition of the window loop: the payload does not fit yet. *)
Definition window_short (self : loc) (needed : Z) : clientM C E bool :=
  s ← get_stream self;
  left ← quic_stream_window_left (iv_client s) (stream_id s);
  mret (left <? needed).

Definition quic_stream_write_m (fuel : nat) (self : loc) (data : value) (opts : kwargs) :
    clientM C E Z :=
  let fin := quic_stream_fin_kwarg opts in
  s ← get_stream self;
  match iv_client s with
  | None => with_stream self (quic_stream_enqueue data fin)
  | Some _ =>
    str ← check_string data;
    let needed := zlen (rs_bytes str) in
    (if 0 <? needed
     then while_ fuel (window_short self needed) (pump_once fuel None)
     else mret tt);;
    with_stream self (quic_stream_enqueue data fin)
  end.

(** [INITIATORS[@id & 0b11]] *)
Definition initiator (s : stream) : string :=
  match Z.land (iv_id s) 3 with
  | 0 => "client_bidi" | 1 => "server_bidi" | 2 => "client_uni" | _ => "server_uni"
  end.

(** [until eof? do out << read_nonblock(4096) end] *)
Fixpoint read_until_eof (fuel : nat) (self : loc) (out : bytes) : clientM C E bytes :=
  eof ← with_stream self quic_stream_eof_p;
  if (eof : bool) then mret out
  else
    match fuel with
    | O => diverge
    | S fuel =>
      chunk ← with_stream self (quic_stream_read_nonblock_m (VInt 4096));
      read_until_eof fuel self (out ++ chunk)
    end.

(** [loop do out << read_nonblock(4096) rescue WaitReadable, EOFError; break end] *)
Fixpoint read_drain (fuel : nat) (self : loc) (out : bytes) : clientM C E bytes := λ w,
  match with_stream self (quic_stream_read_nonblock_m (VInt 4096)) w with
  | (Ret chunk, w') =>
    match fuel with
    | O => (Diverge, w')
    | S fuel => read_drain fuel self (out ++ chunk) w'
    end
  | (Raise e, w') =>
    if rescues [HClass rb_eQuicErrorWaitReadable; HClass EOFError] e then (Ret out, w')
    else (Raise e, w')
  | (Diverge, w') => (Diverge, w')
  end.

(** [@client.pump_until]: NoMethodError on a bare Stream's nil. *)
Definition client_pump_until (fuel : nat) (self : loc) (pred : clientM C E bool) :
    clientM C E unit :=
  s ← get_stream self;
  match iv_client s with
  | None => rb_raise NoMethodError
  | Some _ => pump_until fuel pred
  end.

(** The block [{ @recv_buffer.bytesize > 0 || @fin_received }] of
    [#read(length)]: [@fin_received] is an instance variable that nothing
    assigns (the flag is a field of the C struct), so it reads nil. *)
Definition data_available (self : loc) : clientM C E bool :=
  s ← get_stream self; mret ((0 <? zlen (iv_recv_buffer s)) || RTEST VNil).

(** [#read(nil)] *)
Definition read_all (fuel : nat) (self : loc) : clientM C E bytes :=
  client_pump_until fuel self (with_stream self quic_stream_eof_p);;
  out ← read_until_eof fuel self [];
  read_drain fuel self out.

(** [#read(length)]; [None] is nil. *)
Definition read_some (fuel : nat) (self : loc) (length : value) : clientM C E (option bytes) :=
  client_pump_until fuel self (data_available self);;
  rescue (out ← with_stream self (quic_stream_read_nonblock_m length); mret (Some out))
    (rescues [HClass EOFError]) (mret None).

Definition read (fuel : nat) (self : loc) (length : value) : clientM C E (option bytes) :=
  if NIL_P length then out ← read_all fuel self; mret (Some out)
  else read_some fuel self length.
End blocking.
