(* ===== verification/Open.v ===== *)
(** * Opening and freeing a client (ext/quic/connection_client.c)

    [quic_client_open] with its argument checks, the ALPN encoding, the filling
    of [ngtcp2_settings] and [ngtcp2_transport_params], and the TLS objects it
    creates; [quic_client_free]; the connection-id callback. *)
From S2P Require Import Prelude Ngtcp2 Errors Ruby Client.

(** ** ALPN *)

(** [(unsigned char)n] *)
Definition byte_of_Z (n : Z) : byte :=
  match Byte.of_N (Z.to_N (n `mod` 256)) with Some b => b | None => "000"%byte end.
Definition Z_of_byte (b : byte) : Z := Z.of_N (Byte.to_N b).

(** The first loop: every entry is a String of 1 to 255 bytes; the size of the
    wire format. *)
Fixpoint alpn_check {S} (entries : list value) (total : Z) : act exn S Z :=
  match entries with
  | [] => mret total
  | entry :: rest =>
    s ← check_string entry;
    let len := zlen (rs_bytes s) in
    if (len <? 1) || (255 <? len) then rb_raise ArgumentError
    else alpn_check rest (total + (1 + len))
  end.

(** The second loop: length-prefixed entries, concatenated. *)
Definition alpn_entry (e : bytes) : bytes := byte_of_Z (zlen e) :: e.
Definition alpn_wire (entries : list bytes) : bytes := concat (map alpn_entry entries).

(** [(unsigned int)total] *)
Definition u32 (z : Z) : Z := z `mod` 2 ^ 32.

(** ** Settings and transport parameters *)
Inductive ngtcp2_cc_algo := NGTCP2_CC_ALGO_RENO | NGTCP2_CC_ALGO_CUBIC | NGTCP2_CC_ALGO_BBR.

Definition quic_cc_algo_from_sym {S} (v : value) : act exn S ngtcp2_cc_algo :=
  sym ← check_symbol v;
  if String.eqb sym "reno" then mret NGTCP2_CC_ALGO_RENO
  else if String.eqb sym "cubic" then mret NGTCP2_CC_ALGO_CUBIC
  else if String.eqb sym "bbr" then mret NGTCP2_CC_ALGO_BBR
  else rb_raise ArgumentError.

Definition quic_get_uint64_field {S} (obj : value) (name : string) : act exn S Z :=
  v ← rb_funcall obj name; NUM2ULL v.

(** The fields the extension sets; the others keep ngtcp2's defaults. *)
Record ngtcp2_transport_params := TransportParams {
  initial_max_stream_data_bidi_local : Z;
  initial_max_stream_data_bidi_remote : Z;
  initial_max_stream_data_uni : Z;
  initial_max_data : Z;
  initial_max_streams_bidi : Z;
  initial_max_streams_uni : Z;
  max_idle_timeout : Z;
  active_connection_id_limit : Z;
}.

Definition quic_fill_transport_params {S} (tp : value) : act exn S ngtcp2_transport_params :=
  a ← quic_get_uint64_field tp "initial_max_stream_data_bidi_local";
  b ← quic_get_uint64_field tp "initial_max_stream_data_bidi_remote";
  c ← quic_get_uint64_field tp "initial_max_stream_data_uni";
  d ← quic_get_uint64_field tp "initial_max_data";
  e ← quic_get_uint64_field tp "initial_max_streams_bidi";
  f ← quic_get_uint64_field tp "initial_max_streams_uni";
  g ← quic_get_uint64_field tp "max_idle_timeout";
  h ← quic_get_uint64_field tp "active_connection_id_limit";
  mret (TransportParams a b c d e f g h).

Record ngtcp2_settings := Settings {
  initial_ts : Z;
  cc_algo : ngtcp2_cc_algo;
  initial_rtt : Z;
  max_window : Z;
  max_stream_window : Z;
  handshake_timeout : Z;
  no_pmtud : bool;
}.

Definition quic_fill_settings {S} (now : Z) (st : value) : act exn S ngtcp2_settings :=
  v ← rb_funcall st "cc_algo";
  cc ← quic_cc_algo_from_sym v;
  rtt ← quic_get_uint64_field st "initial_rtt";
  mw ← quic_get_uint64_field st "max_window";
  msw ← quic_get_uint64_field st "max_stream_window";
  ht ← quic_get_uint64_field st "handshake_timeout";
  np ← rb_funcall st "no_pmtud";
  mret (Settings now cc rtt mw msw ht (RTEST np)).

(** [Quic::TransportParams.default] and [Quic::Settings.default] (lib/quic). *)
Definition transport_params_default : value := VObj [
  ("initial_max_stream_data_bidi_local", VInt 262144);
  ("initial_max_stream_data_bidi_remote", VInt 262144);
  ("initial_max_stream_data_uni", VInt 262144);
  ("initial_max_data", VInt 1048576);
  ("initial_max_streams_bidi", VInt 100);
  ("initial_max_streams_uni", VInt 100);
  ("max_idle_timeout", VInt 30000000000);
  ("active_connection_id_limit", VInt 7)].
Definition settings_default : value := VObj [
  ("cc_algo", VSym "cubic");
  ("initial_rtt", VInt 333000000);
  ("max_window", VInt 0);
  ("max_stream_window", VInt 0);
  ("handshake_timeout", VInt 10000000000);
  ("no_pmtud", VBool false);
  ("alpn", VAry [])].

(** ** The outside: TLS library, random bytes, ngtcp2's constructor *)
Class Tls (E C : Type) := {
  ngtcp2_crypto_quictls_init : E → Z * E;
  SSL_CTX_new : E → option positive * E;
  quictls_configure_client_context : positive → E → Z * E;
  SSL_new : positive → E → option positive * E;
  SSL_set_tlsext_host_name : positive → bytes → E → E;
  SSL_set_alpn_protos : positive → bytes → E → Z * E;
  (** [None] when RAND_bytes does not return 1 *)
  RAND_bytes : Z → E → option bytes * E;
  (** dcid, scid, path, settings, params: the result and [*pconn] *)
  ngtcp2_conn_client_new :
    bytes → bytes → ngtcp2_path → ngtcp2_settings → ngtcp2_transport_params → E → Z * C * E;
}.

(** ** The client's C struct and its resources *)
Record quic_client_t (C : Type) := QuicClient {
  qc_conn : option C;
  qc_ssl_ctx : option positive;
  qc_ssl : option positive;
  qc_scid : bytes;
  qc_dcid : bytes;
  qc_owner : option loc;
}.
Arguments QuicClient {C}. Arguments qc_conn {C}. Arguments qc_ssl_ctx {C}.
Arguments qc_ssl {C}. Arguments qc_scid {C}. Arguments qc_dcid {C}. Arguments qc_owner {C}.

(** What C allocates outside Ruby's heap, and the log of it. *)
Inductive resource := RConn | RSsl (ssl : positive) | RCtx (ctx : positive).
#[export] Instance resource_eq_dec : EqDecision resource.
Proof. solve_decision. Defined.
Inductive res_event := Acquire (r : resource) | Release (r : resource).

(** The instance variables of the new object, nil until they are set. *)
Record client_ivars := ClientIvars {
  ci_server_name : value;
  ci_streams : option (list (Z * loc));
  ci_accept_queue : option (list loc);
}.
Definition no_ivars : client_ivars := ClientIvars VNil None None.

(** The state of [quic_client_open]: [os_initialized] is the C global
    [quic_crypto_initialized]; [os_client] the struct inside the new object. *)
Record open_state (E C : Type) := OpenState {
  os_env : E;
  os_initialized : bool;
  os_client : option (quic_client_t C);
  os_ivars : client_ivars;
  os_log : list res_event;
}.
Arguments OpenState {E C}. Arguments os_env {E C}. Arguments os_initialized {E C}.
Arguments os_client {E C}. Arguments os_ivars {E C}. Arguments os_log {E C}.

Section open.
Context {C E : Type} `{NC : NgConst} `{SY : Sys E} `{TL : Tls E C}.
Abbreviation openM := (act exn (open_state E C)).

Definition external {A} (f : E → A * E) : openM A := λ s,
  let '(a, e') := f (os_env s) in
  (Ret a, OpenState e' (os_initialized s) (os_client s) (os_ivars s) (os_log s)).
Definition log (ev : res_event) : openM unit :=
  modify (λ s, OpenState (os_env s) (os_initialized s) (os_client s) (os_ivars s)
                 (os_log s ++ [ev])).
Definition set_initialized : openM unit :=
  modify (λ s, OpenState (os_env s) true (os_client s) (os_ivars s) (os_log s)).
Definition set_ivars (f : client_ivars → client_ivars) : openM unit :=
  modify (λ s, OpenState (os_env s) (os_initialized s) (os_client s) (f (os_ivars s)) (os_log s)).
Definition set_server_name (v : value) : openM unit :=
  set_ivars (λ i, ClientIvars v (ci_streams i) (ci_accept_queue i)).
Definition set_client (f : quic_client_t C → quic_client_t C) : openM unit :=
  modify (λ s, OpenState (os_env s) (os_initialized s) (f <$> os_client s) (os_ivars s)
                 (os_log s)).

(** [quic_client_alloc]: a zeroed struct. *)
Definition quic_client_alloc : openM unit :=
  modify (λ s, OpenState (os_env s) (os_initialized s)
                 (Some (QuicClient None None None [] [] None)) (os_ivars s) (os_log s)).

(** [quic_client_free], run by the garbage collector on the object. *)
Definition quic_client_free : openM unit :=
  s ← get;
  match os_client s with
  | None => mret tt
  | Some c =>
    match qc_conn c with Some _ => log (Release RConn) | None => mret tt end;;
    match qc_ssl c with Some ssl => log (Release (RSsl ssl)) | None => mret tt end;;
    match qc_ssl_ctx c with Some ctx => log (Release (RCtx ctx)) | None => mret tt end;;
    modify (λ s, OpenState (os_env s) (os_initialized s) None (os_ivars s) (os_log s))
  end.

Definition open_now : openM Z :=
  ts ← external clock_gettime;
  let '(sec, nsec) := ts in
  mret (u64 (u64 (u64 sec * NGTCP2_SECONDS) + u64 nsec)).

(** A C string ends at the first NUL. *)
Fixpoint c_string (b : bytes) : bytes :=
  match b with
  | [] => []
  | x :: b => if Z_of_byte x =? 0 then [] else x :: c_string b
  end.

(** Lines 386-415. *)
Definition open_alpn (ssl : positive) (settings_v : value) : openM unit :=
  v ← rb_funcall settings_v "alpn";
  alpn_ary ← check_array v;
  if 0 <? zlen alpn_ary then
    total ← alpn_check alpn_ary 0;
    let wire := alpn_wire (map string_bytes alpn_ary) in
    rv ← external (SSL_set_alpn_protos ssl (ztake (u32 total) wire));
    if negb (rv =? 0) then rb_raise RuntimeError else mret tt
  else mret tt.

(** The arguments and their checks (lines 334-355). *)
Record open_args := OpenArgs {
  oa_local : rstring; oa_remote : rstring; oa_server_name : rstring;
  oa_transport_params : value; oa_settings : value;
}.
Definition open_check_args (opts : kwargs) : openM open_args :=
  match opts with
  | None => rb_raise ArgumentError
  | Some opts =>
    let local_sockaddr := kwarg opts "local_sockaddr" in
    let remote_sockaddr := kwarg opts "remote_sockaddr" in
    let server_name := kwarg opts "server_name" in
    let transport_params := kwarg opts "transport_params" in
    let settings_v := kwarg opts "settings" in
    if NIL_P local_sockaddr || NIL_P remote_sockaddr || NIL_P server_name ||
       NIL_P transport_params || NIL_P settings_v then rb_raise ArgumentError
    else
      local ← quic_require_binary local_sockaddr;
      remote ← quic_require_binary remote_sockaddr;
      name ← check_string server_name;
      mret (OpenArgs local remote name transport_params settings_v)
  end.

(** Lines 357-362: once per process. *)
Definition open_crypto_init : openM unit :=
  s ← get;
  if os_initialized s then mret tt
  else
    rv ← external ngtcp2_crypto_quictls_init;
    if negb (rv =? 0) then rb_raise RuntimeError else set_initialized.

(** Lines 371-384: the SSL handle. *)
Definition open_tls (server_name : rstring) : openM positive :=
  ctx ← external SSL_CTX_new;
  match ctx with
  | None => rb_raise RuntimeError
  | Some ctx =>
    log (Acquire (RCtx ctx));;
    set_client (λ c, QuicClient (qc_conn c) (Some ctx) (qc_ssl c) (qc_scid c) (qc_dcid c) (qc_owner c));;
    rv ← external (quictls_configure_client_context ctx);
    if negb (rv =? 0) then rb_raise RuntimeError
    else
      ssl ← external (SSL_new ctx);
      match ssl with
      | None => rb_raise RuntimeError
      | Some ssl =>
        log (Acquire (RSsl ssl));;
        set_client (λ c, QuicClient (qc_conn c) (qc_ssl_ctx c) (Some ssl) (qc_scid c) (qc_dcid c) (qc_owner c));;
        external (λ e, (tt, SSL_set_tlsext_host_name ssl (c_string (rs_bytes server_name)) e));;
        mret ssl
      end
  end.

(** Lines 424-431: the two random connection ids. *)
Definition open_cids : openM (bytes * bytes) :=
  scid ← external (RAND_bytes 8);
  match scid with
  | None => rb_raise RuntimeError
  | Some scid =>
    set_client (λ c, QuicClient (qc_conn c) (qc_ssl_ctx c) (qc_ssl c) scid (qc_dcid c) (qc_owner c));;
    dcid ← external (RAND_bytes 8);
    match dcid with
    | None => rb_raise RuntimeError
    | Some dcid =>
      set_client (λ c, QuicClient (qc_conn c) (qc_ssl_ctx c) (qc_ssl c) (qc_scid c) dcid (qc_owner c));;
      mret (scid, dcid)
    end
  end.

(** [quic_client_open]: the new connection; [self] is where Ruby puts the
    object. *)
Definition quic_client_open (self : loc) (opts : kwargs) : openM C :=
  a ← open_check_args opts;
  open_crypto_init;;
  quic_client_alloc;;
  set_server_name (VStr (oa_server_name a));;
  set_client (λ c, QuicClient (qc_conn c) (qc_ssl_ctx c) (qc_ssl c) (qc_scid c) (qc_dcid c) (Some self));;
  ssl ← open_tls (oa_server_name a);
  open_alpn ssl (oa_settings a);;
  cids ← open_cids;
  now ← open_now;
  settings ← quic_fill_settings now (oa_settings a);
  params ← quic_fill_transport_params (oa_transport_params a);
  r ← external (λ e, let '(rv, conn, e') :=
                       ngtcp2_conn_client_new cids.2 cids.1
                         (Path (rs_bytes (oa_local a)) (rs_bytes (oa_remote a)))
                         settings params e in ((rv, conn), e'));
  let '(rv, conn) := r in
  if negb (rv =? 0) then quic_raise_ngtcp2_error rv
  else
    log (Acquire RConn);;
    set_client (λ c, QuicClient (Some conn) (qc_ssl_ctx c) (qc_ssl c) (qc_scid c) (qc_dcid c) (qc_owner c));;
    set_ivars (λ i, ClientIvars (ci_server_name i) (Some []) (ci_accept_queue i));;
    set_ivars (λ i, ClientIvars (ci_server_name i) (ci_streams i) (Some []));;
    mret conn.

(** The client that [_open] leaves at [self], read off the C struct and the
    instance variables; there is none unless all of them have been set. *)
Definition opened_world (self : loc) (s : open_state E C) : option (world C E) :=
  c ← os_client s;
  conn ← qc_conn c;
  owner ← qc_owner c;
  streams ← ci_streams (os_ivars s);
  queue ← ci_accept_queue (os_ivars s);
  Some (World conn (os_env s) ∅ self owner streams queue None None).

(** ** Callbacks ngtcp2 makes for random bytes and for the connection *)

(** [quic_rand_cb] ignores a failure: [dest] keeps what it held. *)
Definition quic_rand_cb (dest : bytes) (e : E) : bytes * E :=
  let '(r, e) := RAND_bytes (zlen dest) e in (default dest r, e).

Definition quic_client_get_conn (user_data : quic_client_t C) : option C := qc_conn user_data.

(** [quic_get_new_connection_id_cb]: the result, and the id and token it
    wrote when it returns 0. *)
Definition quic_get_new_connection_id_cb (cidlen : Z) (e : E) : Z * bytes * bytes * E :=
  match RAND_bytes cidlen e with
  | (None, e) => (NGTCP2_ERR_CALLBACK_FAILURE, [], [], e)
  | (Some cid, e) =>
    match RAND_bytes NGTCP2_STATELESS_RESET_TOKENLEN e with
    | (None, e) => (NGTCP2_ERR_CALLBACK_FAILURE, cid, [], e)
    | (Some token, e) => (0, cid, token, e)
    end
  end.
End open.
