(* ===== verification/Loopback.v ===== *)
(** * A concrete ngtcp2, socket and TLS library

    Small executable instances of the interfaces of [Ngtcp2.v] and [Open.v],
    with the proof that they keep the promises the development relies on.
    The examples and witnesses of the other files run the client on them. *)
From S2P Require Import Prelude Ngtcp2 Open.

(** The values of ngtcp2.h. *)
#[export] Instance ngtcp2_h : NgConst := {
  NGTCP2_ERR_PROTO := -203;
  NGTCP2_ERR_INVALID_STATE := -204;
  NGTCP2_ERR_STREAM_DATA_BLOCKED := -208;
  NGTCP2_ERR_CRYPTO := -213;
  NGTCP2_ERR_STREAM_SHUT_WR := -219;
  NGTCP2_ERR_CLOSING := -223;
  NGTCP2_ERR_DRAINING := -224;
  NGTCP2_ERR_RETRY := -231;
  NGTCP2_ERR_DROP_CONN := -232;
  NGTCP2_ERR_HANDSHAKE_TIMEOUT := -236;
  NGTCP2_ERR_IDLE_CLOSE := -238;
  NGTCP2_ERR_CALLBACK_FAILURE := -502;
  NGTCP2_STREAM_DATA_FLAG_FIN := 1;
  NGTCP2_WRITE_STREAM_FLAG_FIN := 2;
  NGTCP2_STREAM_CLOSE_FLAG_APP_ERROR_CODE_SET := 1;
  NGTCP2_SECONDS := 1000000000;
  NGTCP2_STATELESS_RESET_TOKENLEN := 16;
}.

#[export] Instance ngtcp2_h_ok : NgConstOk.
Proof.
  split; [by apply (bool_decide_unpack _)| |done..]. repeat constructor; simpl; lia.
Qed.

(** ** The connection *)

(** Open streams with the bytes framed and acked, the number of streams
    opened locally, the flow control window (at most 1000 per stream), how many more packets congestion
    control lets out, and the state of the handshake and of closing.
    [lb_ack_only] makes the next packet of a FIN-only call an ACK; [lb_shut] are
    the streams whose sending side has been reset. *)
Record lconn := LConn {
  lb_streams : gmap Z (Z * Z);
  lb_count : Z;
  lb_window : Z;
  lb_budget : nat;
  lb_handshake : bool;
  lb_hello : bool;
  lb_closing : bool;
  lb_expiry : Z;
  lb_ack_only : bool;
  lb_shut : list Z;
}.

Definition set_lb_streams m c :=
  LConn m (lb_count c) (lb_window c) (lb_budget c) (lb_handshake c) (lb_hello c) (lb_closing c)
    (lb_expiry c) (lb_ack_only c) (lb_shut c).
Definition set_lb_count n c :=
  LConn (lb_streams c) n (lb_window c) (lb_budget c) (lb_handshake c) (lb_hello c) (lb_closing c)
    (lb_expiry c) (lb_ack_only c) (lb_shut c).
Definition set_lb_window n c :=
  LConn (lb_streams c) (lb_count c) n (lb_budget c) (lb_handshake c) (lb_hello c) (lb_closing c)
    (lb_expiry c) (lb_ack_only c) (lb_shut c).
Definition set_lb_budget n c :=
  LConn (lb_streams c) (lb_count c) (lb_window c) n (lb_handshake c) (lb_hello c) (lb_closing c)
    (lb_expiry c) (lb_ack_only c) (lb_shut c).
Definition set_lb_handshake b c :=
  LConn (lb_streams c) (lb_count c) (lb_window c) (lb_budget c) b (lb_hello c) (lb_closing c)
    (lb_expiry c) (lb_ack_only c) (lb_shut c).
Definition set_lb_hello b c :=
  LConn (lb_streams c) (lb_count c) (lb_window c) (lb_budget c) (lb_handshake c) b (lb_closing c)
    (lb_expiry c) (lb_ack_only c) (lb_shut c).
Definition set_lb_closing b c :=
  LConn (lb_streams c) (lb_count c) (lb_window c) (lb_budget c) (lb_handshake c) (lb_hello c) b
    (lb_expiry c) (lb_ack_only c) (lb_shut c).
Definition set_lb_expiry n c :=
  LConn (lb_streams c) (lb_count c) (lb_window c) (lb_budget c) (lb_handshake c) (lb_hello c)
    (lb_closing c) n (lb_ack_only c) (lb_shut c).
Definition set_lb_ack_only b c :=
  LConn (lb_streams c) (lb_count c) (lb_window c) (lb_budget c) (lb_handshake c) (lb_hello c)
    (lb_closing c) (lb_expiry c) b (lb_shut c).
Definition set_lb_shut l c :=
  LConn (lb_streams c) (lb_count c) (lb_window c) (lb_budget c) (lb_handshake c) (lb_hello c)
    (lb_closing c) (lb_expiry c) (lb_ack_only c) l.

Definition lconn_new : lconn := LConn ∅ 0 10 5 false true false UINT64_MAX false [].

Definition lconn_ledger (c : lconn) : ledger :=
  Ledger (λ id, bool_decide (is_Some (lb_streams c !! id)))
         (λ id, from_option fst 0 (lb_streams c !! id))
         (λ id, from_option snd 0 (lb_streams c !! id)).

(** A packet is a tag byte and, for stream data, the bytes framed. *)
Definition lb_writev (c : lconn) (flags id : Z) (data : option bytes) (destlen ts : Z) :
    writev_result lconn :=
  let idle n := WritevResult c [] n (-1) [] in
  if destlen <? 1 then idle (Z.min 0 destlen)
  else if bool_decide (id ∈ lb_shut c) then idle NGTCP2_ERR_STREAM_SHUT_WR
  else
    match lb_budget c with
    | O => idle 0
    | S budget =>
      let c := set_lb_budget budget c in
      match data with
      | Some d =>
        match lb_streams c !! id with
        | None => idle NGTCP2_ERR_PROTO
        | Some (sent, acked) =>
          let k := Z.min (zlen d) (Z.min (lb_window c) (destlen - 1)) in
          if k <=? 0 then idle 0
          else
            WritevResult
              (set_lb_window (lb_window c - k) (set_lb_streams (<[id := (sent + k, acked)]> (lb_streams c)) c))
              [] (1 + k) k ("S"%byte :: ztake k d)
        end
      | None =>
        if has_flag flags NGTCP2_WRITE_STREAM_FLAG_FIN then
          if lb_ack_only c then WritevResult (set_lb_ack_only false c) [] 1 (-1) ["A"%byte]
          else WritevResult c [] 1 0 ["F"%byte]
        else if lb_hello c then WritevResult (set_lb_hello false c) [] 1 (-1) ["H"%byte]
        else idle 0
      end
    end.

(** Packets from the peer: ["d"] and ["f"] carry data for its stream 1, ["a"]
    acks everything sent on stream 0, ["c"] and ["r"] close and reset it, ["w"]
    opens the window, ["h"] completes the handshake, ["x"] starts draining. *)
Definition lb_recv (c : lconn) (flags : Z) (payload : bytes) : lconn * list cb_event * Z :=
  match lb_streams c !! 1 with
  | Some _ => (c, [CbRecvStreamData flags 1 0 payload], 0)
  | None => (set_lb_streams (<[1 := (0, 0)]> (lb_streams c)) c,
             [CbStreamOpen 1; CbRecvStreamData flags 1 0 payload], 0)
  end.
Definition lb_read_pkt (c : lconn) (path : ngtcp2_path) (pkt : bytes) (ts : Z) :
    lconn * list cb_event * Z :=
  match pkt with
  | "d"%byte :: payload => lb_recv c 0 payload
  | "f"%byte :: payload => lb_recv c NGTCP2_STREAM_DATA_FLAG_FIN payload
  | "a"%byte :: _ =>
    match lb_streams c !! 0 with
    | Some (sent, acked) =>
      if acked <=? sent then
        (set_lb_streams (<[0 := (sent, sent)]> (lb_streams c)) c,
         [CbAckedStreamDataOffset 0 acked (sent - acked)], 0)
      else (c, [], 0)
    | None => (c, [], 0)
    end
  | "c"%byte :: _ => (c, [CbStreamClose 0 0 0], 0)
  | "r"%byte :: _ => (c, [CbStreamReset 0 0 7], 0)
  | "w"%byte :: _ => (set_lb_window 100 c, [], 0)
  | "h"%byte :: _ => (set_lb_handshake true c, [], 0)
  | "x"%byte :: _ => (c, [], NGTCP2_ERR_DRAINING)
  | _ => (c, [], 0)
  end.

Definition lb_open (id : Z) (c : lconn) : lconn * Z * Z :=
  match lb_streams c !! id with
  | Some _ => (c, NGTCP2_ERR_INVALID_STATE, 0)
  | None => (set_lb_count (lb_count c + 1) (set_lb_streams (<[id := (0, 0)]> (lb_streams c)) c), 0, id)
  end.

#[export] Instance loopback : Ngtcp2 lconn := {
  ngtcp2_conn_writev_stream := lb_writev;
  ngtcp2_conn_read_pkt := lb_read_pkt;
  ngtcp2_conn_handle_expiry c ts :=
    (set_lb_expiry UINT64_MAX c, [], if lb_closing c then NGTCP2_ERR_IDLE_CLOSE else 0);
  ngtcp2_conn_get_expiry := lb_expiry;
  ngtcp2_conn_get_handshake_completed := lb_handshake;
  ngtcp2_conn_in_closing_period := lb_closing;
  ngtcp2_conn_in_draining_period c := false;
  ngtcp2_conn_get_max_stream_data_left c id := Z.min 1000 (u64 (lb_window c));
  ngtcp2_conn_get_max_data_left c := u64 (lb_window c);
  ngtcp2_conn_open_bidi_stream c := lb_open (4 * lb_count c) c;
  ngtcp2_conn_open_uni_stream c := lb_open (4 * lb_count c + 2) c;
  ngtcp2_conn_shutdown_stream_read c id code := (c, 0);
  ngtcp2_conn_shutdown_stream_write c id code := (set_lb_shut (id :: lb_shut c) c, 0);
  ngtcp2_conn_write_connection_close c code reason destlen ts :=
    if destlen <? 1 then (c, Z.min 0 destlen, [])
    else if lb_handshake c then (set_lb_closing true c, 1, ["C"%byte])
    else (c, NGTCP2_ERR_INVALID_STATE, []);
}.

Lemma lconn_insert_sent c id sent acked k :
  lb_streams c !! id = Some (sent, acked) →
  lconn_ledger (set_lb_streams (<[id := (sent + k, acked)]> (lb_streams c)) c) ≡
    lg_frame id k (lconn_ledger c).
Proof.
  intros Hid i. simpl. case_decide as Hi; [subst; rewrite lookup_insert_eq, Hid; done|].
  by rewrite lookup_insert_ne by congruence.
Qed.

Lemma lconn_insert_new c id :
  lb_streams c !! id = None →
  lconn_ledger (set_lb_streams (<[id := (0, 0)]> (lb_streams c)) c) ≡
    lg_open id (lconn_ledger c).
Proof.
  intros Hid i. simpl. destruct (decide (i = id)) as [->|Hi].
  - rewrite lookup_insert_eq, Hid. by rewrite (bool_decide_true (id = id)).
  - rewrite lookup_insert_ne by congruence. by rewrite (bool_decide_false (i = id)).
Qed.

Lemma lconn_insert_acked c id sent acked :
  lb_streams c !! id = Some (sent, acked) →
  lconn_ledger (set_lb_streams (<[id := (sent, sent)]> (lb_streams c)) c) ≡
    lg_ack id (sent - acked) (lconn_ledger c).
Proof.
  intros Hid i. simpl. case_decide as Hi.
  - subst. rewrite lookup_insert_eq, Hid. simpl. split_and!; auto. lia.
  - by rewrite lookup_insert_ne by congruence.
Qed.

Lemma lg_frame_zero id g : lg_frame id 0 g ≡ g.
Proof. intros i. simpl. case_decide; split_and!; auto; lia. Qed.

Lemma lb_writev_ok c flags id data destlen ts :
  let r := lb_writev c flags id data destlen ts in
  wv_pdatalen r ≤ zlen (default [] data) ∧ wv_n r ≤ destlen ∧
  (0 ≤ wv_n r → zlen (wv_pkt r) = wv_n r) ∧ wv_events r = [] ∧
  lconn_ledger (wv_conn r) ≡
    lg_frame id (if 0 <=? wv_n r then Z.max 0 (wv_pdatalen r) else 0) (lconn_ledger c).
Proof.
  pose proof (zlen_nonneg (default [] data)) as Hd. unfold lb_writev.
  assert (Hidle : ∀ n, n ≤ 0 → n ≤ destlen → let r := WritevResult c [] n (-1) [] in
    wv_pdatalen r ≤ zlen (default [] data) ∧ wv_n r ≤ destlen ∧
    (0 ≤ wv_n r → zlen (wv_pkt r) = wv_n r) ∧ wv_events r = [] ∧
    lconn_ledger (wv_conn r) ≡
      lg_frame id (if 0 <=? wv_n r then Z.max 0 (wv_pdatalen r) else 0) (lconn_ledger c)).
  { intros n Hn Hl. simpl. change (zlen (@nil byte)) with 0. split_and!; try done; try lia.
    destruct (0 <=? n); by rewrite lg_frame_zero. }
  destruct (Z.ltb_spec destlen 1) as [Hl|Hl]; [apply Hidle; lia|].
  destruct (bool_decide _); [apply Hidle; simpl; lia|].
  destruct (lb_budget c) as [|b]; [apply Hidle; lia|].
  destruct data as [d|]; simpl in *.
  - destruct (lb_streams c !! id) as [[sent acked]|] eqn:Hid; [|apply Hidle; simpl; lia].
    destruct (Z.leb_spec (Z.min (zlen d) (Z.min (lb_window c) (destlen - 1))) 0);
      [simpl; apply Hidle; lia|].
    set (k := Z.min _ _) in *. simpl.
    rewrite (proj2 (Z.leb_le 0 (1 + k))), Z.max_r by lia.
    split_and!; try done; try lia; [|by apply (lconn_insert_sent c)].
    rewrite zlen_cons, zlen_ztake by lia. done.
  - destruct (has_flag _ _); [destruct (lb_ack_only c)|destruct (lb_hello c); [|simpl; apply Hidle; lia]];
      simpl; change (zlen [_]) with 1; change (zlen (@nil byte)) with 0;
      (split_and!; [lia|lia|lia|done|by rewrite lg_frame_zero]).
Qed.

Lemma lb_recv_ok c flags payload :
  let '(c', evs, _) := lb_recv c flags payload in
  events_allowed (lconn_ledger c) evs ∧ lconn_ledger c' ≡ events_apply evs (lconn_ledger c).
Proof.
  unfold lb_recv. destruct (lb_streams c !! 1) as [p|] eqn:H1; simpl.
  - by split_and!.
  - rewrite H1. split_and!; [done..|]. by apply (lconn_insert_new c).
Qed.

Lemma lb_read_pkt_ok c path pkt ts :
  let '(c', evs, _) := lb_read_pkt c path pkt ts in
  events_allowed (lconn_ledger c) evs ∧ lconn_ledger c' ≡ events_apply evs (lconn_ledger c).
Proof.
  unfold lb_read_pkt. destruct pkt as [|b payload]; [done|].
  destruct b; try done; try apply lb_recv_ok.
  destruct (lb_streams c !! 0) as [[sent acked]|] eqn:H0; [|done].
  destruct (Z.leb_spec acked sent); [|done]. simpl. rewrite H0. simpl.
  split_and!; try done; try lia. by apply (lconn_insert_acked c).
Qed.

Lemma lb_open_ok c id : Z.odd id = false →
  let '(c', rv, id) := lb_open id c in
  if rv =? 0 then lg_opened (lconn_ledger c) id = false ∧ Z.odd id = false ∧
                  lconn_ledger c' ≡ lg_open id (lconn_ledger c)
  else lconn_ledger c' ≡ lconn_ledger c.
Proof.
  intros Hodd. unfold lb_open. destruct (lb_streams c !! id) as [p|] eqn:Hid; [done|]. simpl.
  rewrite Hid. split_and!; [done..|]. by apply (lconn_insert_new c).
Qed.

#[export] Instance loopback_ok : Ngtcp2Ok lconn.
Proof.
  refine {| ng_ledger := lconn_ledger |}.
  - intros c id. simpl. intros Hid%bool_decide_eq_false.
    destruct (lb_streams c !! id); [destruct Hid; eauto|done].
  - intros c flags id data destlen ts r.
    destruct (lb_writev_ok c flags id data destlen ts) as (? & ? & ? & Hev & ?).
    unfold r, ngtcp2_conn_writev_stream. simpl. rewrite Hev. done.
  - apply lb_read_pkt_ok.
  - intros c ts. simpl. by destruct (lb_closing c).
  - intros c. apply lb_open_ok. by rewrite Z.odd_mul.
  - intros c. apply lb_open_ok. by rewrite Z.odd_add, Z.odd_mul.
  - done.
  - done.
  - intros c code reason destlen ts. simpl. destruct (Z.ltb_spec destlen 1).
    + split_and!; [lia| |done]. unfold zlen. simpl. lia.
    + destruct (lb_handshake c); split_and!; try done; unfold zlen; simpl; lia.
  - intros c id. pose proof (u64_range (lb_window c)). split; simpl; lia.
  - intros c. apply u64_range.
Defined.

(** ** The clock, the socket and the TLS library *)

(** A clock that ticks once a second, the datagrams to come and those sent, and
    whether random bytes are available. *)
Record lenv := LEnv {
  le_clock : Z;
  le_inbox : list bytes;
  le_outbox : list bytes;
  le_entropy : bool;
  le_alpn : list bytes;
}.
Definition set_le_clock n e := LEnv n (le_inbox e) (le_outbox e) (le_entropy e) (le_alpn e).
Definition set_le_inbox q e := LEnv (le_clock e) q (le_outbox e) (le_entropy e) (le_alpn e).
Definition set_le_outbox q e := LEnv (le_clock e) (le_inbox e) q (le_entropy e) (le_alpn e).
Definition set_le_alpn l e := LEnv (le_clock e) (le_inbox e) (le_outbox e) (le_entropy e) l.

Definition lenv_new : lenv := LEnv 0 [] [] true [].

#[export] Instance loopback_sys : Sys lenv := {
  clock_gettime e := ((Z.abs (le_clock e), 5), set_le_clock (Z.abs (le_clock e) + 1) e);
  sock_send sock pkt e := (true, set_le_outbox (le_outbox e ++ [pkt]) e);
  io_select sock timeout e := (match le_inbox e with [] => false | _ => true end, e);
  sock_recvfrom sock maxlen e :=
    match le_inbox e with
    | [] => (None, e)
    | pkt :: rest => (Some (ztake maxlen pkt), set_le_inbox rest e)
    end;
  sock_remote_sockaddr sock := ["r"%byte];
  any_sockaddr := ["l"%byte];
}.

#[export] Instance loopback_sys_ok : SysOk lenv.
Proof. split; intros e; simpl; lia. Qed.

#[export] Instance loopback_tls : Tls lenv lconn := {
  ngtcp2_crypto_quictls_init e := (0, e);
  SSL_CTX_new e := (Some 1%positive, e);
  quictls_configure_client_context ctx e := (0, e);
  SSL_new ctx e := (Some 2%positive, e);
  SSL_set_tlsext_host_name ssl name e := e;
  SSL_set_alpn_protos ssl wire e := (0, set_le_alpn [wire] e);
  RAND_bytes n e :=
    (if le_entropy e then Some (replicate (Z.to_nat n) "7"%byte) else None, e);
  ngtcp2_conn_client_new dcid scid path settings params e := (0, lconn_new, e);
}.
