(* ===== verification/Reach.v ===== *)
(** * Runs of a client

    Every call an application can make on a Client and its Streams as a step
    between worlds, labelled with what it shows on each stream; runs as
    sequences of steps and of heap compactions; the invariant and the
    end-to-end laws of runs. *)
From S2P Require Import Prelude Ngtcp2 Errors Ruby Stream StreamInv StreamSpec Client ClientInv ClientOps StreamIO Pump Open.

Section reach.
Context {C E : Type} `{NC : NgConst} `{NG : Ngtcp2 C} `{SY : Sys E} `{NO : !Ngtcp2Ok C}.
Implicit Types (w : world C E) (L : loc → list slabel).

(** ** Labels *)

Definition write_pkt_label (buffer : value) w : loc → list slabel :=
  match buffer with
  | VNil => write_label w
  | VStr s => match prepare_buffer s with (Ret _, _) => write_label w | _ => silent end
  | _ => silent
  end.

Definition read_pkt_label (packet : value) (opts : kwargs) w : loc → list slabel :=
  match read_pkt_args packet opts w with
  | (Ret (s, path), _) => if rs_tmplock s then silent else read_label w path (rs_bytes s)
  | _ => silent
  end.

(** A write that returns [n] has taken the first [n] bytes, and the FIN only
    if that is all of them. *)
Definition wrote_label (l : loc) (data : value) (fin : bool) (o : outcome exn Z) :
    loc → list slabel :=
  match o with
  | Ret n => at_loc l [LWrite (ztake n (string_bytes data))
                         (fin && (n =? zlen (string_bytes data)))]
  | _ => silent
  end.

Definition read_bytes_label (l : loc) (o : outcome exn bytes) : loc → list slabel :=
  match o with Ret d => at_loc l [LRead d] | _ => silent end.

(** [#close_write] shows a FIN when it queues one. *)
Definition close_write_label (l : loc) w : loc → list slabel :=
  match w_heap w !! l with
  | Some s => if fin_sent s || reset s || closed s then silent else at_loc l [LWrite [] true]
  | None => silent
  end.

(** ** Steps *)

(** The 64-bit stream offsets do not wrap: no stream is ever given [2^64]
    bytes (QUIC itself stops at [2^62]). *)
Definition room w (l : loc) (data : value) : Prop :=
  ∀ s, w_heap w !! l = Some s → total s + zlen (string_bytes data) < 2 ^ 64.

(** Only the outside moved: clock, socket, memo. *)
Definition same_client w w' : Prop :=
  w_conn w' = w_conn w ∧ w_heap w' = w_heap w ∧ w_self w' = w_self w ∧ w_owner w' = w_owner w ∧
  w_streams w' = w_streams w ∧ w_accept_queue w' = w_accept_queue w.

#[export] Instance same_client_trans : Transitive same_client.
Proof. unfold same_client. intros w1 w2 w3 ? ?. intuition congruence. Qed.

Inductive wstep : world C E → (loc → list slabel) → world C E → Prop :=
  | WWritePkt w buffer :
      wstep w (write_pkt_label buffer w) (io_world (quic_client_write_pkt buffer w))
  | WReadPkt w packet opts :
      wstep w (read_pkt_label packet opts w) (io_world (quic_client_read_pkt packet opts w))
  | WHandleExpiry w : wstep w (expiry_label w) (quic_client_handle_expiry w).2
  | WOpenBidi w : wstep w silent (quic_client_open_bidi_stream w).2
  | WOpenUni w : wstep w silent (quic_client_open_uni_stream w).2
  | WCloseConn w opts : wstep w silent (quic_client_close_m opts w).2
  | WEnqueue w l data fin o w' :
      room w l data →
      with_stream l (quic_stream_enqueue data fin) w = (o, w') →
      wstep w (wrote_label l data fin o) w'
  | WWriteNonblock w l data opts o w' :
      room w l data →
      quic_stream_write_nonblock_m l data opts w = (o, w') →
      wstep w (wrote_label l data (quic_stream_fin_kwarg opts) o) w'
  | WCloseWrite w l :
      wstep w (close_write_label l w) (with_stream l quic_stream_close_write_m w).2
  | WReadNonblock w l lv o w' :
      with_stream l (quic_stream_read_nonblock_m lv) w = (o, w') →
      wstep w (read_bytes_label l o) w'
  | WEof w l : wstep w silent (with_stream l quic_stream_eof_p w).2
  | WCloseRead w l : wstep w silent (quic_stream_close_read_m l w).2
  | WReset w l code : wstep w silent (quic_stream_reset_m l code w).2
  | WAccept w : wstep w silent (accept_shift w).2
  | WBind w sock : wstep w silent (bind sock w).2
  | WOutside w w' : same_client w w' → wstep w silent w'.

Inductive wtrace : world C E → (loc → list slabel) → world C E → Prop :=
  | wtrace_nil w L : (∀ l, L l = []) → wtrace w L w
  | wtrace_cons w L1 w1 L2 w2 L :
      wstep w L1 w1 → wtrace w1 L2 w2 → (∀ l, L l = L1 l ++ L2 l) → wtrace w L w2.

(** ** Each step keeps the invariant and moves the streams as labelled *)

Definition step_ok w L w' : Prop := wf_world w' ∧ evolves w L w' ∧ w_self w' = w_self w.

Lemma step_ok_refl w : wf_world w → step_ok w silent w.
Proof. intros. split_and!; auto. apply evolves_refl. Qed.

Lemma set_heap_id w l s : w_heap w !! l = Some s → set_w_heap (<[l := s]> (w_heap w)) w = w.
Proof. intros Hs. unfold set_w_heap. rewrite insert_id by done. by destruct w. Qed.

(** One single-stream operation. *)
Lemma stream_step_ok w l s s' lbl :
  wf_world w → w_heap w !! l = Some s → sstep
    NGTCP2_STREAM_DATA_FLAG_FIN NGTCP2_STREAM_CLOSE_FLAG_APP_ERROR_CODE_SET s lbl s' →
  wf_stream s' → same_identity s s' → sent_offset s' = sent_offset s →
  acked_offset s' = acked_offset s → closed s' = closed s →
  step_ok w (at_loc l (visible [lbl])) (set_w_heap (<[l := s']> (w_heap w)) w).
Proof.
  intros Hwf Hs Hstep Hws Hid Hse Hac Hcl. split_and!; [|by eapply evolves_step|done].
  unfold wf_world. simpl. by eapply wf_update_same.
Qed.

Lemma stream_same_ok w l s s' :
  wf_world w → w_heap w !! l = Some s → same_send s s' → same_identity s s' →
  iv_recv_buffer s' = iv_recv_buffer s → fin_received s' = fin_received s →
  closed s' = closed s → (reset s = true → reset s' = true) →
  step_ok w silent (set_w_heap (<[l := s']> (w_heap w)) w).
Proof.
  intros Hwf Hs Hss Hid Hb Hf Hc Hr.
  destruct (stream_step_ok w l s s' LTau) as (? & Hev & ?); try done.
  - apply CLocal; [apply Hid| |done..]. by destruct Hid as (_ & _ & _ & ->).
  - eapply wf_same_send; [done|]. by eapply wc_streams.
  - apply Hss.
  - apply Hss.
  - split_and!; [done| |done].
    eapply evolves_ext; [|exact Hev]. intros l'. unfold at_loc. by case_decide.
Qed.

Lemma enqueue_step_ok w l data fin o w' :
  wf_world w → room w l data → with_stream l (quic_stream_enqueue data fin) w = (o, w') →
  step_ok w (wrote_label l data fin o) w'.
Proof.
  intros Hwf Hroom. unfold with_stream.
  destruct (w_heap w !! l) as [s|] eqn:Hs; [|by intros [= <- <-]; apply step_ok_refl].
  destruct (quic_stream_enqueue data fin s) as [o1 s1] eqn:Henq. pose proof Henq as Henq'.
  rewrite enqueue_eq in Henq'. intros [= <- <-].
  destruct (reset s || closed s || fin_sent s) eqn:Hg.
  { injection Henq' as <- <-. rewrite set_heap_id by done. by apply step_ok_refl. }
  destruct data as [| | | |str| |]; injection Henq' as <- <-;
    try (rewrite set_heap_id by done; by apply step_ok_refl).
  apply orb_false_iff in Hg as [_ Hfs]. pose proof (Hroom _ Hs) as Hr. simpl in *.
  destruct (enqueued_fields (rs_bytes str) fin s) as (Hse & Hac & _ & _ & _ & _ & _ & _ & Hcl & Hid).
  rewrite ztake_all, Z.eqb_refl, andb_true_r by lia.
  refine (stream_step_ok w l s _ (LWrite (rs_bytes str) fin) _ _ _ _ _ _ _ _); auto.
  - by eapply CWrite.
  - apply wf_enqueued; [by eapply wc_streams|done|lia].
Qed.

Lemma close_write_step_ok w l :
  wf_world w →
  step_ok w (close_write_label l w) (with_stream l quic_stream_close_write_m w).2.
Proof.
  intros Hwf. unfold close_write_label, with_stream.
  destruct (w_heap w !! l) as [s|] eqn:Hs; [|by apply step_ok_refl].
  unfold quic_stream_close_write_m. unfold mbind, act_bind, get. simpl.
  destruct (fin_sent s) eqn:Hfs; simpl; [rewrite set_heap_id by done; by apply step_ok_refl|].
  destruct (quic_stream_enqueue empty_str true s) as [o1 s1] eqn:Henq. simpl.
  destruct (enqueue_step_ok w l empty_str true o1 (set_w_heap (<[l := s1]> (w_heap w)) w))
    as (Hwf1 & Hev & Hself); auto.
  - intros s0 Hs0. assert (s0 = s) as -> by congruence.
    destruct (wc_streams _ _ Hwf _ _ Hs). change (zlen (string_bytes empty_str)) with 0. lia.
  - unfold with_stream. by rewrite Hs, Henq.
  - assert (Hsame : (let '(o, s') := match o1 with
              | Ret _ => (Ret VNil, s1) | Raise e => (Raise e, s1) | Diverge => (Diverge, s1)
              end in (o, set_w_heap (<[l := s']> (w_heap w)) w)).2 =
            set_w_heap (<[l := s1]> (w_heap w)) w) by (by destruct o1).
    unfold mret, act_ret. rewrite Hsame. split_and!; auto.
    eapply evolves_ext; [|exact Hev]. intros l'.
    rewrite enqueue_eq, Hfs, orb_false_r in Henq.
    destruct (reset s || closed s); injection Henq as <- <-; done.
Qed.

Lemma read_nonblock_step_ok w l lv o w' :
  wf_world w → with_stream l (quic_stream_read_nonblock_m lv) w = (o, w') →
  step_ok w (read_bytes_label l o) w'.
Proof.
  intros Hwf. unfold with_stream.
  destruct (w_heap w !! l) as [s|] eqn:Hs; [|by intros [= <- <-]; apply step_ok_refl].
  destruct (quic_stream_read_nonblock_m lv s) as [o1 s1] eqn:Hr.
  destruct (read_nonblock_frame _ _ _ _ Hr) as (Hss & Hid & Hcl & _ & Hf & Hb).
  intros [= <- <-]. destruct o1 as [d|e|].
  - refine (stream_step_ok w l s s1 (LRead d) _ _ _ _ _ _ _ _); auto; try apply Hss.
    + by eapply CRead.
    + eapply wf_same_send; [done|]. by eapply wc_streams.
  - subst. rewrite set_heap_id by done. by apply step_ok_refl.
  - subst. rewrite set_heap_id by done. by apply step_ok_refl.
Qed.

(** What [#write_nonblock] hands to [quic_stream_enqueue]. *)
Lemma quic_client_conn_eq cv w :
  quic_client_conn cv w =
    (if decide (cv = Some (w_self w)) then Ret (w_conn w) else Raise (Exn TypeError None), w).
Proof.
  unfold quic_client_conn, rb_raise. run. destruct cv as [c|]; [|by rewrite decide_False].
  destruct (decide (c = w_self w)) as [->|]; [by rewrite decide_True|].
  by rewrite decide_False by congruence.
Qed.

(** The effective window of a stream. *)
Definition window w (id : Z) : Z :=
  Z.min (ngtcp2_conn_get_max_stream_data_left (w_conn w) id)
    (ngtcp2_conn_get_max_data_left (w_conn w)).

Lemma window_u64 w id : is_u64 (window w id).
Proof.
  unfold window, is_u64. pose proof (ng_stream_left_u64 (w_conn w) id) as [? ?].
  pose proof (ng_conn_left_u64 (w_conn w)) as [? ?]. lia.
Qed.

Lemma window_left_eq cv id w :
  quic_stream_window_left cv id w =
    (if decide (cv = Some (w_self w)) then Ret (window w id) else Raise (Exn TypeError None), w).
Proof.
  unfold quic_stream_window_left. unfold mbind, act_bind. rewrite quic_client_conn_eq.
  case_decide; [|done]. unfold mret, act_ret, window. do 3 f_equal.
  destruct (Z.ltb_spec (ngtcp2_conn_get_max_stream_data_left (w_conn w) id)
    (ngtcp2_conn_get_max_data_left (w_conn w))); lia.
Qed.

(** The bytes and the FIN a call offers to [quic_stream_enqueue]; [None] when
    it raises before. *)
Definition nonblock_offer w (s : stream) (data : value) (fin : bool) :
    outcome exn (value * bool) :=
  match iv_client s, data with
  | None, _ => Ret (data, fin)
  | Some c, VStr str =>
    if zlen (rs_bytes str) =? 0 then Ret (data, fin)
    else if decide (c = w_self w) then
      if window w (stream_id s) =? 0 then Raise (Exn rb_eQuicErrorWaitWritable None)
      else if zlen (rs_bytes str) <=? window w (stream_id s) then Ret (data, fin)
      else Ret (VStr (RString (ztake (window w (stream_id s)) (rs_bytes str))
                        ASCII_8BIT false false), false)
    else Raise (Exn TypeError None)
  | Some _, _ => Raise (Exn TypeError None)
  end.

Lemma write_nonblock_eq w l s data opts :
  w_heap w !! l = Some s →
  quic_stream_write_nonblock_m l data opts w =
    match nonblock_offer w s data (quic_stream_fin_kwarg opts) with
    | Ret (d, fin) => with_stream l (quic_stream_enqueue d fin) w
    | Raise e => (Raise e, w)
    | Diverge => (Diverge, w)
    end.
Proof.
  intros Hs. unfold quic_stream_write_nonblock_m, nonblock_offer, get_stream.
  unfold mbind, act_bind. rewrite Hs. destruct (iv_client s) as [c|]; [|done].
  destruct data as [| | | |str| |]; try done. simpl.
  destruct (Z.eqb_spec (zlen (rs_bytes str)) 0) as [Hz|Hz]; [done|]. rewrite window_left_eq.
  destruct (decide (c = w_self w)) as [->|Hne];
    [rewrite decide_True by done|by rewrite decide_False by congruence].
  destruct (Z.eqb_spec (window w (stream_id s)) 0) as [Hw|Hw]; [done|].
  destruct (Z.leb_spec (zlen (rs_bytes str)) (window w (stream_id s))) as [Hle|Hlt].
  - by rewrite Z.eqb_refl.
  - by destruct (Z.eqb_spec (window w (stream_id s)) (zlen (rs_bytes str))); [lia|].
Qed.

Lemma write_nonblock_step_ok w l data opts o w' :
  wf_world w → room w l data → quic_stream_write_nonblock_m l data opts w = (o, w') →
  step_ok w (wrote_label l data (quic_stream_fin_kwarg opts) o) w'.
Proof.
  intros Hwf Hroom. destruct (w_heap w !! l) as [s|] eqn:Hs.
  2: { unfold quic_stream_write_nonblock_m, get_stream. unfold mbind, act_bind. rewrite Hs.
    intros [= <- <-]. by apply step_ok_refl. }
  rewrite (write_nonblock_eq _ _ _ _ _ Hs). set (fin := quic_stream_fin_kwarg opts).
  destruct (nonblock_offer w s data fin) as [[d fin']|e|] eqn:Hoff;
    [|intros [= <- <-]; by apply step_ok_refl..].
  intros Henq. unfold nonblock_offer in Hoff. pose proof (window_u64 w (stream_id s)) as [Hw0 _].
  assert (Hcase : (d = data ∧ fin' = fin) ∨ ∃ str, data = VStr str ∧ fin' = false ∧
    window w (stream_id s) < zlen (rs_bytes str) ∧
    d = VStr (RString (ztake (window w (stream_id s)) (rs_bytes str)) ASCII_8BIT false false)).
  { destruct (iv_client s) as [c|]; [|injection Hoff as <- <-; by left].
    destruct data as [| | | |str| |]; try done.
    destruct (_ =? 0); [injection Hoff as <- <-; by left|].
    destruct (decide _); [|done]. destruct (window w (stream_id s) =? 0); [done|].
    destruct (Z.leb_spec (zlen (rs_bytes str)) (window w (stream_id s))) as [Hle|Hlt].
    - injection Hoff as <- <-. by left.
    - injection Hoff as <- <-. right. by exists str. }
  destruct Hcase as [[-> ->]|(str & -> & -> & Hlt & ->)]; [by eapply enqueue_step_ok|].
  set (n := window w (stream_id s)) in *.
  assert (Hlen : zlen (ztake n (rs_bytes str)) = n) by (apply zlen_ztake; lia).
  pose proof Henq as Hstep.
  apply enqueue_step_ok in Hstep as (Hwf' & Hev & Hself); auto.
  - split_and!; auto. eapply evolves_ext; [|exact Hev]. intros l'.
    unfold wrote_label. destruct o as [k| |]; [|done..].
    assert (k = n) as ->.
    { revert Henq. unfold with_stream. rewrite Hs, enqueue_eq.
      destruct (_ || _); simpl; [done|]. rewrite Hlen. by intros [= <- _]. }
    simpl. rewrite (ztake_all n (ztake n _)) by lia. f_equal. f_equal.
    unfold fin. destruct (Z.eqb_spec n (zlen (rs_bytes str))); [lia|]. by rewrite andb_false_r.
  - intros s0 Hs0. specialize (Hroom _ Hs0). simpl in *. rewrite Hlen. lia.
Qed.

(** ** The operations that only touch the connection *)
Lemma set_conn_step_ok w c :
  wf_world w → ng_ledger c ≡ ng_ledger (w_conn w) → step_ok w silent (set_w_conn c w).
Proof.
  intros Hwf Hled. split_and!; auto.
  - unfold wf_world. simpl. rewrite Hled. by apply wf_set_conn.
  - eapply evolves_heap; [|apply evolves_refl]. done.
Qed.

Lemma close_read_step_ok w l : wf_world w → step_ok w silent (quic_stream_close_read_m l w).2.
Proof.
  intros Hwf. unfold quic_stream_close_read_m, get_stream. unfold mbind, act_bind.
  destruct (w_heap w !! l) as [s|]; [|by apply step_ok_refl].
  rewrite quic_client_conn_eq. case_decide; [|by apply step_ok_refl].
  pose proof (ng_shutdown_read (w_conn w) (stream_id s) 0) as Hled.
  destruct (ngtcp2_conn_shutdown_stream_read _ _ _) as [c' rv].
  unfold quic_raise_ngtcp2_error. run. simpl.
  destruct (rv =? 0); by apply set_conn_step_ok.
Qed.

Lemma reset_step_ok w l v : wf_world w → step_ok w silent (quic_stream_reset_m l v w).2.
Proof.
  intros Hwf. unfold quic_stream_reset_m, get_stream. unfold mbind, act_bind.
  assert (Hcode : ∃ o, (if NIL_P v then mret 0 else NUM2ULL v) w = (o, w)).
  { destruct (NIL_P v); [by eexists|]. pose proof (NUM2ULL_pure v w) as Hp.
    destruct (NUM2ULL v w) as [o w0]. simpl in Hp. subst. by eexists. }
  destruct Hcode as [o ->]. destruct o as [code| |]; [|by apply step_ok_refl..].
  destruct (w_heap w !! l) as [s|] eqn:Hs; [|by apply step_ok_refl].
  destruct (reset s); [by apply step_ok_refl|].
  destruct (iv_client s) as [c|].
  - rewrite quic_client_conn_eq. case_decide; [|by apply step_ok_refl].
    pose proof (ng_shutdown_write (w_conn w) (stream_id s) code) as Hled.
    destruct (ngtcp2_conn_shutdown_stream_write _ _ _) as [c' rv].
    unfold quic_raise_ngtcp2_error, with_stream. run. simpl.
    destruct (set_conn_step_ok w c' Hwf Hled) as (Hwf1 & Hev1 & Hself1).
    destruct (rv =? 0); simpl; [rewrite Hs|by split_and!].
    destruct (stream_same_ok _ l s (set_reset true s) Hwf1 Hs) as (? & Hev2 & ?); try done.
  - unfold with_stream. run. rewrite Hs. by apply (stream_same_ok w l s).
Qed.

Lemma same_client_ok w w' : wf_world w → same_client w w' → step_ok w silent w'.
Proof.
  intros Hwf (Hc & Hh & Hs & Ho & Hst & Hq). split_and!; auto.
  - unfold wf_world. rewrite Hc. destruct Hwf as [? ? ? Hr ? Hqu ?].
    constructor; rewrite ?Hh, ?Hs, ?Ho, ?Hst, ?Hq; auto.
  - eapply evolves_heap; [split; [exact Hh|exact Hq]|apply evolves_refl].
Qed.

Lemma accept_shift_eq w :
  accept_shift w = (Ret (head (w_accept_queue w)), set_w_accept_queue (tail (w_accept_queue w)) w).
Proof.
  unfold accept_shift. run. destruct (w_accept_queue w) eqn:Hq; simpl; [|done].
  f_equal. destruct w; simpl in *; by subst.
Qed.

(** A live stream that has been in the accept queue and has left it. *)
Definition spent w (l : loc) : Prop :=
  ∃ s, w_heap w !! l = Some s ∧ accept_queued s = true ∧ Z.odd (stream_id s) = true ∧
    l ∉ w_accept_queue w.

Lemma accept_shift_spent w l w' :
  wf_world w → accept_shift w = (Ret (Some l), w') → l ∈ w_accept_queue w ∧ spent w' l.
Proof.
  intros Hwf. rewrite accept_shift_eq. intros [= Hhd <-].
  destruct (w_accept_queue w) as [|l0 q] eqn:Hq; [done|]. injection Hhd as ->.
  split; [by left|].
  pose proof (wc_queue_nodup _ _ Hwf) as Hnd. rewrite Hq in Hnd.
  apply NoDup_cons in Hnd as [Hnl _].
  destruct (wc_queue _ _ Hwf l) as (s & Hs & Haq & Hodd); [rewrite Hq; by left|].
  exists s. by split_and!.
Qed.

Lemma step_spent w L w' l : step_ok w L w' → spent w l → spent w' l.
Proof.
  intros (_ & [Hev (k & new & Hq & Hnew)] & _) (s & Hs & Haq & Hodd & Hnot).
  destruct (streams_evolve_queued _ _ _ _ _ Hev Hs Haq) as (s' & Hs' & Hid & Haq').
  exists s'. rewrite Hid, Hq. split_and!; auto.
  intros [Hl%list_elem_of_drop|Hl]%elem_of_app; [done|].
  specialize (Hnew _ _ Hl Hs). congruence.
Qed.

Lemma accept_step_ok w : wf_world w → step_ok w silent (accept_shift w).2.
Proof.
  intros Hwf. rewrite accept_shift_eq. simpl. split_and!; [| |done].
  2: { split; [apply (evolves_refl w)|]. exists 1%nat, []. rewrite app_nil_r. split; [|set_solver].
    simpl. by destruct (w_accept_queue w). }
  destruct Hwf as [? ? ? ? Hqn Hqu ?]. constructor; simpl; auto;
    destruct (w_accept_queue w); simpl in *; try done.
  - by apply NoDup_cons in Hqn as [_ ?].
  - intros l' Hl'. apply Hqu. by right.
Qed.

(** ** Packets *)
Lemma prepare_buffer_eq s :
  prepare_buffer s =
    (if bool_decide (rs_enc s = ASCII_8BIT) then
       if zlen (rs_bytes s) <? QUIC_WRITE_PKT_BUFLEN then (str_modifiable s).1 else Ret tt
     else Raise (Exn ArgumentError None), s).
Proof.
  unfold prepare_buffer, rb_str_modify_expand, rb_raise. run.
  destruct (bool_decide _); simpl; [|done]. destruct (_ <? _); [|done].
  by rewrite str_modifiable_eq.
Qed.

(** Handling a buffer never fails halfway: [write_pkt] is its buffer check
    followed by [write_pkt_into]. *)
Lemma write_pkt_eq buffer w :
  quic_client_write_pkt buffer w =
    match buffer with
    | VNil => io_finish false (write_pkt_into (w, rb_str_buf_new))
    | VStr s =>
      match (prepare_buffer s).1 with
      | Ret _ => io_finish true (write_pkt_into (w, s))
      | Raise e => IoResult (Raise e) buffer w
      | Diverge => IoResult Diverge buffer w
      end
    | _ => IoResult (Raise (Exn TypeError None)) buffer w
    end.
Proof.
  unfold quic_client_write_pkt. destruct buffer as [| | | |s| |]; try done.
  unfold mbind, act_bind, on_snd. simpl. rewrite prepare_buffer_eq. simpl.
  destruct (if bool_decide _ then _ else _) as [[]| |]; done.
Qed.

Lemma io_finish_world b (r : outcome exn bool * (world C E * rstring)) :
  io_world (io_finish b r) = r.2.1.
Proof. by destruct r as [o [w s]]. Qed.

Lemma write_pkt_step_ok w buffer :
  wf_world w → step_ok w (write_pkt_label buffer w) (io_world (quic_client_write_pkt buffer w)).
Proof.
  intros Hwf. rewrite write_pkt_eq. unfold write_pkt_label.
  assert (Hinto : ∀ b s, step_ok w (write_label w) (io_world (io_finish b (write_pkt_into (w, s))))).
  { intros b s. rewrite io_finish_world.
    destruct (write_pkt_into (w, s)) as [o [w' s']] eqn:Hw.
    destruct (write_pkt_into_ok _ _ _ _ _ Hwf Hw) as (? & ? & ? & ?). by split_and!. }
  destruct buffer as [| | | |s| |]; try by apply step_ok_refl.
  - apply Hinto.
  - destruct (prepare_buffer s) as [[u| |] s'] eqn:Hp; simpl; try by apply step_ok_refl.
    apply Hinto.
Qed.

Lemma require_binary_pure {S} v (s : S) : (quic_require_binary v s).2 = s.
Proof.
  unfold quic_require_binary, check_string, rb_raise. run.
  destruct v; try done. by destruct (bool_decide _).
Qed.

Lemma read_pkt_args_pure {S} packet opts (s : S) : (read_pkt_args packet opts s).2 = s.
Proof.
  unfold read_pkt_args, rb_raise, mbind, act_bind, mret, act_ret, raise.
  destruct opts as [opts|]; [|done]. destruct (_ || _); [done|].
  repeat match goal with
  | |- context [quic_require_binary ?v s] =>
    pose proof (require_binary_pure v s); destruct (quic_require_binary v s) as [[]];
      simpl in *; subst; try done
  end.
Qed.

(** The lock cannot be taken twice. *)
Lemma read_pkt_locked_twice path w s :
  rs_tmplock s = true →
  read_pkt_locked path (w, s) = (Raise (Exn RuntimeError None), (w, s)).
Proof.
  intros Hl. unfold read_pkt_locked, on_snd, rb_str_locktmp, rb_raise. unfold mbind, act_bind, get.
  simpl. by rewrite Hl.
Qed.

Lemma read_pkt_step_ok w packet opts :
  wf_world w →
  step_ok w (read_pkt_label packet opts w) (io_world (quic_client_read_pkt packet opts w)).
Proof.
  intros Hwf. unfold quic_client_read_pkt, read_pkt_label.
  pose proof (read_pkt_args_pure packet opts w) as Hpure.
  destruct (read_pkt_args packet opts w) as [[[s path]| |] w0]; simpl in Hpure; subst w0;
    [|by apply step_ok_refl..].
  rewrite io_finish_world. destruct (rs_tmplock s) eqn:Hl.
  - rewrite read_pkt_locked_twice by done. by apply step_ok_refl.
  - destruct (read_pkt_locked path (w, s)) as [o [w' s']] eqn:Hr.
    destruct (read_pkt_locked_ok _ _ _ _ _ _ Hwf Hl Hr) as (? & ? & _ & ? & _). by split_and!.
Qed.

Lemma open_step_ok w (open : C → C * Z * Z) :
  (∀ c, let '(c', rv, id) := open c in
   if rv =? 0 then lg_opened (ng_ledger c) id = false ∧ Z.odd id = false ∧
                   ng_ledger c' ≡ lg_open id (ng_ledger c)
   else ng_ledger c' ≡ ng_ledger c) →
  wf_world w → step_ok w silent (open_stream open w).2.
Proof.
  intros Hng Hwf. destruct (open_stream open w) as [o w'] eqn:Ho.
  pose proof (open_stream_ok open w o w' (Hng (w_conn w)) Hwf Ho) as Hok.
  destruct (open (w_conn w)) as [[c' rv] id].
  destruct Hok as (? & ? & ? & _). by split_and!.
Qed.

Lemma wstep_ok w L w' : wf_world w → wstep w L w' → step_ok w L w'.
Proof.
  intros Hwf Hstep. destruct Hstep.
  - by apply write_pkt_step_ok.
  - by apply read_pkt_step_ok.
  - destruct (quic_client_handle_expiry w) as [o w'] eqn:He.
    destruct (handle_expiry_ok _ _ _ Hwf He) as (? & ? & _ & ? & _). by split_and!.
  - apply open_step_ok; [apply ng_open_bidi|done].
  - apply open_step_ok; [apply ng_open_uni|done].
  - destruct (quic_client_close_m opts w) as [o w'] eqn:He.
    destruct (close_m_ok _ _ _ _ Hwf He) as (? & Hh & _ & Hq & ? & _).
    split_and!; auto. eapply evolves_heap; [split; [exact Hh|exact Hq]|apply evolves_refl].
  - by eapply enqueue_step_ok.
  - by eapply write_nonblock_step_ok.
  - by apply close_write_step_ok.
  - by eapply read_nonblock_step_ok.
  - unfold with_stream. destruct (w_heap w !! l) as [s|] eqn:Hs; [|by apply step_ok_refl].
    simpl. rewrite set_heap_id by done. by apply step_ok_refl.
  - by apply close_read_step_ok.
  - by apply reset_step_ok.
  - by apply accept_step_ok.
  - by apply same_client_ok.
  - by apply same_client_ok.
Qed.

Lemma wtrace_ok w L w' : wf_world w → wtrace w L w' → step_ok w L w'.
Proof.
  intros Hwf Htr. revert Hwf. induction Htr as [w L HL|w L1 w1 L2 w2 L Hstep _ IH HL]; intros Hwf.
  - split_and!; auto. eapply evolves_ext; [|apply evolves_refl]. done.
  - destruct (wstep_ok _ _ _ Hwf Hstep) as (Hwf1 & Hev1 & Hs1).
    destruct (IH Hwf1) as (Hwf2 & Hev2 & Hs2).
    split_and!; [done| |congruence].
    eapply evolves_ext; [|by eapply evolves_trans]. done.
Qed.
End reach.
