(* ===== verification/Runs.v ===== *)
(** * Runs from [Client._open] on

    A run starts with a client as [quic_client_open] returns it and goes on
    with any calls of the application, any callbacks of ngtcp2 and any heap
    compactions, in any order.  Its theorems are the end-to-end laws. *)
From S2P Require Import Prelude Ngtcp2 Errors Ruby Stream StreamInv StreamSpec Client ClientInv ClientOps Compaction StreamIO Pump Open Loopback Reach.

(** ** Histories only see visible labels *)
Lemma visible_hist (ls : list slabel) :
  written (visible ls) = written ls ∧ frames (visible ls) = frames ls ∧
  received (visible ls) = received ls ∧ reads (visible ls) = reads ls ∧
  acks (visible ls) = acks ls ∧ fin_framed (visible ls) = fin_framed ls.
Proof.
  unfold written, frames, received, reads, acks, fin_framed.
  induction ls as [|lbl ls (H1 & H2 & H3 & H4 & H5 & H6)]; [done|].
  destruct lbl; simpl; rewrite ?H1, ?H2, ?H3, ?H4, ?H5, ?H6; done.
Qed.

Section runs.
Context {C E : Type} `{NC : NgConst} `{NG : Ngtcp2 C} `{SY : Sys E} `{NO : !Ngtcp2Ok C}.
Implicit Types (w : world C E) (L : loc → list slabel).

(** The client of [_open]: nothing registered, nothing queued, not bound. *)
Definition new_client (self : loc) (conn : C) (env : E) : world C E :=
  World conn env ∅ self self [] [] None None.

(** [L l] is what the stream now at [l] has shown since it was created. *)
Inductive run : (loc → list slabel) → world C E → Prop :=
  | run_open self conn env L : (∀ l, L l = []) → run L (new_client self conn env)
  | run_step L w L1 w1 L' :
      run L w → wstep w L1 w1 → (∀ l, L' l = L l ++ L1 l) → run L' w1
  | run_compact L w f L' :
      run L w → Inj (=) (=) f → (∀ l, L' (f l) = L l) →
      (∀ l', (∀ l, f l ≠ l') → L' l' = []) → run L' (gc_compact f w).

(** [w'] comes after [w], the object at [l] being at [f l] by then. *)
Inductive wlater : world C E → (loc → loc) → world C E → Prop :=
  | later_now w : wlater w id w
  | later_step w f w1 L w2 : wlater w f w1 → wstep w1 L w2 → wlater w f w2
  | later_compact w f w1 g : wlater w f w1 → Inj (=) (=) g → wlater w (g ∘ f) (gc_compact g w1).

Lemma later_spent w f w' l :
  wlater w f w' → wf_world w → spent w l → wf_world w' ∧ spent w' (f l).
Proof.
  intros Hl Hwf. induction Hl as [w|w f w1 L w2 _ IH Hstep|w f w1 g _ IH Hinj]; intros Hsp.
  - done.
  - destruct (IH Hwf Hsp) as [Hwf1 Hsp1]. apply wstep_ok in Hstep; [|done].
    split; [by apply Hstep|by eapply step_spent].
  - destruct (IH Hwf Hsp) as [Hwf1 (s & Hs & Haq & Hodd & Hnot)].
    split; [by apply gc_compact_wf|]. exists (move_stream g s). simpl.
    rewrite lookup_kmap, lookup_fmap, Hs by done. split_and!; [done..|].
    intros (l1 & Heq%(inj g) & Hin)%list_elem_of_fmap. congruence.
Qed.

(** No stream overtakes another in the accept queue: what is left of the old
    queue comes first, in its order, and then come other streams. *)
Lemma later_queue w f w' :
  wlater w f w' → wf_world w →
  wf_world w' ∧
  (∀ l, l ∈ w_accept_queue w →
    ∃ s, w_heap w' !! f l = Some s ∧ accept_queued s = true) ∧
  ∃ k new, w_accept_queue w' = (f <$> drop k (w_accept_queue w)) ++ new ∧
    ∀ l, l ∈ w_accept_queue w → f l ∉ new.
Proof.
  intros Hl Hwf. induction Hl as [w|w f w1 L w2 _ IH Hstep|w f w1 g _ IH Hinj].
  - split_and!; [done| |].
    + intros l (s & Hs & Haq & _)%(wc_queue _ _ Hwf). eauto.
    + exists 0%nat, []. rewrite drop_0, list_fmap_id, app_nil_r. split; [done|set_solver].
  - destruct (IH Hwf) as (Hwf1 & Hmark & k & new & Hq & Hnew).
    apply wstep_ok in Hstep as (Hwf2 & [Hev (k2 & new2 & Hq2 & Hnew2)] & _); [|done].
    split_and!; [done| |].
    + intros l (s & Hs & Haq)%Hmark.
      destruct (streams_evolve_queued _ _ _ _ _ Hev Hs Haq) as (s' & Hs' & _ & ?). eauto.
    + exists (k + k2)%nat, (drop (k2 - length (drop k (w_accept_queue w))) new ++ new2). split.
      * by rewrite Hq2, Hq, drop_app, length_fmap, <- fmap_drop, drop_drop, app_assoc.
      * intros l Hl [Hin%list_elem_of_drop|Hin]%elem_of_app; [by eapply Hnew|].
        destruct (Hmark _ Hl) as (s & Hs & Haq). specialize (Hnew2 _ _ Hin Hs). congruence.
  - destruct (IH Hwf) as (Hwf1 & Hmark & k & new & Hq & Hnew).
    split_and!; [by apply gc_compact_wf| |].
    + intros l (s & Hs & Haq)%Hmark. exists (move_stream g s). simpl.
      by rewrite lookup_kmap, lookup_fmap, Hs.
    + exists k, (g <$> new). simpl. rewrite Hq, fmap_app, list_fmap_compose. split; [done|].
      intros l Hl (l1 & Heq%(inj g) & Hin)%list_elem_of_fmap. subst. by eapply Hnew.
Qed.

(** Every stream has the history the labels tell. *)
Definition history_ok L w : Prop := ∀ l,
  match w_heap w !! l with
  | Some s => ∃ id c ls,
      strace NGTCP2_STREAM_DATA_FLAG_FIN NGTCP2_STREAM_CLOSE_FLAG_APP_ERROR_CODE_SET
        (quic_stream_new id c) ls s ∧ visible ls = L l
  | None => L l = []
  end.

Lemma new_client_wf self conn env : wf_world (new_client self conn env).
Proof.
  constructor; simpl; try done; try apply NoDup_nil_2; try set_solver.
  intros id. apply ng_unopened.
Qed.

Lemma history_step L w L1 w1 L' :
  history_ok L w → evolves w L1 w1 → (∀ l, L' l = L l ++ L1 l) → history_ok L' w1.
Proof.
  intros Hh [Hev _] HL l. specialize (Hh l). specialize (Hev l). rewrite HL.
  destruct (w_heap w !! l) as [s|].
  - destruct Hh as (id & c & ls & Htr & <-), Hev as (s1 & ls1 & -> & Htr1 & <-).
    exists id, c, (ls ++ ls1). split; [by eapply strace_app|apply visible_app].
  - rewrite Hh. done.
Qed.

Lemma history_compact L w f L' `{!Inj (=) (=) f} :
  history_ok L w → (∀ l, L' (f l) = L l) → (∀ l', (∀ l, f l ≠ l') → L' l' = []) →
  history_ok L' (gc_compact f w).
Proof.
  intros Hh HL HL' l'. destruct (w_heap (gc_compact f w) !! l') as [s'|] eqn:Hs'.
  - apply gc_lookup_Some in Hs' as (l & s & -> & -> & Hs); [|done].
    specialize (Hh l). rewrite Hs in Hh. destruct Hh as (id & c & ls & Htr & Hvis).
    exists id, c, (ls ++ [LTau]). rewrite visible_app, Hvis, HL, app_nil_r. split; [|done].
    eapply strace_app; [done|].
    apply (strace_cons _ _ s LTau (move_stream f s)); [by apply CLocal|apply strace_nil].
  - destruct (w_heap (gc_compact f w) !! l') as [s'|] eqn:Hs; [done|].
    destruct (decide (∃ l, l ∈ dom (w_heap w) ∧ f l = l')) as [(l & Hl & <-)|Hno].
    + apply elem_of_dom in Hl as [s Hl]. rewrite gc_lookup, Hl in Hs by done. done.
    + destruct (L' l') as [|lbl ls] eqn:HLl; [done|]. exfalso.
      assert (Hex : ¬ ∀ l, f l ≠ l') by (intros Hall; specialize (HL' _ Hall); congruence).
      apply Hex. intros l <-. rewrite HL in HLl. specialize (Hh l).
      rewrite gc_lookup in Hs by done. destruct (w_heap w !! l); simpl in Hs; congruence.
Qed.

Lemma run_ok L w : run L w → wf_world w ∧ history_ok L w.
Proof.
  induction 1 as [self conn env L HL|L w L1 w1 L' _ [Hwf Hh] Hstep HL|
                  L w f L' _ [Hwf Hh] Hinj HL HL'].
  - split; [apply new_client_wf|]. intros l. simpl. by rewrite lookup_empty.
  - destruct (wstep_ok _ _ _ Hwf Hstep) as (Hwf1 & Hev & _).
    split; [done|]. by eapply history_step.
  - split; [by apply gc_compact_wf|]. by eapply history_compact.
Qed.

Lemma run_trace L w L1 w1 L' :
  run L w → wtrace w L1 w1 → (∀ l, L' l = L l ++ L1 l) → run L' w1.
Proof.
  intros Hrun Htr. revert L L' Hrun.
  induction Htr as [w L1 HL1|w La wa Lb wb Lab Hstep _ IH Hab]; intros L L' Hrun HL.
  - eapply (run_step L w silent w); [done|by apply WOutside|].
    intros l. by rewrite HL, HL1.
  - eapply (IH (λ l, L l ++ La l)); [by eapply run_step|].
    intros l. by rewrite HL, Hab, app_assoc.
Qed.

(** The frames of a stream's history are the bytes its offset counts. *)
Lemma history_frames L w l s :
  history_ok L w → w_heap w !! l = Some s → zlen (frames (L l)) = sent_offset s.
Proof.
  intros Hh Hs. specialize (Hh l). rewrite Hs in Hh. destruct Hh as (id & c & ls & Htr & <-).
  destruct (visible_hist ls) as (_ & -> & _).
  destruct (strace_simulated _ _ _ _ _ _ (absr_new id c) Htr) as (sp' & _ & Habs & Hinv).
  rewrite <- (ab_framed _ _ Habs), (pi_framed _ _ _ Hinv). simpl. lia.
Qed.
End runs.

(** ** A run on the loopback connection *)

(** The state a call leaves, whatever it returns. *)
Definition bin (b : bytes) : value := VStr (RString b ASCII_8BIT false false).
Definition path_kwargs : kwargs :=
  Some [("local_sockaddr", bin ["l"%byte]); ("remote_sockaddr", bin ["r"%byte])].

Definition demo_new : world lconn lenv := new_client 1%positive lconn_new lenv_new.
Definition demo_bound : world lconn lenv := (bind 9%positive demo_new).2.
Definition demo_stream : world lconn lenv := (quic_client_open_bidi_stream demo_bound).2.
(** Where the stream is. *)
Definition demo_loc : loc := default 1%positive (rb_hash_aref (w_streams demo_stream) 0).
Definition demo_written : world lconn lenv :=
  (quic_stream_write_nonblock_m demo_loc (bin ["a"; "b"]%byte) (Some [("fin", VBool true)])
     demo_stream).2.
Definition demo_sent : world lconn lenv := io_world (quic_client_write_pkt VNil demo_written).
Definition demo_read : world lconn lenv :=
  io_world (quic_client_read_pkt (bin ["f"; "h"; "i"]%byte) path_kwargs demo_sent).
Definition demo_acked : world lconn lenv :=
  io_world (quic_client_read_pkt (bin ["a"%byte]) path_kwargs demo_read).
(** Where the peer's stream 1 is. *)
Definition demo_loc1 : loc := default 1%positive (rb_hash_aref (w_streams demo_read) 1).

Definition demo_obj (w : world lconn lenv) (l : loc) : stream :=
  default quic_stream_alloc (w_heap w !! l).

Definition demo_label : loc → list slabel := λ l,
  ((wrote_label demo_loc (bin ["a"; "b"]%byte) true (Ret 2) l ++
    write_pkt_label VNil demo_written l) ++
   read_pkt_label (bin ["f"; "h"; "i"]%byte) path_kwargs demo_sent l) ++
  read_pkt_label (bin ["a"%byte]) path_kwargs demo_read l.

Lemma demo_room : room demo_stream demo_loc (bin ["a"; "b"]%byte).
Proof.
  intros s Hs. assert (s = demo_obj demo_stream demo_loc) as ->.
  { unfold demo_obj. by rewrite Hs. }
  vm_compute. reflexivity.
Qed.

Lemma demo_read_run :
  run (λ l, (wrote_label demo_loc (bin ["a"; "b"]%byte) true (Ret 2) l ++
    write_pkt_label VNil demo_written l) ++
    read_pkt_label (bin ["f"; "h"; "i"]%byte) path_kwargs demo_sent l) demo_read.
Proof.
  assert (H0 : run silent demo_stream).
  { eapply (run_step silent demo_bound); [|apply WOpenBidi|done].
    eapply (run_step silent demo_new); [|apply (WBind demo_new 9)|done]. by apply run_open. }
  eapply run_step; [|apply (WReadPkt demo_sent)|done].
  eapply run_step; [|apply (WWritePkt demo_written)|done].
  eapply run_step; [exact H0| |done].
  apply (WWriteNonblock demo_stream demo_loc (bin ["a"; "b"]%byte) (Some [("fin", VBool true)])
    (Ret 2) demo_written); [apply demo_room|].
  vm_compute. reflexivity.
Qed.

Lemma demo_run : run demo_label demo_acked.
Proof. eapply run_step; [apply demo_read_run|apply (WReadPkt demo_read)|done]. Qed.

(** ** Theorems *)
Section theorems.
Context {C E : Type} `{NC : NgConst} `{NG : Ngtcp2 C} `{SY : Sys E} `{NO : !Ngtcp2Ok C}.

(** C1: (end-to-end) Along every run of a client — any interleaving of
    application calls, incoming packets, timers, callbacks and heap
    compactions — each stream object has handed ngtcp2 exactly a prefix of
    the bytes its writes accepted, the rest being queued; once a FIN went out
    the prefix is everything; what was read is a prefix of what was received;
    and as long as the stream is registered, ngtcp2's own count of bytes
    framed for its id is the length of that prefix. *)
Theorem client_delivers_in_order (L : loc → list slabel) (w : world C E) l s :
  run L w → w_heap w !! l = Some s →
  written (L l) = frames (L l) ++ unsent s ∧
  (fin_framed (L l) = true → frames (L l) = written (L l) ∧ fin_sent s = true) ∧
  received (L l) = reads (L l) ++ iv_recv_buffer s ∧
  (∀ id, (id, l) ∈ w_streams w → lg_sent (ng_ledger (w_conn w)) id = zlen (frames (L l))).
Proof.
  intros Hrun Hs. destruct (run_ok _ _ Hrun) as [Hwf Hh].
  pose proof (history_frames _ _ _ _ Hh Hs) as Hfr.
  specialize (Hh l). rewrite Hs in Hh. destruct Hh as (id & c & ls & Htr & Hvis).
  destruct (visible_hist ls) as (Ew & Ef & Er & Erd & _ & En).
  rewrite <- Hvis in Hfr |- *. rewrite Ef in Hfr. rewrite Ew, Ef, Er, Erd, En.
  destruct (strace_simulated _ _ _ _ _ _ (absr_new id c) Htr) as (sp' & _ & Habs & Hinv).
  pose proof (absr_unsent _ _ Habs) as Hun.
  pose proof (absr_in_bounds _ _ Habs) as (_ & _ & _ & Hf).
  rewrite (ab_fin _ _ Habs) in Hf. destruct Hinv as [HW HU HF _ HN HD HR].
  simpl in *.
  rewrite (ab_recv _ _ Habs), Hun. split_and!; [done| |done|].
  - intros Hfin. rewrite Hfin in HN. destruct (Hf HN) as [Hfs Hall]. split; [|done].
    rewrite HU, zdrop_all by lia. by rewrite app_nil_r.
  - intros i Hin. destruct (wc_reg _ _ Hwf _ _ Hin) as (s0 & Hs0 & _ & _ & _ & _ & _ & Hse & _).
    assert (s0 = s) as -> by congruence. by rewrite Hfr, Hse.
Qed.

(** C2: (invariant) In every reachable client: the C struct's owner pointer is
    the client; the offsets of every stream satisfy
    [shifted <= acked <= sent <= total < 2^64]; ids are registered once, with
    an open stream that carries that id and agrees with ngtcp2's ledger; the
    accept queue holds server streams, each at most once. *)
Theorem client_invariant (L : loc → list slabel) (w : world C E) :
  run L w → wf_client (ng_ledger (w_conn w)) w.
Proof. intros Hrun. by destruct (run_ok _ _ Hrun). Qed.

(** C5: (safety) No callback that ngtcp2 is allowed to make fails in a
    reachable client, nor do the next ones of the same batch: each returns 0,
    reaches the client through [owner] without undefined behaviour, and
    leaves the connection, the socket and [owner] alone. *)
Theorem callbacks_never_fail (L : loc → list slabel) (w : world C E) evs ev :
  run L w → events_allowed (ng_ledger (w_conn w)) (evs ++ [ev]) →
  ∃ w1 w2, run_callbacks evs w = (Ret tt, w1) ∧ run_callback ev w1 = (Ret 0, w2) ∧
    same_frame w w2 ∧ wf_client (events_apply (evs ++ [ev]) (ng_ledger (w_conn w))) w2.
Proof.
  intros Hrun. destruct (run_ok _ _ Hrun) as [Hwf _]. unfold wf_world in Hwf.
  assert (Hsplit : ∀ evs g, events_allowed g (evs ++ [ev]) →
    events_allowed g evs ∧ event_allowed (events_apply evs g) ev).
  { clear. induction evs as [|ev' evs IH]; simpl; intros g; [naive_solver|].
    intros [? ?%IH]. naive_solver. }
  intros [Hevs Hev]%Hsplit. destruct (run_callbacks evs w) as [o w1] eqn:Hr.
  destruct (run_callbacks_ok _ _ _ _ _ Hwf Hevs Hr) as (-> & Hwf1 & _ & Hfr1 & _).
  destruct (run_callback ev w1) as [o2 w2] eqn:Hr2.
  destruct (run_callback_ok _ _ _ Hwf1 Hev _ _ Hr2) as (-> & Hwf2 & _ & Hfr2 & _).
  exists w1, w2. split_and!; auto; [by etrans|].
  unfold events_apply in *. by rewrite foldl_app.
Qed.

(** C10: (equivalence) Compaction is transparent to the callbacks, because the
    compaction hook updates [owner]: moving every object of the heap and then
    making a callback gives the moved result of making it before.  The
    callback that opens a stream also allocates, so there the two results
    differ in where the new object is: both return 0 and, unless the id is
    known, register the same new stream, at an unused place, under the moved
    client.  The moved client is well-formed. *)
Theorem compaction_transparent (L : loc → list slabel) (w : world C E) f ev :
  run L w → Inj (=) (=) f →
  wf_client (ng_ledger (w_conn w)) (gc_compact f w) ∧
  match ev with
  | CbStreamOpen id =>
    match rb_hash_aref (w_streams w) id with
    | Some _ => run_callback ev w = (Ret 0, w) ∧
        run_callback ev (gc_compact f w) = (Ret 0, gc_compact f w)
    | None => ∃ l l', w_heap w !! l = None ∧ w_heap (gc_compact f w) !! l' = None ∧
        run_callback ev w = (Ret 0, opened_at id l w) ∧
        run_callback ev (gc_compact f w) = (Ret 0, opened_at id l' (gc_compact f w))
    end
  | _ => run_callback ev (gc_compact f w) =
      ((run_callback ev w).1, gc_compact f (run_callback ev w).2)
  end.
Proof.
  intros Hrun Hinj. destruct (run_ok _ _ Hrun) as [Hwf _].
  assert (Hwf' : wf_client (ng_ledger (w_conn w)) (gc_compact f w)) by (by apply gc_compact_wf).
  split; [done|]. destruct ev as [id|flags id off d|id off n|flags id code|id fs code];
    try (by eapply callback_gc).
  rewrite (open_cb_eq w), (open_cb_eq (gc_compact f w)), gc_aref by apply wc_owner with (1 := Hwf)
    || apply wc_owner with (1 := Hwf').
  destruct (rb_hash_aref (w_streams w) id); simpl; [done|].
  eexists _, _. split_and!; [apply fresh_loc|apply fresh_loc|done..].
Qed.
End theorems.

Lemma client_delivers_in_order_witness :
  written (demo_label demo_loc) = ["a"; "b"]%byte ∧
  lg_sent (ng_ledger (w_conn demo_acked)) 0 = zlen (frames (demo_label demo_loc)).
Proof.
  destruct (client_delivers_in_order demo_label demo_acked demo_loc (demo_obj demo_acked demo_loc))
    as (_ & _ & _ & Hsent); [exact demo_run|vm_compute; reflexivity|].
  split; [vm_compute; reflexivity|]. apply Hsent. vm_compute. left.
Defined.

Lemma client_invariant_witness : wf_client (ng_ledger (w_conn demo_acked)) demo_acked.
Proof. apply (client_invariant demo_label demo_acked demo_run). Defined.

(** Data for the peer's stream, then the close of stream 0. *)
Definition demo_events : list cb_event := [CbRecvStreamData 0 1 2 ["!"%byte]].

Lemma callbacks_never_fail_witness :
  ∃ w1 w2, run_callbacks demo_events demo_acked = (Ret tt, w1) ∧
    run_callback (CbStreamClose 1 0 7) w1 = (Ret 0, w2) ∧ same_frame demo_acked w2 ∧
    wf_client (events_apply (demo_events ++ [CbStreamClose 1 0 7])
      (ng_ledger (w_conn demo_acked))) w2.
Proof.
  apply (callbacks_never_fail demo_label demo_acked demo_events (CbStreamClose 1 0 7) demo_run).
  by split_and!.
Defined.

(** A compaction that moves every object up by ten. *)
Definition demo_move (l : loc) : loc := (l + 10)%positive.
#[export] Instance demo_move_inj : Inj (=) (=) demo_move.
Proof. intros k l. unfold demo_move. lia. Qed.

Lemma compaction_transparent_witness :
  run_callback (CbRecvStreamData 0 1 2 ["!"%byte]) (gc_compact demo_move demo_acked) =
    ((run_callback (CbRecvStreamData 0 1 2 ["!"%byte]) demo_acked).1,
     gc_compact demo_move (run_callback (CbRecvStreamData 0 1 2 ["!"%byte]) demo_acked).2) ∧
  ∃ l, run_callback (CbStreamOpen 5) (gc_compact demo_move demo_acked) =
    (Ret 0, opened_at 5 l (gc_compact demo_move demo_acked)).
Proof.
  split.
  - apply (compaction_transparent demo_label demo_acked demo_move
      (CbRecvStreamData 0 1 2 ["!"%byte]) demo_run demo_move_inj).
  - assert (Hnew : rb_hash_aref (w_streams demo_acked) 5 = None) by (vm_compute; reflexivity).
    pose proof (compaction_transparent demo_label demo_acked demo_move (CbStreamOpen 5)
      demo_run demo_move_inj) as [_ H]. rewrite Hnew in H.
    destruct H as (l & l' & _ & _ & _ & H). exists l'. exact H.
Defined.
