(* ===== verification/PacketSpec.v ===== *)
(** * What the packet calls do on every branch

    [write_pkt], [read_pkt], the timers, the opening of streams and the close
    of the connection: the arguments each passes to ngtcp2, and its outcome,
    buffer and state for every answer. *)
From S2P Require Import Prelude Ngtcp2 Errors Ruby Stream StreamInv StreamSpec Client ClientInv ClientOps Compaction StreamIO Pump Open Loopback Reach Runs.

Section packets.
Context {C E : Type} `{NC : NgConst} `{NG : Ngtcp2 C} `{SY : Sys E} `{NO : !Ngtcp2Ok C}.
Implicit Types (w : world C E).

(** The world after the callbacks of the [writev] call, and after the
    accounting that follows a successful one. *)
Definition after_callbacks w : world C E :=
  (run_callbacks (wv_events (writev_resp w)) (writev_world w)).2.
Definition after_accounting w : world C E :=
  (account_selected (writev_sel w) (wv_n (writev_resp w)) (wv_pdatalen (writev_resp w))
     (after_callbacks w)).2.

(** [rb_str_set_len(buffer, n)] after the packet has been written to it. *)
Definition finish_buffer (n : Z) (pkt : bytes) (buf : rstring) : outcome exn unit * rstring :=
  rb_str_set_len n (set_bytes (pkt ++ zdrop (zlen pkt) (rs_bytes buf)) buf).

Lemma call_writev_eq w :
  wf_world w →
  call_writev (writev_sel w) w =
    (Ret (wv_n (writev_resp w), wv_pdatalen (writev_resp w), wv_pkt (writev_resp w)),
     after_callbacks w).
Proof.
  intros Hwf. destruct (call_writev (writev_sel w) w) as [o w1] eqn:Hc.
  pose proof (call_writev_ok _ _ _ Hwf Hc) as Hok. cbv zeta in Hok. destruct Hok as (-> & _).
  f_equal. revert Hc. unfold call_writev, after_callbacks, writev_world, writev_resp, clock_now.
  destruct (writev_args (writev_sel w)) as [[flags id] data].
  destruct (quic_now_eq w) as (now & e' & Hnow). unfold mbind, act_bind. rewrite Hnow. simpl.
  destruct (run_callbacks _ _) as [[u| |] w2]; unfold mret, act_ret; simpl; intros; by simplify_eq/=.
Qed.

Lemma account_selected_eq w :
  wf_world w → 0 ≤ wv_n (writev_resp w) →
  account_selected (writev_sel w) (wv_n (writev_resp w)) (wv_pdatalen (writev_resp w))
    (after_callbacks w) = (Ret tt, after_accounting w).
Proof.
  intros Hwf Hn. pose proof (call_writev_ok _ _ _ Hwf (call_writev_eq _ Hwf)) as Hok. cbv zeta in Hok.
  destruct Hok as (_ & Hwf1 & _ & _ & _ & _ & _ & _ & _ & Hsel).
  unfold after_accounting.
  destruct (account_selected _ _ _ (after_callbacks w)) as [o w2] eqn:Ha.
  eapply (account_selected_ok) with (id := (writev_args (writev_sel w)).1.2) in Ha
    as (-> & _); [done|apply Hwf1|exact Hwf1|exact Hsel|done].
Qed.

(** [write_pkt] on a buffer that passed its checks. *)
Lemma write_pkt_into_eq w buf :
  wf_world w →
  write_pkt_into (w, buf) =
    let r := writev_resp w in
    if wv_n r <? 0 then
      let '(o, buf') := rb_str_set_len 0 buf in
      (match o with
       | Ret _ => Raise (Exn (ngtcp2_error_class (i32 (wv_n r))) (Some (i32 (wv_n r))))
       | Raise e => Raise e
       | Diverge => Diverge
       end, (after_callbacks w, buf'))
    else
      let '(o, buf') := finish_buffer (wv_n r) (wv_pkt r) buf in
      (match o with
       | Ret _ => Ret (negb (wv_n r =? 0))
       | Raise e => Raise e
       | Diverge => Diverge
       end, (after_accounting w, buf')).
Proof.
  intros Hwf. unfold write_pkt_into. unfold mbind at 1, act_bind at 1. unfold on_fst at 1. simpl.
  rewrite (pick_eq _ _ Hwf). fold (writev_sel w).
  unfold mbind at 1, act_bind at 1. unfold on_fst at 1. simpl.
  rewrite call_writev_eq by done.
  destruct (Z.ltb_spec (wv_n (writev_resp w)) 0) as [Hn|Hn].
  - unfold quic_raise_ngtcp2_error. run. destruct (rb_str_set_len 0 buf) as [[[]| |] b]; done.
  - unfold finish_buffer, c_poke. run. rewrite account_selected_eq by done.
    destruct (Z.eqb_spec (wv_n (writev_resp w)) 0) as [->|Hz].
    + destruct (rb_str_set_len 0 _) as [[[]| |] b]; done.
    + destruct (rb_str_set_len (wv_n _) _) as [[[]| |] b]; done.
Qed.

Lemma finish_buffer_eq n pkt buf :
  rs_tmplock buf = false → rs_frozen buf = false → zlen pkt = n →
  finish_buffer n pkt buf = (Ret tt, set_bytes pkt buf).
Proof.
  intros Hl Hf Hn. unfold finish_buffer. rewrite rb_str_set_len_eq. simpl. rewrite Hl, Hf. simpl.
  f_equal. unfold set_bytes. simpl. f_equal. subst. unfold ztake, zlen.
  rewrite Nat2Z.id. by rewrite take_app_length.
Qed.

(** The stream [pick] returns is the one of the call. *)
Lemma sel_stream w l c :
  wf_world w → writev_sel w = Some (l, c) → 0 ≤ wv_n (writev_resp w) →
  ∃ s s', w_heap (after_callbacks w) !! l = Some s ∧ wf_stream s ∧ choice_ok s c ∧
    wv_pdatalen (writev_resp w) ≤ zlen (default [] (sc_data c)) ∧
    account_sent c (wv_n (writev_resp w)) (wv_pdatalen (writev_resp w)) s = (Ret tt, s') ∧
    after_accounting w = set_w_heap (<[l := s']> (w_heap (after_callbacks w))) (after_callbacks w).
Proof.
  intros Hwf Hsel Hn. pose proof (call_writev_ok _ _ _ Hwf (call_writev_eq _ Hwf)) as Hok.
  cbv zeta in Hok. destruct Hok as (_ & Hwf1 & _ & _ & _ & _ & _ & _ & _ & Hm).
  pose proof (account_selected_eq _ Hwf Hn) as Hacc. unfold after_accounting in *.
  rewrite Hsel in Hm, Hacc |- *. destruct Hm as (_ & Hpd & _ & _ & s & Hs & Hws & Hc & _).
  unfold account_selected, with_stream in *. rewrite Hs in Hacc |- *.
  destruct (account_sent c _ _ s) as [o s'] eqn:Ha. simpl in *.
  exists s, s'. split_and!; auto. by simplify_eq.
Qed.

Definition nothing_to_send (s : stream) : Prop :=
  fin_flushed s = true ∨ (unsent s = [] ∧ fin_sent s = false).

(** C6: (functional) [quic_client_pick_send_stream] returns the first stream,
    in the order of registration, that has unsent bytes or an unsent FIN:
    those before it have nothing to send, and it returns none only when
    nobody has.  The bytes it offers are the next unsent ones, never empty; it
    asks for FIN exactly when the application has finished and these are the
    last bytes; without bytes it asks for a bare FIN. *)
Theorem pick_first_ready (L : loc → list slabel) w :
  run L w → ∃ sel, quic_client_pick_send_stream w = (Ret sel, w) ∧
  let idle p := ∀ s, w_heap w !! p.2 = Some s → nothing_to_send s in
  match sel with
  | Some (l, c) => ∃ pre id post s,
      w_streams w = pre ++ (id, l) :: post ∧ w_heap w !! l = Some s ∧
      Forall idle pre ∧ ¬ nothing_to_send s ∧ sc_stream_id c = id ∧
      match sc_data c with
      | Some d => d ≠ [] ∧ d `prefix_of` unsent s ∧
                  (sc_fin c = true ↔ fin_sent s = true ∧ d = unsent s)
      | None => unsent s = [] ∧ fin_sent s = true ∧ sc_fin c = true
      end
  | None => Forall idle (w_streams w)
  end.
Proof.
  intros Hrun. destruct (run_ok _ _ Hrun) as [Hwf _]. unfold wf_world in Hwf.
  exists (writev_sel w). split; [by eapply pick_eq|]. cbv zeta. unfold writev_sel, rb_hash_values.
  assert (Hidle : ∀ ps : list (Z * loc),
    Forall (λ l', w_heap w !! l' ≫= choose_send = None) ps.*2 →
    Forall (λ p, ∀ s, w_heap w !! p.2 = Some s → nothing_to_send s) ps).
  { intros ps Hps. apply Forall_fmap in Hps. eapply Forall_impl; [exact Hps|].
    intros [i l'] Hl s Hs. simpl in *. rewrite Hs in Hl. simpl in Hl.
    apply choose_send_None; [by eapply wc_streams|done]. }
  destruct (first_sendable _ _) as [[l c]|] eqn:Hsel.
  - pose proof (first_sendable_reg _ _ _ _ Hwf Hsel) as (s & Hs & Hws & _ & Hin & _ & Hid).
    apply first_sendable_Some in Hsel as (pre & post & s0 & Hls & Hs0 & Hc & Hpre).
    assert (s0 = s) as -> by congruence.
    apply fmap_app_inv in Hls as (pre' & rest & -> & Hrest & Hst).
    symmetry in Hrest. apply fmap_cons_inv in Hrest as ([i l'] & post' & Hl & -> & ->).
    simpl in Hl. subst l'. exists pre', i, post', s. split_and!; auto.
    + intros Hn. apply (choose_send_None _ Hws) in Hn. congruence.
    + destruct (wc_reg _ _ Hwf i l) as (s1 & Hs1 & Hi & _); [rewrite Hst; set_solver|].
      congruence.
    + destruct (sc_data c) as [d|] eqn:Hd.
      * by destruct (choose_send_data _ _ _ Hws Hc Hd) as (? & ? & ? & _).
      * by destruct (choose_send_fin_only _ _ Hws Hc Hd) as (? & ? & _ & ? & _).
  - apply Hidle, first_sendable_None, Hsel.
Qed.

(** C8: (functional) [write_pkt] with a usable caller buffer, for every answer
    of ngtcp2: an error empties the buffer, raises the mapped class with the
    code and does no accounting; "nothing to send" empties it and returns nil;
    otherwise the buffer holds exactly the packet, 1 to 1200 bytes, and is
    what is returned, the accounting being done. *)
Theorem write_pkt_result (L : loc → list slabel) w buf :
  run L w → rs_enc buf = ASCII_8BIT → rs_tmplock buf = false → rs_frozen buf = false →
  let r := writev_resp w in
  let res := quic_client_write_pkt (VStr buf) w in
  wv_n r ≤ 1200 ∧
  (wv_n r < 0 →
    res = IoResult (Raise (Exn (ngtcp2_error_class (i32 (wv_n r))) (Some (i32 (wv_n r)))))
            (VStr (set_bytes [] buf)) (after_callbacks w)) ∧
  (wv_n r = 0 → res = IoResult (Ret VNil) (VStr (set_bytes [] buf)) (after_accounting w)) ∧
  (0 < wv_n r →
    zlen (wv_pkt r) = wv_n r ∧
    res = IoResult (Ret (VStr (set_bytes (wv_pkt r) buf))) (VStr (set_bytes (wv_pkt r) buf))
            (after_accounting w)).
Proof.
  intros Hrun Henc Hl Hf r res. destruct (run_ok _ _ Hrun) as [Hwf _].
  pose proof (call_writev_ok _ _ _ Hwf (call_writev_eq _ Hwf)) as Hok. cbv zeta in Hok.
  destruct Hok as (_ & _ & _ & _ & _ & Hle & Hlen & _). fold r in Hle, Hlen.
  assert (Hres : res = io_finish true (write_pkt_into (w, buf))).
  { unfold res. rewrite write_pkt_eq, prepare_buffer_eq, bool_decide_true by done.
    rewrite str_modifiable_eq, Hl, Hf. simpl. by destruct (_ <? _). }
  rewrite Hres, write_pkt_into_eq by done. cbv zeta. fold r.
  assert (H0 : rb_str_set_len 0 buf = (Ret tt, set_bytes [] buf)).
  { by rewrite rb_str_set_len_eq, Hl, Hf. }
  split_and!; [exact Hle|..].
  - intros Hn. rewrite (proj2 (Z.ltb_lt _ _) Hn), H0. done.
  - intros Hn. rewrite (proj2 (Z.ltb_ge _ _)) by lia.
    assert (Hp : wv_pkt r = []) by (apply zlen_0; lia).
    rewrite finish_buffer_eq by (auto; lia). by rewrite Hn, Hp.
  - intros Hn. split; [lia|]. rewrite (proj2 (Z.ltb_ge _ _)) by lia.
    rewrite finish_buffer_eq by (auto; lia).
    by rewrite (proj2 (Z.eqb_neq _ _)) by lia.
Qed.

(** C7: (functional) The accounting of a successful call moves only the
    selected stream, and that one by exactly the bytes ngtcp2 says it framed;
    the FIN counts as flushed only if it was asked for and either all the
    offered bytes went into the packet or, without bytes, a packet was made. *)
Theorem write_pkt_accounting (L : loc → list slabel) w l c :
  run L w → writev_sel w = Some (l, c) → 0 ≤ wv_n (writev_resp w) →
  let pd := wv_pdatalen (writev_resp w) in
  ∃ s s', w_heap (after_callbacks w) !! l = Some s ∧
    w_heap (after_accounting w) = <[l := s']> (w_heap (after_callbacks w)) ∧
    sent_offset s' = sent_offset s + Z.max 0 pd ∧ unsent s' = zdrop pd (unsent s) ∧
    ztake pd (unsent s) = ztake pd (default [] (sc_data c)) ∧
    acked_offset s' = acked_offset s ∧ iv_pending_chunks s' = iv_pending_chunks s ∧
    (fin_flushed s' = true ↔ sc_fin c = true ∧
      match sc_data c with Some d => pd = zlen d | None => 0 < wv_n (writev_resp w) end).
Proof.
  intros Hrun Hsel Hn pd. destruct (run_ok _ _ Hrun) as [Hwf _].
  destruct (sel_stream _ _ _ Hwf Hsel Hn) as (s & s' & Hs & Hws & Hc & Hpd & Hacc & ->).
  destruct (account_sent_spec _ _ _ _ _ _ Hws Hc Hpd Hacc)
    as (_ & _ & Hse & Hun & _ & _ & _ & Hac & _ & Hch & _ & _ & _ & Hff).
  exists s, s'. fold pd in Hpd, Hse, Hun, Hff. split_and!; auto.
  - destruct (Z.le_gt_cases 0 pd); [by rewrite Z.max_r in Hun|].
    rewrite Z.max_l in Hun by lia. by rewrite Hun, !zdrop_0 by lia.
  - destruct Hc as [_ Hc]. destruct (sc_data c) as [d|]; simpl in *.
    + destruct Hc as (_ & [rest ->] & _). destruct (Z.le_gt_cases 0 pd).
      * by rewrite ztake_app_le.
      * unfold ztake. by replace (Z.to_nat pd) with 0%nat by lia.
    + destruct Hc as [-> _]. done.
  - rewrite Hff, andb_true_iff. destruct Hc as [_ Hc]. destruct (sc_data c) as [d|]; simpl in *.
    + destruct Hc as (Hd & _). apply zlen_pos in Hd. rewrite andb_true_iff, Z.ltb_lt, Z.eqb_eq.
      intuition lia.
    + by rewrite Z.ltb_lt.
Qed.

(** C37: (error) A buffer that is not a binary String, or that is short and
    frozen or locked, is refused before anything happens: no packet is
    asked for, the buffer and the client stay as they were. *)
Theorem write_pkt_rejects (v : value) w :
  v ≠ VNil →
  match v with
  | VStr s => rs_enc s ≠ ASCII_8BIT ∨
      (zlen (rs_bytes s) < 1200 ∧ (rs_frozen s = true ∨ rs_tmplock s = true))
  | _ => True
  end →
  ∃ cls, quic_client_write_pkt v w = IoResult (Raise (Exn cls None)) v w ∧
    cls = match v with
          | VStr s => if decide (rs_enc s = ASCII_8BIT)
                      then if rs_tmplock s then RuntimeError else FrozenError
                      else ArgumentError
          | _ => TypeError
          end.
Proof.
  intros Hnil Hv. eexists. split; [|done]. rewrite write_pkt_eq.
  destruct v as [| | | |s| |]; try done. rewrite prepare_buffer_eq. simpl.
  case_decide as Henc; [|by rewrite bool_decide_false].
  rewrite bool_decide_true by done. destruct Hv as [|[Hs Hfl]]; [done|].
  change QUIC_WRITE_PKT_BUFLEN with 1200.
  rewrite (proj2 (Z.ltb_lt _ _) Hs), str_modifiable_eq. simpl.
  destruct (rs_tmplock s), (rs_frozen s); destruct Hfl; done.
Qed.

(** C32: (error, code_bug) A frozen buffer of at least 1200 bytes passes the
    checks, which only make room for a short one: the packet is written over
    the frozen String, the bytes are counted as sent, and only then
    [rb_str_set_len] raises FrozenError, so the packet is never returned. *)
Theorem write_pkt_overwrites_frozen (L : loc → list slabel) w buf :
  run L w → rs_enc buf = ASCII_8BIT → rs_tmplock buf = false → rs_frozen buf = true →
  1200 ≤ zlen (rs_bytes buf) → 0 < wv_n (writev_resp w) →
  let pkt := wv_pkt (writev_resp w) in
  quic_client_write_pkt (VStr buf) w =
    IoResult (Raise (Exn FrozenError None))
      (VStr (set_bytes (pkt ++ zdrop (zlen pkt) (rs_bytes buf)) buf)) (after_accounting w).
Proof.
  intros Hrun Henc Hl Hf Hlen Hn pkt. destruct (run_ok _ _ Hrun) as [Hwf _].
  rewrite write_pkt_eq, prepare_buffer_eq, bool_decide_true by done. simpl.
  change QUIC_WRITE_PKT_BUFLEN with 1200. rewrite (proj2 (Z.ltb_ge _ _)) by lia.
  rewrite write_pkt_into_eq by done. cbv zeta. rewrite (proj2 (Z.ltb_ge _ _)) by lia.
  unfold finish_buffer. rewrite rb_str_set_len_eq. simpl. by rewrite Hl, Hf.
Qed.

(** C27: (safety, code_bug) When a bare FIN is asked for and the packet ngtcp2
    makes carries no stream frame ([*pdatalen] stays -1: an ACK only, say), the
    code still marks the FIN as flushed although none was framed; the stream
    is never picked again, so the peer never learns of the end. *)
Theorem bare_fin_lost (L : loc → list slabel) w l c :
  run L w → writev_sel w = Some (l, c) → sc_data c = None →
  0 < wv_n (writev_resp w) → wv_pdatalen (writev_resp w) = -1 →
  fin_framed (frame_label (writev_sel w) (wv_n (writev_resp w)) (-1) l) = false ∧
  ∃ s', w_heap (after_accounting w) !! l = Some s' ∧
    fin_sent s' = true ∧ fin_flushed s' = true ∧ choose_send s' = None.
Proof.
  intros Hrun Hsel Hd Hn Hpd. destruct (run_ok _ _ Hrun) as [Hwf _].
  destruct (sel_stream _ _ _ Hwf Hsel) as (s & s' & Hs & Hws & Hc & Hle & Hacc & ->); [lia|].
  destruct (account_sent_spec _ _ _ _ _ _ Hws Hc Hle Hacc)
    as (_ & _ & _ & _ & _ & _ & _ & _ & _ & _ & Hfs & _ & _ & Hff).
  destruct Hc as [_ Hc]. rewrite Hd in Hc, Hff. destruct Hc as (_ & Hfin & Hscf).
  rewrite Hscf, (proj2 (Z.ltb_lt _ _) Hn) in Hff. split.
  - rewrite Hsel. unfold frame_label. rewrite (proj2 (Z.leb_le _ _)) by lia.
    unfold at_loc. rewrite decide_True by done. rewrite Hd. unfold fin_framed. simpl.
    by rewrite !andb_false_r.
  - exists s'. simpl. rewrite lookup_insert_eq. split_and!; auto; [congruence|].
    unfold choose_send. by rewrite Hff.
Qed.

Lemma require_binary_Ret {S} v (s s' : S) str :
  quic_require_binary v s = (Ret str, s') ↔ v = VStr str ∧ rs_enc str = ASCII_8BIT ∧ s' = s.
Proof.
  unfold quic_require_binary, check_string, rb_raise. run.
  destruct v as [| | | |str'| |]; try naive_solver.
  case_bool_decide; split; intros; destruct_and?; by simplify_eq/=.
Qed.

Lemma read_pkt_args_Ret (packet : value) (opts : kwargs) w s path w' :
  read_pkt_args packet opts w = (Ret (s, path), w') ↔
  w' = w ∧ packet = VStr s ∧ rs_enc s = ASCII_8BIT ∧
  ∃ kws local remote, opts = Some kws ∧
    kwarg kws "local_sockaddr" = VStr local ∧ rs_enc local = ASCII_8BIT ∧
    kwarg kws "remote_sockaddr" = VStr remote ∧ rs_enc remote = ASCII_8BIT ∧
    path = Path (rs_bytes local) (rs_bytes remote).
Proof.
  split.
  - unfold read_pkt_args, rb_raise. destruct opts as [kws|]; [|done].
    destruct (NIL_P _ || NIL_P _); [done|].
    intros (p & w1 & (-> & Henc & ->)%require_binary_Ret & H)%bind_Ret.
    apply bind_Ret in H as (lo & w1 & (Hlo & Hle & ->)%require_binary_Ret & H).
    apply bind_Ret in H as (re & w1 & (Hre & Hree & ->)%require_binary_Ret & H).
    injection H as <- <- <-. split_and!; auto. by exists kws, lo, re.
  - intros (-> & -> & Henc & kws & lo & re & -> & Hlo & Hle & Hre & Hree & ->).
    unfold read_pkt_args. rewrite Hlo, Hre. simpl. unfold mbind, act_bind.
    rewrite (proj2 (require_binary_Ret (VStr s) w w s)) by done.
    rewrite (proj2 (require_binary_Ret (VStr lo) w w lo)) by done.
    by rewrite (proj2 (require_binary_Ret (VStr re) w w re)) by done.
Qed.

(** A binary String. *)
Definition is_binary (v : value) : bool :=
  match v with VStr s => bool_decide (rs_enc s = ASCII_8BIT) | _ => false end.

Lemma require_binary_eq {S} v (s : S) :
  quic_require_binary v s =
    match v with
    | VStr str => (if is_binary v then Ret str else Raise (Exn ArgumentError None), s)
    | _ => (Raise (Exn TypeError None), s)
    end.
Proof.
  unfold quic_require_binary, check_string, rb_raise. run. destruct v as [| | | |str| |]; try done.
  simpl. by case_bool_decide.
Qed.

(** C36: (error) What [read_pkt] accepts, exactly.  Without keywords, or with
    either address missing, it raises ArgumentError.  Otherwise the first of
    packet, local and remote address that is not a binary String decides: an
    ArgumentError if it is a String, a TypeError if it is not.  If all three
    are, ngtcp2 reads the packet on the path they give.  A refusal leaves the
    client as it was. *)
Theorem read_pkt_checks_arguments (packet : value) (opts : kwargs) w :
  let refused cls := quic_client_read_pkt packet opts w = IoResult (Raise (Exn cls None)) packet w in
  (opts = None → refused ArgumentError) ∧
  (∀ kws, opts = Some kws →
    let local := kwarg kws "local_sockaddr" in
    let remote := kwarg kws "remote_sockaddr" in
    (local = VNil ∨ remote = VNil → refused ArgumentError) ∧
    (local ≠ VNil → remote ≠ VNil →
      match List.find (λ v, negb (is_binary v)) [packet; local; remote] with
      | Some (VStr _) => refused ArgumentError
      | Some _ => refused TypeError
      | None => ∃ s lo re, packet = VStr s ∧ local = VStr lo ∧ remote = VStr re ∧
          quic_client_read_pkt packet opts w =
            io_finish true (read_pkt_locked (Path (rs_bytes lo) (rs_bytes re)) (w, s))
      end)).
Proof.
  cbv zeta. unfold quic_client_read_pkt, read_pkt_args, rb_raise. split; [by intros ->|].
  intros kws ->. set (local := kwarg kws "local_sockaddr"). set (remote := kwarg kws "remote_sockaddr").
  split.
  { intros [-> | ->]; simpl; [done|]. by rewrite orb_true_r. }
  intros Hl Hr. assert (NIL_P local || NIL_P remote = false) as ->.
  { destruct local, remote; done. }
  unfold mbind, act_bind. rewrite require_binary_eq. cbn [List.find].
  destruct packet as [| | | |s| |]; try done. destruct (is_binary (VStr s)); simpl; [|done].
  rewrite require_binary_eq.
  destruct local as [| | | |lo| |]; try done. destruct (is_binary (VStr lo)); simpl; [|done].
  rewrite require_binary_eq.
  destruct remote as [| | | |re| |]; try done. destruct (is_binary (VStr re)); simpl; [|done].
  by exists s, lo, re.
Qed.

(** [read_pkt] on a packet that passed its checks. *)
Lemma read_pkt_locked_eq w s path :
  wf_world w → rs_tmplock s = false →
  let '(c', evs, rv) := read_resp w path (rs_bytes s) in
  ∃ w', run_callbacks evs (set_w_conn c' (quic_now w).2) = (Ret tt, w') ∧ wf_world w' ∧
    read_pkt_locked path (w, s) =
      (if rv =? 0 then Ret false else Raise (Exn (ngtcp2_error_class rv) (Some rv)), (w', s)).
Proof.
  intros Hwf Hl. destruct (read_pkt_locked path (w, s)) as [o [w' s']] eqn:Hr.
  destruct (read_pkt_locked_ok _ _ _ _ _ _ Hwf Hl Hr) as (Hwf' & _ & _ & _ & _ & -> & Ho).
  cbv zeta in Ho. destruct (read_resp w path (rs_bytes s)) as [[c' evs] rv] eqn:Hresp.
  exists w'. split_and!; [|done|by rewrite Ho].
  revert Hr Hresp. unfold read_pkt_locked, quic_read_pkt_body, on_snd, on_fst, ensure, rb_str_locktmp,
    quic_read_pkt_unlock, rb_str_unlocktmp, read_resp, clock_now.
  unfold mbind, act_bind, get. simpl. rewrite Hl. simpl.
  destruct (quic_now_eq w) as (now & e' & Hnow). rewrite Hnow. simpl.
  pose proof (ng_read_pkt (w_conn w) path (rs_bytes s) now) as Hng. intros Hr Hresp.
  rewrite Hresp in Hng, Hr. destruct Hng as [Hal _]. revert Hr. simpl.
  destruct (run_callbacks evs _) as [o1 w1] eqn:Hcb.
  apply (run_callbacks_ok (ng_ledger (w_conn w))) in Hcb as (-> & _);
    [|by apply wf_set_conn, wf_set_env|done].
  unfold quic_raise_ngtcp2_error. run.
  destruct (rv =? 0); simpl; intros; by simplify_eq/=.
Qed.

(** [handle_expiry]. *)
Lemma handle_expiry_eq w :
  wf_world w →
  let '(c', evs, rv) := expiry_resp w in
  ∃ w', run_callbacks evs (set_w_conn c' (quic_now w).2) = (Ret tt, w') ∧ wf_world w' ∧
    quic_client_handle_expiry w =
      (if rv =? 0 then Ret tt else Raise (Exn (ngtcp2_error_class rv) (Some rv)), w').
Proof.
  intros Hwf. destruct (quic_client_handle_expiry w) as [o w'] eqn:Hr.
  destruct (handle_expiry_ok _ _ _ Hwf Hr) as (Hwf' & _ & _ & _ & _ & Ho). cbv zeta in Ho.
  destruct (expiry_resp w) as [[c' evs] rv] eqn:Hresp. exists w'. split_and!; [|done|by rewrite Ho].
  revert Hr Hresp. unfold quic_client_handle_expiry, expiry_resp, clock_now.
  destruct (quic_now_eq w) as (now & e' & Hnow). unfold mbind, act_bind. rewrite Hnow. simpl.
  pose proof (ng_handle_expiry (w_conn w) now) as Hng. intros Hr Hresp.
  rewrite Hresp in Hng, Hr. destruct Hng as [Hal _]. revert Hr. simpl.
  destruct (run_callbacks evs _) as [o1 w1] eqn:Hcb.
  apply (run_callbacks_ok (ng_ledger (w_conn w))) in Hcb as (-> & _);
    [|by apply wf_set_conn, wf_set_env|done].
  unfold quic_raise_ngtcp2_error. run.
  destruct (rv =? 0); simpl; intros; by simplify_eq/=.
Qed.

(** [write_pkt] without a buffer: the packet as a new String. *)
Lemma write_pkt_nil_eq w :
  wf_world w →
  quic_client_write_pkt VNil w =
    let r := writev_resp w in
    if wv_n r <? 0 then
      IoResult (Raise (Exn (ngtcp2_error_class (i32 (wv_n r))) (Some (i32 (wv_n r))))) VNil
        (after_callbacks w)
    else if wv_n r =? 0 then IoResult (Ret VNil) VNil (after_accounting w)
    else IoResult (Ret (VStr (RString (wv_pkt r) ASCII_8BIT false false))) VNil (after_accounting w).
Proof.
  intros Hwf. rewrite write_pkt_eq, write_pkt_into_eq by done. cbv zeta.
  pose proof (call_writev_ok _ _ _ Hwf (call_writev_eq _ Hwf)) as Hok. cbv zeta in Hok.
  destruct Hok as (_ & _ & _ & _ & _ & _ & Hlen & _).
  destruct (Z.ltb_spec (wv_n (writev_resp w)) 0) as [Hn|Hn].
  - by rewrite rb_str_set_len_eq.
  - rewrite finish_buffer_eq by auto.
    by destruct (Z.eqb_spec (wv_n (writev_resp w)) 0) as [Hz|Hz].
Qed.

(** C13: (error) An accepted packet is locked only while ngtcp2 reads it: when
    the call is over, normally or by the exception mapped from ngtcp2's error,
    the packet is as before, unlocked, and the callbacks of the read have all
    run, in order, on the client. *)
Theorem read_pkt_unlocks (L : loc → list slabel) (packet : value) (opts : kwargs) w s path :
  run L w → read_pkt_args packet opts w = (Ret (s, path), w) → rs_tmplock s = false →
  let c' := (read_resp w path (rs_bytes s)).1.1 in
  let evs := (read_resp w path (rs_bytes s)).1.2 in
  let rv := (read_resp w path (rs_bytes s)).2 in
  ∃ w', run_callbacks evs (set_w_conn c' (quic_now w).2) = (Ret tt, w') ∧ wf_world w' ∧
    quic_client_read_pkt packet opts w =
      IoResult (if rv =? 0 then Ret VNil else Raise (Exn (ngtcp2_error_class rv) (Some rv)))
        packet w'.
Proof.
  intros Hrun Hargs Hl c' evs rv. destruct (run_ok _ _ Hrun) as [Hwf _].
  pose proof Hargs as (_ & -> & _)%read_pkt_args_Ret.
  unfold quic_client_read_pkt. rewrite Hargs.
  pose proof (read_pkt_locked_eq w s path Hwf Hl) as Heq. unfold c', evs, rv.
  destruct (read_resp w path (rs_bytes s)) as [[c1 evs1] rv1]. simpl.
  destruct Heq as (w' & Hcb & Hwf' & ->). exists w'. split_and!; [done..|].
  by destruct (_ =? 0).
Qed.

(** C22: (functional) Opening a stream: on success one new Stream object, with
    no history, is registered last under the id ngtcp2 gave, which is a client
    id that was not in the registry; on failure the mapped exception is
    raised and the registry and the heap are unchanged. *)
Theorem open_stream_registers (L : loc → list slabel) w (bidi : bool) o w' :
  run L w →
  (if bidi then quic_client_open_bidi_stream else quic_client_open_uni_stream) w = (o, w') →
  (∃ l id, o = Ret l ∧ w_heap w !! l = None ∧ Z.odd id = false ∧ (id ∉ (w_streams w).*1) ∧
     w_streams w' = w_streams w ++ [(id, l)] ∧
     w_heap w' !! l = Some (quic_stream_new id (Some (w_self w))) ∧
     w_accept_queue w' = w_accept_queue w) ∨
  (∃ rv, rv ≠ 0 ∧ o = Raise (Exn (ngtcp2_error_class rv) (Some rv)) ∧
     w_streams w' = w_streams w ∧ w_heap w' = w_heap w).
Proof.
  intros Hrun. destruct (run_ok _ _ Hrun) as [Hwf _].
  set (open := if bidi then ngtcp2_conn_open_bidi_stream else ngtcp2_conn_open_uni_stream).
  assert (Hng : let '(c', rv, id) := open (w_conn w) in
    if rv =? 0 then lg_opened (ng_ledger (w_conn w)) id = false ∧ Z.odd id = false ∧
                    ng_ledger c' ≡ lg_open id (ng_ledger (w_conn w))
    else ng_ledger c' ≡ ng_ledger (w_conn w)).
  { unfold open. destruct bidi; [apply ng_open_bidi|apply ng_open_uni]. }
  intros Ho. assert (Ho' : open_stream open w = (o, w')).
  { unfold open. by destruct bidi. }
  pose proof (open_stream_ok open w o w' Hng Hwf Ho') as Hok.
  assert (Hq : w_accept_queue w' = w_accept_queue w).
  { revert Ho'. unfold open_stream, new_stream, register_stream, quic_raise_ngtcp2_error. run.
    destruct (open (w_conn w)) as [[c' rv] id].
    destruct (negb (rv =? 0)); intros; by simplify_eq/=. }
  destruct (open (w_conn w)) as [[c' rv] id].
  destruct Hok as (_ & _ & _ & _ & _ & Hok). destruct (Z.eqb_spec rv 0) as [->|Hrv].
  - destruct Hok as (l & -> & Hl & Hl' & Hodd & Hst). left. exists l, id. split_and!; auto.
    intros ([i l'] & -> & Hin)%list_elem_of_fmap. destruct Hng as (Hop & _).
    destruct (wc_reg _ _ Hwf _ _ Hin) as (s & _ & _ & _ & _ & _ & Hopd & _). simpl in *. congruence.
  - destruct Hok as (-> & ? & ?). right. by exists rv.
Qed.

Definition close_resp w (code : Z) (reason : bytes) : C * Z * bytes :=
  ngtcp2_conn_write_connection_close (w_conn w) code reason QUIC_WRITE_PKT_BUFLEN (clock_now w).

(** [#close] on a connection that is neither closing nor draining. *)
Lemma close_open_eq w opts code reason sock :
  close_args opts w = (Ret (code, reason), w) →
  ngtcp2_conn_in_closing_period (w_conn w) = false →
  ngtcp2_conn_in_draining_period (w_conn w) = false → w_sock w = Some sock →
  quic_client_close_m opts w =
    let '(c', n, pkt) := close_resp w code reason in
    let w1 := set_w_conn c' (quic_now w).2 in
    if (n =? NGTCP2_ERR_INVALID_STATE) || (n =? 0) then (Ret VNil, w1)
    else if n <? 0 then (Raise (Exn (ngtcp2_error_class (i32 n)) (Some (i32 n))), w1)
    else (send_on sock (ztake n pkt);; mret VNil) w1.
Proof.
  intros Ha Hcl Hdr Hsk. unfold quic_client_close_m, mbind, act_bind, close_resp, clock_now.
  rewrite Ha. simpl. rewrite Hcl, Hdr. simpl. rewrite Hsk.
  destruct (quic_now_eq w) as (now & e' & Hnow). rewrite Hnow. simpl.
  destruct (ngtcp2_conn_write_connection_close _ _ _ _ _) as [[c' n] pkt]. simpl.
  unfold quic_raise_ngtcp2_error. run. simpl.
  destruct (Z.eqb_spec n NGTCP2_ERR_INVALID_STATE); [done|]. simpl.
  destruct (Z.eqb_spec n 0) as [->|]; [done|]. by destruct (n <? 0).
Qed.

(** C23: (functional) [#close] on a live, bound connection sends one datagram,
    exactly the CONNECTION_CLOSE packet of ngtcp2 (at most 1200 bytes), and
    from then on — ngtcp2 entering its closing period with that packet — any
    further [#close] returns nil without touching socket, clock or state. *)
Theorem close_once (L : loc → list slabel) w opts code reason sock opts' a' :
  run L w → close_args opts w = (Ret (code, reason), w) →
  ngtcp2_conn_in_closing_period (w_conn w) = false →
  ngtcp2_conn_in_draining_period (w_conn w) = false → w_sock w = Some sock →
  let c' := (close_resp w code reason).1.1 in
  let n := (close_resp w code reason).1.2 in
  let pkt := (close_resp w code reason).2 in
  0 < n → n ≠ NGTCP2_ERR_INVALID_STATE → ngtcp2_conn_in_closing_period c' = true →
  let sent := sock_send sock pkt (w_env (quic_now w).2) in
  let w1 := set_w_env sent.2 (set_w_conn c' (quic_now w).2) in
  quic_client_close_m opts w =
    (if sent.1 then Ret VNil else Raise (Exn SystemCallError None), w1) ∧
  zlen pkt = n ∧ n ≤ 1200 ∧
  (close_args opts' w1 = (Ret a', w1) → quic_client_close_m opts' w1 = (Ret VNil, w1)).
Proof.
  intros Hrun Ha Hcl Hdr Hsk c' n pkt Hn Hni Hc' sent w1.
  rewrite (close_open_eq _ _ _ _ _ Ha Hcl Hdr Hsk).
  pose proof (ng_close (w_conn w) code reason QUIC_WRITE_PKT_BUFLEN (clock_now w)) as Hng.
  fold (close_resp w code reason) in Hng. subst sent w1 n pkt c'.
  destruct (close_resp w code reason) as [[c1 n1] pkt1]. simpl in *.
  destruct Hng as (Hle & Hlen & _). specialize (Hlen ltac:(lia)).
  rewrite (proj2 (Z.eqb_neq _ _) Hni), (proj2 (Z.eqb_neq _ 0)), (proj2 (Z.ltb_ge _ _)) by lia.
  simpl. split_and!; auto.
  - rewrite ztake_all by lia. unfold send_on. run. simpl.
    by destruct (sock_send sock pkt1 _) as [[] e1].
  - intros Ha'. unfold quic_client_close_m, mbind, act_bind. rewrite Ha'. destruct a'. simpl.
    by rewrite Hc'.
Qed.

(** (error) [#close] before [#bind] raises NotBound, and [#close] before
    ngtcp2 can make a CONNECTION_CLOSE packet returns nil and sends nothing. *)
Theorem close_unbound_or_early w opts code reason :
  close_args opts w = (Ret (code, reason), w) →
  ngtcp2_conn_in_closing_period (w_conn w) = false →
  ngtcp2_conn_in_draining_period (w_conn w) = false →
  (w_sock w = None → quic_client_close_m opts w = (Raise (Exn rb_eQuicErrorNotBound None), w)) ∧
  (∀ sock, w_sock w = Some sock →
    (close_resp w code reason).1.2 = NGTCP2_ERR_INVALID_STATE →
    quic_client_close_m opts w =
      (Ret VNil, set_w_conn (close_resp w code reason).1.1 (quic_now w).2)).
Proof.
  intros Ha Hcl Hdr. split.
  - intros Hsk. unfold quic_client_close_m, mbind, act_bind. rewrite Ha. simpl.
    by rewrite Hcl, Hdr, Hsk.
  - intros sock Hsk Hn. rewrite (close_open_eq _ _ _ _ _ Ha Hcl Hdr Hsk).
    destruct (close_resp w code reason) as [[c1 n1] pkt1]. simpl in *. subst.
    by rewrite Z.eqb_refl.
Qed.

(** (bounds) For the first 584 years of uptime the timestamp given to
    ngtcp2 is the monotonic clock in nanoseconds, without wrap-around, and
    reading it moves nothing but the clock. *)
Theorem quic_now_exact `{!NgConstOk, !SysOk E} w :
  (clock_gettime (w_env w)).1.1 < 18446744073 →
  quic_now w =
    (Ret ((clock_gettime (w_env w)).1.1 * 1000000000 + (clock_gettime (w_env w)).1.2),
     set_w_env (clock_gettime (w_env w)).2 w) ∧
  (clock_gettime (w_env w)).1.1 * 1000000000 + (clock_gettime (w_env w)).1.2 < UINT64_MAX.
Proof.
  intros Hs. pose proof (sys_nsec (w_env w)) as Hn. pose proof (sys_sec (w_env w)) as H0.
  unfold quic_now. rewrite ng_seconds.
  destruct (clock_gettime (w_env w)) as [[sec nsec] e']. simpl in *.
  rewrite (u64_small sec), (u64_small nsec), (u64_small (sec * _)) by lia.
  rewrite u64_small by lia. split; [done|]. unfold UINT64_MAX. lia.
Qed.
End packets.

(** ** The theorems on concrete clients *)

Lemma demo_written_run : run (λ l, wrote_label demo_loc (bin ["a"; "b"]%byte) true (Ret 2) l)
  demo_written.
Proof.
  eapply (run_step silent demo_stream); [| |done].
  { eapply (run_step silent demo_bound); [|apply WOpenBidi|done].
    eapply (run_step silent demo_new); [|apply (WBind demo_new 9)|done]. by apply run_open. }
  apply (WWriteNonblock demo_stream demo_loc (bin ["a"; "b"]%byte) (Some [("fin", VBool true)])
    (Ret 2) demo_written); [apply demo_room|].
  vm_compute. reflexivity.
Qed.

Lemma pick_first_ready_witness :
  ∃ sel, quic_client_pick_send_stream demo_written = (Ret sel, demo_written) ∧
    sel = Some (demo_loc, SendChoice (Some ["a"; "b"]%byte) true 0).
Proof.
  destruct (pick_first_ready _ _ demo_written_run) as (sel & Hsel & _).
  exists sel. split; [exact Hsel|]. vm_compute in Hsel. injection Hsel as <-. reflexivity.
Defined.

(** A caller's buffer with old contents. *)
Definition demo_buf (frozen : bool) (n : nat) : rstring :=
  RString (replicate n "0"%byte) ASCII_8BIT frozen false.

Lemma write_pkt_result_witness :
  quic_client_write_pkt (VStr (demo_buf false 4)) demo_written =
    IoResult (Ret (bin ["S"; "a"; "b"]%byte)) (bin ["S"; "a"; "b"]%byte)
      (after_accounting demo_written).
Proof.
  destruct (write_pkt_result _ demo_written (demo_buf false 4) demo_written_run
    eq_refl eq_refl eq_refl) as (_ & _ & _ & H).
  apply H. vm_compute. reflexivity.
Defined.

Lemma write_pkt_accounting_witness :
  ∃ s s', w_heap (after_callbacks demo_written) !! demo_loc = Some s ∧
    w_heap (after_accounting demo_written) =
      <[demo_loc := s']> (w_heap (after_callbacks demo_written)) ∧
    sent_offset s' = sent_offset s + 2 ∧ fin_flushed s' = true.
Proof.
  destruct (write_pkt_accounting _ demo_written demo_loc (SendChoice (Some ["a"; "b"]%byte) true 0)
    demo_written_run) as (s & s' & Hs & Hh & Hse & _ & _ & _ & _ & Hff).
  - vm_compute. reflexivity.
  - vm_compute. discriminate.
  - exists s, s'. split; [exact Hs|]. split; [exact Hh|]. split; [exact Hse|].
    apply Hff. vm_compute. split; reflexivity.
Defined.

Lemma write_pkt_rejects_witness :
  ∃ cls, quic_client_write_pkt (VStr (demo_buf true 4)) demo_written =
    IoResult (Raise (Exn cls None)) (VStr (demo_buf true 4)) demo_written ∧ cls = FrozenError.
Proof.
  apply (write_pkt_rejects (VStr (demo_buf true 4)) demo_written); [discriminate|].
  right. split; [reflexivity|]. left. reflexivity.
Defined.

Lemma write_pkt_overwrites_frozen_witness :
  quic_client_write_pkt (VStr (demo_buf true 1200)) demo_written =
    IoResult (Raise (Exn FrozenError None))
      (VStr (set_bytes (["S"; "a"; "b"]%byte ++ replicate 1197 "0"%byte) (demo_buf true 1200)))
      (after_accounting demo_written).
Proof.
  apply (write_pkt_overwrites_frozen _ demo_written (demo_buf true 1200) demo_written_run
    eq_refl eq_refl eq_refl); vm_compute; [discriminate|reflexivity].
Defined.

(** A client whose stream has ended without data, on a connection whose next
    packet only has room for an ACK. *)
Definition fin_new : world lconn lenv :=
  new_client 1%positive (set_lb_ack_only true lconn_new) lenv_new.
Definition fin_stream : world lconn lenv := (quic_client_open_bidi_stream fin_new).2.
Definition fin_closed : world lconn lenv := (with_stream demo_loc quic_stream_close_write_m fin_stream).2.

Lemma fin_closed_run : run (close_write_label demo_loc fin_stream) fin_closed.
Proof.
  eapply (run_step silent fin_stream); [|apply WCloseWrite|done].
  eapply (run_step silent fin_new); [|apply WOpenBidi|done]. by apply run_open.
Qed.

Lemma bare_fin_lost_witness :
  fin_framed (frame_label (Some (demo_loc, SendChoice None true 0)) 1 (-1) demo_loc) = false ∧
  ∃ s', w_heap (after_accounting fin_closed) !! demo_loc = Some s' ∧
    fin_sent s' = true ∧ fin_flushed s' = true ∧ choose_send s' = None.
Proof.
  apply (bare_fin_lost _ fin_closed demo_loc (SendChoice None true 0) fin_closed_run);
    vm_compute; reflexivity.
Defined.

Lemma read_pkt_unlocks_witness :
  ∃ w', wf_world w' ∧
    quic_client_read_pkt (bin ["x"%byte]) path_kwargs demo_written =
      IoResult (Raise (Exn rb_eQuicErrorClosed (Some (-224)))) (bin ["x"%byte]) w'.
Proof.
  destruct (read_pkt_unlocks _ (bin ["x"%byte]) path_kwargs demo_written
    (RString ["x"%byte] ASCII_8BIT false false) (Path ["l"%byte] ["r"%byte]) demo_written_run)
    as (w' & _ & Hwf & Hr); [reflexivity|reflexivity|].
  exists w'. split; [exact Hwf|exact Hr].
Defined.

(** A String that is not binary, after one that is no String. *)
Lemma read_pkt_checks_arguments_witness :
  let utf := VStr (RString ["r"%byte] UTF_8 false false) in
  quic_client_read_pkt (bin ["x"%byte])
    (Some [("local_sockaddr", bin ["l"%byte]); ("remote_sockaddr", utf)]) demo_written =
    IoResult (Raise (Exn ArgumentError None)) (bin ["x"%byte]) demo_written ∧
  quic_client_read_pkt (bin ["x"%byte])
    (Some [("local_sockaddr", VInt 3); ("remote_sockaddr", utf)]) demo_written =
    IoResult (Raise (Exn TypeError None)) (bin ["x"%byte]) demo_written.
Proof.
  split.
  - apply (proj2 (proj2 (read_pkt_checks_arguments (bin ["x"%byte])
      (Some [("local_sockaddr", bin ["l"%byte]);
             ("remote_sockaddr", VStr (RString ["r"%byte] UTF_8 false false))]) demo_written)
      _ eq_refl)); discriminate.
  - apply (proj2 (proj2 (read_pkt_checks_arguments (bin ["x"%byte])
      (Some [("local_sockaddr", VInt 3);
             ("remote_sockaddr", VStr (RString ["r"%byte] UTF_8 false false))]) demo_written)
      _ eq_refl)); discriminate.
Defined.

Lemma open_stream_registers_witness :
  ∃ l id, (quic_client_open_uni_stream demo_written).1 = Ret l ∧ (id ∉ (w_streams demo_written).*1) ∧
    w_streams (quic_client_open_uni_stream demo_written).2 = w_streams demo_written ++ [(id, l)].
Proof.
  destruct (open_stream_registers _ demo_written false
    (quic_client_open_uni_stream demo_written).1 (quic_client_open_uni_stream demo_written).2
    demo_written_run) as [(l & id & Ho & _ & _ & Hid & Hst & _)|(rv & _ & Ho & _)].
  - apply surjective_pairing.
  - exists l, id. split; [exact Ho|]. split; [exact Hid|exact Hst].
  - exfalso. revert Ho. vm_compute. discriminate.
Defined.

(** The same client once the handshake is complete. *)
Definition demo_ready : world lconn lenv :=
  io_world (quic_client_read_pkt (bin ["h"%byte]) path_kwargs demo_written).

Lemma close_once_witness :
  (quic_client_close_m None demo_ready).1 = Ret VNil ∧
  quic_client_close_m (Some [("error_code", VInt 7)]) (quic_client_close_m None demo_ready).2 =
    (Ret VNil, (quic_client_close_m None demo_ready).2).
Proof.
  assert (Hrun : run (λ l, wrote_label demo_loc (bin ["a"; "b"]%byte) true (Ret 2) l ++
    read_pkt_label (bin ["h"%byte]) path_kwargs demo_written l) demo_ready).
  { eapply run_step; [apply demo_written_run|apply WReadPkt|done]. }
  destruct (close_once _ demo_ready None 0 [] 9%positive (Some [("error_code", VInt 7)]) (7, [])
    Hrun) as (H1 & _ & _ & H2); try (vm_compute; reflexivity); [vm_compute; discriminate|].
  assert (Hw : (quic_client_close_m None demo_ready).2 =
    set_w_env (sock_send 9%positive (close_resp demo_ready 0 []).2
                 (w_env (quic_now demo_ready).2)).2
      (set_w_conn (close_resp demo_ready 0 []).1.1 (quic_now demo_ready).2)).
  { by rewrite H1. }
  split; [by rewrite H1|]. rewrite Hw. apply H2. vm_compute. reflexivity.
Defined.

Lemma close_unbound_or_early_witness :
  quic_client_close_m None demo_new = (Raise (Exn rb_eQuicErrorNotBound None), demo_new) ∧
  (quic_client_close_m None demo_written).1 = Ret VNil.
Proof.
  split.
  - apply (close_unbound_or_early demo_new None 0 []); reflexivity.
  - refine (f_equal fst (proj2 (close_unbound_or_early demo_written None 0 [] _ _ _)
      9%positive _ _)); vm_compute; reflexivity.
Defined.

Lemma quic_now_exact_witness :
  (quic_now demo_acked).1 = Ret 3000000005 ∧ 3000000005 < UINT64_MAX.
Proof.
  destruct (quic_now_exact demo_acked) as [H1 H2]; [vm_compute; reflexivity|].
  rewrite H1. split; [vm_compute; reflexivity|exact H2].
Defined.
