(* ===== verification/PumpSpec.v ===== *)
(** * The I/O loop and the blocking methods

    Every method of lib/quic is a sequence of the steps of [Reach.v], so the
    laws of runs hold whatever loops it makes; the bound on rounds does not
    change a result; and what holds when [#pump_until], [#write] and [#read]
    stop waiting. *)
From S2P Require Import Prelude RFloat Ngtcp2 Errors Ruby Stream StreamInv StreamSpec Client ClientInv ClientOps Compaction StreamIO Pump Blocking Open Loopback Reach Runs.

Section traced.
Context {C E : Type} `{NC : NgConst} `{NG : Ngtcp2 C} `{SY : Sys E} `{NO : !Ngtcp2Ok C}.
Implicit Types (w : world C E).

Lemma wtrace_one w L w' : wstep w L w' → wtrace w L w'.
Proof.
  intros Hs. eapply (wtrace_cons w L w' silent); [done|by apply wtrace_nil|].
  intros l. unfold silent. by rewrite app_nil_r.
Qed.

Lemma wtrace_app w L1 w1 L2 w2 L :
  wtrace w L1 w1 → wtrace w1 L2 w2 → (∀ l, L l = L1 l ++ L2 l) → wtrace w L w2.
Proof.
  intros Htr. revert L. induction Htr as [w L1 HL1|w La wa Lb wb Lab Hstep Htr IH Hab];
    intros L Htr2 HL.
  - destruct Htr2 as [w L2 HL2|w La wa Lb wb Lab Hstep Htr Hab].
    + apply wtrace_nil. intros l. by rewrite HL, HL1, HL2.
    + eapply wtrace_cons; [done|done|]. intros l. by rewrite HL, HL1, Hab.
  - eapply (wtrace_cons w La wa (λ l, Lb l ++ L2 l)); [done|by apply IH|].
    intros l. by rewrite HL, Hab, app_assoc.
Qed.

(** The computation makes steps of a run, whatever its outcome. *)
Definition traced {A} (m : clientM C E A) : Prop := ∀ w o w',
  m w = (o, w') → ∃ L, wtrace w L w'.

Lemma traced_pure {A} (m : clientM C E A) : (∀ w, (m w).2 = w) → traced m.
Proof.
  intros Hp w o w' Hm. pose proof (Hp w) as Hw. rewrite Hm in Hw. simpl in Hw. subst.
  exists silent. by apply wtrace_nil.
Qed.
Lemma traced_step {A} (m : clientM C E A) :
  (∀ w, ∃ L, wstep w L (m w).2) → traced m.
Proof.
  intros Hs w o w' Hm. destruct (Hs w) as [L HL]. rewrite Hm in HL. simpl in HL.
  exists L. by apply wtrace_one.
Qed.
Lemma traced_bind {A B} (m : clientM C E A) (f : A → clientM C E B) :
  traced m → (∀ a, traced (f a)) → traced (m ≫= f).
Proof.
  intros Hm Hf w o w'. run. destruct (m w) as [o1 w1] eqn:Hm1.
  destruct (Hm _ _ _ Hm1) as [L1 H1]. destruct o1 as [a|e|].
  - intros Hf1. destruct (Hf a _ _ _ Hf1) as [L2 H2]. eexists (λ l, L1 l ++ L2 l).
    by eapply wtrace_app.
  - intros [= <- <-]. by exists L1.
  - intros [= <- <-]. by exists L1.
Qed.
Lemma traced_ret {A} (a : A) : traced (mret a).
Proof. by apply traced_pure. Qed.
Lemma traced_raise {A} e : traced (raise (A := A) e).
Proof. by apply traced_pure. Qed.
Lemma traced_gets {A} (g : world C E → A) : traced (gets g).
Proof. by apply traced_pure. Qed.
Lemma traced_diverge {A} : traced (diverge (A := A)).
Proof. by apply traced_pure. Qed.
Lemma traced_outside {A} (m : clientM C E A) :
  (∀ w, same_client w (m w).2) → traced m.
Proof. intros Hs. apply traced_step. intros w. exists silent. by apply WOutside. Qed.
Lemma traced_while fuel (c : clientM C E bool) (b : clientM C E unit) :
  traced c → traced b → traced (while_ fuel c b).
Proof.
  intros Hc Hb. induction fuel as [|fuel IH]; simpl; (apply traced_bind; [done|]);
    intros [|]; auto using traced_ret, traced_diverge. by apply traced_bind.
Qed.
End traced.

Create HintDb traced.
#[export] Hint Resolve traced_ret traced_raise traced_gets traced_diverge traced_while : traced.
#[export] Hint Extern 2 (traced (_ ≫= _)) => apply traced_bind : traced.
#[export] Hint Extern 3 (∀ _, traced _) => intros ? : traced.
#[export] Hint Extern 3 (traced (match ?x with _ => _ end)) => destruct x : traced.

Section api.
Context {C E : Type} `{NC : NgConst} `{NG : Ngtcp2 C} `{SY : Sys E} `{NO : !Ngtcp2Ok C}.
Implicit Types (w : world C E).

Lemma io_write_traced buffer : traced (io_call (quic_client_write_pkt (C:=C) (E:=E) buffer)).
Proof. apply traced_step. intros w. eexists. apply WWritePkt. Qed.
Lemma io_read_traced packet opts :
  traced (io_call (quic_client_read_pkt (C:=C) (E:=E) packet opts)).
Proof. apply traced_step. intros w. eexists. apply WReadPkt. Qed.
Lemma handle_expiry_traced : traced (quic_client_handle_expiry (C:=C) (E:=E)).
Proof. apply traced_step. intros w. eexists. apply WHandleExpiry. Qed.
Lemma expiry_traced : traced (quic_client_expiry (C:=C) (E:=E)).
Proof. by apply traced_pure. Qed.
Lemma send_on_traced sock pkt : traced (send_on (C:=C) (E:=E) sock pkt).
Proof.
  apply traced_outside. intros w. unfold send_on. by destruct (sock_send _ _ _).
Qed.
Lemma monotonic_traced : traced (monotonic_ns (C:=C) (E:=E)).
Proof.
  apply traced_outside. intros w. unfold monotonic_ns. by destruct (clock_gettime _) as [[] ?].
Qed.
Lemma monotonic_secs_traced : traced (monotonic_secs (C:=C) (E:=E)).
Proof.
  apply traced_outside. intros w. unfold monotonic_secs. by destruct (clock_gettime _) as [[] ?].
Qed.
Lemma select_traced sock t : traced (select_readable (C:=C) (E:=E) sock t).
Proof.
  apply traced_outside. intros w. unfold select_readable, rb_raise.
  destruct t as [t|]; [destruct (flt t fzero); [done|]|]; by destruct (io_select _ _ _).
Qed.
Lemma recvfrom_traced sock n : traced (recvfrom (C:=C) (E:=E) sock n).
Proof. apply traced_outside. intros w. unfold recvfrom. by destruct (sock_recvfrom _ _ _). Qed.
Lemma remote_traced sock : traced (pump_remote_sockaddr (C:=C) (E:=E) sock).
Proof.
  apply traced_outside. intros w. unfold pump_remote_sockaddr. run.
  by destruct (w_pump_remote w).
Qed.
Lemma accept_shift_traced : traced (accept_shift (C:=C) (E:=E)).
Proof. apply traced_step. intros w. eexists. apply WAccept. Qed.
Lemma eof_traced l : traced (with_stream (C:=C) (E:=E) l quic_stream_eof_p).
Proof. apply traced_step. intros w. eexists. apply WEof. Qed.
Lemma read_nonblock_traced l lv :
  traced (with_stream (C:=C) (E:=E) l (quic_stream_read_nonblock_m lv)).
Proof.
  apply traced_step. intros w.
  destruct (with_stream l (quic_stream_read_nonblock_m lv) w) as [o w'] eqn:Hr.
  eexists. by eapply WReadNonblock.
Qed.
Lemma get_stream_traced l : traced (get_stream (C:=C) (E:=E) l).
Proof. apply traced_pure. intros w. unfold get_stream. by destruct (_ !! _). Qed.
Lemma window_left_traced cv id : traced (quic_stream_window_left (C:=C) (E:=E) cv id).
Proof. apply traced_pure. intros w. by rewrite window_left_eq. Qed.

#[local] Hint Resolve io_write_traced io_read_traced handle_expiry_traced expiry_traced
  send_on_traced monotonic_traced monotonic_secs_traced select_traced recvfrom_traced remote_traced
  accept_shift_traced eof_traced read_nonblock_traced get_stream_traced window_left_traced : traced.
Ltac trace := auto 12 with traced nocore.

Lemma flush_traced fuel sock : traced (flush (C:=C) (E:=E) fuel sock).
Proof.
  induction fuel as [|fuel IH]; simpl; (apply traced_bind; [trace|]; intros []; trace).
Qed.
#[local] Hint Resolve flush_traced : traced.
Lemma pump_timeout_traced t : traced (pump_timeout (C:=C) (E:=E) t).
Proof. unfold pump_timeout. trace. Qed.
#[local] Hint Resolve pump_timeout_traced : traced.
Lemma pump_once_traced fuel t : traced (pump_once (C:=C) (E:=E) fuel t).
Proof. unfold pump_once, rb_raise. trace. Qed.
#[local] Hint Resolve pump_once_traced : traced.
Lemma pump_until_traced fuel pred : traced pred → traced (pump_until (C:=C) (E:=E) fuel pred).
Proof. intros. unfold pump_until. trace. Qed.
#[local] Hint Resolve pump_until_traced : traced.
Lemma run_traced fuel : traced (run_ (C:=C) (E:=E) fuel).
Proof. unfold run_, rb_raise, quic_client_handshake_completed_p. trace. Qed.
Lemma accept_loop_traced fuel d : traced (accept_loop (C:=C) (E:=E) fuel d).
Proof. induction fuel as [|fuel IH]; simpl; destruct d; trace. Qed.
#[local] Hint Resolve accept_loop_traced : traced.
Lemma accept_stream_traced fuel t : traced (accept_stream (C:=C) (E:=E) fuel t).
Proof. unfold accept_stream. trace. Qed.
Lemma accept_nonblock_traced : traced (accept_stream_nonblock (C:=C) (E:=E)).
Proof. unfold accept_stream_nonblock, rb_raise. trace. Qed.

Lemma read_until_eof_traced fuel l out : traced (read_until_eof (C:=C) (E:=E) fuel l out).
Proof.
  revert out. induction fuel as [|fuel IH]; intros out; simpl; trace.
Qed.
Lemma read_drain_traced fuel l out : traced (read_drain (C:=C) (E:=E) fuel l out).
Proof.
  revert out. induction fuel as [|fuel IH]; intros out w o w'; simpl;
    destruct (with_stream l (quic_stream_read_nonblock_m (VInt 4096)) w) as [o1 w1] eqn:Hr;
    destruct (read_nonblock_traced l (VInt 4096) _ _ _ Hr) as [L1 H1]; destruct o1 as [d|e|].
  2, 5: match goal with |- context [if ?b then _ else _] => destruct b end.
  all: try (intros [= <- <-]; by exists L1).
  intros H2. destruct (IH (out ++ d) _ _ _ H2) as [L2 H2'].
  exists (λ l, L1 l ++ L2 l). by eapply wtrace_app.
Qed.
#[local] Hint Resolve read_until_eof_traced read_drain_traced : traced.
Lemma client_pump_until_traced fuel l pred :
  traced pred → traced (client_pump_until (C:=C) (E:=E) fuel l pred).
Proof. intros. unfold client_pump_until, rb_raise. trace. Qed.
#[local] Hint Resolve client_pump_until_traced : traced.
Lemma data_available_traced l : traced (data_available (C:=C) (E:=E) l).
Proof. unfold data_available. trace. Qed.
#[local] Hint Resolve data_available_traced : traced.
Lemma rescue_traced {A} (m : clientM C E A) catches h :
  traced m → traced h → traced (rescue m catches h).
Proof.
  intros Hm Hh w o w'. unfold rescue. destruct (m w) as [o1 w1] eqn:Hm1.
  destruct (Hm _ _ _ Hm1) as [L1 H1]. destruct o1 as [a|e|]; [|destruct (catches e)|];
    try (intros [= <- <-]; by exists L1).
  intros H2. destruct (Hh _ _ _ H2) as [L2 H2']. exists (λ l, L1 l ++ L2 l).
  by eapply wtrace_app.
Qed.
#[local] Hint Resolve rescue_traced : traced.
Lemma read_traced fuel l len : traced (read (C:=C) (E:=E) fuel l len).
Proof. unfold read, read_all, read_some. trace. Qed.
Lemma window_short_traced l n : traced (window_short (C:=C) (E:=E) l n).
Proof. unfold window_short. trace. Qed.
#[local] Hint Resolve window_short_traced : traced.

End api.

(** ** The bound on rounds *)
Section fuel.
Context {C E : Type} `{NC : NgConst} `{NG : Ngtcp2 C} `{SY : Sys E}.
Implicit Types (w : world C E).

(** [m'] does what [m] does wherever [m] comes to an end. *)
Definition leM {A} (m m' : clientM C E A) : Prop := ∀ w, (m w).1 ≠ Diverge → m' w = m w.

#[export] Instance leM_refl {A} : Reflexive (leM (A := A)).
Proof. by intros m w. Qed.
#[export] Instance leM_trans {A} : Transitive (leM (A := A)).
Proof. intros m1 m2 m3 H12 H23 w Hd. rewrite H23; [by apply H12|]. by rewrite H12. Qed.

Lemma leM_diverge {A} (m : clientM C E A) : leM diverge m.
Proof. by intros w Hd. Qed.
Lemma leM_bind {A B} (m m' : clientM C E A) (f f' : A → clientM C E B) :
  leM m m' → (∀ a, leM (f a) (f' a)) → leM (m ≫= f) (m' ≫= f').
Proof.
  intros Hm Hf w. run. intros Hd. rewrite (Hm w).
  - destruct (m w) as [[a|e|] w1]; [|done..]. by apply Hf.
  - intros Hd'. destruct (m w) as [[a|e|] w1]; done.
Qed.
Lemma leM_while n n' (c c' : clientM C E bool) b b' :
  (n ≤ n')%nat → leM c c' → leM b b' → leM (while_ n c b) (while_ n' c' b').
Proof.
  intros Hn Hc Hb. revert n' Hn. induction n as [|n IH]; intros [|n'] Hn; simpl; try lia;
    (apply leM_bind; [done|]); intros []; try done; try apply leM_diverge.
  apply leM_bind; [done|]. intros []. apply IH. lia.
Qed.

Lemma flush_mono n n' sock : (n ≤ n')%nat → leM (flush n sock) (flush n' sock).
Proof.
  revert n'. induction n as [|n IH]; intros [|n'] Hn; try lia; simpl; (apply leM_bind; [done|]);
    intros []; try done; try apply leM_diverge.
  apply leM_bind; [done|]. intros []. apply IH. lia.
Qed.
Lemma pump_once_mono n n' t : (n ≤ n')%nat → leM (pump_once n t) (pump_once n' t).
Proof.
  intros Hn. unfold pump_once. apply leM_bind; [done|]. intros [sock|]; [|done].
  apply leM_bind; [by apply flush_mono|done].
Qed.
Lemma pump_until_mono n n' p p' :
  (n ≤ n')%nat → leM p p' → leM (pump_until n p) (pump_until n' p').
Proof.
  intros Hn Hp. unfold pump_until. apply leM_while; [done| |by apply pump_once_mono].
  by apply leM_bind.
Qed.
Lemma accept_loop_mono n n' d : (n ≤ n')%nat → leM (accept_loop n d) (accept_loop n' d).
Proof.
  revert n'. induction n as [|n IH]; intros [|n'] Hn; try lia; simpl; [done|apply leM_diverge|].
  assert (Hnext : leM (accept_shift ≫= λ stream, match stream with
      | Some l => mret (Some l) | None => accept_loop n d end)
    (accept_shift ≫= λ stream, match stream with
      | Some l => mret (Some l) | None => accept_loop n' d end)).
  { apply leM_bind; [done|]. intros []; [done|]. apply IH. lia. }
  destruct d as [d|].
  - apply leM_bind; [done|]. intros now. destruct (fle _ _); [done|].
    apply leM_bind; [apply pump_once_mono; lia|]. by intros [].
  - apply leM_bind; [apply pump_once_mono; lia|]. by intros [].
Qed.
Lemma accept_stream_mono n n' t : (n ≤ n')%nat → leM (accept_stream n t) (accept_stream n' t).
Proof.
  intros Hn. unfold accept_stream. apply leM_bind; [done|]. intros [l|]; [done|].
  destruct t as [t|]; [|by apply accept_loop_mono]. destruct (feq t fzero); [done|].
  apply leM_bind; [done|]. intros now. by apply accept_loop_mono.
Qed.
Lemma write_mono n n' l data opts :
  (n ≤ n')%nat → leM (quic_stream_write_m n l data opts) (quic_stream_write_m n' l data opts).
Proof.
  intros Hn. unfold quic_stream_write_m. apply leM_bind; [done|]. intros s.
  destruct (iv_client s); [|done]. apply leM_bind; [done|]. intros str.
  apply leM_bind; [|done]. destruct (_ <? _); [|done].
  apply leM_while; [done..|]. by apply pump_once_mono.
Qed.
Lemma read_mono n n' l len : (n ≤ n')%nat → leM (read n l len) (read n' l len).
Proof.
  intros Hn. unfold read.
  assert (Hpump : ∀ p p', leM p p' → leM (client_pump_until n l p) (client_pump_until n' l p')).
  { intros p p' Hp. unfold client_pump_until. apply leM_bind; [done|]. intros s.
    destruct (iv_client s); [|done]. by apply pump_until_mono. }
  destruct (NIL_P len).
  - apply leM_bind; [|done]. unfold read_all. apply leM_bind; [by apply Hpump|]. intros [].
    apply leM_bind.
    + clear Hpump. revert n' Hn. generalize (@nil byte).
      induction n as [|n IH]; intros out [|n'] Hn; try lia; simpl; (apply leM_bind; [done|]);
        intros []; try done; try apply leM_diverge.
      apply leM_bind; [done|]. intros chunk. apply IH. lia.
    + clear Hpump. intros out. revert out n' Hn.
      induction n as [|n IH]; intros out [|n'] Hn w; try lia; simpl;
        destruct (with_stream l _ w) as [[d|e|] w1]; try done.
      apply IH. lia.
  - unfold read_some. apply leM_bind; [by apply Hpump|]. intros []. done.
Qed.
End fuel.

(** ** Loops *)
Section loops.
Context {C E : Type} `{NC : NgConst} `{NG : Ngtcp2 C} `{SY : Sys E}.
Implicit Types (w : world C E).

(** A loop that ends has seen its condition false. *)
Lemma while_Ret n (c : clientM C E bool) b w w' :
  while_ n c b w = (Ret tt, w') → ∃ w1, c w1 = (Ret false, w').
Proof.
  revert w. induction n as [|n IH]; intros w; simpl; intros (a & w1 & Hc & Hr)%bind_Ret;
    destruct a; try done; try (injection Hr as <-; by exists w).
  apply bind_Ret in Hr as ([] & w2 & _ & Hr). by eapply IH.
Qed.

Lemma pump_until_Ret n pred w w' :
  pump_until n pred w = (Ret tt, w') → ∃ w1, pred w1 = (Ret true, w').
Proof.
  intros (w1 & Hc)%while_Ret. apply bind_Ret in Hc as (b & w2 & Hp & Hr).
  injection Hr as Hb ->. exists w1. by destruct b.
Qed.

(** What [#write] does on a stream of a client. *)
Lemma write_client_eq fuel l s c str opts w :
  w_heap w !! l = Some s → iv_client s = Some c →
  quic_stream_write_m fuel l (VStr str) opts w =
    ((if 0 <? zlen (rs_bytes str)
      then while_ fuel (window_short l (zlen (rs_bytes str))) (pump_once fuel None)
      else mret tt);;
     with_stream l (quic_stream_enqueue (VStr str) (quic_stream_fin_kwarg opts))) w.
Proof.
  intros Hs Hc. unfold quic_stream_write_m, get_stream. unfold mbind at 1, act_bind at 1.
  by rewrite Hs, Hc.
Qed.

(** What [#read] looks at: the buffer and the FIN mark. *)
Lemma eof_true l w w' :
  with_stream l quic_stream_eof_p w = (Ret true, w') →
  ∃ s, w_heap w' !! l = Some s ∧ iv_recv_buffer s = [] ∧ fin_received s = true.
Proof.
  unfold with_stream, quic_stream_eof_p. run.
  destruct (w_heap w !! l) as [s|] eqn:Hs; [|done]. intros [= Heof <-].
  apply andb_true_iff in Heof as [Hb%Z.eqb_eq Hf]. exists s. simpl.
  rewrite lookup_insert_eq. split_and!; auto. by apply zlen_0.
Qed.
Lemma eof_at l w s :
  w_heap w !! l = Some s → iv_recv_buffer s = [] → fin_received s = true →
  (with_stream l quic_stream_eof_p w).1 = Ret true ∧
  (with_stream l quic_stream_eof_p w).2 = set_w_heap (<[l := s]> (w_heap w)) w ∧
  (with_stream l (quic_stream_read_nonblock_m (VInt 4096)) w).1 = Raise (Exn EOFError None).
Proof.
  intros Hs Hb Hf. unfold with_stream, quic_stream_eof_p, quic_stream_read_nonblock_m. run.
  rewrite Hs. simpl. rewrite Hb, Hf. done.
Qed.
End loops.
