(* ===== verification/LoopSpec.v ===== *)
(** * What one round of the loop does, and what the loops wait for

    [#pump_once] sends what ngtcp2 has to send, then waits for a datagram or
    for the timer, and serves the one that came; [#write] makes such rounds
    until its payload fits the flow-control window.  Each loop is related to
    an inductive relation that describes its rounds by what ngtcp2, the socket
    and the clock answer. *)
From S2P Require Import Prelude RFloat Ngtcp2 Errors Ruby Stream StreamInv StreamSpec Client ClientInv ClientOps StreamIO Pump Blocking Open Loopback Reach Runs PacketSpec PumpSpec.

Section rounds.
Context {C E : Type} `{NC : NgConst} `{NG : Ngtcp2 C} `{SY : Sys E} `{NO : !Ngtcp2Ok C}.
Implicit Types (w : world C E) (L : loc → list slabel).

(** ** Sending *)

(** ngtcp2 made the packets [pkts], one call after the other, and the socket
    took each of them. *)
Inductive sending (sock : loc) : world C E → list bytes → world C E → Prop :=
  | sending_none w : sending sock w [] w
  | sending_one w e pkts w' :
      0 < wv_n (writev_resp w) →
      sock_send sock (wv_pkt (writev_resp w)) (w_env (after_accounting w)) = (true, e) →
      sending sock (set_w_env e (after_accounting w)) pkts w' →
      sending sock w (wv_pkt (writev_resp w) :: pkts) w'.

(** After them it had nothing more to send. *)
Definition sends (sock : loc) w (pkts : list bytes) w' : Prop :=
  ∃ w1, sending sock w pkts w1 ∧ wv_n (writev_resp w1) = 0 ∧ w' = after_accounting w1.

Lemma after_accounting_wf w :
  wf_world w → 0 ≤ wv_n (writev_resp w) → wf_world (after_accounting w).
Proof.
  intros Hwf Hn. destruct (write_pkt_step_ok w VNil Hwf) as (Hwf' & _). revert Hwf'.
  rewrite write_pkt_nil_eq by done. cbv zeta.
  destruct (Z.ltb_spec (wv_n (writev_resp w)) 0); [lia|]. by destruct (_ =? 0).
Qed.

Lemma sending_wf sock w pkts w' : sending sock w pkts w' → wf_world w → wf_world w'.
Proof.
  induction 1 as [|w e pkts w' Hn _ _ IH]; [done|]. intros Hwf.
  apply IH, wf_set_env, after_accounting_wf; [done|lia].
Qed.

Lemma flush_eq fuel sock w :
  wf_world w →
  flush fuel sock w =
    let r := writev_resp w in
    if wv_n r <? 0 then
      (Raise (Exn (ngtcp2_error_class (i32 (wv_n r))) (Some (i32 (wv_n r)))), after_callbacks w)
    else if wv_n r =? 0 then (Ret tt, after_accounting w)
    else match fuel with
         | O => (Diverge, after_accounting w)
         | S fuel => (send_on sock (wv_pkt r);; flush fuel sock) (after_accounting w)
         end.
Proof.
  intros Hwf. destruct fuel; simpl; unfold io_call; unfold mbind at 1, act_bind at 1;
    rewrite write_pkt_nil_eq by done; cbv zeta;
    destruct (_ <? 0); [done| |done|]; by destruct (_ =? 0).
Qed.

(** Past the packets that were sent, the loop goes on with what is left. *)
Lemma flush_sending sock w pkts w' n :
  sending sock w pkts w' → wf_world w → flush (length pkts + n) sock w = flush n sock w'.
Proof.
  induction 1 as [|w e pkts w' Hn Hs _ IH]; [done|]. intros Hwf.
  rewrite flush_eq by done. cbv zeta. set (r := writev_resp w) in *.
  destruct (Z.ltb_spec (wv_n r) 0); [lia|]. destruct (Z.eqb_spec (wv_n r) 0); [lia|]. simpl.
  unfold send_on. unfold mbind at 1, act_bind at 1. rewrite Hs.
  apply IH, wf_set_env, after_accounting_wf; [done|]. fold r. lia.
Qed.

(** The loop sends up to [fuel] packets, and stops at the first one that
    cannot be made or sent. *)
Lemma flush_progress fuel sock w :
  ∃ pkts w1, sending sock w pkts w1 ∧ (length pkts ≤ fuel)%nat ∧
    (length pkts = fuel ∨ wv_n (writev_resp w1) ≤ 0 ∨
     (sock_send sock (wv_pkt (writev_resp w1)) (w_env (after_accounting w1))).1 = false).
Proof.
  revert w. induction fuel as [|fuel IH]; intros w.
  { exists [], w. split_and!; [constructor|done|by left]. }
  destruct (Z.le_gt_cases (wv_n (writev_resp w)) 0) as [Hn|Hn].
  { exists [], w. split_and!; [constructor|simpl; lia|auto]. }
  destruct (sock_send sock (wv_pkt (writev_resp w)) (w_env (after_accounting w))) as [[] e] eqn:Hs.
  - destruct (IH (set_w_env e (after_accounting w))) as (pkts & w1 & Hp & Hl & Hend).
    exists (wv_pkt (writev_resp w) :: pkts), w1. simpl.
    split_and!; [by eapply sending_one|lia|].
    destruct Hend as [?|?]; [left; lia|by right].
  - exists [], w. split_and!; [constructor|simpl; lia|]. rewrite Hs. auto.
Qed.

Lemma flush_Ret fuel sock w w' :
  wf_world w →
  flush fuel sock w = (Ret tt, w') ↔ ∃ pkts, (length pkts ≤ fuel)%nat ∧ sends sock w pkts w'.
Proof.
  intros Hwf. split.
  - destruct (flush_progress fuel sock w) as (pkts & w1 & Hp & Hl & Hend).
    replace fuel with (length pkts + (fuel - length pkts))%nat by lia.
    rewrite (flush_sending _ _ _ _ _ Hp Hwf), flush_eq by (by eapply sending_wf). cbv zeta.
    destruct (Z.ltb_spec (wv_n (writev_resp w1)) 0); [done|].
    destruct (Z.eqb_spec (wv_n (writev_resp w1)) 0) as [Hz|Hz].
    + intros [= <-]. exists pkts. split; [lia|]. by exists w1.
    + destruct Hend as [<-|[?|Hs]]; [by rewrite Nat.sub_diag|lia|].
      destruct (fuel - length pkts)%nat; [done|]. unfold send_on, mbind, act_bind.
      destruct (sock_send _ _ _) as [[] e']; done.
  - intros (pkts & Hl & w1 & Hp & Hn & ->).
    replace fuel with (length pkts + (fuel - length pkts))%nat by lia.
    rewrite (flush_sending _ _ _ _ _ Hp Hwf), flush_eq by (by eapply sending_wf). cbv zeta.
    by rewrite Hn.
Qed.

(** ** One round *)

(** ngtcp2 gave the answer [rv]: the call returns, or raises what it maps to. *)
Definition answer (rv : Z) : outcome exn unit :=
  if rv =? 0 then Ret tt else Raise (Exn (ngtcp2_error_class rv) (Some rv)).

(** ngtcp2 was told that its timer expired, and made its callbacks. *)
Definition timer_served w (o : outcome exn unit) w' : Prop :=
  let '(c', evs, rv) := expiry_resp w in
  run_callbacks evs (set_w_conn c' (quic_now w).2) = (Ret tt, w') ∧ o = answer rv.

(** ngtcp2 was given [data], on the path from any local address to the peer of
    the socket, and made its callbacks. *)
Definition packet_served (sock : loc) (data : bytes) w (o : outcome exn unit) w' : Prop :=
  let remote := default (sock_remote_sockaddr sock) (w_pump_remote w) in
  let w1 := set_w_pump_remote (Some remote) w in
  let '(c', evs, rv) := read_resp w1 (Path any_sockaddr remote) data in
  run_callbacks evs (set_w_conn c' (quic_now w1).2) = (Ret tt, w') ∧ o = answer rv.

Definition may_wait (wait : option float) : Prop :=
  match wait with Some d => flt d fzero = false | None => True end.

(** A round from the state in which everything has been sent. *)
Inductive round_end (sock : loc) (t : option float) w : outcome exn unit → world C E → Prop :=
  | end_negative d w1 :
      pump_timeout t w = (Ret (Some d), w1) → flt d fzero = true →
      round_end sock t w (Raise (Exn ArgumentError None)) w1
  | end_timer wait w1 e o w' :
      pump_timeout t w = (Ret wait, w1) → may_wait wait →
      io_select sock wait (w_env w1) = (false, e) →
      timer_served (set_w_env e w1) o w' → round_end sock t w o w'
  | end_no_packet wait w1 e e' :
      pump_timeout t w = (Ret wait, w1) → may_wait wait →
      io_select sock wait (w_env w1) = (true, e) → sock_recvfrom sock 2048 e = (None, e') →
      round_end sock t w (Raise (Exn SystemCallError None)) (set_w_env e' w1)
  | end_packet wait w1 e e' data o w' :
      pump_timeout t w = (Ret wait, w1) → may_wait wait →
      io_select sock wait (w_env w1) = (true, e) → sock_recvfrom sock 2048 e = (Some data, e') →
      packet_served sock data (set_w_env e' w1) o w' → round_end sock t w o w'.

Lemma pump_timeout_returns t w : ∃ wait w1, pump_timeout t w = (Ret wait, w1).
Proof.
  unfold pump_timeout, quic_client_expiry, monotonic_ns. run. destruct (_ =? _); [eauto|].
  destruct (clock_gettime (w_env w)) as [[sec nsec] e]. destruct t; eauto.
Qed.

Lemma select_eq sock wait w :
  may_wait wait →
  select_readable sock wait w =
    let '(ready, e) := io_select sock wait (w_env w) in (Ret ready, set_w_env e w).
Proof. unfold select_readable. destruct wait as [d|]; [simpl; by intros ->|done]. Qed.

Lemma remote_eq sock w :
  let remote := default (sock_remote_sockaddr sock) (w_pump_remote w) in
  pump_remote_sockaddr sock w = (Ret remote, set_w_pump_remote (Some remote) w).
Proof.
  unfold pump_remote_sockaddr. run. destruct (w_pump_remote w) as [a|] eqn:Hm; [|done].
  simpl. rewrite <- Hm. by destruct w.
Qed.

(** Serving the timer, and serving a packet. *)
Lemma timer_served_iff w o w' :
  wf_world w → quic_client_handle_expiry w = (o, w') ↔ timer_served w o w'.
Proof.
  intros Hwf. pose proof (handle_expiry_eq _ Hwf) as Heq. unfold timer_served, answer.
  destruct (expiry_resp w) as [[c' evs] rv]. destruct Heq as (w1 & -> & _ & ->).
  split; [by intros [= <- <-]|by intros [[= ->] ->]].
Qed.

Lemma packet_served_iff sock data w o w' :
  wf_world w →
  (remote ← pump_remote_sockaddr sock;
   io_call (quic_client_read_pkt (binary data)
     (Some [("local_sockaddr", binary any_sockaddr); ("remote_sockaddr", binary remote)]));;
   mret tt) w = (o, w') ↔ packet_served sock data w o w'.
Proof.
  intros Hwf. unfold mbind at 1, act_bind at 1. rewrite remote_eq. unfold packet_served. simpl.
  set (remote := default _ _). set (w1 := set_w_pump_remote (Some remote) w).
  assert (Hwf1 : wf_world w1).
  { unfold wf_world in *. destruct Hwf. by constructor. }
  pose proof (read_pkt_locked_eq w1 (RString data ASCII_8BIT false false)
    (Path any_sockaddr remote) Hwf1 eq_refl) as Heq. simpl in Heq.
  unfold io_call, mbind, act_bind, quic_client_read_pkt.
  unfold binary. rewrite (proj2 (read_pkt_args_Ret _ _ w1 (RString data ASCII_8BIT false false)
    (Path any_sockaddr remote) w1)) by (split_and!; auto; eexists _, _, _; split_and!; done).
  destruct (read_resp w1 _ data) as [[c' evs] rv]. destruct Heq as (w2 & -> & _ & ->).
  unfold answer. destruct (rv =? 0); simpl; split; [by intros [= <- <-]|by intros [[= ->] ->]|
    by intros [= <- <-]|by intros [[= ->] ->]].
Qed.
(** The calls of a round have one answer each. *)
Ltac same_answers :=
  repeat match goal with
  | H1 : ?x = (_, _), H2 : ?x = (_, _) |- _ => rewrite H1 in H2; injection H2; intros; subst; clear H2
  end.

(** What follows the flush in [pump_once]. *)
Definition wait_and_serve (sock : loc) (t : option float) : clientM C E unit :=
  wait_for ← pump_timeout t;
  ready ← select_readable sock wait_for;
  if (ready : bool) then
    data ← recvfrom sock 2048;
    remote ← pump_remote_sockaddr sock;
    io_call (quic_client_read_pkt (binary data)
      (Some [("local_sockaddr", binary any_sockaddr); ("remote_sockaddr", binary remote)]));;
    mret tt
  else quic_client_handle_expiry.

Lemma pump_once_eq fuel t sock w :
  w_sock w = Some sock → pump_once fuel t w = (flush fuel sock;; wait_and_serve sock t) w.
Proof. intros Hsk. unfold pump_once, gets. unfold mbind at 1, act_bind at 1. by rewrite Hsk. Qed.

Lemma round_end_iff sock t w o w' :
  wf_world w → wait_and_serve sock t w = (o, w') ↔ round_end sock t w o w'.
Proof.
  intros Hwf. unfold wait_and_serve. unfold mbind at 1, act_bind at 1.
  destruct (pump_timeout_returns t w) as (wait & w1 & Ht). rewrite Ht.
  assert (Hwf1 : wf_world w1).
  { destruct (pump_timeout_traced _ _ _ _ Ht) as [L1 H1]. by apply wtrace_ok in H1 as [? _]. }
  assert (Hneg : (∃ d, wait = Some d ∧ flt d fzero = true) ∨ may_wait wait).
  { unfold may_wait. destruct wait as [d|]; [|by right].
    destruct (flt d fzero) eqn:Hd; [left; eauto|by right]. }
  unfold mbind at 1, act_bind at 1. destruct Hneg as [(d & -> & Hd)|Hmay].
  { unfold select_readable, rb_raise. rewrite Hd. simpl. split.
    - intros [= <- <-]. by eapply end_negative.
    - intros Hend. destruct Hend; same_answers; simpl in *; congruence. }
  assert (Hnot : ∀ d, wait = Some d → flt d fzero ≠ true).
  { intros d ->. simpl in Hmay. congruence. }
  rewrite select_eq by done. destruct (io_select sock wait (w_env w1)) as [[] e] eqn:Hsel.
  - unfold mbind at 1, act_bind at 1. unfold recvfrom. simpl.
    destruct (sock_recvfrom sock 2048 e) as [[data|] e'] eqn:Hrecv;
      change (set_w_env e' (set_w_env e w1)) with (set_w_env e' w1).
    + rewrite packet_served_iff by (by apply wf_set_env). split; [by intros; eapply end_packet|].
      intros Hend. destruct Hend; same_answers; try congruence; exfalso; by eapply Hnot.
    + split; [intros [= <- <-]; by eapply end_no_packet|].
      intros Hend. destruct Hend; same_answers; try done; exfalso; by eapply Hnot.
  - rewrite timer_served_iff by (by apply wf_set_env). split; [by intros; eapply end_timer|].
    intros Hend. destruct Hend; same_answers; try congruence; exfalso; by eapply Hnot.
Qed.

(** ** Waiting for the window *)

(** [k] rounds of the loop, made while the payload was larger than the window
    of the stream, lead to a state where it is not. *)
Inductive waits (fuel : nat) (l : loc) (needed : Z) : nat → world C E → world C E → Prop :=
  | waits_open w s :
      w_heap w !! l = Some s → iv_client s = Some (w_self w) →
      needed ≤ window w (stream_id s) → waits fuel l needed 0 w w
  | waits_round k w s w1 w2 :
      w_heap w !! l = Some s → iv_client s = Some (w_self w) →
      window w (stream_id s) < needed → pump_once fuel None w = (Ret tt, w1) →
      waits fuel l needed k w1 w2 → waits fuel l needed (S k) w w2.

Lemma window_short_eq l s needed w :
  w_heap w !! l = Some s → iv_client s = Some (w_self w) →
  window_short l needed w = (Ret (window w (stream_id s) <? needed), w).
Proof.
  intros Hs Hc. unfold window_short, get_stream. unfold mbind, act_bind.
  by rewrite Hs, window_left_eq, decide_True.
Qed.
Lemma window_short_Ret l needed w b w' :
  window_short l needed w = (Ret b, w') →
  w' = w ∧ ∃ s, w_heap w !! l = Some s ∧ iv_client s = Some (w_self w) ∧
    b = (window w (stream_id s) <? needed).
Proof.
  unfold window_short, get_stream. unfold mbind, act_bind.
  destruct (w_heap w !! l) as [s|]; [|done]. rewrite window_left_eq. case_decide; [|done].
  intros [= <- <-]. eauto.
Qed.

Lemma wait_loop_iff fuel l needed m w w' :
  while_ m (window_short l needed) (pump_once fuel None) w = (Ret tt, w') ↔
  ∃ k, (k ≤ m)%nat ∧ waits fuel l needed k w w'.
Proof.
  split.
  - revert w. induction m as [|m IH]; intros w; simpl;
      intros (b & w0 & (-> & s & Hs & Hc & ->)%window_short_Ret & Hr)%bind_Ret;
      destruct (Z.ltb_spec (window w (stream_id s)) needed) as [Hlt|Hge]; try done;
      try (injection Hr as <-; exists 0%nat; split; [lia|by eapply waits_open]).
    apply bind_Ret in Hr as ([] & w1 & Hp & Hr). destruct (IH _ Hr) as (k & Hk & Hw).
    exists (S k). split; [lia|by eapply waits_round].
  - intros (k & Hk & Hw). revert m Hk.
    induction Hw as [w s Hs Hc Hle|k w s w1 w2 Hs Hc Hlt Hp _ IH]; intros m Hk.
    + destruct m; simpl; unfold mbind, act_bind; rewrite (window_short_eq _ _ _ _ Hs Hc);
        by destruct (Z.ltb_spec (window w (stream_id s)) needed); [lia|].
    + destruct m as [|m]; [lia|]. simpl. unfold mbind, act_bind.
      rewrite (window_short_eq _ _ _ _ Hs Hc).
      destruct (Z.ltb_spec (window w (stream_id s)) needed); [|lia].
      rewrite Hp. apply IH. lia.
Qed.

(** ** Theorems *)

(** C17: (functional) The sending loop of [#pump_once].  It returns exactly
    when ngtcp2 has nothing more to send, having sent each packet ngtcp2 made,
    whole and in order; the bound only limits the number of packets.  When
    ngtcp2 fails it raises the mapped error, and when the socket refuses a
    packet, that packet is lost to the loop, which raises SystemCallError. *)
Theorem flush_sends_all L sock w :
  run L w →
  (∀ fuel w', flush fuel sock w = (Ret tt, w') ↔
    ∃ pkts, (length pkts ≤ fuel)%nat ∧ sends sock w pkts w') ∧
  (∀ fuel pkts w1, sending sock w pkts w1 → (length pkts ≤ fuel)%nat →
    let r := writev_resp w1 in
    (wv_n r < 0 → flush fuel sock w =
      (Raise (Exn (ngtcp2_error_class (i32 (wv_n r))) (Some (i32 (wv_n r)))), after_callbacks w1)) ∧
    (∀ e, 0 < wv_n r → sock_send sock (wv_pkt r) (w_env (after_accounting w1)) = (false, e) →
      (length pkts < fuel)%nat →
      flush fuel sock w = (Raise (Exn SystemCallError None), set_w_env e (after_accounting w1)))).
Proof.
  intros Hrun. destruct (run_ok _ _ Hrun) as [Hwf _]. split; [by intros; apply flush_Ret|].
  intros fuel pkts w1 Hp Hl r.
  replace fuel with (length pkts + (fuel - length pkts))%nat by lia.
  rewrite (flush_sending _ _ _ _ _ Hp Hwf), flush_eq by (by eapply sending_wf). cbv zeta. fold r.
  split.
  - intros Hn. by rewrite (proj2 (Z.ltb_lt (wv_n r) 0) Hn).
  - intros e Hn Hs Hlt. destruct (Z.ltb_spec (wv_n r) 0); [lia|].
    destruct (Z.eqb_spec (wv_n r) 0); [lia|].
    destruct (fuel - length pkts)%nat; [lia|].
    unfold send_on, mbind, act_bind. by rewrite Hs.
Qed.

(** C9: (functional) One round of the loop.  First everything ngtcp2 has to
    send is sent, and the round returns only if that succeeded.  Then it waits
    on the socket for the time [pump_timeout] says; if no datagram came, the
    timer is served, and otherwise exactly one datagram is read and given to
    ngtcp2, unchanged, on the path from any address to the peer.  It returns,
    or raises what ngtcp2's answer maps to; it raises ArgumentError for a
    negative time and SystemCallError when the datagram cannot be read. *)
Theorem pump_once_round L fuel t sock w :
  run L w → w_sock w = Some sock →
  (∀ pkts w1 o w', (length pkts ≤ fuel)%nat → sends sock w pkts w1 →
    (pump_once fuel t w = (o, w') ↔ round_end sock t w1 o w')) ∧
  (∀ w', pump_once fuel t w = (Ret tt, w') →
    ∃ pkts w1, (length pkts ≤ fuel)%nat ∧ sends sock w pkts w1 ∧ round_end sock t w1 (Ret tt) w').
Proof.
  intros Hrun Hsk. destruct (run_ok _ _ Hrun) as [Hwf _].
  assert (Hsends : ∀ pkts w1, sends sock w pkts w1 → wf_world w1).
  { intros pkts w1 (w0 & Hp & Hn & ->). apply after_accounting_wf; [by eapply sending_wf|lia]. }
  rewrite (pump_once_eq _ _ _ _ Hsk). split.
  - intros pkts w1 o w' Hl Hs. unfold mbind at 1, act_bind at 1.
    rewrite (proj2 (flush_Ret fuel sock w w1 Hwf)) by eauto. apply round_end_iff. by eapply Hsends.
  - intros w' ([] & w1 & Hf & Hr)%bind_Ret. apply (flush_Ret _ _ _ _ Hwf) in Hf as (pkts & Hl & Hs).
    exists pkts, w1. split_and!; [done..|]. apply round_end_iff; [by eapply Hsends|done].
Qed.

End rounds.

(** ** The theorems on concrete clients *)

(** Two packets: the data, and ngtcp2's own. *)
Lemma flush_sends_all_witness :
  ∃ pkts, (length pkts ≤ 2)%nat ∧
    sends 9%positive demo_written pkts (flush 2 9%positive demo_written).2.
Proof.
  apply (proj1 (flush_sends_all _ 9%positive demo_written demo_written_run) 2%nat).
  vm_compute. reflexivity.
Defined.

(** A client with a window of ten bytes, and a peer about to open it. *)
Definition wait_new : world lconn lenv :=
  new_client 1%positive lconn_new (LEnv 0 [["w"%byte]] [] true []).
Definition wait_bound : world lconn lenv := (bind 9%positive wait_new).2.
Definition wait_stream : world lconn lenv := (quic_client_open_bidi_stream wait_bound).2.
Definition wait_opened : world lconn lenv := (pump_once 4 None wait_stream).2.
Definition twenty : rstring := RString (replicate 20 "x"%byte) ASCII_8BIT false false.

Lemma wait_stream_run : run silent wait_stream.
Proof.
  eapply (run_step silent wait_bound); [|apply WOpenBidi|done].
  eapply (run_step silent wait_new); [|apply (WBind wait_new 9)|done]. by apply run_open.
Qed.

Lemma pump_once_round_witness :
  ∃ pkts w1, (length pkts ≤ 4)%nat ∧ sends 9%positive wait_stream pkts w1 ∧
    round_end 9%positive None w1 (Ret tt) wait_opened.
Proof.
  apply (pump_once_round silent 4 None 9%positive wait_stream wait_stream_run);
    vm_compute; reflexivity.
Defined.

