(* ===== verification/BlockingSpec.v ===== *)
(** * What the blocking methods guarantee

    How long [#pump_once] waits, and what [#accept_stream], [#write] and [#read]
    return, or why they never do. *)
From S2P Require Import Prelude RFloat Ngtcp2 Errors Ruby Stream StreamInv StreamSpec Client ClientInv ClientOps StreamIO Pump Blocking Open Loopback Reach Runs PacketSpec PumpSpec LoopSpec.

Section theorems.
Context {C E : Type} `{NC : NgConst} `{NG : Ngtcp2 C} `{SY : Sys E} `{NO : !Ngtcp2Ok C}.
Implicit Types (w : world C E) (L : loc → list slabel).

(** C35: (functional) The time [#pump_once] waits, in seconds: what its caller
    says (nil is for ever) when no timer is armed; else the smaller of the
    caller's limit and the time left to the timer, which is zero for a timer
    that is due and otherwise the difference of the two nanosecond clocks
    divided by [10^9], correct to one part in [2^51] for timers less than
    [2^53] ns (104 days) away. *)
Theorem pump_timeout_earliest t w :
  let expiry := ngtcp2_conn_get_expiry (w_conn w) in
  let ts := (clock_gettime (w_env w)).1 in
  let left := expiry - (ts.1 * 1000000000 + ts.2) in
  (expiry = UINT64_MAX → pump_timeout t w = (Ret t, w)) ∧
  (expiry ≠ UINT64_MAX → - 2 ^ 53 < left < 2 ^ 53 →
    ∃ secs d, pump_timeout t w = (Ret (Some d), set_w_env (clock_gettime (w_env w)).2 w) ∧
      (left ≤ 0 → secs = fzero) ∧ (0 < left → near_giga secs left) ∧
      (d = secs ∨ t = Some d) ∧ flt secs d = false ∧
      (∀ limit, t = Some limit → flt limit d = false)).
Proof.
  cbv zeta. unfold pump_timeout, quic_client_expiry, monotonic_ns. run.
  destruct (Z.eqb_spec (ngtcp2_conn_get_expiry (w_conn w)) UINT64_MAX) as [He|He].
  { split; [done|]. intros Hn. by destruct Hn. }
  split; [by intros ?; destruct He|]. intros _ Hleft.
  destruct (clock_gettime (w_env w)) as [[sec nsec] e']. simpl in *.
  set (left := _ - _) in *. set (secs := fmax (fdiv (float_of_Z left) giga) fzero).
  assert (Hsecs : (left ≤ 0 → secs = fzero) ∧ (0 < left → near_giga secs left)).
  { split; intros Hl; unfold secs; [apply seconds_nonpos; lia|].
    rewrite seconds_max by lia. apply seconds_pos; lia. }
  exists secs. destruct t as [c|].
  - destruct (fmin_least c secs) as (Hd & Hc & Hs). exists (fmin c secs).
    split_and!; try done; [apply Hsecs|apply Hsecs|destruct Hd as [->| ->]; auto|].
    by intros limit [= <-].
  - exists secs. split_and!; try done; [apply Hsecs|apply Hsecs|by left|apply flt_irrefl].
Qed.


(** C14: (functional) When [#write] of a payload on a client's stream returns,
    it returns the payload's length, and all of it was queued by one step from
    a reachable state whose flow-control window had room for all of it. *)
Theorem write_queues_all L fuel l s str opts w n w' :
  run L w → w_heap w !! l = Some s → iv_client s = Some (w_self w) →
  quic_stream_write_m fuel l (VStr str) opts w = (Ret n, w') →
  n = zlen (rs_bytes str) ∧
  ∃ L1 w1 s1, run (λ l, L l ++ L1 l) w1 ∧ w_heap w1 !! l = Some s1 ∧
    (0 < n → n ≤ window w1 (stream_id s1)) ∧
    reset s1 = false ∧ closed s1 = false ∧ fin_sent s1 = false ∧
    w' = set_w_heap (<[l := enqueued (rs_bytes str) (quic_stream_fin_kwarg opts) s1]>
                       (w_heap w1)) w1.
Proof.
  intros Hrun Hs Hc Hw. rewrite (write_client_eq _ _ _ _ _ _ _ Hs Hc) in Hw.
  apply bind_Ret in Hw as ([] & w2 & Hwait & Henq).
  assert (Hwt : ∃ L2, wtrace w L2 w2 ∧ (0 < zlen (rs_bytes str) → ∃ w0,
    window_short l (zlen (rs_bytes str)) w0 = (Ret false, w2))).
  { destruct (Z.ltb_spec 0 (zlen (rs_bytes str))) as [Hp|Hp].
    - assert (Ht : traced (while_ fuel (window_short (C:=C) (E:=E) l (zlen (rs_bytes str)))
          (pump_once fuel None))).
      { apply traced_while; [apply window_short_traced|apply pump_once_traced]. }
      destruct (Ht _ _ _ Hwait) as [L2 H2]. exists L2. split; [done|]. intros _.
      by eapply while_Ret.
    - injection Hwait as <-. exists silent. split; [by apply wtrace_nil|lia]. }
  destruct Hwt as (L2 & Htr2 & Hwin). revert Henq. unfold with_stream.
  destruct (w_heap w2 !! l) as [s1|] eqn:Hs1; [|done]. rewrite enqueue_eq.
  destruct (reset s1 || closed s1 || fin_sent s1) eqn:Hg; [done|]. intros [= <- <-].
  apply orb_false_iff in Hg as [[Hrs Hcl]%orb_false_iff Hfs]. split; [done|].
  exists L2, w2, s1. split_and!; auto; [by eapply run_trace|].
  intros Hp. destruct (Hwin Hp) as [w0 Hshort].
  apply window_short_Ret in Hshort as (-> & s0 & Hs0 & _ & Hlt). simplify_eq.
  symmetry in Hlt. by apply Z.ltb_ge in Hlt.
Qed.

(** C30: (liveness, code_bug) A payload larger than any window the peer ever
    grants is never written: [#write] waits for room for all of it at once and
    queues nothing meanwhile, so it does not return, within any bound. *)
Theorem write_too_large_never_returns (B : Z) l s c str w :
  (∀ conn id, ngtcp2_conn_get_max_stream_data_left conn id ≤ B) →
  B < zlen (rs_bytes str) → w_heap w !! l = Some s → iv_client s = Some c →
  ∀ fuel opts n, (quic_stream_write_m fuel l (VStr str) opts w).1 ≠ Ret n.
Proof.
  intros HB Hlen Hs Hc fuel opts n. rewrite (write_client_eq _ _ _ _ _ _ _ Hs Hc).
  destruct (Z.ltb_spec 0 (zlen (rs_bytes str))) as [Hp|Hp].
  2: { pose proof (ng_stream_left_u64 (w_conn w) 0) as [? _].
    pose proof (HB (w_conn w) 0). lia. }
  unfold mbind, act_bind.
  destruct (while_ fuel _ _ w) as [[[]|e|] w2] eqn:Hwait; [|done..].
  apply while_Ret in Hwait as (w0 & Hshort). exfalso. revert Hshort.
  unfold window_short, get_stream. unfold mbind, act_bind.
  destruct (w_heap w0 !! l) as [s0|]; [|done]. rewrite window_left_eq.
  case_decide; [|done]. intros [= Hlt%Z.ltb_ge _]. unfold window in Hlt.
  specialize (HB (w_conn w0) (stream_id s0)). lia.
Qed.

(** C28: (functional, code_bug) [#read] without a length never returns any
    data: it waits for [eof?], which is false while the buffer holds a byte,
    so if it returns, it returns the empty String. *)
Theorem read_all_returns_nothing fuel l w r w' :
  read fuel l VNil w = (Ret r, w') → r = Some [].
Proof.
  intros (out & w1 & Hall & Hr)%bind_Ret. injection Hr as <- _. f_equal.
  apply bind_Ret in Hall as ([] & w2 & Hpump & Hall).
  apply bind_Ret in Hall as (o2 & w3 & Hu & Hd).
  unfold client_pump_until in Hpump. apply bind_Ret in Hpump as (s & w4 & _ & Hpump).
  destruct (iv_client s) as [c|]; [|done].
  apply pump_until_Ret in Hpump as (w5 & Heof).
  apply eof_true in Heof as (s2 & Hs2 & Hb & Hf).
  destruct (eof_at _ _ _ Hs2 Hb Hf) as (He1 & He2 & _).
  assert (Hu' : o2 = [] ∧ w_heap w3 !! l = Some s2).
  { destruct fuel; simpl in Hu; revert Hu; unfold mbind, act_bind;
      destruct (with_stream l quic_stream_eof_p w2) as [o3 w6]; simpl in He1, He2; subst;
      intros [= <- <-]; simpl; rewrite lookup_insert_eq; done. }
  destruct Hu' as [-> Hs3]. destruct (eof_at _ _ _ Hs3 Hb Hf) as (_ & _ & He3).
  destruct fuel; simpl in Hd; revert Hd;
    destruct (with_stream l (quic_stream_read_nonblock_m (VInt 4096)) w3) as [o3 w6];
    simpl in He3; subst o3; by intros [= <- _].
Qed.

(** C29: (liveness, code_bug) [#read] with a length never reports the end of
    the stream: the block it waits on looks at [@fin_received], an instance
    variable nothing sets, so it only stops waiting when a byte is buffered;
    [nil], the documented result at EOF, is never returned. *)
Theorem read_some_never_eof fuel l n w r w' :
  read fuel l (VInt n) w = (Ret r, w') →
  ∃ out s, r = Some out ∧ w_heap w' !! l = Some s ∧ (0 < n → out ≠ []).
Proof.
  unfold read. simpl. intros ([] & w1 & Hpump & Hr)%bind_Ret.
  unfold client_pump_until in Hpump. apply bind_Ret in Hpump as (s & w2 & _ & Hpump).
  destruct (iv_client s) as [c|]; [|done].
  apply pump_until_Ret in Hpump as (w3 & Havail). revert Havail Hr.
  unfold data_available, get_stream, rescue, with_stream. run.
  destruct (w_heap w3 !! l) as [s1|] eqn:Hs1; [|done]. intros [= Hb <-].
  rewrite orb_false_r in Hb. apply Z.ltb_lt in Hb. rewrite Hs1.
  unfold quic_stream_read_nonblock_m, NUM2LONG, num2long_int, rb_raise. run.
  destruct (_ && _) eqn:Hrange; [|done]. destruct (Z.ltb_spec n 0); [done|].
  rewrite (proj2 (Z.eqb_neq (zlen (iv_recv_buffer s1)) 0)) by lia. simpl.
  intros [= <- <-]. eexists _, _. simpl. rewrite lookup_insert_eq. split_and!; [done..|].
  intros Hn Hnil. apply (f_equal zlen) in Hnil. revert Hnil.
  destruct (Z.ltb_spec n (zlen (iv_recv_buffer s1))); rewrite zlen_ztake by lia;
    unfold zlen at 1; simpl; unfold zlen in *; simpl in *; lia.
Qed.

(** ** Accepting *)
Lemma accept_last fuel t w l w' :
  accept_stream fuel t w = (Ret (Some l), w') →
  ∃ L w1, wtrace w L w1 ∧ accept_shift w1 = (Ret (Some l), w').
Proof.
  unfold accept_stream. intros (o & w1 & Hs & Hr)%bind_Ret.
  assert (Htr : ∀ L w0, wtrace w L w0 → ∀ d, accept_loop fuel d w0 = (Ret (Some l), w') →
    ∃ L w1, wtrace w L w1 ∧ accept_shift w1 = (Ret (Some l), w')).
  { clear Hs Hr. induction fuel as [|fuel IH]; intros L w0 Htr d; simpl; [done|].
    assert (Hnext : ∀ L w0, wtrace w L w0 → (accept_shift ≫= λ stream, match stream with
        | Some l => mret (Some l) | None => accept_loop fuel d end) w0 = (Ret (Some l), w') →
      ∃ L w1, wtrace w L w1 ∧ accept_shift w1 = (Ret (Some l), w')).
    { intros L0 w2 Htr0 ([l0|] & w3 & Hsh & Hr)%bind_Ret.
      - injection Hr as -> ->. by exists L0, w2.
      - destruct (accept_shift_traced _ _ _ Hsh) as [L3 H3].
        apply (IH (λ l, L0 l ++ L3 l)) in Hr; [done|]. by eapply wtrace_app. }
    assert (Hstep : ∀ (m : clientM C E unit) w0 L, traced m → wtrace w L w0 →
      (m ≫= λ _, accept_shift ≫= λ stream, match stream with
        | Some l => mret (Some l) | None => accept_loop fuel d end) w0 = (Ret (Some l), w') →
      ∃ L w1, wtrace w L w1 ∧ accept_shift w1 = (Ret (Some l), w')).
    { intros m w2 L0 Hm Htr0 ([] & w3 & Hm1 & Hr)%bind_Ret.
      destruct (Hm _ _ _ Hm1) as [L3 H3]. apply (Hnext (λ l, L0 l ++ L3 l)) in Hr; [done|].
      by eapply wtrace_app. }
    destruct d as [d|].
    - intros (now & w2 & Hn & Hr)%bind_Ret. destruct (monotonic_secs_traced _ _ _ Hn) as [L2 H2].
      destruct (fle _ _); [done|].
      eapply (Hstep _ w2 (λ l, L l ++ L2 l)) in Hr;
        [done|apply pump_once_traced|by eapply wtrace_app].
    - intros Hr. eapply (Hstep _ w0 L) in Hr; [done|apply pump_once_traced|done]. }
  destruct o as [l0|].
  - injection Hr as -> ->. exists silent, w. split; [by apply wtrace_nil|done].
  - destruct (accept_shift_traced _ _ _ Hs) as [L1 H1].
    destruct t as [t|]; [destruct (feq t fzero)|].
    + done.
    + apply bind_Ret in Hr as (now & w2 & Hn & Hr').
      destruct (monotonic_secs_traced _ _ _ Hn) as [L2 H2].
      eapply (Htr (λ l, L1 l ++ L2 l)); [by eapply wtrace_app|done].
    + by eapply (Htr L1).
Qed.

(** C20: (safety) A stream that [#accept_stream] returns, after whatever loop,
    is a live Stream object of a server-initiated id that had carried data,
    and it has left the queue. *)
Theorem accept_gives_server_streams L fuel t w l w' :
  run L w → accept_stream fuel t w = (Ret (Some l), w') →
  ∃ L1 s, run (λ l, L l ++ L1 l) w' ∧ w_heap w' !! l = Some s ∧
    Z.odd (stream_id s) = true ∧ accept_queued s = true ∧ l ∉ w_accept_queue w'.
Proof.
  intros Hrun Hacc. pose proof Hacc as Hsplit. apply accept_last in Hsplit as (L0 & w1 & Htr & Hsh).
  destruct (accept_stream_traced _ _ _ _ _ Hacc) as [L1 H1].
  assert (Hrun' : run (λ l, L l ++ L1 l) w') by (by eapply run_trace).
  destruct (run_ok _ _ Hrun) as [Hwf _].
  destruct (wtrace_ok _ _ _ Hwf Htr) as (Hwf1 & _).
  apply accept_shift_spent in Hsh as (_ & s & ? & ? & ? & ?); [|done].
  exists L1, s. by split_and!.
Qed.

(** C19: (safety) A stream is accepted at most once in the life of a client:
    after [#accept_stream] has returned it, no later accept call, blocking or
    not, returns the same object again, whatever else happened in between —
    other calls, more data on the stream, heap compactions that moved it. *)
Theorem accepted_once L fuel t w l w1 f w2 :
  run L w → accept_stream fuel t w = (Ret (Some l), w1) → wlater w1 f w2 →
  (f l ∉ w_accept_queue w2) ∧
  (∀ fuel' t', (accept_stream fuel' t' w2).1 ≠ Ret (Some (f l))) ∧
  (accept_stream_nonblock w2).1 ≠ Ret (f l).
Proof.
  intros Hrun Hacc Hl. destruct (run_ok _ _ Hrun) as [Hwf _].
  destruct (accept_stream_traced _ _ _ _ _ Hacc) as [L1 H1].
  destruct (wtrace_ok _ _ _ Hwf H1) as (Hwf1 & _).
  apply accept_last in Hacc as (L0 & w0 & H0 & Hsh).
  destruct (wtrace_ok _ _ _ Hwf H0) as (Hwf0 & _).
  apply accept_shift_spent in Hsh as [_ Hsp]; [|done].
  destruct (later_spent _ _ _ _ Hl Hwf1 Hsp) as [Hwf2 Hsp2].
  pose proof Hsp2 as (_ & _ & _ & _ & Hnot). split_and!; [done| |].
  - intros fuel' t'. destruct (accept_stream fuel' t' w2) as [o w3] eqn:Ha. simpl. intros ->.
    apply accept_last in Ha as (L2 & w4 & H2 & Hsh).
    pose proof (wtrace_ok _ _ _ Hwf2 H2) as Hok2.
    apply accept_shift_spent in Hsh as [Hin _]; [|by apply Hok2].
    by destruct (step_spent _ _ _ _ Hok2 Hsp2) as (_ & _ & _ & _ & ?).
  - unfold accept_stream_nonblock, mbind, act_bind. rewrite accept_shift_eq.
    destruct (w_accept_queue w2) as [|l0 q]; simpl; [done|]. intros [= ->].
    apply Hnot. by left.
Qed.

(** Only the first data of a server stream lengthens the queue. *)
Lemma recv_queue g w flags id off d l s :
  wf_client g w → rb_hash_aref (w_streams w) id = Some l → w_heap w !! l = Some s →
  w_accept_queue (run_callback (CbRecvStreamData flags id off d) w).2 =
    w_accept_queue w ++ (if Z.odd id && negb (accept_queued s) then [l] else []).
Proof.
  intros Hwf Hl Hs. unfold run_callback, quic_recv_stream_data_cb. unfold mbind at 1, act_bind at 1.
  rewrite (lookup_stream_eq g), Hl by done. unfold mbind, act_bind.
  unfold accept_push, get_stream, with_stream. run. rewrite Hs, andb_comm.
  destruct (Z.odd id && negb (accept_queued s)); simpl.
  - rewrite Hs. simpl. rewrite lookup_insert_eq.
    by destruct (recv_data _ _ d _) as [[[]| |] s2].
  - rewrite Hs, app_nil_r. by destruct (recv_data _ _ d s) as [[[]| |] s2].
Qed.

(** C21: (functional) Server streams are accepted in the order in which their
    first data came.  The first data of a stream puts it at the end of the
    queue, and later data does not; whatever happens then, no stream overtakes
    another: what is left of the old queue stays in front, in its order.
    The accept calls hand out the head, without any I/O and whatever the
    timeout; on an empty queue a zero timeout gives nil, and the non-blocking
    call an exception that [rescue IO::WaitReadable] catches, again without
    I/O. *)
Theorem accept_is_fifo L w :
  run L w →
  (∀ evs w1 flags id off d l s,
    events_allowed (ng_ledger (w_conn w)) evs → run_callbacks evs w = (Ret tt, w1) →
    rb_hash_aref (w_streams w1) id = Some l → w_heap w1 !! l = Some s →
    w_accept_queue (run_callback (CbRecvStreamData flags id off d) w1).2 =
      w_accept_queue w1 ++ (if Z.odd id && negb (accept_queued s) then [l] else [])) ∧
  (∀ f w', wlater w f w' → ∃ k new,
    w_accept_queue w' = (f <$> drop k (w_accept_queue w)) ++ new ∧
    ∀ l, l ∈ w_accept_queue w → f l ∉ new) ∧
  (∀ l q, w_accept_queue w = l :: q →
    (∀ fuel t, accept_stream fuel t w = (Ret (Some l), set_w_accept_queue q w)) ∧
    accept_stream_nonblock w = (Ret l, set_w_accept_queue q w)) ∧
  (w_accept_queue w = [] →
    (∀ fuel t, feq t fzero = true → accept_stream fuel (Some t) w = (Ret None, w)) ∧
    ∃ e, accept_stream_nonblock w = (Raise e, w) ∧
      rescues [HModule IO_WaitReadable] e = true).
Proof.
  intros Hrun. destruct (run_ok _ _ Hrun) as [Hwf _].
  assert (Hw : set_w_accept_queue (w_accept_queue w) w = w) by (by destruct w).
  unfold accept_stream, accept_stream_nonblock. unfold mbind, act_bind. rewrite accept_shift_eq.
  split_and!.
  - intros evs w1 flags id off d l s Hevs Hr. intros.
    apply (run_callbacks_ok (ng_ledger (w_conn w))) in Hr as (_ & Hwf1 & _); [|done..].
    by eapply recv_queue.
  - intros f w' Hl. by destruct (later_queue _ _ _ Hl Hwf) as (_ & _ & ?).
  - intros l q Hq. by rewrite Hq.
  - intros Hq. rewrite Hq in Hw |- *. simpl. rewrite Hw.
    split; [by intros fuel t ->|]. unfold rb_raise. eexists. split; [reflexivity|]. by vm_compute.
Qed.
End theorems.

(** ** The theorems on concrete clients *)

(** A timer that expires in one and a half seconds. *)
Definition demo_timer : world lconn lenv :=
  new_client 1%positive (set_lb_expiry 1500000005 lconn_new) lenv_new.

Lemma pump_timeout_earliest_witness :
  (pump_timeout None demo_timer).1 = Ret (Some (fdiv (float_of_Z 3) (float_of_Z 2))) ∧
  ∃ secs d, pump_timeout None demo_timer =
      (Ret (Some d), set_w_env (clock_gettime (w_env demo_timer)).2 demo_timer) ∧
    near_giga secs 1500000000 ∧ (d = secs ∨ None = Some d).
Proof.
  split; [vm_compute; reflexivity|].
  destruct (proj2 (pump_timeout_earliest None demo_timer)) as (secs & d & H1 & _ & H2 & H3 & _).
  - vm_compute. discriminate.
  - vm_compute. split; reflexivity.
  - exists secs, d. split; [exact H1|]. split; [|exact H3]. apply H2. vm_compute. reflexivity.
Defined.


Definition ab : rstring := RString ["a"; "b"]%byte ASCII_8BIT false false.

Lemma demo_stream_run : run silent demo_stream.
Proof.
  eapply (run_step silent demo_bound); [|apply WOpenBidi|done].
  eapply (run_step silent demo_new); [|apply (WBind demo_new 9)|done]. by apply run_open.
Qed.

Lemma write_queues_all_witness :
  (quic_stream_write_m 3 demo_loc (VStr ab) None demo_stream).1 = Ret 2 ∧ 2 = zlen (rs_bytes ab).
Proof.
  assert (Hr : (quic_stream_write_m 3 demo_loc (VStr ab) None demo_stream).1 = Ret 2).
  { vm_compute. reflexivity. }
  split; [exact Hr|].
  apply (write_queues_all silent 3 demo_loc (demo_obj demo_stream demo_loc) ab None demo_stream 2
    (quic_stream_write_m 3 demo_loc (VStr ab) None demo_stream).2 demo_stream_run).
  - vm_compute. reflexivity.
  - vm_compute. reflexivity.
  - rewrite <- Hr. apply surjective_pairing.
Defined.

Definition thousand_one : rstring := RString (replicate 1001 "x"%byte) ASCII_8BIT false false.

Lemma write_too_large_never_returns_witness :
  zlen (rs_bytes thousand_one) = 1001 ∧
  (quic_stream_write_m 20 demo_loc (VStr thousand_one) None wait_stream).1 ≠ Ret 1001.
Proof.
  split; [vm_compute; reflexivity|].
  apply (write_too_large_never_returns 1000 demo_loc (demo_obj wait_stream demo_loc) 1%positive
    thousand_one wait_stream).
  - intros conn id. simpl. lia.
  - vm_compute. reflexivity.
  - vm_compute. reflexivity.
  - vm_compute. reflexivity.
Defined.

(** The peer ends its stream without data. *)
Definition ended : world lconn lenv :=
  io_world (quic_client_read_pkt (bin ["f"%byte]) path_kwargs demo_new).

Lemma read_all_returns_nothing_witness :
  (read 3 demo_loc VNil ended).1 = Ret (Some []) ∧ Some [] = Some (@nil byte).
Proof.
  assert (Hr : (read 3 demo_loc VNil ended).1 = Ret (Some [])) by (vm_compute; reflexivity).
  split; [exact Hr|].
  apply (read_all_returns_nothing 3 demo_loc ended (Some []) (read 3 demo_loc VNil ended).2).
  rewrite <- Hr. apply surjective_pairing.
Defined.

Lemma read_some_never_eof_witness :
  ∃ out s, Some ["h"%byte] = Some out ∧
    w_heap (read 3 demo_loc1 (VInt 1) demo_acked).2 !! demo_loc1 = Some s ∧ (0 < 1 → out ≠ []).
Proof.
  apply (read_some_never_eof 3 demo_loc1 1 demo_acked).
  vm_compute. reflexivity.
Defined.

Lemma accept_gives_server_streams_witness :
  ∃ L1 s, run (λ l, demo_label l ++ L1 l) (accept_stream 1 None demo_acked).2 ∧
    w_heap (accept_stream 1 None demo_acked).2 !! demo_loc1 = Some s ∧
    Z.odd (stream_id s) = true ∧ accept_queued s = true ∧
    demo_loc1 ∉ w_accept_queue (accept_stream 1 None demo_acked).2.
Proof.
  apply (accept_gives_server_streams demo_label 1 None demo_acked demo_loc1
    (accept_stream 1 None demo_acked).2 demo_run).
  vm_compute. reflexivity.
Defined.

Definition demo_accepted : world lconn lenv := (accept_stream 1 None demo_acked).2.
Definition demo_more : world lconn lenv :=
  io_world (quic_client_read_pkt (bin ["d"; "h"]%byte) path_kwargs
    (gc_compact Pos.succ demo_accepted)).

Lemma demo_later : wlater demo_accepted (Pos.succ ∘ id) demo_more.
Proof.
  eapply later_step; [|apply WReadPkt]. apply later_compact; [apply later_now|].
  intros x y. apply Pos.succ_inj.
Qed.

Lemma accepted_once_witness :
  (accept_stream 1 None demo_acked).1 = Ret (Some demo_loc1) ∧
  iv_recv_buffer (demo_obj demo_more (Pos.succ demo_loc1)) = ["h"; "i"; "h"]%byte ∧
  (Pos.succ demo_loc1 ∉ w_accept_queue demo_more).
Proof.
  do 2 (split; [vm_compute; reflexivity|]).
  apply (accepted_once demo_label 1 None demo_acked demo_loc1 demo_accepted (Pos.succ ∘ id)
    demo_more demo_run); [|apply demo_later].
  vm_compute. reflexivity.
Defined.

Lemma accept_is_fifo_witness :
  accept_stream_nonblock demo_acked = (Ret demo_loc1, set_w_accept_queue [] demo_acked) ∧
  accept_stream 1 (Some fzero) demo_new = (Ret None, demo_new) ∧
  ∃ k new, w_accept_queue demo_acked = drop k (w_accept_queue demo_read) ++ new.
Proof.
  split; [|split].
  - apply (proj1 (proj2 (proj2 (accept_is_fifo demo_label demo_acked demo_run))) demo_loc1 []).
    vm_compute. reflexivity.
  - apply (proj2 (proj2 (proj2 (accept_is_fifo silent demo_new
      (run_open 1%positive lconn_new lenv_new silent (λ _, eq_refl)))))); reflexivity.
  - destruct (proj1 (proj2 (accept_is_fifo _ demo_read demo_read_run)) id demo_acked)
      as (k & new & Hq & _).
    { eapply later_step; [apply later_now|apply (WReadPkt demo_read)]. }
    rewrite list_fmap_id in Hq. exists k, new. exact Hq.
Defined.
