(* ===== verification/MethodSpec.v ===== *)
(** * The Stream methods and the exceptions, branch by branch

    [#write_nonblock], [#read_nonblock], [#eof?], [#close_write], [#close_read],
    [#close] and [#reset] of ext/quic/stream.c; the exception mapping and the
    class hierarchy of ext/quic/quic.c. *)
From S2P Require Import Prelude Ngtcp2 Errors Ruby Stream StreamInv StreamSpec Client ClientInv ClientOps StreamIO Pump Blocking Open Loopback Reach Runs PacketSpec PumpSpec LoopSpec BlockingSpec.

(** A stream that takes no more writes. *)
Definition write_closed (s : stream) : bool := reset s || closed s || fin_sent s.

Section methods.
Context {C E : Type} `{NC : NgConst} `{NG : Ngtcp2 C} `{SY : Sys E} `{NO : !Ngtcp2Ok C}.
Implicit Types (w : world C E) (L : loc → list slabel).

Lemma enqueue_open w l s str fin :
  w_heap w !! l = Some s → write_closed s = false →
  with_stream l (quic_stream_enqueue (VStr str) fin) w =
    (Ret (zlen (rs_bytes str)), set_w_heap (<[l := enqueued (rs_bytes str) fin s]> (w_heap w)) w).
Proof.
  unfold write_closed. intros Hs Hc. unfold with_stream. by rewrite Hs, enqueue_eq, Hc.
Qed.

Lemma enqueue_closed w l s data fin :
  w_heap w !! l = Some s → write_closed s = true →
  with_stream l (quic_stream_enqueue data fin) w =
    (Raise (Exn rb_eQuicErrorStreamClosed None), w).
Proof.
  unfold write_closed. intros Hs Hc. unfold with_stream. rewrite Hs, enqueue_eq, Hc.
  by rewrite set_heap_id.
Qed.

(** The rest of a blocking [#write] after a round of the loop. *)
Definition quic_stream_write_wait (n fuel : nat) (l : loc) (str : rstring) (opts : kwargs) :
    clientM C E Z :=
  while_ n (window_short l (zlen (rs_bytes str))) (pump_once fuel None);;
  with_stream l (quic_stream_enqueue (VStr str) (quic_stream_fin_kwarg opts)).

(** C15: (functional) [#write_nonblock] on an open stream of the client: it
    queues the longest prefix the effective window (the smaller of the
    stream's and the connection's) has room for and returns its length; FIN is
    taken only with the last byte; with no room for a non-empty payload it
    raises an exception [rescue IO::WaitWritable] catches and changes nothing;
    an empty payload is never refused. *)
Theorem write_nonblock_takes_what_fits w l s str opts :
  w_heap w !! l = Some s → iv_client s = Some (w_self w) → write_closed s = false →
  let data := rs_bytes str in
  let n := Z.min (zlen data) (window w (stream_id s)) in
  let fin := quic_stream_fin_kwarg opts in
  (0 < zlen data → window w (stream_id s) = 0 → ∃ e,
     quic_stream_write_nonblock_m l (VStr str) opts w = (Raise e, w) ∧
     rescues [HModule IO_WaitWritable] e = true) ∧
  (zlen data = 0 ∨ 0 < window w (stream_id s) →
     quic_stream_write_nonblock_m l (VStr str) opts w =
       (Ret n, set_w_heap (<[l := enqueued (ztake n data) (fin && (n =? zlen data)) s]> (w_heap w)) w)).
Proof.
  intros Hs Hc Ho data n fin. rewrite (write_nonblock_eq _ _ _ _ _ Hs).
  unfold nonblock_offer. rewrite Hc, decide_True by done. fold data fin.
  pose proof (window_u64 w (stream_id s)) as [Hw0 _]. pose proof (zlen_nonneg data) as Hd0. split.
  - intros Hp Hz. rewrite (proj2 (Z.eqb_neq _ _)), (proj2 (Z.eqb_eq _ _) Hz) by lia.
    eexists. split; [reflexivity|by vm_compute].
  - intros Hcase. destruct (Z.eqb_spec (zlen data) 0) as [Hz|Hz].
    { rewrite (enqueue_open _ _ _ _ _ Hs Ho). fold data.
      assert (n = zlen data) as -> by (unfold n; lia).
      by rewrite ztake_all, Z.eqb_refl, andb_true_r by lia. }
    rewrite (proj2 (Z.eqb_neq (window w (stream_id s)) 0)) by lia.
    destruct (Z.leb_spec (zlen data) (window w (stream_id s))) as [Hle|Hlt].
    + rewrite (enqueue_open _ _ _ _ _ Hs Ho). fold data.
      assert (n = zlen data) as -> by (unfold n; lia).
      by rewrite ztake_all, Z.eqb_refl, andb_true_r by lia.
    + rewrite (enqueue_open _ _ _ _ _ Hs Ho). cbn [rs_bytes]. fold data.
      assert (Hn : n = window w (stream_id s)) by (unfold n; lia). rewrite <- Hn.
      rewrite zlen_ztake by lia. rewrite (proj2 (Z.eqb_neq n (zlen data))) by lia.
      by rewrite andb_false_r.
Qed.

(** C31: (bounds, doc_code_divergence) The window [#write_nonblock] respects
    does not count bytes already queued: ngtcp2 learns of them only when they
    are framed.  Two calls in a row each queue a whole window, so more bytes
    can be queued than the window both calls were checked against. *)
Theorem nonblock_writes_overcommit w l s str opts1 opts2 :
  w_heap w !! l = Some s → wf_stream s → iv_client s = Some (w_self w) →
  write_closed s = false → quic_stream_fin_kwarg opts1 = false →
  let room := window w (stream_id s) in
  0 < room → room ≤ zlen (rs_bytes str) →
  let w1 := (quic_stream_write_nonblock_m l (VStr str) opts1 w).2 in
  let w2 := (quic_stream_write_nonblock_m l (VStr str) opts2 w1).2 in
  (quic_stream_write_nonblock_m l (VStr str) opts1 w).1 = Ret room ∧
  (quic_stream_write_nonblock_m l (VStr str) opts2 w1).1 = Ret room ∧
  ∃ s2, w_heap w2 !! l = Some s2 ∧ zlen (unsent s2) = zlen (unsent s) + 2 * room ∧
    window w2 (stream_id s2) = room.
Proof.
  intros Hs Hws Hc Ho Hf1 room Hr Hlen w1 w2. subst w1 w2.
  assert (Hwn : ∀ w s opts, w_heap w !! l = Some s → iv_client s = Some (w_self w) →
    write_closed s = false → window w (stream_id s) = room →
    quic_stream_write_nonblock_m l (VStr str) opts w =
      (Ret room, set_w_heap (<[l := enqueued (ztake room (rs_bytes str))
         (quic_stream_fin_kwarg opts && (room =? zlen (rs_bytes str))) s]> (w_heap w)) w)).
  { intros w0 s0 opts Hs0 Hc0 Ho0 Hw0. rewrite (write_nonblock_eq _ _ _ _ _ Hs0).
    unfold nonblock_offer. rewrite Hc0, decide_True by done. rewrite Hw0.
    rewrite (proj2 (Z.eqb_neq _ _)), (proj2 (Z.eqb_neq room 0)) by lia.
    destruct (Z.leb_spec (zlen (rs_bytes str)) room) as [Hle|Hlt];
      rewrite (enqueue_open _ _ _ _ _ Hs0 Ho0); cbn [rs_bytes].
    - assert (room = zlen (rs_bytes str)) as -> by lia.
      by rewrite ztake_all, Z.eqb_refl, andb_true_r by lia.
    - rewrite zlen_ztake, (proj2 (Z.eqb_neq room _)), andb_false_r by lia. done. }
  rewrite (Hwn w s opts1 Hs Hc Ho eq_refl), Hf1. cbn [andb fst snd].
  set (s1 := enqueued (ztake room (rs_bytes str)) false s).
  pose proof (enqueued_fields (ztake room (rs_bytes str)) false s) as Hf. fold s1 in Hf.
  destruct Hf as (Hse & Hac & Hps & Hfs & Hff & _ & _ & Hrs & Hcl & Hid & _ & Hci & _).
  assert (Ho1 : write_closed s1 = false).
  { unfold write_closed in *. by rewrite Hrs, Hcl, Hfs, orb_false_r. }
  set (w1 := set_w_heap _ w).
  assert (Hs1 : w_heap w1 !! l = Some s1) by (simpl; by rewrite lookup_insert_eq).
  assert (Hr1 : window w1 (stream_id s1) = room) by (unfold window; simpl; by rewrite Hid).
  rewrite (Hwn w1 s1 opts2 Hs1); [|by rewrite Hci|done|done]. cbn [fst snd]. split_and!; [done..|].
  set (fin2 := quic_stream_fin_kwarg opts2 && _).
  destruct (enqueued_fields (ztake room (rs_bytes str)) fin2 s1)
    as (Hse2 & _ & Hps2 & _ & _ & _ & _ & _ & _ & Hid2 & _).
  eexists. split; [cbn [w_heap set_w_heap]; by rewrite lookup_insert_eq|]. split.
  - unfold unsent. rewrite Hse2, Hps2, Hse, Hps, enqueued_chunks. unfold s1.
    rewrite enqueued_chunks. destruct Hws as [? ? Hsent ? ? ? ?]. unfold total in Hsent.
    assert (Hl : zlen (ztake room (rs_bytes str)) = room) by (apply zlen_ztake; lia).
    rewrite !zlen_zdrop; rewrite ?zlen_app, ?Hl; lia.
  - unfold window. simpl. by rewrite Hid2, Hid.
Qed.

(** C16: (functional) [#read_nonblock]: negative and out-of-range lengths are
    refused; data that is buffered is returned, at most the length asked for,
    and exactly that prefix leaves the buffer, even after FIN; only an empty
    buffer gives EOFError after FIN, and before it an exception that
    [rescue IO::WaitReadable] catches.  [eof?] holds exactly in the EOFError
    case. *)
Theorem read_nonblock_result n s :
  let buf := iv_recv_buffer s in
  let r := quic_stream_read_nonblock_m (VInt n) s in
  (¬ (- 2 ^ 63 ≤ n < 2 ^ 63) → r = (Raise (Exn RangeError None), s)) ∧
  (- 2 ^ 63 ≤ n < 0 → r = (Raise (Exn ArgumentError None), s)) ∧
  (0 ≤ n < 2 ^ 63 → buf ≠ [] →
     let k := Z.min n (zlen buf) in
     r = (Ret (ztake k buf), set_iv_recv_buffer (zdrop k buf) s) ∧
     quic_stream_eof_p s = (Ret false, s)) ∧
  (0 ≤ n < 2 ^ 63 → buf = [] → fin_received s = true →
     r = (Raise (Exn EOFError None), s) ∧ quic_stream_eof_p s = (Ret true, s)) ∧
  (0 ≤ n < 2 ^ 63 → buf = [] → fin_received s = false →
     (∃ e, r = (Raise e, s) ∧ rescues [HModule IO_WaitReadable] e = true) ∧
     quic_stream_eof_p s = (Ret false, s)).
Proof.
  intros buf r. subst r. unfold quic_stream_read_nonblock_m, NUM2LONG, num2long_int,
    quic_stream_eof_p, rb_raise. fold buf. run. fold buf.
  destruct ((- 2 ^ 63 <=? n) && (n <? 2 ^ 63)) eqn:Hr.
  - apply andb_true_iff in Hr as [Hr1%Z.leb_le Hr2%Z.ltb_lt].
    destruct (Z.ltb_spec n 0) as [Hn|Hn].
    { split_and!; intros; try lia; done. }
    split_and!; [intros; lia|intros; lia|..].
    + intros _ Hb. apply zlen_pos in Hb. rewrite (proj2 (Z.eqb_neq (zlen buf) 0)) by lia. simpl.
      split; [|done]. destruct (Z.ltb_spec n (zlen buf));
        [rewrite Z.min_l by lia|rewrite Z.min_r by lia]; done.
    + intros _ -> ->. done.
    + intros _ -> ->. simpl. split; [|done]. eexists. split; [reflexivity|by vm_compute].
  - apply andb_false_iff in Hr. rewrite Z.leb_gt, Z.ltb_ge in Hr.
    split_and!; intros; try lia. done.
Qed.

(** C25: (functional) [#close_write] puts the FIN after the bytes queued so far,
    without adding any, and is idempotent: a second call returns nil and
    changes nothing; afterwards no write is accepted. *)
Theorem close_write_idempotent L w l s :
  run L w → w_heap w !! l = Some s → write_closed s = false →
  ∃ s', with_stream l quic_stream_close_write_m w =
      (Ret VNil, set_w_heap (<[l := s']> (w_heap w)) w) ∧
    fin_sent s' = true ∧ unsent s' = unsent s ∧
    let w' := set_w_heap (<[l := s']> (w_heap w)) w in
    with_stream l quic_stream_close_write_m w' = (Ret VNil, w') ∧
    ∀ data fin, with_stream l (quic_stream_enqueue data fin) w' =
      (Raise (Exn rb_eQuicErrorStreamClosed None), w').
Proof.
  intros Hrun Hs Ho. destruct (run_ok _ _ Hrun) as [Hwf _].
  pose proof (wc_streams _ _ Hwf _ _ Hs) as Hws.
  destruct (enqueued_fields [] true s) as (_ & _ & _ & Hfs & _).
  rewrite orb_true_r in Hfs. exists (enqueued [] true s).
  pose proof (enqueued_unsent [] true s Hws) as Hun. rewrite app_nil_r in Hun.
  assert (Hcl : write_closed (enqueued [] true s) = true).
  { unfold write_closed. by rewrite Hfs, orb_true_r. }
  cbv zeta. split_and!; auto.
  - unfold with_stream. rewrite Hs. unfold quic_stream_close_write_m, mbind, act_bind, get.
    assert (Hf : fin_sent s = false) by (apply orb_false_iff in Ho; apply Ho).
    simpl. rewrite Hf. unfold write_closed in Ho. by rewrite enqueue_eq, Ho.
  - unfold with_stream. cbn [w_heap set_w_heap]. rewrite lookup_insert_eq.
    unfold quic_stream_close_write_m, mbind, act_bind, get. rewrite Hfs.
    unfold mret, act_ret, set_w_heap. cbn [w_heap]. by rewrite insert_insert_eq.
  - intros data fin. eapply enqueue_closed; [|exact Hcl]. cbn [w_heap set_w_heap].
    by rewrite lookup_insert_eq.
Qed.

(** The writes on a stream that takes no more. *)
Lemma nonblock_closed w l s str opts :
  w_heap w !! l = Some s → iv_client s = Some (w_self w) → write_closed s = true →
  rs_bytes str = [] ∨ 0 < window w (stream_id s) →
  quic_stream_write_nonblock_m l (VStr str) opts w =
    (Raise (Exn rb_eQuicErrorStreamClosed None), w).
Proof.
  intros Hs Hc Ho Hroom. rewrite (write_nonblock_eq _ _ _ _ _ Hs). unfold nonblock_offer.
  rewrite Hc, decide_True by done.
  destruct (Z.eqb_spec (zlen (rs_bytes str)) 0) as [_|Hn]; [by eapply enqueue_closed|].
  destruct Hroom as [He|Hw]; [by rewrite He in Hn|].
  rewrite (proj2 (Z.eqb_neq (window _ _) 0)) by lia.
  destruct (_ <=? _); by eapply enqueue_closed.
Qed.
Lemma nonblock_full w l s str opts :
  w_heap w !! l = Some s → iv_client s = Some (w_self w) →
  rs_bytes str ≠ [] → window w (stream_id s) = 0 →
  quic_stream_write_nonblock_m l (VStr str) opts w =
    (Raise (Exn rb_eQuicErrorWaitWritable None), w).
Proof.
  intros Hs Hc Hp%zlen_pos Hw. rewrite (write_nonblock_eq _ _ _ _ _ Hs). unfold nonblock_offer.
  rewrite Hc, decide_True by done. rewrite (proj2 (Z.eqb_neq (zlen _) 0)) by lia.
  by rewrite (proj2 (Z.eqb_eq _ _) Hw).
Qed.
Lemma write_closed_fits w l s fuel str opts :
  w_heap w !! l = Some s → iv_client s = Some (w_self w) → write_closed s = true →
  zlen (rs_bytes str) ≤ window w (stream_id s) →
  quic_stream_write_m fuel l (VStr str) opts w =
    (Raise (Exn rb_eQuicErrorStreamClosed None), w).
Proof.
  intros Hs Hc Ho Hfit. rewrite (write_client_eq _ _ _ _ _ _ _ Hs Hc).
  assert (Hgo : (if 0 <? zlen (rs_bytes str)
    then while_ fuel (window_short l (zlen (rs_bytes str))) (pump_once fuel None)
    else mret tt) w = (Ret tt, w)).
  { destruct (0 <? _); [|done]. apply wait_loop_iff. exists 0%nat. split; [lia|].
    by eapply waits_open. }
  unfold mbind, act_bind. rewrite Hgo. by eapply enqueue_closed.
Qed.

(** [#write] never returns a value on a stream that was reset. *)
Lemma write_after_reset w l s :
  wf_world w → w_heap w !! l = Some s → iv_client s = Some (w_self w) → reset s = true →
  ∀ fuel str opts n, (quic_stream_write_m fuel l (VStr str) opts w).1 ≠ Ret n.
Proof.
  intros Hwf Hs Hc Hr fuel str opts n.
  destruct (quic_stream_write_m fuel l (VStr str) opts w) as [o w'] eqn:Hw. simpl. intros ->.
  rewrite (write_client_eq _ _ _ _ _ _ _ Hs Hc) in Hw. apply bind_Ret in Hw as ([] & w1 & Hwait & Henq).
  assert (Htr : ∃ L1, wtrace w L1 w1).
  { destruct (0 <? zlen (rs_bytes str)).
    - eapply traced_while; [apply window_short_traced|apply pump_once_traced|exact Hwait].
    - injection Hwait as <-. exists silent. by apply wtrace_nil. }
  destruct Htr as [L1 (_ & [Hev _] & _)%wtrace_ok]; [|done].
  specialize (Hev l). rewrite Hs in Hev. destruct Hev as (s1 & ls & Hs1 & Htr & _).
  rewrite (enqueue_closed w1 l s1) in Henq; [done|done|].
  unfold write_closed. by rewrite (strace_reset _ _ _ _ _ Htr Hr).
Qed.

(** No write on the stream at [l] succeeds, nor changes anything by itself. *)
Definition writes_refused w (l : loc) (room : Z) : Prop := ∀ str opts,
  let closed {A} : outcome exn A * world C E := (Raise (Exn rb_eQuicErrorStreamClosed None), w) in
  (rs_bytes str = [] ∨ 0 < room → quic_stream_write_nonblock_m l (VStr str) opts w = closed) ∧
  (rs_bytes str ≠ [] → room = 0 → quic_stream_write_nonblock_m l (VStr str) opts w =
     (Raise (Exn rb_eQuicErrorWaitWritable None), w)) ∧
  (∀ fuel, zlen (rs_bytes str) ≤ room → quic_stream_write_m fuel l (VStr str) opts w = closed) ∧
  (∀ fuel n, (quic_stream_write_m fuel l (VStr str) opts w).1 ≠ Ret n).

Lemma reset_refuses_writes w l s :
  wf_world w → w_heap w !! l = Some s → iv_client s = Some (w_self w) → reset s = true →
  writes_refused w l (window w (stream_id s)).
Proof.
  intros Hwf Hs Hc Hr str opts.
  assert (Ho : write_closed s = true) by (unfold write_closed; by rewrite Hr).
  split_and!.
  - by apply nonblock_closed.
  - by apply nonblock_full.
  - intros fuel. by apply (write_closed_fits w l s).
  - intros fuel n. by apply (write_after_reset w l s).
Qed.


(** (error, doc_code_divergence) [#close] after [#reset] raises StreamClosed
    from its first leg, so its second leg, the STOP_SENDING that the comment
    on [#reset] refers to [#close] for, never happens. *)
Theorem close_after_reset_raises w l s :
  w_heap w !! l = Some s → reset s = true → fin_sent s = false →
  quic_stream_close_m l w = (Raise (Exn rb_eQuicErrorStreamClosed None), w).
Proof.
  intros Hs Hr Hf. unfold quic_stream_close_m, with_stream. unfold mbind, act_bind. rewrite Hs.
  unfold quic_stream_close_write_m, mbind, act_bind, get. rewrite Hf.
  rewrite enqueue_eq, Hr. simpl. by rewrite set_heap_id.
Qed.

(** (error, code_bug) On a stream that can take no more writes, whether a
    write says so depends on the window: with room it raises StreamClosed, but
    with none it raises WaitWritable, and [#write] goes on driving the loop,
    although waiting cannot help. *)
Theorem closed_stream_asks_to_wait w l s str opts :
  w_heap w !! l = Some s → iv_client s = Some (w_self w) → write_closed s = true →
  0 < zlen (rs_bytes str) →
  (0 < window w (stream_id s) →
    quic_stream_write_nonblock_m l (VStr str) opts w =
      (Raise (Exn rb_eQuicErrorStreamClosed None), w)) ∧
  (window w (stream_id s) = 0 →
    quic_stream_write_nonblock_m l (VStr str) opts w =
      (Raise (Exn rb_eQuicErrorWaitWritable None), w) ∧
    ∀ fuel, quic_stream_write_m (S fuel) l (VStr str) opts w =
      (pump_once (S fuel) None;; quic_stream_write_wait fuel (S fuel) l str opts) w).
Proof.
  intros Hs Hc Ho Hp. split.
  - intros Hw. apply (nonblock_closed w l s); auto.
  - intros Hw. split; [apply (nonblock_full w l s); [done..| |done]; by intros H; rewrite H in Hp|].
    intros fuel.
    rewrite (write_client_eq _ _ _ _ _ _ _ Hs Hc).
    rewrite (proj2 (Z.ltb_lt _ _) Hp).
    unfold quic_stream_write_wait. simpl while_. unfold mbind at 1 2, act_bind at 1 2.
    unfold window_short, get_stream. unfold mbind at 1 2, act_bind at 1 2. rewrite Hs.
    rewrite Hc, window_left_eq, decide_True by done. unfold mret at 1, act_ret at 1.
    rewrite (proj2 (Z.ltb_lt _ _)) by lia.
    unfold mbind, act_bind. by destruct (pump_once (S fuel) None w) as [[[]|e|] w1].
Qed.

(** C40: (error, doc_code_divergence) RESET_STREAM from the peer ends only the
    peer's sending side, but the callback sets the flag that stands for both:
    no later write on the stream succeeds, exactly as after [#reset], while
    the bytes received before the reset stay in the buffer. *)
Theorem peer_reset_blocks_writes L w l s id final_size code :
  run L w → (id, l) ∈ w_streams w → w_heap w !! l = Some s →
  ∃ s' w', run_callback (CbStreamReset id final_size code) w = (Ret 0, w') ∧
    w_heap w' !! l = Some s' ∧ iv_recv_buffer s' = iv_recv_buffer s ∧
    close_app_error_code s' = code ∧ writes_refused w' l (window w' (stream_id s')).
Proof.
  intros Hrun Hin Hs. destruct (run_ok _ _ Hrun) as [Hwf _].
  pose proof (rb_hash_aref_elem _ _ _ (wc_keys _ _ Hwf) Hin) as Hl.
  destruct (wc_reg _ _ Hwf _ _ Hin) as (s0 & Hs0 & _ & _ & Hc & _).
  assert (s0 = s) as -> by congruence.
  destruct (run_callback (CbStreamReset id final_size code) w) as [o w'] eqn:Hcb.
  destruct (run_callback_ok _ _ (CbStreamReset id final_size code) Hwf I _ _ Hcb)
    as (_ & Hwf' & _ & (Hcn & _) & _).
  revert Hcb. simpl. unfold quic_stream_reset_cb. unfold mbind, act_bind.
  rewrite (lookup_stream_eq (ng_ledger (w_conn w))) by done. rewrite Hl.
  unfold with_stream at 1. rewrite Hs. destruct (mark_reset code s) as [o1 s1] eqn:Hm.
  destruct (mark_reset_spec _ _ _ _ Hm) as (-> & _ & (_ & _ & Hid & _) & _ & Hb & _ & Hr & Hcode & _).
  intros [= <- <-]. exists s1. eexists. split; [reflexivity|]. cbn [w_heap set_w_heap].
  rewrite lookup_insert_eq. split_and!; auto. apply reset_refuses_writes; [|cbn..].
  - unfold wf_world. by rewrite Hcn.
  - by rewrite lookup_insert_eq.
  - by rewrite Hid.
  - done.
Qed.

(** C26: (safety, code_bug) The choice of the stream to send on does not look at
    the reset flag.  So a stream that was reset with bytes or a FIN still
    queued is picked as soon as those registered before it have nothing to
    send.  ngtcp2 answers every attempt to send on it with STREAM_SHUT_WR; then
    [write_pkt] raises StreamClosed, leaves connection, streams and registry
    exactly as they were, and goes on doing so, as does every round of the
    loop: no packet, for any stream, goes out until the application or the
    peer does something else. *)
Theorem reset_stream_wedges_client `{!NgConstOk} L w pre id l post s :
  run L w → w_streams w = pre ++ (id, l) :: post → w_heap w !! l = Some s →
  reset s = true → ¬ nothing_to_send s →
  Forall (λ p, ∀ s', w_heap w !! p.2 = Some s' → nothing_to_send s') pre →
  (∀ flags data ts,
     ngtcp2_conn_writev_stream (w_conn w) flags id data QUIC_WRITE_PKT_BUFLEN ts =
       WritevResult (w_conn w) [] NGTCP2_ERR_STREAM_SHUT_WR (-1) []) →
  let closed := Exn rb_eQuicErrorStreamClosed (Some NGTCP2_ERR_STREAM_SHUT_WR) in
  ∀ w', same_client w w' →
    io_out (quic_client_write_pkt VNil w') = Raise closed ∧
    same_client w (io_world (quic_client_write_pkt VNil w')) ∧
    ∀ fuel t sock, w_sock w' = Some sock →
      (pump_once fuel t w').1 = Raise closed ∧ same_client w (pump_once fuel t w').2.
Proof.
  intros Hrun Hst Hs Hr Hready Hidle Hng closed w' Hsame.
  assert (Hsel : ∃ c, writev_sel w = Some (l, c) ∧ sc_stream_id c = id).
  { destruct (run_ok _ _ Hrun) as [Hwf _]. pose proof (wc_streams _ _ Hwf _ _ Hs) as Hws.
    destruct (choose_send s) as [c|] eqn:Hc; [|by destruct Hready; apply choose_send_None].
    exists c. split.
    - unfold writev_sel, rb_hash_values. rewrite Hst, fmap_app. simpl.
      apply first_sendable_first; [|by rewrite Hs]. apply Forall_fmap.
      eapply Forall_impl; [exact Hidle|]. intros [i l'] Hl'. simpl in *.
      destruct (w_heap w !! l') as [s'|] eqn:Hs'; [|done]. simpl.
      apply choose_send_None; [by eapply wc_streams|by apply Hl'].
    - destruct (choose_send_ok _ _ Hws Hc) as [_ ->].
      destruct (wc_reg _ _ Hwf id l) as (s1 & Hs1 & Hid & _); [rewrite Hst; set_solver|].
      congruence. }
  destruct Hsel as (c & Hsel & Hid). clear Hs Hr Hready Hidle Hst.
  assert (Hrun' : run L w').
  { eapply run_step; [exact Hrun|by apply WOutside|]. intros l'. unfold silent. by rewrite app_nil_r. }
  destruct (run_ok _ _ Hrun') as [Hwf' _]. pose proof Hsame as (Hcn & Hh & _ & _ & Hst & _).
  assert (Hresp : writev_resp w' = WritevResult (w_conn w') [] NGTCP2_ERR_STREAM_SHUT_WR (-1) []).
  { assert (writev_sel w' = Some (l, c)) as Hsel'.
    { unfold writev_sel in *. by rewrite Hh, Hst. }
    unfold writev_resp. rewrite Hsel', Hcn. simpl. rewrite Hid. apply Hng. }
  assert (Hw : same_client w' (after_callbacks w')).
  { unfold after_callbacks, writev_world. rewrite Hresp. simpl.
    destruct (quic_now_eq w') as (now & e' & ->). done. }
  assert (Hio : quic_client_write_pkt VNil w' = IoResult (Raise closed) VNil (after_callbacks w')).
  { rewrite write_pkt_nil_eq by done. cbv zeta. rewrite Hresp. cbn [wv_n].
    destruct shut_wr_class as [Hcls Hrange].
    rewrite (proj2 (Z.ltb_lt _ _)) by lia. by rewrite i32_small, Hcls by lia. }
  assert (Hall : same_client w (after_callbacks w')) by (by eapply same_client_trans).
  rewrite Hio. cbn [io_out io_world]. split_and!; [done..|]. intros fuel t sock Hsk.
  rewrite (pump_once_eq _ _ _ _ Hsk). unfold mbind, act_bind.
  rewrite flush_eq by done. cbv zeta. rewrite Hresp. cbn [wv_n].
  destruct shut_wr_class as [Hcls Hrange].
  rewrite (proj2 (Z.ltb_lt _ _)) by lia. by rewrite i32_small, Hcls by lia.
Qed.
End methods.

(** ** Exceptions *)
Section exceptions.
Context `{NC : NgConst} `{!NgConstOk}.

(** C34: (functional) The exception [quic_raise_ngtcp2_error] raises carries the
    code, is caught by [rescue Quic::Error], and has the class the table gives
    for the code, the codes being distinct in ngtcp2.h; any code outside the
    table gives Quic::Error::Unknown. *)
Theorem error_mapping {S : Type} (rv : Z) (s : S) :
  ∃ e, quic_raise_ngtcp2_error (A := unit) rv s = (Raise e, s) ∧ exn_code e = Some rv ∧
    rescues [HClass rb_eQuicError] e = true ∧
    (∀ cls, (rv, cls) ∈ error_table → exn_class e = cls) ∧
    (rv ∉ error_table.*1 → exn_class e = rb_eQuicErrorUnknown).
Proof.
  eexists. split; [reflexivity|]. split; [done|]. split; [apply ngtcp2_error_class_quic|].
  simpl. split.
  - by apply error_table_class.
  - unfold ngtcp2_error_class. intros Hno. unfold error_table in Hno. simpl in Hno. rewrite !not_elem_of_cons in Hno.
    destruct_and?. by rewrite !(proj2 (Z.eqb_neq _ _)) by done.
Qed.

(** (doc_code_divergence) No error of ngtcp2 is ever reported as
    Quic::Error::StreamReset, the class [Init_quic] defines for it. *)
Theorem stream_reset_never_raised {S : Type} (rv : Z) (s s' : S) e :
  quic_raise_ngtcp2_error (A := unit) rv s = (Raise e, s') →
  exn_class e ≠ rb_eQuicErrorStreamReset.
Proof.
  intros [= <- _]. simpl. unfold ngtcp2_error_class. by repeat case_match.
Qed.
End exceptions.

(** (type) The classes [Init_quic] defines are distinct, with distinct names,
    all under Quic::Error, and thus caught by [rescue => e]; WaitReadable and
    WaitWritable, and no other, are also caught as IO::WaitReadable and
    IO::WaitWritable. *)
Theorem error_hierarchy :
  NoDup (cd_class <$> Init_quic) ∧ NoDup (cd_name <$> Init_quic) ∧
  Forall (λ d, ∀ code, let e := Exn (cd_class d) code in
    rescues [HClass rb_eQuicError] e = true ∧ rescues [HClass StandardError] e = true ∧
    rescues [HModule IO_WaitReadable] e =
      bool_decide (cd_class d = rb_eQuicErrorWaitReadable) ∧
    rescues [HModule IO_WaitWritable] e =
      bool_decide (cd_class d = rb_eQuicErrorWaitWritable)) Init_quic.
Proof.
  split_and!; [by apply (bool_decide_unpack _)..|].
  repeat constructor.
Qed.

(** ** The theorems on concrete clients *)

Lemma write_nonblock_takes_what_fits_witness :
  (quic_stream_write_nonblock_m demo_loc (VStr twenty) (Some [("fin", VBool true)]) demo_stream).1 =
    Ret 10.
Proof.
  refine (f_equal fst (proj2 (write_nonblock_takes_what_fits demo_stream demo_loc
    (demo_obj demo_stream demo_loc) twenty (Some [("fin", VBool true)]) _ _ _) _));
    [vm_compute; reflexivity..|].
  right. vm_compute. reflexivity.
Defined.

Lemma nonblock_writes_overcommit_witness :
  ∃ s2, w_heap (quic_stream_write_nonblock_m demo_loc (VStr twenty) None
      (quic_stream_write_nonblock_m demo_loc (VStr twenty) None demo_stream).2).2 !! demo_loc = Some s2 ∧
    zlen (unsent s2) = 0 + 2 * 10.
Proof.
  destruct (nonblock_writes_overcommit demo_stream demo_loc (demo_obj demo_stream demo_loc) twenty
    None None) as (_ & _ & s2 & Hs2 & Hlen & _).
  - vm_compute. reflexivity.
  - apply (wc_streams _ _ (proj1 (run_ok _ _ demo_stream_run)) demo_loc). vm_compute. reflexivity.
  - vm_compute. reflexivity.
  - vm_compute. reflexivity.
  - reflexivity.
  - vm_compute. reflexivity.
  - vm_compute. discriminate.
  - exists s2. split; [exact Hs2|]. rewrite Hlen. vm_compute. reflexivity.
Defined.

Lemma close_write_idempotent_witness :
  ∃ s', with_stream demo_loc quic_stream_close_write_m demo_stream =
    (Ret VNil, set_w_heap (<[demo_loc := s']> (w_heap demo_stream)) demo_stream) ∧ fin_sent s' = true.
Proof.
  destruct (close_write_idempotent silent demo_stream demo_loc (demo_obj demo_stream demo_loc)
    demo_stream_run) as (s' & H1 & H2 & _); [vm_compute; reflexivity..|].
  exists s'. split; [exact H1|exact H2].
Defined.

(** A stream that is reset with two bytes and the FIN still queued. *)
Definition demo_reset : world lconn lenv := (quic_stream_reset_m demo_loc (VInt 7) demo_written).2.


Lemma close_after_reset_raises_witness :
  quic_stream_close_m demo_loc (quic_stream_reset_m demo_loc (VInt 7) demo_stream).2 =
    (Raise (Exn rb_eQuicErrorStreamClosed None),
     (quic_stream_reset_m demo_loc (VInt 7) demo_stream).2).
Proof.
  apply (close_after_reset_raises _ demo_loc
    (demo_obj (quic_stream_reset_m demo_loc (VInt 7) demo_stream).2 demo_loc));
    vm_compute; reflexivity.
Defined.

(** A peer that grants no window, and a stream that has been ended. *)
Definition blocked_ended : world lconn lenv :=
  (with_stream demo_loc quic_stream_close_write_m
    (quic_client_open_bidi_stream
      (new_client 1%positive (set_lb_window 0 lconn_new) lenv_new)).2).2.

Lemma closed_stream_asks_to_wait_witness :
  quic_stream_write_nonblock_m demo_loc (VStr ab) None blocked_ended =
    (Raise (Exn rb_eQuicErrorWaitWritable None), blocked_ended).
Proof.
  apply (closed_stream_asks_to_wait blocked_ended demo_loc (demo_obj blocked_ended demo_loc) ab None);
    vm_compute; reflexivity.
Defined.

Lemma peer_reset_blocks_writes_witness :
  ∃ s' w', run_callback (CbStreamReset 0 0 7) demo_acked = (Ret 0, w') ∧
    w_heap w' !! demo_loc = Some s' ∧ close_app_error_code s' = 7.
Proof.
  destruct (peer_reset_blocks_writes demo_label demo_acked demo_loc (demo_obj demo_acked demo_loc)
    0 0 7 demo_run) as (s' & w' & H1 & H2 & _ & H3 & _).
  - vm_compute. left.
  - vm_compute. reflexivity.
  - exists s', w'. split; [exact H1|]. split; [exact H2|exact H3].
Defined.

Lemma reset_stream_wedges_client_witness :
  io_out (quic_client_write_pkt VNil demo_reset) =
    Raise (Exn rb_eQuicErrorStreamClosed (Some (-219))) ∧
  (pump_once 5 None demo_reset).1 = Raise (Exn rb_eQuicErrorStreamClosed (Some (-219))).
Proof.
  assert (Hrun : run (λ l, wrote_label demo_loc (bin ["a"; "b"]%byte) true (Ret 2) l) demo_reset).
  { apply (run_step (λ l, wrote_label demo_loc (bin ["a"; "b"]%byte) true (Ret 2) l)
      demo_written silent); [apply demo_written_run|apply WReset|].
    intros l. unfold silent. by rewrite app_nil_r. }
  destruct (reset_stream_wedges_client _ demo_reset [] 0 demo_loc [] (demo_obj demo_reset demo_loc)
    Hrun) with (w' := demo_reset) as (H1 & _ & H2).
  - vm_compute. reflexivity.
  - vm_compute. reflexivity.
  - vm_compute. reflexivity.
  - intros [Hf|[Hu _]]; [vm_compute in Hf|vm_compute in Hu]; discriminate.
  - constructor.
  - intros flags data ts. vm_compute. reflexivity.
  - unfold same_client. split_and!; reflexivity.
  - split; [exact H1|]. apply (H2 5%nat None 9%positive). vm_compute. reflexivity.
Defined.

Lemma error_mapping_witness :
  ∃ e, quic_raise_ngtcp2_error (A := unit) (-224) tt = (Raise e, tt) ∧
    exn_class e = rb_eQuicErrorClosed.
Proof.
  destruct (error_mapping (-224) tt) as (e & H1 & _ & _ & H2 & _).
  exists e. split; [exact H1|]. apply H2. unfold error_table. simpl. set_solver.
Defined.

Lemma stream_reset_never_raised_witness : rb_eQuicErrorClosed ≠ rb_eQuicErrorStreamReset.
Proof.
  apply (stream_reset_never_raised (-224) tt tt (Exn rb_eQuicErrorClosed (Some (-224)))).
  reflexivity.
Defined.
