(* ===== verification/OpenSpec.v ===== *)
(** * Opening a client: arguments, ALPN, settings, resources

    The checks of [quic_client_open], the wire format it gives the TLS library,
    the fields it copies, and the C resources it holds on every way out. *)
From S2P Require Import Prelude Ngtcp2 Errors Ruby Stream Client ClientInv ClientOps StreamIO Pump Open Loopback Reach Runs PacketSpec.

(** ** ALPN *)

(** The decoder of RFC 7301's ProtocolNameList: length-prefixed, non-empty
    names to the end of the input. *)
Fixpoint alpn_parse (fuel : nat) (wire : bytes) : option (list bytes) :=
  match wire with
  | [] => Some []
  | n :: rest =>
    match fuel with
    | O => None
    | S fuel =>
      let len := Z_of_byte n in
      if (len <? 1) || (zlen rest <? len) then None
      else names ← alpn_parse fuel (zdrop len rest); Some (ztake len rest :: names)
    end
  end.

Definition alpn_ok (v : value) : Prop :=
  match v with VStr s => 1 ≤ zlen (rs_bytes s) ≤ 255 | _ => False end.

Lemma Z_of_byte_of_Z n : 0 ≤ n < 256 → Z_of_byte (byte_of_Z n) = n.
Proof.
  intros Hn. unfold Z_of_byte, byte_of_Z. rewrite Z.mod_small by lia.
  destruct (Byte.of_N (Z.to_N n)) as [b|] eqn:Hb.
  - apply Byte.to_of_N in Hb. rewrite Hb. lia.
  - apply Byte.of_N_None_iff in Hb. lia.
Qed.

(** Argument checks raise one of two classes, without a code. *)
Definition arg_error (e : exn) : Prop :=
  ∃ cls, (cls = ArgumentError ∨ cls = TypeError) ∧ e = Exn cls None.
Definition checks {S A} (m : act exn S A) : Prop := ∀ s,
  match (m s).1 with Ret _ => True | Raise e => arg_error e | Diverge => False end.

Lemma checks_bind {S A B} (m : act exn S A) (f : A → act exn S B) :
  checks m → (∀ a, checks (f a)) → checks (m ≫= f).
Proof.
  intros Hm Hf s. specialize (Hm s). run. destruct (m s) as [[a|e|] s']; [apply Hf|done..].
Qed.
Lemma checks_arg {S A} : checks (rb_raise (S := S) (A := A) ArgumentError).
Proof. intros s. exists ArgumentError. auto. Qed.
Lemma checks_require_binary {S} v : checks (S := S) (quic_require_binary v).
Proof.
  intros s. unfold quic_require_binary, check_string, rb_raise, arg_error. run.
  destruct v; simpl; eauto. destruct (bool_decide _); simpl; eauto.
Qed.
Section alpn.
Context {S : Type}.

Lemma alpn_check_spec (entries : list value) (total : Z) (s : S) :
  match alpn_check entries total s with
  | (Ret t, s') => s' = s ∧ Forall alpn_ok entries ∧
      t = total + zlen (alpn_wire (map string_bytes entries))
  | (Raise e, s') => s' = s ∧ arg_error e ∧ ¬ Forall alpn_ok entries
  | (Diverge, _) => False
  end.
Proof.
  revert total. induction entries as [|v entries IH]; intros total.
  { simpl. split_and!; auto. change (zlen (alpn_wire [])) with 0. lia. }
  simpl. unfold check_string, rb_raise, raise. unfold mbind, act_bind.
  assert (Hno : ¬ alpn_ok v → ¬ Forall alpn_ok (v :: entries)).
  { intros Hv Hall. by inversion Hall. }
  destruct v as [| | | |str| |]; simpl;
    try (split_and!; [done|by exists TypeError; auto|apply Hno; simpl; tauto]).
  destruct (Z.ltb_spec (zlen (rs_bytes str)) 1) as [H1|H1]; simpl.
  { split_and!; [done|by exists ArgumentError; auto|]. apply Hno. simpl. lia. }
  destruct (Z.ltb_spec 255 (zlen (rs_bytes str))) as [H2|H2]; simpl.
  { split_and!; [done|by exists ArgumentError; auto|]. apply Hno. simpl. lia. }
  specialize (IH (total + (1 + zlen (rs_bytes str)))).
  destruct (alpn_check entries _ s) as [[t|e|] s'].
  - destruct IH as (-> & Hall & ->). split_and!; [done|by constructor|].
    unfold alpn_wire. simpl. rewrite zlen_cons, zlen_app. lia.
  - destruct IH as (-> & He & Hall). split_and!; auto. intros Hc. by inversion Hc.
  - done.
Qed.

Lemma alpn_parse_wire (names : list bytes) fuel :
  Forall (λ b, 1 ≤ zlen b ≤ 255) names → (length (alpn_wire names) ≤ fuel)%nat →
  alpn_parse fuel (alpn_wire names) = Some names.
Proof.
  revert fuel. induction names as [|b names IH]; intros fuel Hall Hf; [by destruct fuel|].
  apply Forall_cons in Hall as [Hb Hall]. unfold alpn_wire in *. simpl in *.
  destruct fuel as [|fuel]; simpl; [lia|]. rewrite length_app in Hf.
  rewrite Z_of_byte_of_Z by lia. rewrite (proj2 (Z.ltb_ge _ _)) by lia.
  rewrite zlen_app. pose proof (zlen_nonneg (concat (map alpn_entry names))).
  rewrite (proj2 (Z.ltb_ge _ _)) by lia. simpl.
  rewrite zdrop_app_ge, Z.sub_diag, zdrop_0, IH by (auto; lia). simpl.
  rewrite ztake_app_le, ztake_all by lia. done.
Qed.
End alpn.

(** C33: (roundtrip) The ALPN list is refused, before anything is allocated for it,
    exactly when some entry is not a String of 1 to 255 bytes; otherwise the
    wire image fills exactly the [total] bytes the first loop counted and
    decodes, by RFC 7301's rules, to the list that was given. *)
Theorem alpn_roundtrip {S : Type} (entries : list value) (s : S) :
  let wire := alpn_wire (map string_bytes entries) in
  (Forall alpn_ok entries →
    alpn_check entries 0 s = (Ret (zlen wire), s) ∧
    alpn_parse (length wire) wire = Some (map string_bytes entries)) ∧
  (¬ Forall alpn_ok entries → ∃ e, alpn_check entries 0 s = (Raise e, s) ∧ arg_error e).
Proof.
  intros wire. pose proof (alpn_check_spec entries 0 s) as Hc. split.
  - intros Hall. split.
    + destruct (alpn_check entries 0 s) as [[t|e|] s']; [|by destruct Hc as (_ & _ & []) |done].
      destruct Hc as (-> & _ & ->). done.
    + apply alpn_parse_wire; [|done]. clear Hc. induction Hall as [|v l Hv Hall IH]; [constructor|].
      constructor; [|done]. by destruct v.
  - intros Hno. destruct (alpn_check entries 0 s) as [[t|e|] s'];
      [by destruct Hc as (_ & ? & _)|destruct Hc as (-> & ? & _); eauto|done].
Qed.

(** (bounds, doc_code_divergence) The comment that guards the stack
    allocation says [total <= 65536]; nothing bounds the number of entries, and
    [k] names of 255 bytes pass the check with a total of [256 * k]. *)
Theorem alpn_total_unbounded {S : Type} (k : nat) (s : S) :
  let name := VStr (RString (replicate 255 "h"%byte) ASCII_8BIT false false) in
  alpn_check (replicate k name) 0 s = (Ret (256 * Z.of_nat k), s).
Proof.
  intros name. pose proof (alpn_check_spec (replicate k name) 0 s) as Hc.
  assert (Hok : Forall alpn_ok (replicate k name)).
  { apply Forall_replicate. unfold name, alpn_ok, zlen. simpl. lia. }
  destruct (alpn_check _ _ _) as [[t|e|] s']; [|by destruct Hc as (_ & _ & [])|done].
  destruct Hc as (-> & _ & ->). do 2 f_equal. rewrite Z.add_0_l.
  clear. induction k as [|k IH]; [done|].
  change (replicate (Datatypes.S k) name) with (name :: replicate k name).
  change (alpn_wire (map string_bytes (name :: replicate k name))) with
    (alpn_entry (string_bytes name) ++ alpn_wire (map string_bytes (replicate k name))).
  rewrite zlen_app, IH. change (zlen (alpn_entry (string_bytes name))) with 256. lia.
Qed.

(** ** Fields *)

Lemma uint64_field_eq {S : Type} readers name n (s : S) :
  assoc name readers = Some (VInt n) → is_u64 n →
  quic_get_uint64_field (VObj readers) name s = (Ret n, s).
Proof.
  intros Ha Hn. unfold quic_get_uint64_field, rb_funcall. rewrite Ha.
  unfold mbind, act_bind, mret, act_ret. by rewrite NUM2ULL_int.
Qed.

(** (functional) Each transport parameter of the Ruby object reaches the
    field of the same name, unchanged, for all 64-bit unsigned values. *)
Theorem transport_params_copied {S : Type} (a b c d e f g h : Z) (s : S) :
  Forall is_u64 [a; b; c; d; e; f; g; h] →
  quic_fill_transport_params (VObj [
    ("initial_max_stream_data_bidi_local", VInt a);
    ("initial_max_stream_data_bidi_remote", VInt b);
    ("initial_max_stream_data_uni", VInt c);
    ("initial_max_data", VInt d);
    ("initial_max_streams_bidi", VInt e);
    ("initial_max_streams_uni", VInt f);
    ("max_idle_timeout", VInt g);
    ("active_connection_id_limit", VInt h)]) s =
  (Ret {| initial_max_stream_data_bidi_local := a; initial_max_stream_data_bidi_remote := b;
          initial_max_stream_data_uni := c; initial_max_data := d;
          initial_max_streams_bidi := e; initial_max_streams_uni := f;
          max_idle_timeout := g; active_connection_id_limit := h |}, s).
Proof.
  intros Hall. repeat (apply Forall_cons in Hall as [? Hall]).
  unfold quic_fill_transport_params, mbind, act_bind.
  by repeat (erewrite uint64_field_eq; [|reflexivity|done]).
Qed.

(** The symbols of [quic_cc_algo_from_sym]. *)
Definition cc_algos : list (string * ngtcp2_cc_algo) :=
  [("reno", NGTCP2_CC_ALGO_RENO); ("cubic", NGTCP2_CC_ALGO_CUBIC); ("bbr", NGTCP2_CC_ALGO_BBR)].

Lemma cc_algo_eq {S : Type} v (s : S) :
  quic_cc_algo_from_sym v s =
    (match v with
     | VSym sym => match assoc sym cc_algos with
                   | Some algo => Ret algo | None => Raise (Exn ArgumentError None) end
     | _ => Raise (Exn TypeError None)
     end, s).
Proof.
  unfold quic_cc_algo_from_sym, check_symbol, rb_raise, raise. unfold mbind, act_bind, mret, act_ret.
  destruct v as [| | |sym| | |]; try done. unfold cc_algos. cbn [assoc].
  rewrite (String.eqb_sym "reno"), (String.eqb_sym "cubic"), (String.eqb_sym "bbr").
  by destruct (String.eqb sym "reno"), (String.eqb sym "cubic"), (String.eqb sym "bbr").
Qed.

(** C38: (functional) The settings: a known congestion-control symbol selects its
    algorithm, the four durations and windows arrive unchanged, [no_pmtud] by its
    truth value; an unknown symbol is an ArgumentError, a non-symbol a TypeError. *)
Theorem settings_copied {S : Type} (now rtt mw msw ht : Z) (cc pmtud : value) (s : S) :
  Forall is_u64 [rtt; mw; msw; ht] →
  quic_fill_settings now (VObj [
    ("cc_algo", cc); ("initial_rtt", VInt rtt); ("max_window", VInt mw);
    ("max_stream_window", VInt msw); ("handshake_timeout", VInt ht); ("no_pmtud", pmtud)]) s =
  (match cc with
   | VSym sym =>
     match assoc sym cc_algos with
     | Some algo =>
       Ret {| initial_ts := now; cc_algo := algo; initial_rtt := rtt;
              max_window := mw; max_stream_window := msw;
              handshake_timeout := ht; no_pmtud := RTEST pmtud |}
     | None => Raise (Exn ArgumentError None)
     end
   | _ => Raise (Exn TypeError None)
   end, s).
Proof.
  intros Hall. repeat (apply Forall_cons in Hall as [? Hall]).
  unfold quic_fill_settings, mbind, act_bind.
  change (rb_funcall (VObj _) "cc_algo" s) with (@Ret exn _ cc, s). cbv iota beta.
  rewrite cc_algo_eq. destruct cc as [| | |sym| | |]; try done.
  destruct (assoc sym cc_algos); [|done].
  by repeat (erewrite uint64_field_eq; [|reflexivity|done]).
Qed.

(** ** Resources *)
Section resources.
Context {C E : Type} `{NC : NgConst} `{SY : Sys E} `{TL : Tls E C}.
Abbreviation openM := (act exn (open_state E C)).
Implicit Types (s : open_state E C).

(** What the struct holds, in the order of acquisition. *)
Definition held (c : quic_client_t C) : list resource :=
  option_list (RCtx <$> qc_ssl_ctx c) ++ option_list (RSsl <$> qc_ssl c) ++
  match qc_conn c with Some _ => [RConn] | None => [] end.

(** Before the object exists; and while it holds the resources [rs], all it
    ever acquired. *)
Definition unallocated s : Prop := os_client s = None ∧ os_log s = [].
Definition holding (owner : option loc) (conn : option C) (rs : list resource) s : Prop :=
  ∃ c, os_client s = Some c ∧ held c = rs ∧ qc_owner c = owner ∧ qc_conn c = conn ∧
    os_log s = Acquire <$> rs.
Definition good s : Prop := unallocated s ∨ ∃ owner conn rs, holding owner conn rs s.

(** Whatever way [m] ends, the log matches what the struct holds. *)
Definition triple {A} (P : open_state E C → Prop) (m : openM A)
    (Q : A → open_state E C → Prop) : Prop := ∀ s o s',
  P s → m s = (o, s') → match o with Ret a => Q a s' | _ => good s' end.

Lemma triple_bind {A B} P (m : openM A) Q (f : A → openM B) R :
  triple P m Q → (∀ a, triple (Q a) (f a) R) → triple P (m ≫= f) R.
Proof.
  intros Hm Hf s o s' Hp. run. destruct (m s) as [o1 s1] eqn:Hm1.
  specialize (Hm _ _ _ Hp Hm1). destruct o1 as [a|e|].
  - intros Hf1. by eapply Hf.
  - by intros [= <- <-].
  - by intros [= <- <-].
Qed.
Lemma triple_ret {A} P (a : A) : triple P (mret a) (λ b s, b = a ∧ P s).
Proof. by intros s o s' Hp [= <- <-]. Qed.
Lemma triple_post {A} P (m : openM A) (Q R : A → open_state E C → Prop) :
  triple P m Q → (∀ a s, Q a s → R a s) → triple P m R.
Proof. intros Hm HQ s o s' Hp Hr. specialize (Hm _ _ _ Hp Hr). destruct o; auto. Qed.
Lemma triple_raise {A} P e Q : (∀ s, P s → good s) → triple P (raise (A := A) e) Q.
Proof. intros HP s o s' Hp [= <- <-]. auto. Qed.

(** Computations that neither log nor touch the struct. *)
Definition neutral {A} (m : openM A) : Prop := ∀ s,
  os_client (m s).2 = os_client s ∧ os_log (m s).2 = os_log s.

Lemma neutral_bind {A B} (m : openM A) (f : A → openM B) :
  neutral m → (∀ a, neutral (f a)) → neutral (m ≫= f).
Proof.
  intros Hm Hf s. specialize (Hm s). run. destruct (m s) as [[a|e|] s1]; [|done..].
  destruct Hm as [Ha Hb]. cbn [snd] in Ha, Hb. rewrite <- Ha, <- Hb. apply Hf.
Qed.
Lemma neutral_ret {A} (a : A) : neutral (mret a).
Proof. done. Qed.
Lemma neutral_raise {A} e : neutral (raise (A := A) e).
Proof. done. Qed.
Lemma neutral_external {A} (f : E → A * E) : neutral (external f).
Proof. intros s. unfold external. by destruct (f (os_env s)). Qed.
Lemma neutral_pure {A} (m : openM A) : (∀ s, (m s).2 = s) → neutral m.
Proof. intros Hp s. by rewrite Hp. Qed.

Lemma neutral_triple {A} P (m : openM A) :
  (∀ s s', os_client s' = os_client s → os_log s' = os_log s → P s → P s') →
  (∀ s, P s → good s) → neutral m → triple P m (λ _, P).
Proof.
  intros HP Hg Hm s o s' Hp Hr. destruct (Hm s) as [H1 H2]. rewrite Hr in *. simpl in *.
  assert (P s') by by eapply HP. destruct o; auto.
Qed.

Lemma unallocated_ext s s' :
  os_client s' = os_client s → os_log s' = os_log s → unallocated s → unallocated s'.
Proof. unfold unallocated. by intros -> ->. Qed.
Lemma holding_ext owner conn rs s s' :
  os_client s' = os_client s → os_log s' = os_log s → holding owner conn rs s →
  holding owner conn rs s'.
Proof. unfold holding. by intros -> ->. Qed.
Lemma unallocated_good s : unallocated s → good s.
Proof. by left. Qed.
Lemma holding_good owner conn rs s : holding owner conn rs s → good s.
Proof. right. eauto. Qed.

Lemma holding_neutral {A} owner conn rs (m : openM A) :
  neutral m → triple (holding owner conn rs) m (λ _, holding owner conn rs).
Proof. apply neutral_triple; [apply holding_ext|apply holding_good]. Qed.

(** Acquiring a resource: it is logged and stored in the struct at once. *)
Lemma acquire_triple owner conn rs r (f : quic_client_t C → quic_client_t C) owner' conn' rs' :
  (∀ c, held c = rs → qc_owner c = owner → qc_conn c = conn →
     held (f c) = rs' ∧ qc_owner (f c) = owner' ∧ qc_conn (f c) = conn') →
  rs' = rs ++ [r] →
  triple (holding owner conn rs) (log (Acquire r);; set_client f)
    (λ _, holding owner' conn' rs').
Proof.
  intros Hf Hrs s o s' (c & Hc & Hh & Ho & Hn & Hl). run. intros [= <- <-].
  destruct (Hf c Hh Ho Hn) as (? & ? & ?). exists (f c). simpl. rewrite Hc, Hl, Hrs.
  split_and!; try done; [congruence|]. by rewrite fmap_app.
Qed.
Lemma set_client_triple owner conn rs (f : quic_client_t C → quic_client_t C) owner' :
  (∀ c, held (f c) = held c ∧ qc_conn (f c) = qc_conn c ∧
     (qc_owner c = owner → qc_owner (f c) = owner')) →
  triple (holding owner conn rs) (set_client f) (λ _, holding owner' conn rs).
Proof.
  intros Hf s o s' (c & Hc & Hh & Ho & Hn & Hl). run. intros [= <- <-].
  destruct (Hf c) as (? & ? & ?). exists (f c). simpl. rewrite Hc, Hl.
  split_and!; try done; auto; congruence.
Qed.

Lemma neutral_check_args opts : neutral (open_check_args opts).
Proof.
  unfold open_check_args, rb_raise. destruct opts as [kws|]; [|apply neutral_raise].
  destruct (_ || _); [apply neutral_raise|].
  apply neutral_bind; [apply neutral_pure, require_binary_pure|]. intros lo.
  apply neutral_bind; [apply neutral_pure, require_binary_pure|]. intros re.
  apply neutral_bind; [|intros; apply neutral_ret]. apply neutral_pure. intros s.
  unfold check_string, rb_raise. by destruct (kwarg kws "server_name").
Qed.
Lemma checks_check_args opts : checks (open_check_args (E:=E) (C:=C) opts).
Proof.
  unfold open_check_args. destruct opts as [kws|]; [|apply checks_arg].
  destruct (_ || _); [apply checks_arg|].
  do 2 (apply checks_bind; [apply checks_require_binary|intros ?]).
  apply checks_bind; [|by intros ? s]. intros s. unfold check_string, rb_raise, arg_error.
  destruct (kwarg kws "server_name"); simpl; eauto.
Qed.
Lemma check_args_pure opts s : (open_check_args opts s).2 = s.
Proof.
  unfold open_check_args, rb_raise, mbind, act_bind, mret, act_ret, raise.
  destruct opts as [kws|]; [|done]. destruct (_ || _); [done|].
  repeat match goal with
  | |- context [quic_require_binary ?v s] =>
    pose proof (require_binary_pure v s); destruct (quic_require_binary v s) as [[]];
      simpl in *; subst; try done
  end.
  unfold check_string, rb_raise. by destruct (kwarg kws "server_name").
Qed.
Lemma neutral_crypto_init : neutral open_crypto_init.
Proof.
  unfold open_crypto_init, rb_raise. apply neutral_bind; [done|]. intros s0.
  destruct (os_initialized s0); [apply neutral_ret|].
  apply neutral_bind; [apply neutral_external|]. intros rv. by destruct (negb (rv =? 0)).
Qed.
Lemma neutral_alpn ssl st : neutral (open_alpn ssl st).
Proof.
  unfold open_alpn, rb_raise. apply neutral_bind.
  { apply neutral_pure. intros s. unfold rb_funcall, rb_raise.
    destruct st; try done. by destruct (assoc "alpn" readers). }
  intros v. apply neutral_bind.
  { apply neutral_pure. intros s. unfold check_array, rb_raise. by destruct v. }
  intros l. destruct (0 <? zlen l); [|apply neutral_ret]. apply neutral_bind.
  { apply neutral_pure. intros s. pose proof (alpn_check_spec l 0 s) as Hc.
    destruct (alpn_check l 0 s) as [[t|e|] s']; [apply Hc|apply Hc|done]. }
  intros total. apply neutral_bind; [apply neutral_external|]. intros rv.
  by destruct (negb (rv =? 0)).
Qed.
Lemma uint64_field_pure v name s : (quic_get_uint64_field v name s).2 = s.
Proof.
  unfold quic_get_uint64_field, rb_funcall, rb_raise, mbind, act_bind.
  destruct v; try done. destruct (assoc name readers) as [v|]; [|done]. apply NUM2ULL_pure.
Qed.
Lemma neutral_funcall v name : neutral (rb_funcall v name).
Proof.
  apply neutral_pure. intros s. unfold rb_funcall, rb_raise.
  destruct v; try done. by destruct (assoc name readers).
Qed.
Lemma neutral_params v : neutral (quic_fill_transport_params v).
Proof.
  unfold quic_fill_transport_params.
  repeat (apply neutral_bind; [apply neutral_pure; intros s; apply uint64_field_pure|intros ?]).
  apply neutral_ret.
Qed.
Lemma neutral_settings now v : neutral (quic_fill_settings now v).
Proof.
  unfold quic_fill_settings. apply neutral_bind; [apply neutral_funcall|]. intros a.
  apply neutral_bind; [apply neutral_pure; intros s; by rewrite cc_algo_eq|]. intros cc.
  repeat (apply neutral_bind; [apply neutral_pure; intros s; apply uint64_field_pure|intros ?]).
  apply neutral_bind; [apply neutral_funcall|]. intros np. apply neutral_ret.
Qed.
Lemma neutral_now : neutral open_now.
Proof. apply neutral_bind; [apply neutral_external|]. by intros [sec nsec]. Qed.

Lemma acquire_bind {A} owner conn rs r f owner' conn' rs' (m : openM A) R :
  (∀ c, held c = rs → qc_owner c = owner → qc_conn c = conn →
     held (f c) = rs' ∧ qc_owner (f c) = owner' ∧ qc_conn (f c) = conn') →
  rs' = rs ++ [r] → triple (holding owner' conn' rs') m R →
  triple (holding owner conn rs) (log (Acquire r);; set_client f;; m) R.
Proof.
  intros Hf Hrs Hm s o s' Hp Hr.
  eapply (triple_bind _ (log (Acquire r);; set_client f) _ (λ _, m)); [|intros; exact Hm|exact Hp|].
  - by eapply acquire_triple.
  - revert Hr. by run.
Qed.

Lemma triple_ex {A X} (P : X → open_state E C → Prop) (m : openM A) R :
  (∀ x, triple (P x) m R) → triple (λ s, ∃ x, P x s) m R.
Proof. intros Hm s o s' [x Hp]. by eapply Hm. Qed.

Ltac neutral_step := eapply triple_bind; [apply holding_neutral|intros ?].
Ltac bail := apply triple_raise, holding_good.

Lemma open_tls_triple self name :
  triple (holding (Some self) None []) (open_tls name)
    (λ _ s, ∃ ctx ssl, holding (Some self) None [RCtx ctx; RSsl ssl] s).
Proof.
  unfold open_tls, rb_raise. neutral_step; [apply neutral_external|].
  destruct a as [ctx|]; [|bail].
  eapply (acquire_bind _ _ _ _ _ (Some self) None [RCtx ctx]); [|done|].
  { intros c Hh Ho Hn. unfold held in *. simpl in *. rewrite Hn in *.
    by destruct (qc_ssl_ctx c), (qc_ssl c). }
  neutral_step; [apply neutral_external|]. destruct (negb (a =? 0)); [bail|].
  neutral_step; [apply neutral_external|]. destruct a0 as [ssl|]; [|bail].
  eapply (acquire_bind _ _ _ _ _ (Some self) None [RCtx ctx; RSsl ssl]); [|done|].
  { intros c Hh Ho Hn. unfold held in *. simpl in *. rewrite Hn in *.
    destruct (qc_ssl_ctx c), (qc_ssl c); simpl in *; by simplify_eq. }
  neutral_step; [apply neutral_external|].
  eapply triple_post; [apply triple_ret|]. intros b s [_ Hs]. eauto.
Qed.

Lemma open_cids_triple owner conn rs :
  triple (holding owner conn rs) open_cids (λ _, holding owner conn rs).
Proof.
  unfold open_cids, rb_raise. neutral_step; [apply neutral_external|].
  destruct a as [scid|]; [|bail].
  eapply triple_bind; [apply (set_client_triple _ _ _ _ owner); intros c; by split_and!|]. intros [].
  neutral_step; [apply neutral_external|]. destruct a as [dcid|]; [|bail].
  eapply triple_bind; [apply (set_client_triple _ _ _ _ owner); intros c; by split_and!|]. intros [].
  eapply triple_post; [apply triple_ret|]. by intros b s [_ Hs].
Qed.

Lemma quic_client_open_triple self opts :
  triple unallocated (quic_client_open self opts)
    (λ conn s, (∃ ctx ssl, holding (Some self) (Some conn) [RCtx ctx; RSsl ssl; RConn] s) ∧
      ci_streams (os_ivars s) = Some [] ∧ ci_accept_queue (os_ivars s) = Some []).
Proof.
  unfold quic_client_open.
  eapply triple_bind; [apply neutral_triple;
    [apply unallocated_ext|apply unallocated_good|apply neutral_check_args]|]. intros a.
  eapply triple_bind; [apply neutral_triple;
    [apply unallocated_ext|apply unallocated_good|apply neutral_crypto_init]|]. intros [].
  eapply (triple_bind _ _ (λ _, holding None None [])).
  { intros s o s' [Hc Hl] [= <- <-]. eexists. split; [reflexivity|]. by split_and!. }
  intros []. neutral_step; [done|].
  eapply triple_bind; [apply (set_client_triple _ _ _ _ (Some self)); intros c; by split_and!|].
  intros []. eapply triple_bind; [apply open_tls_triple|]. intros ssl0.
  apply triple_ex. intros ctx. apply triple_ex. intros ssl.
  neutral_step; [apply neutral_alpn|].
  eapply triple_bind; [apply open_cids_triple|]. intros cids.
  neutral_step; [apply neutral_now|]. neutral_step; [apply neutral_settings|].
  neutral_step; [apply neutral_params|].
  eapply triple_bind; [apply holding_neutral, neutral_external|]. intros [rv conn].
  destruct (negb (rv =? 0)); [bail|].
  eapply (acquire_bind _ _ _ _ _ (Some self) (Some conn) [RCtx ctx; RSsl ssl; RConn]); [|done|].
  { intros c Hh Ho Hn. unfold held in *. simpl in *. rewrite Hn in *.
    destruct (qc_ssl_ctx c), (qc_ssl c); simpl in *; by simplify_eq. }
  intros s o s' Hs [= <- <-]. split; [|done]. exists ctx, ssl. by eapply holding_ext; [..|exact Hs].
Qed.

Lemma free_releases owner conn rs s :
  holding owner conn rs s →
  os_client (quic_client_free s).2 = None ∧
  os_log (quic_client_free s).2 = (Acquire <$> rs) ++ (Release <$> reverse rs).
Proof.
  intros (c & Hc & Hh & _ & _ & Hl). unfold quic_client_free, log. run. rewrite Hc.
  unfold held in Hh. destruct (qc_conn c), (qc_ssl c), (qc_ssl_ctx c); simpl in *; subst;
    simpl; rewrite Hl, <- ?app_assoc; done.
Qed.

Lemma held_nodup c : NoDup (held c).
Proof.
  unfold held. destruct (qc_ssl_ctx c), (qc_ssl c), (qc_conn c); simpl;
    repeat (constructor; [set_solver|]); constructor.
Qed.

(** C11: (safety) However [Client._open] ends — a client, an argument error, a
    failure of the TLS library, of the random generator or of ngtcp2 — once
    Ruby frees the object every C resource acquired has been released exactly
    once, in the reverse order of acquisition (connection, SSL, SSL_CTX), and
    nothing else has. *)
Theorem open_never_leaks self opts s o s' :
  os_client s = None → os_log s = [] → quic_client_open self opts s = (o, s') →
  ∃ rs, os_log (quic_client_free s').2 = (Acquire <$> rs) ++ (Release <$> reverse rs) ∧
    NoDup rs ∧ os_client (quic_client_free s').2 = None ∧
    ∀ conn, o = Ret conn → ∃ ctx ssl, rs = [RCtx ctx; RSsl ssl; RConn].
Proof.
  intros Hc Hl Hr. pose proof (quic_client_open_triple self opts s o s' (conj Hc Hl) Hr) as Hq.
  assert (Hh : ∀ owner conn rs, holding owner conn rs s' →
    os_log (quic_client_free s').2 = (Acquire <$> rs) ++ (Release <$> reverse rs) ∧
    NoDup rs ∧ os_client (quic_client_free s').2 = None).
  { intros owner conn rs Hh. destruct (free_releases _ _ _ _ Hh) as [H1 H2].
    split_and!; auto. destruct Hh as (c & _ & <- & _). apply held_nodup. }
  assert (Hgood : good s' → ∃ rs,
    os_log (quic_client_free s').2 = (Acquire <$> rs) ++ (Release <$> reverse rs) ∧
    NoDup rs ∧ os_client (quic_client_free s').2 = None).
  { intros [[Hc' Hl']|(owner & conn & rs & Hhold)]; [|exists rs; by eapply Hh].
    exists []. unfold quic_client_free. run. rewrite Hc'. simpl.
    split_and!; auto. constructor. }
  destruct o as [conn|e|].
  - destruct Hq as [(ctx & ssl & Hhold) _]. exists [RCtx ctx; RSsl ssl; RConn].
    destruct (Hh _ _ _ Hhold) as (? & ? & ?). split_and!; auto. eauto.
  - destruct (Hgood Hq) as (rs & ? & ? & ?). exists rs. by split_and!.
  - destruct (Hgood Hq) as (rs & ? & ? & ?). exists rs. by split_and!.
Qed.

(** C12: (refinement) The client [Client._open] returns is the start of a run:
    the struct holds the connection and points back to the object, [@streams]
    and [@accept_queue] exist and are empty, no socket is bound; so every
    theorem about runs applies to it. *)
Theorem open_starts_a_run `{NG : Ngtcp2 C} `{NO : !Ngtcp2Ok C} self opts s conn s' :
  os_client s = None → os_log s = [] → quic_client_open self opts s = (Ret conn, s') →
  ∃ w, opened_world self s' = Some w ∧ w_conn w = conn ∧ run silent w.
Proof.
  intros Hc Hl Hr.
  destruct (quic_client_open_triple self opts s _ s' (conj Hc Hl) Hr)
    as ((ctx & ssl & c & Hcl & _ & Ho & Hn & _) & Hst & Hqu).
  exists (new_client self conn (os_env s')). split_and!; [|done|by apply run_open].
  unfold opened_world. rewrite Hcl. simpl. rewrite Hn, Ho, Hst, Hqu. done.
Qed.

(** (error) [_open] checks its arguments first: unless all five keywords are
    there, the socket addresses are binary Strings and the server name is a
    String, it raises ArgumentError or TypeError and nothing has happened, not
    even the one-time initialisation of the TLS library. *)
Theorem open_checks_arguments self opts s :
  (∃ kws local remote name params settings, opts = Some kws ∧
    kwarg kws "local_sockaddr" = VStr local ∧ rs_enc local = ASCII_8BIT ∧
    kwarg kws "remote_sockaddr" = VStr remote ∧ rs_enc remote = ASCII_8BIT ∧
    kwarg kws "server_name" = VStr name ∧
    kwarg kws "transport_params" = params ∧ params ≠ VNil ∧
    kwarg kws "settings" = settings ∧ settings ≠ VNil) ∨
  (∃ e, quic_client_open self opts s = (Raise e, s) ∧ arg_error e).
Proof.
  unfold quic_client_open. unfold mbind at 1, act_bind at 1.
  destruct (open_check_args opts s) as [o s1] eqn:Ha.
  assert (Hbad : ∀ o1, checks (open_check_args (E:=E) (C:=C) opts) → (o1, s1) = (o, s1) →
    s1 = s ∧ match o1 with Ret _ => True | Raise e => arg_error e | Diverge => False end).
  { intros o1 Hck [= ->]. specialize (Hck s). rewrite Ha in Hck. split; [|done].
    pose proof (check_args_pure opts s) as Hp. by rewrite Ha in Hp. }
  destruct (Hbad o (checks_check_args opts) eq_refl) as [-> Ho].
  destruct o as [a|e|]; [left|right; eauto|done].
  revert Ha. unfold open_check_args, rb_raise. destruct opts as [kws|]; [|done].
  destruct (NIL_P (kwarg kws "local_sockaddr") || _ || _ || _ || _) eqn:Hnil; [done|].
  intros (lo & s2 & (Hlo & Hle & ->)%require_binary_Ret & Ha)%bind_Ret.
  apply bind_Ret in Ha as (re & s2 & (Hre & Hree & ->)%require_binary_Ret & Ha).
  apply bind_Ret in Ha as (name & s2 & (Hname & ->)%check_string_Ret & _).
  rewrite !orb_false_iff in Hnil. destruct_and?.
  exists kws, lo, re, name. eexists _, _. split_and!; try done.
  - intros Hn. by rewrite Hn in *.
  - intros Hn. by rewrite Hn in *.
Qed.
End resources.

(** ** The theorems on concrete openings *)

Definition protocols (names : list bytes) : list value :=
  map (λ b, VStr (RString b UTF_8 false false)) names.

Lemma alpn_roundtrip_witness :
  alpn_check (protocols [["h"; "3"]%byte; ["x"]%byte]) 0 tt = (Ret 5, tt) ∧
  alpn_parse 5 (alpn_wire [["h"; "3"]%byte; ["x"]%byte]) = Some [["h"; "3"]%byte; ["x"]%byte].
Proof.
  destruct (alpn_roundtrip (protocols [["h"; "3"]%byte; ["x"]%byte]) tt) as [H _].
  apply H. repeat constructor; unfold zlen; simpl; lia.
Defined.

(** [Quic::TransportParams.default] *)
Lemma transport_params_copied_witness :
  quic_fill_transport_params transport_params_default tt =
    (Ret (TransportParams 262144 262144 262144 1048576 100 100 30000000000 7), tt).
Proof.
  apply (transport_params_copied 262144 262144 262144 1048576 100 100 30000000000 7 tt).
  repeat constructor; lia.
Defined.

Lemma settings_copied_witness :
  quic_fill_settings 5 (VObj [
    ("cc_algo", VSym "bbr"); ("initial_rtt", VInt 333000000); ("max_window", VInt 0);
    ("max_stream_window", VInt 0); ("handshake_timeout", VInt 10000000000);
    ("no_pmtud", VNil)]) tt =
  (Ret (Settings 5 NGTCP2_CC_ALGO_BBR 333000000 0 0 10000000000 false), tt).
Proof.
  apply (settings_copied 5 333000000 0 0 10000000000 (VSym "bbr") VNil tt).
  repeat constructor; lia.
Defined.

Definition open_kwargs : kwargs := Some [
  ("local_sockaddr", bin ["l"%byte]); ("remote_sockaddr", bin ["r"%byte]);
  ("server_name", bin ["h"%byte]); ("transport_params", transport_params_default);
  ("settings", settings_default)].
Definition open_start (entropy : bool) : open_state lenv lconn :=
  OpenState (LEnv 0 [] [] entropy []) false None no_ivars [].

(** The random generator fails after both TLS objects exist. *)
Lemma open_never_leaks_witness :
  ∃ rs, os_log (quic_client_free (quic_client_open 1%positive open_kwargs (open_start false)).2).2 =
      (Acquire <$> rs) ++ (Release <$> reverse rs) ∧ NoDup rs.
Proof.
  destruct (open_never_leaks 1%positive open_kwargs (open_start false)
    (quic_client_open 1%positive open_kwargs (open_start false)).1
    (quic_client_open 1%positive open_kwargs (open_start false)).2) as (rs & H1 & H2 & _).
  - reflexivity.
  - reflexivity.
  - apply surjective_pairing.
  - exists rs. split; [exact H1|exact H2].
Defined.

Lemma open_starts_a_run_witness :
  ∃ w, opened_world 1%positive (quic_client_open 1%positive open_kwargs (open_start true)).2 = Some w ∧
    w_conn w = lconn_new ∧ run silent w.
Proof.
  apply (open_starts_a_run 1%positive open_kwargs (open_start true) lconn_new);
    [reflexivity|reflexivity|].
  vm_compute. reflexivity.
Defined.
